(** * MC_Random_Walks: the PCG32 generator, its seeding hierarchy and the
      lattice-gas update, embedded from the C sources.

    C's [uint64_t] and [uint32_t] values are integers of [Z] kept in range by
    an explicit reduction wherever the C operation wraps; the generator
    struct is a record; the file-static and global generator objects are
    threaded through the functions as explicit state. *)

From Stdlib Require Import ZArith Lia List Bool QArith Qpower Lqa SpecFloat.
From stdpp Require Import base list.
Import ListNotations.
Local Open Scope Z_scope.

(** ** Machine integers *)

Definition u64 (z : Z) : Z := z mod 2 ^ 64.
Definition u32 (z : Z) : Z := z mod 2 ^ 32.

Definition is_u64 (z : Z) : Prop := 0 <= z < 2 ^ 64.
Definition is_u32 (z : Z) : Prop := 0 <= z < 2 ^ 32.

Definition UINT32_MAX : Z := 4294967295.

(** ** Doubles

    C's [double] is IEEE-754 binary64, here the executable specification of
    the standard library at precision 53 and maximal exponent 1024. *)
Module Double.

Definition prec : Z := 53.
Definition emax : Z := 1024.

(** Conversion of an integer to [double] (round to nearest, ties to even). *)
Definition of_Z (z : Z) : spec_float := binary_normalize prec emax z 0 false.

Definition add : spec_float -> spec_float -> spec_float := SFadd prec emax.
Definition mul : spec_float -> spec_float -> spec_float := SFmul prec emax.
Definition div : spec_float -> spec_float -> spec_float := SFdiv prec emax.

(** The literals of the programs. *)
Definition one : spec_float := of_Z 1.
Definition four : spec_float := of_Z 4.
Definition half : spec_float := S754_finite false 4503599627370496 (-53).
Definition quarter : spec_float := S754_finite false 4503599627370496 (-54).
Definition three_quarters : spec_float := S754_finite false 6755399441055744 (-53).
Definition zero : spec_float := S754_zero false.

(** Conversion to an integer type truncates towards zero; it has no
    defined result for a NaN or an infinity. *)
Definition to_Z (x : spec_float) : option Z :=
  match x with
  | S754_zero _ => Some 0
  | S754_finite s m e =>
      let a := match e with
               | Zneg k => Zpos m / 2 ^ Zpos k
               | _ => Zpos m * 2 ^ e
               end in
      Some (if s then - a else a)
  | _ => None
  end.

(** The rational number a finite double stands for. *)
Definition value (x : spec_float) : Q :=
  match x with
  | S754_finite s m e =>
      (inject_Z (if s then Zneg m else Zpos m) * Qpower 2 e)%Q
  | _ => 0%Q
  end.

Definition is_finite (x : spec_float) : bool :=
  match x with
  | S754_zero _ | S754_finite _ _ _ => true
  | _ => false
  end.

End Double.

(** [include/pcg32.h]: [typedef struct { uint64_t state; uint64_t inc; }]. *)
Record pcg32_random_t : Type := Pcg32State { state : Z; inc : Z }.

Definition wf_rng (rng : pcg32_random_t) : Prop :=
  is_u64 (state rng) /\ is_u64 (inc rng).

Definition set_state (rng : pcg32_random_t) (s : Z) : pcg32_random_t :=
  {| state := s; inc := inc rng |}.
Definition set_inc (rng : pcg32_random_t) (i : Z) : pcg32_random_t :=
  {| state := state rng; inc := i |}.

Definition pcg32_mult : Z := 6364136223846793005.

(** The XSH-RR output expression shared, token for token, by every copy of
    the generator:
    [xorshifted = (uint32_t)(((oldstate >> 18u) ^ oldstate) >> 27u);]
    [rot = (uint32_t)(oldstate >> 59u);]
    [return (xorshifted >> rot) | (xorshifted << ((-rot) & 31));]
    with [-rot] and [<<] taken in 32-bit unsigned arithmetic. *)
Definition xsh_rr (xorshifted rot : Z) : Z :=
  Z.lor (Z.shiftr xorshifted rot)
        (u32 (Z.shiftl xorshifted (Z.land (u32 (- rot)) 31))).

(** ** [03_diffusion_coefficient/src/pcg32.c] *)
Module Pcg32.

Definition pcg32_random_r (rng : pcg32_random_t) : Z * pcg32_random_t :=
  let oldstate := state rng in
  let rng := set_state rng (u64 (oldstate * pcg32_mult + Z.lor (inc rng) 1)) in
  let xorshifted := u32 (Z.shiftr (Z.lxor (Z.shiftr oldstate 18) oldstate) 27) in
  let rot := u32 (Z.shiftr oldstate 59) in
  (xsh_rr xorshifted rot, rng).

Definition pcg32_srandom_r (rng : pcg32_random_t) (initstate initseq : Z)
  : pcg32_random_t :=
  let rng := set_state rng 0 in
  let rng := set_inc rng (Z.lor (u64 (Z.shiftl initseq 1)) 1) in
  let rng := snd (pcg32_random_r rng) in
  let rng := set_state rng (u64 (state rng + initstate)) in
  snd (pcg32_random_r rng).

(** [myrand_init] seeds the global [pcg32_random_state]. *)
Definition myrand_init (g : pcg32_random_t) (initstate initseq : Z)
  : pcg32_random_t :=
  pcg32_srandom_r g initstate initseq.

(** [myrand]:
    [(double) pcg32_random_r(&pcg32_random_state) / ((double)UINT32_MAX + 1.0)]. *)
Definition myrand (g : pcg32_random_t) : spec_float * pcg32_random_t :=
  let '(v, g) := pcg32_random_r g in
  (Double.div (Double.of_Z v)
              (Double.add (Double.of_Z UINT32_MAX) Double.one), g).

End Pcg32.

(** ** [01_1d_random_walk/src/main_dat.c], generator part *)
Module MainDat.

Definition pcg32_random_r (rng : pcg32_random_t) : Z * pcg32_random_t :=
  let oldstate := state rng in
  let rng := set_state rng (u64 (oldstate * pcg32_mult + Z.lor (inc rng) 1)) in
  let xorshifted := u32 (Z.shiftr (Z.lxor (Z.shiftr oldstate 18) oldstate) 27) in
  let rot := u32 (Z.shiftr oldstate 59) in
  (xsh_rr xorshifted rot, rng).

Definition pcg32_srandom_r (rng : pcg32_random_t) (initstate initseq : Z)
  : pcg32_random_t :=
  let rng := set_state rng 0 in
  let rng := set_inc rng (Z.lor (u64 (Z.shiftl initseq 1)) 1) in
  let rng := snd (pcg32_random_r rng) in
  let rng := set_state rng (u64 (state rng + initstate)) in
  snd (pcg32_random_r rng).

Definition myrand_init (g : pcg32_random_t) (initstate initseq : Z)
  : pcg32_random_t :=
  pcg32_srandom_r g initstate initseq.

(** [myrand]:
    [(double) pcg32_random_r(&pcg32_random_state) / ((double)UINT32_MAX + 1.0)]. *)
Definition myrand (g : pcg32_random_t) : spec_float * pcg32_random_t :=
  let '(v, g) := pcg32_random_r g in
  (Double.div (Double.of_Z v)
              (Double.add (Double.of_Z UINT32_MAX) Double.one), g).

End MainDat.

(** ** [02_2d_random_walk/src/2d_ran_walk.c], generator part *)
Module RanWalk2d.

Definition pcg32_random_r (rng : pcg32_random_t) : Z * pcg32_random_t :=
  let oldstate := state rng in
  let rng := set_state rng (u64 (oldstate * pcg32_mult + Z.lor (inc rng) 1)) in
  let xorshifted := u32 (Z.shiftr (Z.lxor (Z.shiftr oldstate 18) oldstate) 27) in
  let rot := u32 (Z.shiftr oldstate 59) in
  (xsh_rr xorshifted rot, rng).

Definition pcg32_srandom_r (rng : pcg32_random_t) (initstate initseq : Z)
  : pcg32_random_t :=
  let rng := set_state rng 0 in
  let rng := set_inc rng (Z.lor (u64 (Z.shiftl initseq 1)) 1) in
  let rng := snd (pcg32_random_r rng) in
  let rng := set_state rng (u64 (state rng + initstate)) in
  snd (pcg32_random_r rng).

Definition myrand_init (g : pcg32_random_t) (initstate initseq : Z)
  : pcg32_random_t :=
  pcg32_srandom_r g initstate initseq.

(** [myrand]:
    [(double) pcg32_random_r(&pcg32_random_state) / ((double)UINT32_MAX + 1.0)]. *)
Definition myrand (g : pcg32_random_t) : spec_float * pcg32_random_t :=
  let '(v, g) := pcg32_random_r g in
  (Double.div (Double.of_Z v)
              (Double.add (Double.of_Z UINT32_MAX) Double.one), g).

End RanWalk2d.

(** ** [01_1d_random_walk/src/seed_generator.c]

    The generator object is the file-static [rng_state]; it is passed in and
    out here.  The state transition adds [rng_state.inc] as it is. *)
Module SeedGen1d.

Definition rng_state_init : pcg32_random_t :=
  {| state := 0x853c49e6748fea9b; inc := 0xda3e39cb94b95bdb |}.

Definition pcg32_random (rng_state : pcg32_random_t) : Z * pcg32_random_t :=
  let oldstate := state rng_state in
  let rng_state := set_state rng_state (u64 (oldstate * pcg32_mult + inc rng_state)) in
  let xorshifted := u32 (Z.shiftr (Z.lxor (Z.shiftr oldstate 18) oldstate) 27) in
  let rot := u32 (Z.shiftr oldstate 59) in
  (xsh_rr xorshifted rot, rng_state).

Definition pcg32_srandom (rng_state : pcg32_random_t) (initstate initseq : Z)
  : pcg32_random_t :=
  let rng_state := set_state rng_state 0 in
  let rng_state := set_inc rng_state (Z.lor (u64 (Z.shiftl initseq 1)) 1) in
  let rng_state := snd (pcg32_random rng_state) in
  let rng_state := set_state rng_state (u64 (state rng_state + initstate)) in
  snd (pcg32_random rng_state).

Definition seedgen_init (rng_state : pcg32_random_t) (st seq : Z)
  : pcg32_random_t :=
  pcg32_srandom rng_state st seq.

Definition generate_seed (rng_state : pcg32_random_t) : Z * pcg32_random_t :=
  pcg32_random rng_state.

(** The values the file-static [rng_state] takes.  Nothing outside the
    file can name it, and [pcg32_random(void)] reads no other generator:
    it holds its initialiser, then what the assignments of the file
    leave in it, which are the first two of [pcg32_srandom]
    ([rng_state.state = 0U; rng_state.inc = (initseq << 1u) | 1u;]), its
    [rng_state.state += initstate;] and the state update of
    [pcg32_random]. *)
Inductive rng_state_holds : pcg32_random_t -> Prop :=
| holds_initialiser : rng_state_holds rng_state_init
| holds_reset (m : pcg32_random_t) (initseq : Z) :
    rng_state_holds m ->
    rng_state_holds (set_inc (set_state m 0) (Z.lor (u64 (Z.shiftl initseq 1)) 1))
| holds_add (m : pcg32_random_t) (initstate : Z) :
    rng_state_holds m ->
    rng_state_holds (set_state m (u64 (state m + initstate)))
| holds_random (m : pcg32_random_t) :
    rng_state_holds m -> rng_state_holds (snd (pcg32_random m)).

End SeedGen1d.

(** ** [02_2d_random_walk/src/seed_generator.c] *)
Module SeedGen2d.

Definition rng_state_init : pcg32_random_t :=
  {| state := 0x853c49e6748fea9b; inc := 0xda3e39cb94b95bdb |}.

Definition pcg32_random (rng_state : pcg32_random_t) : Z * pcg32_random_t :=
  let oldstate := state rng_state in
  let rng_state := set_state rng_state (u64 (oldstate * pcg32_mult + inc rng_state)) in
  let xorshifted := u32 (Z.shiftr (Z.lxor (Z.shiftr oldstate 18) oldstate) 27) in
  let rot := u32 (Z.shiftr oldstate 59) in
  (xsh_rr xorshifted rot, rng_state).

Definition pcg32_srandom (rng_state : pcg32_random_t) (initstate initseq : Z)
  : pcg32_random_t :=
  let rng_state := set_state rng_state 0 in
  let rng_state := set_inc rng_state (Z.lor (u64 (Z.shiftl initseq 1)) 1) in
  let rng_state := snd (pcg32_random rng_state) in
  let rng_state := set_state rng_state (u64 (state rng_state + initstate)) in
  snd (pcg32_random rng_state).

Definition seedgen_init (rng_state : pcg32_random_t) (st seq : Z)
  : pcg32_random_t :=
  pcg32_srandom rng_state st seq.

Definition generate_seed (rng_state : pcg32_random_t) : Z * pcg32_random_t :=
  pcg32_random rng_state.

(** The values the file-static [rng_state] takes.  Nothing outside the
    file can name it, and [pcg32_random(void)] reads no other generator:
    it holds its initialiser, then what the assignments of the file
    leave in it, which are the first two of [pcg32_srandom]
    ([rng_state.state = 0U; rng_state.inc = (initseq << 1u) | 1u;]), its
    [rng_state.state += initstate;] and the state update of
    [pcg32_random]. *)
Inductive rng_state_holds : pcg32_random_t -> Prop :=
| holds_initialiser : rng_state_holds rng_state_init
| holds_reset (m : pcg32_random_t) (initseq : Z) :
    rng_state_holds m ->
    rng_state_holds (set_inc (set_state m 0) (Z.lor (u64 (Z.shiftl initseq 1)) 1))
| holds_add (m : pcg32_random_t) (initstate : Z) :
    rng_state_holds m ->
    rng_state_holds (set_state m (u64 (state m + initstate)))
| holds_random (m : pcg32_random_t) :
    rng_state_holds m -> rng_state_holds (snd (pcg32_random m)).

End SeedGen2d.

(** ** Reference notions the generator is compared with *)

(** The number whose bit [i], for [i < n], is [f i]. *)
Fixpoint of_bits (f : Z -> bool) (n : nat) : Z :=
  match n with
  | O => 0
  | S k => Z.lor (of_bits f k) (if f (Z.of_nat k) then Z.shiftl 1 (Z.of_nat k) else 0)
  end.

(** Plain 32-bit rotate-right: bit [i] of the result is bit
    [(i + r) mod 32] of [x]. *)
Definition ror32 (x r : Z) : Z :=
  of_bits (fun i => Z.testbit x ((i + r) mod 32)) 32.

(** The 32-bit truncation of the xorshifted pre-transition state. *)
Definition truncate32 (z : Z) : Z := z mod 2 ^ 32.

(** The linear-congruential transition as the specification words it. *)
Definition lcg_next (old increment : Z) : Z :=
  (old * 6364136223846793005 + Z.lor increment 1) mod 2 ^ 64.

(** [n] successive draws, keeping the outputs in call order. *)
Fixpoint draws (next : pcg32_random_t -> Z * pcg32_random_t) (n : nat)
  (rng : pcg32_random_t) : list Z * pcg32_random_t :=
  match n with
  | O => ([], rng)
  | S k => let '(v, rng1) := next rng in
           let '(vs, rng2) := draws next k rng1 in
           (v :: vs, rng2)
  end.

(** The zero-initialised global [pcg32_random_state] of the programs. *)
Definition pcg32_random_state_zero : pcg32_random_t := {| state := 0; inc := 0 |}.

(** ** The seed hierarchy

    [seedgen_init(12345ULL, 67890ULL)] at the start of every [main], and the
    pair of [generate_seed()] calls that mints the seeds of a worker. *)

Definition master_seeded : pcg32_random_t :=
  SeedGen1d.seedgen_init SeedGen1d.rng_state_init 12345 67890.

Definition derive_run_seeds (master : pcg32_random_t)
  : (Z * Z) * pcg32_random_t :=
  let '(seed1, master) := SeedGen1d.generate_seed master in
  let '(seed2, master) := SeedGen1d.generate_seed master in
  ((seed1, seed2), master).

(** The master generator before call number [k] (counting from 0), and the
    pair that call returns. *)
Definition master_at (master : pcg32_random_t) (k : N) : pcg32_random_t :=
  N.iter k (fun m => snd (derive_run_seeds m)) master.

Definition run_seeds_at (master : pcg32_random_t) (k : N) : Z * Z :=
  fst (derive_run_seeds (master_at master k)).

(** The congruential step on 64-bit words and on unbounded integers. *)
Definition lcg_u64 (a c s : Z) : Z := u64 (s * a + c).
Definition lcg_exact (a c s : Z) : Z := s * a + c.

(** Coefficients of the [p]-fold composition of [lcg_u64 a c], computed by
    squaring. *)
Fixpoint lcg_jump (a c : Z) (p : positive) : Z * Z :=
  match p with
  | xH => (u64 a, u64 c)
  | xO q => let '(a', c') := lcg_jump a c q in
            (u64 (a' * a'), u64 (c' * a' + c'))
  | xI q => let '(a', c') := lcg_jump a c q in
            (u64 (a' * a' * a), u64 ((c' * a' + c') * a + c))
  end.

(** Exponent of 2 in a positive number. *)
Fixpoint val2 (p : positive) : Z :=
  match p with
  | xO q => 1 + val2 q
  | _ => 0
  end.

(** ** Outcomes of a C computation, and C arrays

    A computation completes, leaves the program through
    [exit(EXIT_FAILURE)], or has no defined behaviour (an access outside an
    array, a conversion without a value). *)
Inductive outcome (A : Type) : Type :=
| Done (a : A)
| Exited
| Undefined.
Arguments Done {A} a.
Arguments Exited {A}.
Arguments Undefined {A}.

#[global] Instance outcome_ret : MRet outcome := fun A a => Done a.
#[global] Instance outcome_bind : MBind outcome :=
  fun A B f m => match m with
                 | Done a => f a
                 | Exited => Exited
                 | Undefined => Undefined
                 end.

(** [a[i]] and [a[i] = v] on an array of [long int]. *)
Definition aget (a : list Z) (i : Z) : outcome Z :=
  if i <? 0 then Undefined
  else match a !! Z.to_nat i with
       | Some v => Done v
       | None => Undefined
       end.

Definition aset (a : list Z) (i v : Z) : outcome (list Z) :=
  if (0 <=? i) && (i <? Z.of_nat (length a))
  then Done (<[Z.to_nat i := v]> a)
  else Undefined.

(** [a[i]] and [a[i] = v] on an array of [double]. *)
Definition dget (a : list spec_float) (i : Z) : outcome spec_float :=
  if i <? 0 then Undefined
  else match a !! Z.to_nat i with
       | Some v => Done v
       | None => Undefined
       end.

Definition dset (a : list spec_float) (i : Z) (v : spec_float)
  : outcome (list spec_float) :=
  if (0 <=? i) && (i <? Z.of_nat (length a))
  then Done (<[Z.to_nat i := v]> a)
  else Undefined.

(** ** What the system decides

    Whether [malloc] returns a block, what a fresh block holds, and whether
    [fopen] opens its file are not up to the program.  The calls are
    numbered in the order a program makes them: [malloc_ok env k bytes]
    tells whether allocation number [k], of [bytes] bytes, returns a block,
    and [fopen_ok env k] whether [fopen] number [k] opens its file; the
    cells of a fresh block hold [fresh_long env] or [fresh_double env]. *)
Record environment : Type := Environment {
  malloc_ok : Z -> Z -> bool;
  fresh_long : Z;
  fresh_double : spec_float;
  fopen_ok : Z -> bool
}.

(** A value of [long int]. *)
Definition fits_long (z : Z) : bool := (- 2 ^ 63 <=? z) && (z <? 2 ^ 63).

(** [for (i = start; ...; ++i)] run for [n] rounds. *)
Fixpoint for_up {S : Type} (n : nat) (i : Z) (body : Z -> S -> outcome S)
  (s : S) : outcome S :=
  match n with
  | O => Done s
  | Datatypes.S k => s' ← body i s; for_up k (i + 1) body s'
  end.

(** Conversions of a double to [long int] and to [int]. *)
Definition to_long (x : spec_float) : outcome Z :=
  match Double.to_Z x with
  | Some z => if (- 2 ^ 63 <=? z) && (z <? 2 ^ 63) then Done z else Undefined
  | None => Undefined
  end.

Definition to_int (x : spec_float) : outcome Z :=
  match Double.to_Z x with
  | Some z => if (- 2 ^ 31 <=? z) && (z <? 2 ^ 31) then Done z else Undefined
  | None => Undefined
  end.

(** [v++] and [v--] on a [long int], in 64-bit two's complement. *)
Definition wrap_long (z : Z) : Z := (z + 2 ^ 63) mod 2 ^ 64 - 2 ^ 63.

(** ** The two generators of a program and the calls made to them

    [master] is the file-static [rng_state] of [seed_generator.c], [worker]
    the global [pcg32_random_state]; [trace] lists, in order, the calls made
    to the seeding interface and to [myrand], and the ends of the rounds of
    a run loop (one round is one simulation run). *)
Inductive event : Type :=
| EvSeedgenInit (st seq : Z)
| EvGenerateSeed (seed : Z)
| EvMyrandInit (initstate initseq : Z)
| EvMyrand (r : spec_float)
| EvRunDone (k : Z).

Record world : Type := World {
  master : pcg32_random_t;
  worker : pcg32_random_t;
  trace : list event
}.

(** [include/seed_generator.h] and the high-level part of [include/pcg32.h],
    as interfaces with one implementation per program. *)
Class SeedGenerator : Type := {
  seedgen_init : pcg32_random_t -> Z -> Z -> pcg32_random_t;
  generate_seed : pcg32_random_t -> Z * pcg32_random_t
}.

Class Worker : Type := {
  myrand_init : pcg32_random_t -> Z -> Z -> pcg32_random_t;
  myrand : pcg32_random_t -> spec_float * pcg32_random_t
}.

Definition seedgen_1d : SeedGenerator :=
  {| seedgen_init := SeedGen1d.seedgen_init;
     generate_seed := SeedGen1d.generate_seed |}.
Definition seedgen_2d : SeedGenerator :=
  {| seedgen_init := SeedGen2d.seedgen_init;
     generate_seed := SeedGen2d.generate_seed |}.
Definition worker_main_dat : Worker :=
  {| myrand_init := MainDat.myrand_init; myrand := MainDat.myrand |}.
Definition worker_2d_ran_walk : Worker :=
  {| myrand_init := RanWalk2d.myrand_init; myrand := RanWalk2d.myrand |}.
Definition worker_pcg32 : Worker :=
  {| myrand_init := Pcg32.myrand_init; myrand := Pcg32.myrand |}.

Section Calls.

Context {SG : SeedGenerator} {WK : Worker}.

Definition call_seedgen_init (st seq : Z) (w : world) : world :=
  {| master := seedgen_init (master w) st seq;
     worker := worker w;
     trace := trace w ++ [EvSeedgenInit st seq] |}.

Definition call_generate_seed (w : world) : Z * world :=
  let '(seed, m) := generate_seed (master w) in
  (seed, {| master := m; worker := worker w;
            trace := trace w ++ [EvGenerateSeed seed] |}).

Definition call_myrand_init (initstate initseq : Z) (w : world) : world :=
  {| master := master w;
     worker := myrand_init (worker w) initstate initseq;
     trace := trace w ++ [EvMyrandInit initstate initseq] |}.

Definition call_myrand (w : world) : spec_float * world :=
  let '(r, g) := myrand (worker w) in
  (r, {| master := master w; worker := g; trace := trace w ++ [EvMyrand r] |}).

Definition mark_run_done (k : Z) (w : world) : world :=
  {| master := master w; worker := worker w;
     trace := trace w ++ [EvRunDone k] |}.

End Calls.

(** The process starts with the static initialiser of [rng_state] and a
    zeroed [pcg32_random_state]. *)
Definition world_at_start : world :=
  {| master := SeedGen1d.rng_state_init;
     worker := pcg32_random_state_zero;
     trace := [] |}.

(** A loop [for (i = start; ...; ++i)] of [n] rounds that cannot fail. *)
Fixpoint repeat_up {S : Type} (n : nat) (i : Z) (body : Z -> S -> S) (s : S) : S :=
  match n with
  | O => s
  | Datatypes.S k => repeat_up k (i + 1) body (body i s)
  end.

(** ** [03_diffusion_coefficient/src/diff_coef.c]: the lattice gas *)
Module DiffCoef.

Definition DIM : Z := 2.
Definition MY_EMPTY : Z := -1.

(** The global arrays, and the lattice side [L]. *)
Record lattice : Type := Lattice {
  L : Z;
  particleOfSite : list Z;
  positionOfParticle : list Z;
  zeroPositionOfParticle : list Z;
  truePositionOfParticle : list Z;
  plusNeighbor : list Z;
  minusNeighbor : list Z
}.

Definition set_particleOfSite (l : lattice) (a : list Z) : lattice :=
  {| L := L l; particleOfSite := a;
     positionOfParticle := positionOfParticle l;
     zeroPositionOfParticle := zeroPositionOfParticle l;
     truePositionOfParticle := truePositionOfParticle l;
     plusNeighbor := plusNeighbor l; minusNeighbor := minusNeighbor l |}.
Definition set_positionOfParticle (l : lattice) (a : list Z) : lattice :=
  {| L := L l; particleOfSite := particleOfSite l;
     positionOfParticle := a;
     zeroPositionOfParticle := zeroPositionOfParticle l;
     truePositionOfParticle := truePositionOfParticle l;
     plusNeighbor := plusNeighbor l; minusNeighbor := minusNeighbor l |}.
Definition set_zeroPositionOfParticle (l : lattice) (a : list Z) : lattice :=
  {| L := L l; particleOfSite := particleOfSite l;
     positionOfParticle := positionOfParticle l;
     zeroPositionOfParticle := a;
     truePositionOfParticle := truePositionOfParticle l;
     plusNeighbor := plusNeighbor l; minusNeighbor := minusNeighbor l |}.
Definition set_truePositionOfParticle (l : lattice) (a : list Z) : lattice :=
  {| L := L l; particleOfSite := particleOfSite l;
     positionOfParticle := positionOfParticle l;
     zeroPositionOfParticle := zeroPositionOfParticle l;
     truePositionOfParticle := a;
     plusNeighbor := plusNeighbor l; minusNeighbor := minusNeighbor l |}.
Definition set_plusNeighbor (l : lattice) (a : list Z) : lattice :=
  {| L := L l; particleOfSite := particleOfSite l;
     positionOfParticle := positionOfParticle l;
     zeroPositionOfParticle := zeroPositionOfParticle l;
     truePositionOfParticle := truePositionOfParticle l;
     plusNeighbor := a; minusNeighbor := minusNeighbor l |}.
Definition set_minusNeighbor (l : lattice) (a : list Z) : lattice :=
  {| L := L l; particleOfSite := particleOfSite l;
     positionOfParticle := positionOfParticle l;
     zeroPositionOfParticle := zeroPositionOfParticle l;
     truePositionOfParticle := truePositionOfParticle l;
     plusNeighbor := plusNeighbor l; minusNeighbor := a |}.

(** The index macros [SITE(x, y)] and [POS(p, mu)] (and its likes). *)
Definition SITE (l : lattice) (x y : Z) : Z := x * L l + y.
Definition POS (p mu : Z) : Z := p * DIM + mu.

(** [mtrxAlloc2d]: [rows * cols] is computed in [long int], the byte
    count in [size_t]; [handleErrAll] leaves the program when [malloc]
    returns [NULL].  The block has room for [bytes / 8] cells. *)
Definition mtrxAlloc2d (env : environment) (k rows cols : Z)
  : outcome (list Z) :=
  if negb (fits_long (rows * cols)) then Undefined
  else
    let bytes := u64 (rows * cols * 8) in
    if malloc_ok env k bytes
    then Done (replicate (Z.to_nat (bytes / 8)) (fresh_long env))
    else Exited.

(** [mtrxLongIntAlloc] and [mtrxDoubleAlloc]:
    [bytes = (size_t)n * sizeof(...)], and the same check. *)
Definition mtrxLongIntAlloc (env : environment) (k n : Z) : outcome (list Z) :=
  let bytes := u64 (u64 n * 8) in
  if malloc_ok env k bytes
  then Done (replicate (Z.to_nat (bytes / 8)) (fresh_long env))
  else Exited.

Definition mtrxDoubleAlloc (env : environment) (k n : Z)
  : outcome (list spec_float) :=
  let bytes := u64 (u64 n * 8) in
  if malloc_ok env k bytes
  then Done (replicate (Z.to_nat (bytes / 8)) (fresh_double env))
  else Exited.

(** [myInit]: the six arrays of the lattice are allocated, in the order
    of the source, and the neighbour tables are filled; the program
    exits when the sweeps are not a multiple of the measurements; then
    the two arrays of measurement sums are allocated and zeroed.  The
    result is the lattice with [averageDeltaR2] and [errorDeltaR2]. *)
Definition myInit (env : environment) (L VOLUME : Z)
  (num_measurements measurement_period num_sweeps : Z)
  : outcome (lattice * (list spec_float * list spec_float)) :=
  site ← mtrxAlloc2d env 0 L L;
  pos ← mtrxAlloc2d env 1 VOLUME DIM;
  zer ← mtrxAlloc2d env 2 VOLUME DIM;
  tru ← mtrxAlloc2d env 3 VOLUME DIM;
  pn ← mtrxLongIntAlloc env 4 L;
  mn ← mtrxLongIntAlloc env 5 L;
  let l := {| L := L;
              particleOfSite := site;
              positionOfParticle := pos;
              zeroPositionOfParticle := zer;
              truePositionOfParticle := tru;
              plusNeighbor := pn;
              minusNeighbor := mn |} in
  l ← for_up (Z.to_nat L) 0
        (fun i l =>
           pn ← aset (plusNeighbor l) i (i + 1);
           mn ← aset (minusNeighbor l) i (i - 1);
           mret (set_minusNeighbor (set_plusNeighbor l pn) mn)) l;
  pn ← aset (plusNeighbor l) (L - 1) 0;
  mn ← aset (minusNeighbor l) 0 (L - 1);
  let l := set_minusNeighbor (set_plusNeighbor l pn) mn in
  if negb (num_measurements * measurement_period =? num_sweeps)
  then Exited
  else
    averageDeltaR2 ← mtrxDoubleAlloc env 6 num_measurements;
    errorDeltaR2 ← mtrxDoubleAlloc env 7 num_measurements;
    sums ← for_up (Z.to_nat num_measurements) 0
             (fun m sums =>
                a ← dset (fst sums) m Double.zero;
                e ← dset (snd sums) m Double.zero;
                mret (a, e))
             (averageDeltaR2, errorDeltaR2);
    mret (l, sums).

Section WithWorker.

(** The lattice code draws from [pcg32.c]'s [myrand]. *)
Local Existing Instance worker_pcg32.
Context {SG : SeedGenerator}.

(** [initLattice]: every site is emptied, then each site receives a
    particle when a fresh draw is below [rho]. *)
Definition initLattice (rho : spec_float) (lw : lattice * world)
  : outcome (Z * (lattice * world)) :=
  let '(l, w) := lw in
  let trueN := 0 in
  l ← for_up (Z.to_nat (L l)) 0
        (fun x l =>
           for_up (Z.to_nat (L l)) 0
             (fun y l =>
                s ← aset (particleOfSite l) (SITE l x y) MY_EMPTY;
                mret (set_particleOfSite l s)) l) l;
  for_up (Z.to_nat (L l)) 0
    (fun x st =>
       for_up (Z.to_nat (L l)) 0
         (fun y st =>
            let '(trueN, (l, w)) := st in
            let '(r, w) := call_myrand w in
            if SFltb r rho then
              let p := trueN in
              s ← aset (particleOfSite l) (SITE l x y) p;
              pos ← aset (positionOfParticle l) (POS p 0) x;
              pos ← aset pos (POS p 1) y;
              zer ← aset (zeroPositionOfParticle l) (POS p 0) x;
              zer ← aset zer (POS p 1) y;
              tru ← aset (truePositionOfParticle l) (POS p 0) x;
              tru ← aset tru (POS p 1) y;
              let l := set_truePositionOfParticle
                         (set_zeroPositionOfParticle
                            (set_positionOfParticle
                               (set_particleOfSite l s) pos) zer) tru in
              mret (trueN + 1, (l, w))
            else mret (trueN, (l, w))) st)
    (trueN, (l, w)).

(** The first [switch (dir)] of [updateLattice]: the site the particle
    at [(x, y)] would hop to. *)
Definition neighbor_site (l : lattice) (dir x y : Z) : outcome (Z * Z) :=
  match dir with
  | 0 => nx ← aget (plusNeighbor l) x; mret (nx, y)
  | 1 => nx ← aget (minusNeighbor l) x; mret (nx, y)
  | 2 => ny ← aget (plusNeighbor l) y; mret (x, ny)
  | 3 => ny ← aget (minusNeighbor l) y; mret (x, ny)
  | _ => mret (x, y)
  end.

(** The second [switch (dir)]: the unwrapped position of particle [p]
    moves by one. *)
Definition shift_true_position (l : lattice) (dir p : Z)
  : outcome (list Z) :=
  match dir with
  | 0 => v ← aget (truePositionOfParticle l) (POS p 0);
         aset (truePositionOfParticle l) (POS p 0) (wrap_long (v + 1))
  | 1 => v ← aget (truePositionOfParticle l) (POS p 0);
         aset (truePositionOfParticle l) (POS p 0) (wrap_long (v - 1))
  | 2 => v ← aget (truePositionOfParticle l) (POS p 1);
         aset (truePositionOfParticle l) (POS p 1) (wrap_long (v + 1))
  | 3 => v ← aget (truePositionOfParticle l) (POS p 1);
         aset (truePositionOfParticle l) (POS p 1) (wrap_long (v - 1))
  | _ => mret (truePositionOfParticle l)
  end.

(** One round of the loop of [updateLattice]. *)
Definition attempt (trueN : Z) (lw : lattice * world)
  : outcome (lattice * world) :=
  let '(l, w) := lw in
  let '(r, w) := call_myrand w in
  p ← to_long (Double.mul r (Double.of_Z trueN));
  x ← aget (positionOfParticle l) (POS p 0);
  y ← aget (positionOfParticle l) (POS p 1);
  let '(r, w) := call_myrand w in
  dir ← to_int (Double.mul Double.four r);
  if (dir <? 0) || (3 <? dir) then Exited
  else
    '(nx, ny) ← neighbor_site l dir x y;
    s ← aget (particleOfSite l) (SITE l nx ny);
    if negb (s =? MY_EMPTY) then mret (l, w)
    else
      site ← aset (particleOfSite l) (SITE l nx ny) p;
      site ← aset site (SITE l x y) MY_EMPTY;
      pos ← aset (positionOfParticle l) (POS p 0) nx;
      pos ← aset pos (POS p 1) ny;
      tru ← shift_true_position l dir p;
      mret (set_truePositionOfParticle
              (set_positionOfParticle (set_particleOfSite l site) pos) tru,
            w).

(** [updateLattice]: one sweep is [trueN] attempts. *)
Definition updateLattice (trueN : Z) (lw : lattice * world)
  : outcome (lattice * world) :=
  for_up (Z.to_nat trueN) 0 (fun _ lw => attempt trueN lw) lw.

(** [main], without the measurements and what is written to the
    output file: [VOLUME = L * L] is computed in [long int]; the seed
    generator and the worker are seeded once; [myInit] sets the memory
    up and the output file is opened, the program exiting when it does
    not open; then every sample refills the lattice and sweeps it
    [num_sweeps] times.  The counters of the second loop of
    [initLattice] are [int]: they stay below 2^31 for a side below
    2^31, and for a larger side the byte count of [particleOfSite]
    has wrapped, so that the first loop, whose counters are
    [long int], has left the array before. *)
Definition main (env : environment) (L : Z) (rho : spec_float)
  (num_sweeps num_samples : Z) (w : world) : outcome (lattice * world) :=
  if negb (fits_long (L * L)) then Undefined
  else
    let VOLUME := L * L in
    let num_measurements := 100 in
    let measurement_period := Z.quot num_sweeps num_measurements in
    let w := call_seedgen_init 12345 67890 w in
    let '(seed1, w) := call_generate_seed w in
    let '(seed2, w) := call_generate_seed w in
    let w := call_myrand_init seed1 seed2 w in
    '(l, _) ← myInit env L VOLUME num_measurements measurement_period num_sweeps;
    if negb (fopen_ok env 0) then Exited
    else
      for_up (Z.to_nat num_samples) 0
        (fun sample lw =>
           '(trueN, lw) ← initLattice rho lw;
           '(l, w) ← for_up (Z.to_nat num_sweeps) 1
                       (fun sweep lw => updateLattice trueN lw) lw;
           mret (l, mark_run_done sample w))
        (l, w).

End WithWorker.

End DiffCoef.

(** ** Auxiliary notions of the proofs *)

(** State of the right-shift of the mantissa [m] after [t] single shifts:
    the shifted-out part is [rem], and the round bit tells whether it is at
    least half a unit. *)
Definition shr_inv (m t : Z) (r : shr_record) : Prop :=
  exists rem,
    0 <= shr_m r /\ m = shr_m r * 2 ^ t + rem /\ 0 <= rem < 2 ^ t /\
    (shr_r r = true -> 2 ^ t <= 2 * rem).

(** The largest relative excess of a rounded double over the exact value. *)
Definition round_up_factor : Q := 1 + (1 # 9007199254740992).

(** ** The lattice consistency predicate *)

(** The count of the debugging block of [updateLattice]: the sites that do
    not hold [MY_EMPTY]. *)
Fixpoint count_occupied (sites : list Z) : Z :=
  match sites with
  | [] => 0
  | v :: rest =>
      (if v =? DiffCoef.MY_EMPTY then 0 else 1) + count_occupied rest
  end.

(** The indices, among the first [n], of the occupied cells. *)
Definition occupied_cells (sites : list Z) (n : nat) : list nat :=
  List.filter
    (fun i => match sites !! i with
              | Some v => negb (v =? DiffCoef.MY_EMPTY)
              | None => false
              end)
    (seq 0 n).

Definition site_of (l : DiffCoef.lattice) (x y : Z) : option Z :=
  DiffCoef.particleOfSite l !! Z.to_nat (DiffCoef.SITE l x y).

Definition pos_of (l : DiffCoef.lattice) (p mu : Z) : option Z :=
  DiffCoef.positionOfParticle l !! Z.to_nat (DiffCoef.POS p mu).

(** The memory [myInit] sets up: an [L] by [L] lattice, [VOLUME * DIM]
    cells for each position array, and the periodic neighbour tables. *)
Definition wf_lattice (l : DiffCoef.lattice) : Prop :=
  0 < DiffCoef.L l /\ DiffCoef.L l * DiffCoef.L l < 2 ^ 63 /\
  length (DiffCoef.particleOfSite l) = Z.to_nat (DiffCoef.L l * DiffCoef.L l) /\
  length (DiffCoef.positionOfParticle l)
  = Z.to_nat (DiffCoef.L l * DiffCoef.L l * DiffCoef.DIM) /\
  length (DiffCoef.zeroPositionOfParticle l)
  = Z.to_nat (DiffCoef.L l * DiffCoef.L l * DiffCoef.DIM) /\
  length (DiffCoef.truePositionOfParticle l)
  = Z.to_nat (DiffCoef.L l * DiffCoef.L l * DiffCoef.DIM) /\
  (forall i, 0 <= i < DiffCoef.L l ->
             DiffCoef.plusNeighbor l !! Z.to_nat i
             = Some (if i =? DiffCoef.L l - 1 then 0 else i + 1)) /\
  (forall i, 0 <= i < DiffCoef.L l ->
             DiffCoef.minusNeighbor l !! Z.to_nat i
             = Some (if i =? 0 then DiffCoef.L l - 1 else i - 1)).

(** Exactly [trueN] sites are occupied; an occupied site [(x, y)] holds a
    particle index [p] of [0 .. trueN - 1] whose recorded position is
    [(x, y)]; no two occupied sites hold the same index. *)
Definition consistent (trueN : Z) (l : DiffCoef.lattice) : Prop :=
  count_occupied (DiffCoef.particleOfSite l) = trueN /\
  (forall x y p,
      0 <= x < DiffCoef.L l -> 0 <= y < DiffCoef.L l ->
      site_of l x y = Some p -> p <> DiffCoef.MY_EMPTY ->
      0 <= p < trueN /\ pos_of l p 0 = Some x /\ pos_of l p 1 = Some y) /\
  (forall x y x' y' p,
      0 <= x < DiffCoef.L l -> 0 <= y < DiffCoef.L l ->
      0 <= x' < DiffCoef.L l -> 0 <= y' < DiffCoef.L l ->
      site_of l x y = Some p -> site_of l x' y' = Some p ->
      p <> DiffCoef.MY_EMPTY -> x = x' /\ y = y').

(** Calls recorded in a trace, by kind. *)
Definition is_draw (e : event) : bool :=
  match e with
  | EvMyrand _ => true
  | _ => false
  end.

Definition is_seeding (e : event) : bool :=
  match e with
  | EvSeedgenInit _ _ | EvGenerateSeed _ | EvMyrandInit _ _ => true
  | _ => false
  end.

(** A lattice state for examples: side 2, one particle on site (0, 0). *)
Definition lattice_example : DiffCoef.lattice :=
  {| DiffCoef.L := 2;
     DiffCoef.particleOfSite := [0; -1; -1; -1];
     DiffCoef.positionOfParticle := [0; 0; 7; 7; 7; 7; 7; 7];
     DiffCoef.zeroPositionOfParticle := [0; 0; 7; 7; 7; 7; 7; 7];
     DiffCoef.truePositionOfParticle := [0; 0; 7; 7; 7; 7; 7; 7];
     DiffCoef.plusNeighbor := [1; 0];
     DiffCoef.minusNeighbor := [1; 0] |}.

(** ** What a run needs from the system *)

(** [myInit] is granted its six arrays for a lattice of side [L]. *)
Definition lattice_blocks_granted (env : environment) (L : Z) : bool :=
  malloc_ok env 0 (8 * (L * L)) &&
  malloc_ok env 1 (16 * (L * L)) &&
  malloc_ok env 2 (16 * (L * L)) &&
  malloc_ok env 3 (16 * (L * L)) &&
  malloc_ok env 4 (8 * L) &&
  malloc_ok env 5 (8 * L).

(** [myInit] is granted its two arrays of [n] measurement sums. *)
Definition sum_blocks_granted (env : environment) (n : Z) : bool :=
  malloc_ok env 6 (8 * n) && malloc_ok env 7 (8 * n).

(** Every run of the 1D walk is granted its array of [iterations] doubles
    and its output file. *)
Definition walk1d_granted (env : environment) (runs iterations : Z) : Prop :=
  forall run, 0 <= run < runs ->
    malloc_ok env run (8 * iterations) = true /\ fopen_ok env run = true.

(** Every run of the 2D walk is granted its data file. *)
Definition walk2d_granted (env : environment) (runs : Z) : Prop :=
  forall run, 0 <= run < runs -> fopen_ok env run = true.

(** A system for examples: blocks below 2^30 bytes are granted, fresh
    cells hold 7 and 0.5, and every file opens. *)
Definition environment_example : environment :=
  {| malloc_ok := fun _ bytes => bytes <? 2 ^ 30;
     fresh_long := 7;
     fresh_double := Double.half;
     fopen_ok := fun _ => true |}.

(** ** [01_1d_random_walk/src/main_dat.c]: the run loop

    [runs] and [iterations] are the values of the two [int] variables of
    [main], which is taken to be called with its two arguments.  The rows
    written to the output file and the part of [main] after the run loop
    are left out; the walk keeps its position and clock. *)
Module Walk1d.

Section Program.

Local Existing Instance seedgen_1d.
Local Existing Instance worker_main_dat.

(** The loop over [i]: [A[i] = myrand(); if (A[i] > 0.5) position += 1;
  else position -= 1; ... time++]. *)
Definition walk (iterations : Z) (w : world) : (Z * Z) * world :=
repeat_up (Z.to_nat iterations) 0
  (fun i st =>
     let '((position, time), w) := st in
     let '(a, w) := call_myrand w in
     let position := if SFltb Double.half a then position + 1 else position - 1 in
     ((position, time + 1), w))
  ((0, 0), w).

(** [int pos_sqr = position * position;], computed for the row of the
  output file: a square outside [int] has no defined behaviour. *)
Definition square (position : Z) : outcome Z :=
if position * position <? 2 ^ 31 then Done (position * position)
else Undefined.

(** The same loop with the square it computes in every round. *)
Definition walk_squared (iterations : Z) (w : world)
: outcome ((Z * Z) * world) :=
for_up (Z.to_nat iterations) 0
  (fun i st =>
     let '((position, time), w) := st in
     let '(a, w) := call_myrand w in
     let position := if SFltb Double.half a then position + 1 else position - 1 in
     pos_sqr ← square position;
     mret ((position, time + 1), w))
  ((0, 0), w).

(** [mtrx_alloc(&A, iterations)]: [iterations] is converted to
  [size_t] and the byte count is computed in [size_t]; the result
  tells whether [malloc] returned a block. *)
Definition mtrx_alloc (env : environment) (k dim : Z) : bool :=
malloc_ok env k (u64 (u64 dim * 8)).

(** The run loop: [main] returns [EXIT_FAILURE] from a run whose array
  is not allocated or whose output file does not open, after that run
  has drawn its seeds.  The block of [A] has room for [iterations]
  cells, so that every [A[i]] of the loop over [i] is within it, and
  [A] is not kept. *)
Definition main (env : environment) (runs iterations : Z) (w : world)
: outcome world :=
let w := call_seedgen_init 12345 67890 w in
for_up (Z.to_nat runs) 0
  (fun run w =>
     let '(seed1, w) := call_generate_seed w in
     let '(seed2, w) := call_generate_seed w in
     let w := call_myrand_init seed1 seed2 w in
     if negb (mtrx_alloc env run iterations) then Exited
     else if negb (fopen_ok env run) then Exited
     else
       '(_, w) ← walk_squared iterations w;
       mret (mark_run_done run w))
  w.

End Program.

End Walk1d.

(** ** [02_2d_random_walk/src/2d_ran_walk.c]: the run loop

    [runs], [iterations] and [t_target] are the numbers read from the
    input, which is taken to hold three numbers.  The trace file of the first run, which is written only when it
    opened and is not counted among the [fopen] calls, the rows of the data
    file and the part of [main] after the run loop are left out. *)
Module Walk2d.

Section Program.

Local Existing Instance seedgen_2d.
Local Existing Instance worker_2d_ran_walk.

(** [struct p { long int x, y; int step, time; }]. *)
Record strc : Type := Strc { x : Z; y : Z; step : Z; time : Z }.

(** The loop over [pos.step]: a draw chooses one of four unit moves. *)
Definition walk (iterations : Z) (w : world) : strc * world :=
repeat_up (Z.to_nat iterations) 0
  (fun i st =>
     let '(pos, w) := st in
     let '(r, w) := call_myrand w in
     let pos :=
       if SFltb r Double.quarter
       then {| x := x pos + 1; y := y pos; step := i; time := time pos |}
       else if SFltb r Double.half
       then {| x := x pos - 1; y := y pos; step := i; time := time pos |}
       else if SFltb r Double.three_quarters
       then {| x := x pos; y := y pos + 1; step := i; time := time pos |}
       else {| x := x pos; y := y pos - 1; step := i; time := time pos |} in
     ({| x := x pos; y := y pos; step := step pos; time := time pos + 1 |}, w))
  ({| x := 0; y := 0; step := 0; time := 0 |}, w).

(** [main] returns [EXIT_FAILURE] on an input that is not positive,
  and from a run whose data file does not open, before that run draws
  its seeds. *)
Definition main (env : environment) (runs iterations t_target : Z) (w : world)
: outcome world :=
let w := call_seedgen_init 12345 67890 w in
if runs <=? 0 then Exited
else if iterations <=? 0 then Exited
else if t_target <=? 0 then Exited
else
  for_up (Z.to_nat runs) 0
    (fun run w =>
       if negb (fopen_ok env run) then Exited
       else
         let '(seed1, w) := call_generate_seed w in
         let '(seed2, w) := call_generate_seed w in
         let w := call_myrand_init seed1 seed2 w in
         let '(_, w) := walk iterations w in
         mret (mark_run_done run w))
    w.

End Program.

End Walk2d.

(** ** Simulation runs in a trace *)

(** The calls of each completed round, in order: [scan] walks the trace,
    closing a window at every end-of-round mark. *)
Fixpoint scan (ws : list (list event)) (cur : list event) (tr : list event)
  : list (list event) * list event :=
  match tr with
  | [] => (ws, cur)
  | EvRunDone _ :: rest => scan (ws ++ [cur]) [] rest
  | e :: rest => scan ws (cur ++ [e]) rest
  end.

Definition windows (tr : list event) : list (list event) := fst (scan [] [] tr).

(** A round whose calls are: two seeds drawn from the master, the worker
    seeded with exactly those, then uniform draws only. *)
Definition seeded_then_draws (round : list event) : bool :=
  match round with
  | EvGenerateSeed a :: EvGenerateSeed b :: EvMyrandInit a' b' :: rest =>
      (a =? a') && (b =? b') && forallb is_draw rest
  | _ => false
  end.

(** The first round may start with the seeding of the master itself. *)
Definition freshly_seeded (round : list event) : bool :=
  match round with
  | EvSeedgenInit _ _ :: rest => seeded_then_draws rest
  | _ => seeded_then_draws round
  end.

Definition is_mark (e : event) : bool :=
  match e with
  | EvRunDone _ => true
  | _ => false
  end.

(** After [n] rounds: [n] windows, each freshly seeded; nothing is pending
    but, before the first round, the seeding of the master. *)
Definition rounds_seeded (n : nat) (w : world) : Prop :=
  exists ws pend,
    scan [] [] (trace w) = (ws, pend) /\ length ws = n /\
    forallb freshly_seeded ws = true /\
    match ws with
    | [] => exists st seq, pend = [EvSeedgenInit st seq]
    | _ => pend = []
    end.

(** A round that only draws: no seed is taken from the master and the
    worker is not seeded. *)
Definition draws_only (round : list event) : bool := forallb is_draw round.

(** After [n] rounds of a program that seeds before its loop: the first
    window is freshly seeded, every later one only draws and is not freshly
    seeded; before the first round the seeding alone is pending. *)
Definition seeded_once (n : nat) (w : world) : Prop :=
  exists ws pend,
    scan [] [] (trace w) = (ws, pend) /\ length ws = n /\
    match ws with
    | [] => freshly_seeded pend = true
    | first :: later =>
        pend = [] /\ freshly_seeded first = true /\
        forallb (fun r => draws_only r && negb (freshly_seeded r)) later = true
    end.

(** Modelled from the spec: [03_diffusion_coefficient/src/seed_generator.c]
    is not among the sources; where a concrete seed generator is needed
    for the lattice program, it is the one of the 1D walk, a PCG32
    instance behind the interface of [include/seed_generator.h]. *)
Definition seedgen_lattice : SeedGenerator := seedgen_1d.

(** ** The walks in terms of the 32-bit draws *)

(** The move of the 1D walk for a draw [v]: [myrand() > 0.5]. *)
Definition step1d (v : Z) : Z := if 2 ^ 31 <? v then 1 else -1.

(** The move of the 2D walk for a draw [v]: the quarter of [0, 1) that
    [myrand()] falls in. *)
Definition step2d (v : Z) : Z * Z :=
  if v <? 2 ^ 30 then (1, 0)
  else if v <? 2 ^ 31 then (-1, 0)
  else if v <? 3 * 2 ^ 30 then (0, 1)
  else (0, -1).

Definition sum_Z (zs : list Z) : Z := fold_right Z.add 0 zs.

(** ** Positions of the particles of the lattice gas *)

(** Right after [initLattice]: the three position arrays agree on every
    particle, on a coordinate of the lattice. *)
Definition fresh_positions (trueN : Z) (l : DiffCoef.lattice) : Prop :=
  forall p mu, 0 <= p < trueN -> 0 <= mu <= 1 ->
    exists v,
      0 <= v < DiffCoef.L l /\
      DiffCoef.positionOfParticle l !! Z.to_nat (DiffCoef.POS p mu) = Some v /\
      DiffCoef.zeroPositionOfParticle l !! Z.to_nat (DiffCoef.POS p mu) = Some v /\
      DiffCoef.truePositionOfParticle l !! Z.to_nat (DiffCoef.POS p mu) = Some v.

(** Later: the unwrapped position of every particle is its lattice
    position up to a multiple of [L], and within [bound] of its initial
    position. *)
Definition tracks (bound trueN : Z) (l : DiffCoef.lattice) : Prop :=
  forall p mu, 0 <= p < trueN -> 0 <= mu <= 1 ->
    exists t z q,
      DiffCoef.truePositionOfParticle l !! Z.to_nat (DiffCoef.POS p mu) = Some t /\
      DiffCoef.zeroPositionOfParticle l !! Z.to_nat (DiffCoef.POS p mu) = Some z /\
      DiffCoef.positionOfParticle l !! Z.to_nat (DiffCoef.POS p mu) = Some q /\
      (t - q) mod DiffCoef.L l = 0 /\
      0 <= z < DiffCoef.L l /\ - bound <= t - z <= bound.

(** A lattice state for examples: side 2, every site occupied. *)
Definition lattice_full_example : DiffCoef.lattice :=
  {| DiffCoef.L := 2;
     DiffCoef.particleOfSite := [0; 1; 2; 3];
     DiffCoef.positionOfParticle := [0; 0; 0; 1; 1; 0; 1; 1];
     DiffCoef.zeroPositionOfParticle := [0; 0; 0; 1; 1; 0; 1; 1];
     DiffCoef.truePositionOfParticle := [0; 0; 0; 1; 1; 0; 1; 1];
     DiffCoef.plusNeighbor := [1; 0];
     DiffCoef.minusNeighbor := [1; 0] |}.

(** ** [03_diffusion_coefficient/src/diff_coef.c]: the measurement *)
Module DiffCoefMeasure.

Import DiffCoef.

(** [a - b] on [long int]: a difference outside the type has no defined
    behaviour. *)
Definition long_sub (a b : Z) : outcome Z :=
  if (- 2 ^ 63 <=? a - b) && (a - b <? 2 ^ 63) then Done (a - b) else Undefined.

(** [measure]: the squares of [TRUE_POS(p, mu) - ZERO_POS(p, mu)] are
    summed over the particles and the two coordinates, and the sum is
    divided by [(double)trueN]. *)
Definition measure (l : lattice) (trueN : Z) : outcome spec_float :=
  sqrDist ← for_up (Z.to_nat trueN) 0
              (fun p sqrDist =>
                 for_up (Z.to_nat DIM) 0
                   (fun mu sqrDist =>
                      t ← aget (truePositionOfParticle l) (POS p mu);
                      z ← aget (zeroPositionOfParticle l) (POS p mu);
                      d ← long_sub t z;
                      let dl := Double.of_Z d in
                      mret (Double.add sqrDist (Double.mul dl dl)))
                   sqrDist)
              Double.zero;
  mret (Double.div sqrDist (Double.of_Z trueN)).

End DiffCoefMeasure.

(** ** [02_2d_random_walk/src/2d_ran_walk.c]: the statistical functions *)
Module RanWalk2dStats.

Definition sub : spec_float -> spec_float -> spec_float :=
  SFsub Double.prec Double.emax.

(** [mean_funct]: [sum_val / ((double)dim)], [dim] a [size_t]. *)
Definition mean_funct (dim : Z) (sum_val : spec_float) : spec_float :=
  Double.div sum_val (Double.of_Z dim).

(** [var_funct]: [arr] is the array behind [*arr], [avg] the function
    behind the pointer, taken to have no effect; [dim - 1] is computed
    in [size_t] and converted to [double] for the division. *)
Definition var_funct (dim : Z) (arr : list spec_float)
  (avg : Z -> list spec_float -> spec_float) : outcome spec_float :=
  let mean := avg dim arr in
  sqrdev ← for_up (Z.to_nat dim) 0
             (fun i sqrdev =>
                v ← dget arr i;
                mret (Double.add sqrdev (Double.mul (sub v mean) (sub v mean))))
             Double.zero;
  mret (Double.div sqrdev (Double.of_Z (u64 (dim - 1)))).

End RanWalk2dStats.

(** ** The calls of the runs of a walk program *)

(** The uniform number [myrand] makes of a 32-bit draw [v]:
    [(double) v / ((double)UINT32_MAX + 1.0)]. *)
Definition uniform_of_draw (v : Z) : spec_float :=
  Double.div (Double.of_Z v) (Double.add (Double.of_Z UINT32_MAX) Double.one).

(** The calls of a run of [iterations] steps that takes the pair [ab]
    from the master: the two seeds are drawn, the worker is seeded with
    them, and the uniform numbers that follow are those of the generator
    [next] seeded by [srandom] with the pair. *)
Definition run_calls (next : pcg32_random_t -> Z * pcg32_random_t)
  (srandom : pcg32_random_t -> Z -> Z -> pcg32_random_t)
  (iterations : Z) (ab : Z * Z) : list event :=
  [EvGenerateSeed (fst ab); EvGenerateSeed (snd ab); EvMyrandInit (fst ab) (snd ab)]
  ++ map (fun v => EvMyrand (uniform_of_draw v))
       (fst (draws next (Z.to_nat iterations)
               (srandom pcg32_random_state_zero (fst ab) (snd ab)))).

(** The calls of round [j]: run [j] takes pair number [j] of the master
    seeded with [(12345, 67890)]; the first round starts with that
    seeding. *)
Definition round_calls (next : pcg32_random_t -> Z * pcg32_random_t)
  (srandom : pcg32_random_t -> Z -> Z -> pcg32_random_t)
  (iterations : Z) (j : nat) : list event :=
  match j with
  | O => [EvSeedgenInit 12345 67890]
  | _ => []
  end ++ run_calls next srandom iterations (run_seeds_at master_seeded (N.of_nat j)).

(** After [k] rounds: the calls of the rounds are those of runs that take,
    in order, the first [k] pairs of the master, which has advanced by as
    many pairs; nothing is pending but, before the first round, the
    seeding of the master. *)
Definition rounds_take_pairs (next : pcg32_random_t -> Z * pcg32_random_t)
  (srandom : pcg32_random_t -> Z -> Z -> pcg32_random_t)
  (iterations : Z) (k : nat) (w : world) : Prop :=
  exists ws pend,
    scan [] [] (trace w) = (ws, pend) /\
    ws = map (round_calls next srandom iterations) (seq 0 k) /\
    master w = master_at master_seeded (N.of_nat k) /\
    match ws with
    | [] => pend = [EvSeedgenInit 12345 67890]
    | _ => pend = []
    end.

(** The lattice after particle [p] has hopped from [(x, y)] to [(nx, ny)],
    as [updateLattice] writes it, its unwrapped positions being [tru]. *)
Definition hopped (l : DiffCoef.lattice) (p x y nx ny : Z) (tru : list Z)
  : DiffCoef.lattice :=
  DiffCoef.set_truePositionOfParticle
    (DiffCoef.set_positionOfParticle
       (DiffCoef.set_particleOfSite l
          (<[Z.to_nat (DiffCoef.SITE l x y) := DiffCoef.MY_EMPTY]>
             (<[Z.to_nat (DiffCoef.SITE l nx ny) := p]> (DiffCoef.particleOfSite l))))
       (<[Z.to_nat (DiffCoef.POS p 1) := ny]>
          (<[Z.to_nat (DiffCoef.POS p 0) := nx]> (DiffCoef.positionOfParticle l)))) tru.

(** ** [03_diffusion_coefficient/src/diff_coef.c]: the debugging check

    [debug_init_lattice], compiled under [MY_DEBUG]: it leaves the program
    at the first check that fails.  [calloc] is taken to succeed. *)
Module DiffCoefDebug.

Import DiffCoef.

(** The body of the loop over the sites that checks the positions:
    [seen[p]++], then the three arrays against the site. *)
Definition check_site (l : lattice) (x y : Z) (seen : list Z)
  : outcome (list Z) :=
  p ← aget (particleOfSite l) (SITE l x y);
  if p =? MY_EMPTY then mret seen
  else
    c ← aget seen p;
    seen ← aset seen p (c + 1);
    px ← aget (positionOfParticle l) (POS p 0);
    if negb (px =? x) then Exited
    else
      py ← aget (positionOfParticle l) (POS p 1);
      if negb (py =? y) then Exited
      else
        zx ← aget (zeroPositionOfParticle l) (POS p 0);
        if negb (zx =? x) then Exited
        else
          zy ← aget (zeroPositionOfParticle l) (POS p 1);
          if negb (zy =? y) then Exited
          else
            tx ← aget (truePositionOfParticle l) (POS p 0);
            if negb (tx =? x) then Exited
            else
              ty ← aget (truePositionOfParticle l) (POS p 1);
              if negb (ty =? y) then Exited
              else mret seen.

Definition debug_init_lattice (l : lattice) (trueN : Z) : outcome unit :=
  let VOLUME := L l * L l in
  if VOLUME <? trueN then Exited
  else
    count_sites ← for_up (Z.to_nat (L l)) 0
                    (fun x count_sites =>
                       for_up (Z.to_nat (L l)) 0
                         (fun y count_sites =>
                            p ← aget (particleOfSite l) (SITE l x y);
                            if p =? MY_EMPTY then mret count_sites
                            else if (p <? 0) || (trueN <=? p) then Exited
                            else mret (count_sites + 1))
                         count_sites)
                    0;
    if negb (count_sites =? trueN) then Exited
    else
      seen ← for_up (Z.to_nat (L l)) 0
               (fun x seen =>
                  for_up (Z.to_nat (L l)) 0
                    (fun y seen => check_site l x y seen) seen)
               (replicate (Z.to_nat trueN) 0);
      for_up (Z.to_nat trueN) 0
        (fun p (u : unit) =>
           c ← aget seen p;
           if negb (c =? 1) then Exited else mret u)
        tt.

End DiffCoefDebug.

(** The number of cells of [xs] that hold [p]. *)
Definition count_holding (p : Z) (xs : list Z) : Z :=
  Z.of_nat (length (List.filter (Z.eqb p) xs)).

(** ** [03_diffusion_coefficient/src/diff_coef.c]: [main] with its
    measurements

    The loop over the samples with the sums [averageDeltaR2] and
    [errorDeltaR2], which [myInit] allocates and zeroes; what is written
    to the output file and the final normalisation are left out. *)
Module DiffCoefMain.

Import DiffCoef DiffCoefMeasure.

Section WithWorker.

Local Existing Instance worker_pcg32.
Context {SG : SeedGenerator}.

(** One round of the loop over the sweeps:
    [updateLattice(trueN); if (sweep > 0 && sweep % measurement_period == 0) ...]. *)
Definition sweep_and_measure (trueN measurement_period sweep : Z)
  (st : (list spec_float * list spec_float) * (lattice * world))
  : outcome ((list spec_float * list spec_float) * (lattice * world)) :=
  let '((averageDeltaR2, errorDeltaR2), lw) := st in
  lw ← updateLattice trueN lw;
  if negb (0 <? sweep) then mret ((averageDeltaR2, errorDeltaR2), lw)
  else if measurement_period =? 0 then Undefined
  else if negb (Z.rem sweep measurement_period =? 0)
  then mret ((averageDeltaR2, errorDeltaR2), lw)
  else
    let m := Z.quot sweep measurement_period - 1 in
    deltaR2 ← measure (fst lw) trueN;
    a ← dget averageDeltaR2 m;
    averageDeltaR2 ← dset averageDeltaR2 m (Double.add a deltaR2);
    e ← dget errorDeltaR2 m;
    errorDeltaR2 ← dset errorDeltaR2 m
                     (Double.add e (Double.mul deltaR2 deltaR2));
    mret ((averageDeltaR2, errorDeltaR2), lw).

Definition main (env : environment) (L : Z) (rho : spec_float)
  (num_sweeps num_samples : Z) (w : world)
  : outcome ((list spec_float * list spec_float) * (lattice * world)) :=
  if negb (fits_long (L * L)) then Undefined
  else
    let VOLUME := L * L in
    let num_measurements := 100 in
    let measurement_period := Z.quot num_sweeps num_measurements in
    let w := call_seedgen_init 12345 67890 w in
    let '(seed1, w) := call_generate_seed w in
    let '(seed2, w) := call_generate_seed w in
    let w := call_myrand_init seed1 seed2 w in
    '(l, sums) ← myInit env L VOLUME num_measurements measurement_period
                   num_sweeps;
    if negb (fopen_ok env 0) then Exited
    else
      for_up (Z.to_nat num_samples) 0
        (fun sample st =>
           let '(sums, lw) := st in
           '(trueN, lw) ← initLattice rho lw;
           for_up (Z.to_nat num_sweeps) 1
             (fun sweep st => sweep_and_measure trueN measurement_period sweep st)
             (sums, lw))
        (sums, (l, w)).

End WithWorker.

End DiffCoefMain.

(** ** [02_2d_random_walk/src/2d_ran_walk.c]: the rows of a run

    The loop over [pos.step] with the row it writes to the data file when
    the clock reaches the target time:
    [if (pos.time == t_target) { ...
       fprintf(fp, ..., run, pos.time, pos.step, pos.x, pos.y); }].
    The rows are collected in a list. *)
Module Walk2dRows.

Section Program.

Local Existing Instance worker_2d_ran_walk.

Definition walk (run iterations t_target : Z) (w : world)
: (Walk2d.strc * list (Z * Z * Z * Z * Z)) * world :=
repeat_up (Z.to_nat iterations) 0
  (fun i st =>
     let '((pos, rows), w) := st in
     let '(r, w) := call_myrand w in
     let pos :=
       if SFltb r Double.quarter
       then {| Walk2d.x := Walk2d.x pos + 1; Walk2d.y := Walk2d.y pos;
               Walk2d.step := i; Walk2d.time := Walk2d.time pos |}
       else if SFltb r Double.half
       then {| Walk2d.x := Walk2d.x pos - 1; Walk2d.y := Walk2d.y pos;
               Walk2d.step := i; Walk2d.time := Walk2d.time pos |}
       else if SFltb r Double.three_quarters
       then {| Walk2d.x := Walk2d.x pos; Walk2d.y := Walk2d.y pos + 1;
               Walk2d.step := i; Walk2d.time := Walk2d.time pos |}
       else {| Walk2d.x := Walk2d.x pos; Walk2d.y := Walk2d.y pos - 1;
               Walk2d.step := i; Walk2d.time := Walk2d.time pos |} in
     let pos := {| Walk2d.x := Walk2d.x pos; Walk2d.y := Walk2d.y pos;
                   Walk2d.step := Walk2d.step pos;
                   Walk2d.time := Walk2d.time pos + 1 |} in
     let rows :=
       if Walk2d.time pos =? t_target
       then rows ++ [(run, Walk2d.time pos, Walk2d.step pos,
                      Walk2d.x pos, Walk2d.y pos)]
       else rows in
     ((pos, rows), w))
  (({| Walk2d.x := 0; Walk2d.y := 0; Walk2d.step := 0; Walk2d.time := 0 |}, []), w).

End Program.

End Walk2dRows.

(** * Properties of the generator core *)

(** Case analysis on every integer comparison of the goal. *)
Ltac ltb_cases :=
  repeat match goal with
         | |- context [?a <? ?b] => destruct (Z.ltb_spec a b)
         | |- context [?a =? ?b] => destruct (Z.eqb_spec a b)
         end.

Lemma testbit_one (i : Z) : Z.testbit 1 i = (i =? 0).
Proof.
  destruct (Z.eqb_spec i 0) as [->|Hne]; [reflexivity|].
  destruct (Z.lt_ge_cases i 0); [apply Z.testbit_neg_r; lia|].
  change 1 with (Z.ones 1). apply Z.ones_spec_high. lia.
Qed.

Lemma testbit_of_bits (f : Z -> bool) (n : nat) (i : Z) :
  0 <= i ->
  Z.testbit (of_bits f n) i = (i <? Z.of_nat n) && f i.
Proof.
  intros Hi. induction n as [|k IH]; cbn [of_bits].
  - rewrite Z.bits_0. ltb_cases; [lia | reflexivity].
  - rewrite Z.lor_spec, IH.
    assert (Z.testbit (if f (Z.of_nat k) then Z.shiftl 1 (Z.of_nat k) else 0) i
            = (i =? Z.of_nat k) && f (Z.of_nat k)) as ->.
    { destruct (f (Z.of_nat k)).
      - rewrite Z.shiftl_spec, testbit_one, andb_true_r by lia.
        ltb_cases; reflexivity || lia.
      - rewrite Z.bits_0, andb_false_r. reflexivity. }
    destruct (Z.eqb_spec i (Z.of_nat k)) as [->|Hne]; ltb_cases; try lia;
      cbn [andb orb]; rewrite ?orb_false_r; reflexivity.
Qed.

Lemma of_bits_range (f : Z -> bool) (n : nat) :
  0 <= of_bits f n < 2 ^ Z.of_nat n.
Proof.
  assert (of_bits f n = of_bits f n mod 2 ^ Z.of_nat n) as ->.
  { apply Z.bits_inj'. intros i Hi.
    destruct (Z.lt_ge_cases i (Z.of_nat n)).
    - rewrite Z.mod_pow2_bits_low by lia. reflexivity.
    - rewrite Z.mod_pow2_bits_high, testbit_of_bits by lia.
      ltb_cases; [lia | reflexivity]. }
  apply Z.mod_pos_bound, Z.pow_pos_nonneg; lia.
Qed.

Lemma testbit_u32_value (x i : Z) : is_u32 x -> 32 <= i -> Z.testbit x i = false.
Proof.
  intros Hx Hi. rewrite <- (Z.mod_small x (2 ^ 32)) by exact Hx.
  apply Z.mod_pow2_bits_high. lia.
Qed.

Lemma testbit_u32 (z i : Z) :
  0 <= i -> Z.testbit (u32 z) i = (i <? 32) && Z.testbit z i.
Proof.
  intros Hi. unfold u32. ltb_cases; cbn [andb].
  - apply Z.mod_pow2_bits_low. lia.
  - apply Z.mod_pow2_bits_high. lia.
Qed.

Lemma neg_rot_amount (rot : Z) :
  0 <= rot < 32 -> Z.land (u32 (- rot)) 31 = (32 - rot) mod 32.
Proof.
  intros Hr. change 31 with (Z.ones 5). rewrite Z.land_ones by lia.
  unfold u32. change (2 ^ 32) with 4294967296. change (2 ^ 5) with 32.
  destruct (Z.eq_dec rot 0) as [->|Hnz]; [reflexivity|].
  rewrite (Z.mod_small (32 - rot)) by lia.
  replace (- rot mod 4294967296) with (4294967296 - rot)
    by (apply Z.mod_unique with (q := -1); lia).
  symmetry. apply Z.mod_unique with (q := 134217727); lia.
Qed.

(** The C rotate expression is the rotate-right, for every amount. *)
Lemma xsh_rr_is_ror32 (x rot : Z) :
  is_u32 x -> 0 <= rot < 32 -> xsh_rr x rot = ror32 x rot.
Proof.
  intros Hx Hr. unfold xsh_rr, ror32. rewrite neg_rot_amount by exact Hr.
  apply Z.bits_inj'. intros i Hi.
  rewrite testbit_of_bits, Z.lor_spec, Z.shiftr_spec, testbit_u32 by exact Hi.
  rewrite Z.shiftl_spec by exact Hi.
  change (Z.of_nat 32) with 32.
  destruct (Z.ltb_spec i 32) as [Hlt|Hge]; cbn [andb].
  - destruct (Z.eq_dec rot 0) as [->|Hnz].
    + change ((32 - 0) mod 32) with 0. rewrite Z.sub_0_r, Z.add_0_r.
      rewrite Z.mod_small by lia. apply orb_diag.
    + rewrite (Z.mod_small (32 - rot)) by lia.
      destruct (Z.lt_ge_cases (i + rot) 32).
      * rewrite (Z.mod_small (i + rot)) by lia.
        rewrite (Z.testbit_neg_r x (i - (32 - rot))) by lia. apply orb_false_r.
      * rewrite (testbit_u32_value x (i + rot)) by (exact Hx || lia).
        replace ((i + rot) mod 32) with (i - (32 - rot)); [reflexivity|].
        apply Z.mod_unique with (q := 1); lia.
  - rewrite orb_false_r. apply testbit_u32_value; [exact Hx | lia].
Qed.

Lemma ror32_range (x rot : Z) : is_u32 (ror32 x rot).
Proof. exact (of_bits_range _ 32). Qed.

Lemma ror32_zero (x : Z) : is_u32 x -> ror32 x 0 = x.
Proof.
  intros Hx. unfold ror32. apply Z.bits_inj'. intros i Hi.
  rewrite testbit_of_bits by exact Hi. change (Z.of_nat 32) with 32.
  rewrite Z.add_0_r.
  destruct (Z.ltb_spec i 32); cbn [andb].
  - rewrite Z.mod_small by lia. reflexivity.
  - symmetry. apply testbit_u32_value; [exact Hx | lia].
Qed.

Lemma u32_range (z : Z) : is_u32 (u32 z).
Proof. apply Z.mod_pos_bound. reflexivity. Qed.

Lemma u64_range (z : Z) : is_u64 (u64 z).
Proof. apply Z.mod_pos_bound. reflexivity. Qed.

Lemma rot_range (old : Z) : is_u64 old -> 0 <= Z.shiftr old 59 < 32.
Proof.
  intros [H0 H1]. rewrite Z.shiftr_div_pow2 by lia. split.
  - apply Z.div_pos; lia.
  - apply Z.div_lt_upper_bound; [lia|]. exact H1.
Qed.

Lemma lor_one_odd (i : Z) : Z.odd i = true -> Z.lor i 1 = i.
Proof.
  intros Ho. apply Z.bits_inj'. intros n Hn.
  rewrite Z.lor_spec, testbit_one.
  destruct (Z.eqb_spec n 0) as [->|]; [|apply orb_false_r].
  rewrite Z.bit0_odd, Ho. reflexivity.
Qed.

Lemma lor_one_arith (i : Z) : Z.lor i 1 = i + 1 - i mod 2.
Proof.
  pose proof (Z.add_lor_land i 1) as H.
  assert (Z.land i 1 = i mod 2) as Hl
    by (change 1 with (Z.ones 1); rewrite Z.land_ones by lia; reflexivity).
  lia.
Qed.

Lemma lor_one_u64 (a : Z) : is_u64 a -> is_u64 (Z.lor a 1).
Proof.
  intros Ha. unfold is_u64 in *. rewrite lor_one_arith.
  change (2 ^ 64) with 18446744073709551616 in *.
  pose proof (Z.mod_pos_bound a 2 ltac:(lia)).
  assert (a mod 2 = 1 \/ a <> 18446744073709551615) as [H1|H1]; [|lia|lia].
  destruct (Z.eq_dec a 18446744073709551615) as [->|]; [left; reflexivity | right; assumption].
Qed.

Lemma lor_one_bit0 (a : Z) : Z.land (Z.lor a 1) 1 = 1.
Proof.
  assert (forall z, Z.land z 1 = z mod 2) as ->
    by (intros z; change 1 with (Z.ones 1); rewrite Z.land_ones by lia; reflexivity).
  rewrite lor_one_arith.
  pose proof (Z.mod_pos_bound a 2 ltac:(lia)).
  symmetry. apply Z.mod_unique with (q := a / 2); [lia|].
  pose proof (Z.div_mod a 2 ltac:(lia)). lia.
Qed.

Lemma lor_one_idem (a : Z) : Z.lor (Z.lor a 1) 1 = Z.lor a 1.
Proof. rewrite <- Z.lor_assoc. reflexivity. Qed.

(** The increment every seeding routine installs. *)
Lemma seed_increment_u64 (initseq : Z) :
  is_u64 (Z.lor (u64 (Z.shiftl initseq 1)) 1).
Proof. apply lor_one_u64, u64_range. Qed.

Lemma output_is_ror32 (old : Z) :
  is_u64 old ->
  xsh_rr (u32 (Z.shiftr (Z.lxor (Z.shiftr old 18) old) 27)) (u32 (Z.shiftr old 59))
  = ror32 (truncate32 (Z.shiftr (Z.lxor (Z.shiftr old 18) old) 27)) (Z.shiftr old 59).
Proof.
  intros Hold. pose proof (rot_range old Hold) as Hr.
  unfold u32 at 2. rewrite (Z.mod_small (Z.shiftr old 59)) by lia.
  apply xsh_rr_is_ror32; [apply u32_range | exact Hr].
Qed.

Lemma xsh_rr_zero (x : Z) : is_u32 x -> xsh_rr x 0 = x.
Proof.
  intros Hx. rewrite xsh_rr_is_ror32 by (exact Hx || lia). apply ror32_zero, Hx.
Qed.

Lemma u64_succ_ne (a : Z) : u64 a <> u64 (a + 1).
Proof.
  unfold u64. change (2 ^ 64) with 18446744073709551616. intros H.
  pose proof (Z.div_mod a 18446744073709551616 ltac:(lia)).
  pose proof (Z.div_mod (a + 1) 18446744073709551616 ltac:(lia)).
  pose proof (Z.mod_pos_bound a 18446744073709551616 ltac:(lia)).
  lia.
Qed.

(** What [rng_state] holds is a pair of 64-bit words with an odd
    increment: the initialiser's is odd, [pcg32_srandom] installs
    [(initseq << 1) | 1], and nothing else writes the field. *)
Lemma rng_state_holds_odd_1d (m : pcg32_random_t) :
  SeedGen1d.rng_state_holds m -> wf_rng m /\ Z.odd (inc m) = true.
Proof.
  induction 1 as [|m initseq _ [[Hs Hi] Ho]|m initstate _ [[Hs Hi] Ho]|m _ [[Hs Hi] Ho]].
  - split; [split; unfold is_u64; cbn; lia | reflexivity].
  - cbn [set_inc set_state state inc]. split; [split|].
    + unfold is_u64; cbn; lia.
    + apply seed_increment_u64.
    + rewrite <- Z.bit0_odd, Z.lor_spec. apply orb_true_r.
  - cbn [set_state state inc]. split; [split|]; [apply u64_range | exact Hi | exact Ho].
  - unfold SeedGen1d.pcg32_random, set_state. cbn [snd state inc].
    split; [split|]; [apply u64_range | exact Hi | exact Ho].
Qed.

Lemma rng_state_holds_odd_2d (m : pcg32_random_t) :
  SeedGen2d.rng_state_holds m -> wf_rng m /\ Z.odd (inc m) = true.
Proof.
  induction 1 as [|m initseq _ [[Hs Hi] Ho]|m initstate _ [[Hs Hi] Ho]|m _ [[Hs Hi] Ho]].
  - split; [split; unfold is_u64; cbn; lia | reflexivity].
  - cbn [set_inc set_state state inc]. split; [split|].
    + unfold is_u64; cbn; lia.
    + apply seed_increment_u64.
    + rewrite <- Z.bit0_odd, Z.lor_spec. apply orb_true_r.
  - cbn [set_state state inc]. split; [split|]; [apply u64_range | exact Hi | exact Ho].
  - unfold SeedGen2d.pcg32_random, set_state. cbn [snd state inc].
    split; [split|]; [apply u64_range | exact Hi | exact Ho].
Qed.

(** A seeding leaves in [rng_state] a value it holds. *)
Lemma srandom_holds_1d (m : pcg32_random_t) (initstate initseq : Z) :
  SeedGen1d.rng_state_holds m ->
  SeedGen1d.rng_state_holds (SeedGen1d.pcg32_srandom m initstate initseq).
Proof.
  intros Hm. unfold SeedGen1d.pcg32_srandom.
  apply SeedGen1d.holds_random, SeedGen1d.holds_add, SeedGen1d.holds_random,
    SeedGen1d.holds_reset, Hm.
Qed.

Lemma srandom_holds_2d (m : pcg32_random_t) (initstate initseq : Z) :
  SeedGen2d.rng_state_holds m ->
  SeedGen2d.rng_state_holds (SeedGen2d.pcg32_srandom m initstate initseq).
Proof.
  intros Hm. unfold SeedGen2d.pcg32_srandom.
  apply SeedGen2d.holds_random, SeedGen2d.holds_add, SeedGen2d.holds_random,
    SeedGen2d.holds_reset, Hm.
Qed.

(** The successor state of the seed generators on an odd increment. *)
Lemma pcg32_random_next (m : pcg32_random_t) :
  Z.odd (inc m) = true ->
  u64 (state m * pcg32_mult + inc m) = lcg_next (state m) (inc m).
Proof. intros Ho. unfold lcg_next. rewrite (lor_one_odd _ Ho). reflexivity. Qed.

(** C1: for every generator state, a call to the generation routine sets
    the state to [old * 6364136223846793005 + (inc | 1)] modulo 2^64, leaves
    the increment alone and returns the 32-bit truncation of
    [((old >> 18) ^ old) >> 27] rotated right by [old >> 59]: so do the
    three copies of [pcg32_random_r] on every generator [rng] passed to
    them, and the two copies of [pcg32_random] on every value [m1], [m2]
    their file-static [rng_state] holds.  The rotation amount is below 32;
    the C rotate expression equals the plain rotate-right for every amount
    in [0, 31], and is the identity at 0. *)
Theorem next_u32_transition_and_output (rng m1 m2 : pcg32_random_t) (x rot : Z) :
  wf_rng rng ->
  SeedGen1d.rng_state_holds m1 -> SeedGen2d.rng_state_holds m2 ->
  is_u32 x -> 0 <= rot < 32 ->
  let out := fun g : pcg32_random_t =>
    ror32 (truncate32 (Z.shiftr (Z.lxor (Z.shiftr (state g) 18) (state g)) 27))
          (Z.shiftr (state g) 59) in
  let next := fun g : pcg32_random_t =>
    {| state := lcg_next (state g) (inc g); inc := inc g |} in
  Pcg32.pcg32_random_r rng = (out rng, next rng) /\
  MainDat.pcg32_random_r rng = (out rng, next rng) /\
  RanWalk2d.pcg32_random_r rng = (out rng, next rng) /\
  SeedGen1d.pcg32_random m1 = (out m1, next m1) /\
  SeedGen2d.pcg32_random m2 = (out m2, next m2) /\
  0 <= Z.shiftr (state rng) 59 < 32 /\
  0 <= Z.shiftr (state m1) 59 < 32 /\
  0 <= Z.shiftr (state m2) 59 < 32 /\
  xsh_rr x rot = ror32 x rot /\
  xsh_rr x 0 = x.
Proof.
  intros [Hs Hi] H1 H2 Hx Hr out next.
  destruct (rng_state_holds_odd_1d m1 H1) as [[Hs1 _] Ho1].
  destruct (rng_state_holds_odd_2d m2 H2) as [[Hs2 _] Ho2].
  assert (forall g, is_u64 (state g) ->
            Pcg32.pcg32_random_r g = (out g, next g)) as Hworker.
  { intros g Hg. unfold Pcg32.pcg32_random_r, set_state. cbv zeta.
    rewrite (output_is_ror32 (state g) Hg). reflexivity. }
  assert (forall g, is_u64 (state g) -> Z.odd (inc g) = true ->
            SeedGen1d.pcg32_random g = (out g, next g)) as Hmaster.
  { intros g Hg Ho. unfold SeedGen1d.pcg32_random, set_state. cbv zeta.
    rewrite (output_is_ror32 (state g) Hg), (pcg32_random_next g Ho). reflexivity. }
  split; [apply Hworker, Hs|]. split; [apply Hworker, Hs|]. split; [apply Hworker, Hs|].
  split; [apply Hmaster; assumption|]. split; [apply (Hmaster m2); assumption|].
  split; [apply (rot_range _ Hs)|]. split; [apply (rot_range _ Hs1)|].
  split; [apply (rot_range _ Hs2)|].
  split; [apply xsh_rr_is_ror32; assumption | apply xsh_rr_zero, Hx].
Qed.

Lemma next_u32_transition_and_output_witness :
  Pcg32.pcg32_random_r {| state := 1442695040888963407; inc := 109 |}
  = (ror32 (truncate32 (Z.shiftr (Z.lxor (Z.shiftr 1442695040888963407 18)
                                         1442695040888963407) 27))
           (Z.shiftr 1442695040888963407 59),
     {| state := lcg_next 1442695040888963407 109; inc := 109 |}) /\
  SeedGen1d.pcg32_random SeedGen1d.rng_state_init
  = (ror32 (truncate32 (Z.shiftr (Z.lxor (Z.shiftr 0x853c49e6748fea9b 18)
                                         0x853c49e6748fea9b) 27))
           (Z.shiftr 0x853c49e6748fea9b 59),
     {| state := lcg_next 0x853c49e6748fea9b 0xda3e39cb94b95bdb;
        inc := 0xda3e39cb94b95bdb |}).
Proof.
  pose proof (next_u32_transition_and_output
                {| state := 1442695040888963407; inc := 109 |}
                SeedGen1d.rng_state_init SeedGen2d.rng_state_init 7 0) as H.
  cbv zeta in H.
  destruct H as (Hw & _ & _ & Hm & _).
  - unfold wf_rng, is_u64; cbn; lia.
  - apply SeedGen1d.holds_initialiser.
  - apply SeedGen2d.holds_initialiser.
  - unfold is_u32; lia.
  - lia.
  - split; [exact Hw | exact Hm].
Defined.

(** ** Seeding *)

Lemma lcg_next_zero (i : Z) : is_u64 i -> Z.odd i = true -> lcg_next 0 i = i.
Proof.
  intros Hi Ho. unfold lcg_next. rewrite (lor_one_odd _ Ho), Z.mul_0_l, Z.add_0_l.
  apply Z.mod_small, Hi.
Qed.

Lemma seed_increment_odd (initseq : Z) :
  Z.odd (Z.lor (u64 (Z.shiftl initseq 1)) 1) = true.
Proof.
  rewrite <- Z.bit0_odd, Z.lor_spec. apply orb_true_r.
Qed.

(** The state every seeding routine ends in, in closed form. *)
Lemma seeded_state_closed_form (increment initstate : Z) :
  is_u64 increment -> Z.odd increment = true ->
  lcg_next (u64 (lcg_next 0 increment + initstate)) increment
  = ((increment + initstate) * 6364136223846793005 + increment) mod 2 ^ 64.
Proof.
  intros Hi Ho. rewrite (lcg_next_zero _ Hi Ho).
  unfold lcg_next, u64. rewrite (lor_one_odd _ Ho).
  rewrite Z.add_mod, Z.mul_mod, Z.mod_mod by lia.
  rewrite <- Z.mul_mod, <- Z.add_mod by lia. reflexivity.
Qed.

(** The five copies of the seeding routine return the same generator,
    whatever the generator passed in. *)
Lemma srandom_seeded (rng0 : pcg32_random_t) (initstate initseq : Z) :
  let increment := Z.lor (u64 (Z.shiftl initseq 1)) 1 in
  let seeded :=
    {| state := lcg_next (u64 (lcg_next 0 increment + initstate)) increment;
       inc := increment |} in
  Pcg32.pcg32_srandom_r rng0 initstate initseq = seeded /\
  MainDat.pcg32_srandom_r rng0 initstate initseq = seeded /\
  RanWalk2d.pcg32_srandom_r rng0 initstate initseq = seeded /\
  SeedGen1d.pcg32_srandom rng0 initstate initseq = seeded /\
  SeedGen2d.pcg32_srandom rng0 initstate initseq = seeded /\
  state seeded
  = ((increment + initstate) * 6364136223846793005 + increment) mod 2 ^ 64.
Proof.
  intros increment seeded.
  pose proof (seed_increment_u64 initseq) as Hu.
  pose proof (seed_increment_odd initseq) as Ho.
  fold increment in Hu, Ho.
  assert (SeedGen1d.pcg32_srandom rng0 initstate initseq = seeded) as H1.
  { unfold SeedGen1d.pcg32_srandom, SeedGen1d.pcg32_random, set_state, set_inc.
    cbn [state inc snd]. fold increment. subst seeded. unfold lcg_next.
    rewrite !(lor_one_odd _ Ho). reflexivity. }
  repeat split; try exact H1.
  apply seeded_state_closed_form; assumption.
Qed.

(** C2: for every pair (initstate, initseq), each seeding routine leaves
    the increment [(initseq << 1) | 1] (in 64 bits) and the state obtained
    by starting from 0, advancing once, adding initstate modulo 2^64 and
    advancing once more, which is
    [((increment + initstate) * 6364136223846793005 + increment) mod 2^64]. *)
Theorem srandom_result (rng0 : pcg32_random_t) (initstate initseq : Z) :
  let increment := Z.lor (u64 (Z.shiftl initseq 1)) 1 in
  let seeded :=
    {| state := lcg_next (u64 (lcg_next 0 increment + initstate)) increment;
       inc := increment |} in
  Pcg32.pcg32_srandom_r rng0 initstate initseq = seeded /\
  MainDat.pcg32_srandom_r rng0 initstate initseq = seeded /\
  RanWalk2d.pcg32_srandom_r rng0 initstate initseq = seeded /\
  SeedGen1d.pcg32_srandom rng0 initstate initseq = seeded /\
  SeedGen2d.pcg32_srandom rng0 initstate initseq = seeded /\
  state seeded
  = ((increment + initstate) * 6364136223846793005 + increment) mod 2 ^ 64.
Proof.
  intros increment seeded.
  pose proof (seed_increment_u64 initseq) as Hu.
  pose proof (seed_increment_odd initseq) as Ho.
  fold increment in Hu, Ho.
  assert (SeedGen1d.pcg32_srandom rng0 initstate initseq = seeded) as H1.
  { unfold SeedGen1d.pcg32_srandom, SeedGen1d.pcg32_random, set_state, set_inc.
    cbn [state inc snd]. fold increment. subst seeded. unfold lcg_next.
    rewrite !(lor_one_odd _ Ho). reflexivity. }
  repeat split; try exact H1.
  apply seeded_state_closed_form; assumption.
Qed.

(** C3: seeded with (42, 54), the first six draws are the reference PCG32
    vectors. *)
Theorem known_vectors_42_54 (rng0 : pcg32_random_t) :
  fst (draws Pcg32.pcg32_random_r 6 (Pcg32.pcg32_srandom_r rng0 42 54))
  = [0xa15c02b7; 0x7b47f409; 0xba1d3330; 0x83d2f293; 0xbfa4784b; 0xcbed606e].
Proof. vm_compute. reflexivity. Qed.

(** ** The increment is odd and fixed *)

Lemma draws_keep_inc (next : pcg32_random_t -> Z * pcg32_random_t) :
  (forall r, inc (snd (next r)) = inc r) ->
  forall n r, inc (snd (draws next n r)) = inc r.
Proof.
  intros Hnext n. induction n as [|k IH]; intros r; cbn [draws]; [reflexivity|].
  specialize (Hnext r). destruct (next r) as [v r1]. cbn [snd] in Hnext.
  specialize (IH r1). destruct (draws next k r1) as [vs r2]. cbn [snd] in *.
  congruence.
Qed.

(** C4: right after seeding the increment has its low bit set, and no number
    of draws changes the increment field. *)
Theorem increment_odd_and_fixed (rng0 : pcg32_random_t) (x y : Z) (n : nat) :
  let g := Pcg32.pcg32_srandom_r rng0 x y in
  let m := SeedGen1d.pcg32_srandom rng0 x y in
  Z.land (inc g) 1 = 1 /\
  inc (snd (Pcg32.pcg32_random_r g)) = inc g /\
  inc (snd (draws Pcg32.pcg32_random_r n g)) = inc g /\
  Z.land (inc (snd (draws Pcg32.pcg32_random_r n g))) 1 = 1 /\
  Z.land (inc m) 1 = 1 /\
  inc (snd (draws SeedGen1d.pcg32_random n m)) = inc m.
Proof.
  intros g m.
  assert (inc (snd (draws Pcg32.pcg32_random_r n g)) = inc g) as Hd
    by (apply draws_keep_inc; reflexivity).
  assert (Z.land (inc g) 1 = 1) as Hg by apply lor_one_bit0.
  repeat split.
  - exact Hg.
  - exact Hd.
  - rewrite Hd. exact Hg.
  - apply lor_one_bit0.
  - apply draws_keep_inc. reflexivity.
Qed.

(** ** The copies of the generator against each other *)

(** C6: the hand-copied generation routines compute identical results:
    on every generator state the three copies of [pcg32_random_r], which
    add [inc | 1], return the same output and the same successor; the two
    copies of [pcg32_random], which add [inc], return the same output and
    the same successor as each other, and the output of [pcg32_random_r];
    and on every value [m1], [m2] the file-static [rng_state] of a seed
    generator holds, [pcg32_random] returns the output and the successor
    that each copy of [pcg32_random_r] returns there. *)
Theorem generator_copies_agree (rng m1 m2 : pcg32_random_t) :
  SeedGen1d.rng_state_holds m1 -> SeedGen2d.rng_state_holds m2 ->
  MainDat.pcg32_random_r rng = Pcg32.pcg32_random_r rng /\
  RanWalk2d.pcg32_random_r rng = Pcg32.pcg32_random_r rng /\
  SeedGen2d.pcg32_random rng = SeedGen1d.pcg32_random rng /\
  fst (SeedGen1d.pcg32_random rng) = fst (Pcg32.pcg32_random_r rng) /\
  SeedGen1d.pcg32_random m1 = Pcg32.pcg32_random_r m1 /\
  SeedGen1d.pcg32_random m1 = MainDat.pcg32_random_r m1 /\
  SeedGen1d.pcg32_random m1 = RanWalk2d.pcg32_random_r m1 /\
  SeedGen2d.pcg32_random m2 = Pcg32.pcg32_random_r m2 /\
  SeedGen2d.pcg32_random m2 = MainDat.pcg32_random_r m2 /\
  SeedGen2d.pcg32_random m2 = RanWalk2d.pcg32_random_r m2.
Proof.
  intros H1 H2.
  destruct (rng_state_holds_odd_1d m1 H1) as [_ Ho1].
  destruct (rng_state_holds_odd_2d m2 H2) as [_ Ho2].
  assert (forall g, Z.odd (inc g) = true ->
            SeedGen1d.pcg32_random g = Pcg32.pcg32_random_r g) as Hodd.
  { intros g Ho. unfold SeedGen1d.pcg32_random, Pcg32.pcg32_random_r. cbv zeta.
    rewrite (lor_one_odd _ Ho). reflexivity. }
  repeat split; try (apply Hodd; assumption); apply (Hodd m2 Ho2).
Qed.

Lemma generator_copies_agree_witness :
  SeedGen1d.pcg32_random (SeedGen1d.pcg32_srandom SeedGen1d.rng_state_init 12345 67890)
  = Pcg32.pcg32_random_r (SeedGen1d.pcg32_srandom SeedGen1d.rng_state_init 12345 67890) /\
  SeedGen2d.pcg32_random SeedGen2d.rng_state_init
  = RanWalk2d.pcg32_random_r SeedGen2d.rng_state_init.
Proof.
  pose proof (generator_copies_agree pcg32_random_state_zero
                (SeedGen1d.pcg32_srandom SeedGen1d.rng_state_init 12345 67890)
                SeedGen2d.rng_state_init) as H.
  destruct H as (_ & _ & _ & _ & Ha & _ & _ & _ & _ & Hb).
  - apply SeedGen1d.holds_random, SeedGen1d.holds_add, SeedGen1d.holds_random,
      SeedGen1d.holds_reset, SeedGen1d.holds_initialiser.
  - apply SeedGen2d.holds_initialiser.
  - split; [exact Ha | exact Hb].
Defined.

(** ** Streams *)

Lemma seed_increment_arith (initseq : Z) :
  Z.lor (u64 (Z.shiftl initseq 1)) 1 = 2 * (initseq mod 2 ^ 63) + 1.
Proof.
  rewrite lor_one_arith. unfold u64. rewrite Z.shiftl_mul_pow2 by lia.
  change (2 ^ 1) with 2. change (2 ^ 64) with (2 * 2 ^ 63).
  rewrite (Z.mul_comm initseq 2), Z.mul_mod_distr_l by lia.
  rewrite (Z.mul_comm 2 (initseq mod 2 ^ 63)), Z.mod_mul by lia. lia.
Qed.

Lemma srandom_arith (rng0 : pcg32_random_t) (initstate initseq : Z) :
  Pcg32.pcg32_srandom_r rng0 initstate initseq
  = {| state := ((2 * (initseq mod 2 ^ 63) + 1 + initstate) * 6364136223846793005
                 + (2 * (initseq mod 2 ^ 63) + 1)) mod 2 ^ 64;
       inc := 2 * (initseq mod 2 ^ 63) + 1 |}.
Proof.
  destruct (srandom_seeded rng0 initstate initseq) as (-> & _ & _ & _ & _ & Hst).
  cbv zeta in Hst. cbn [state] in Hst. rewrite Hst, seed_increment_arith. reflexivity.
Qed.

Lemma mod_2_63_of_u64 (a : Z) : u64 a mod 2 ^ 63 = a mod 2 ^ 63.
Proof.
  unfold u64. apply Z.mod_mod_divide.
  exists 2. reflexivity.
Qed.

Lemma u64_inj_add (a i j : Z) :
  is_u64 i -> is_u64 j -> u64 (a + i) = u64 (a + j) -> i = j.
Proof.
  unfold is_u64, u64. change (2 ^ 64) with 18446744073709551616.
  intros Hi Hj H.
  pose proof (Z.div_mod (a + i) 18446744073709551616 ltac:(lia)).
  pose proof (Z.div_mod (a + j) 18446744073709551616 ltac:(lia)).
  lia.
Qed.

(** C7 (amended): sequence selectors that differ modulo 2^63 give instances
    with different increments, whose states differ right after seeding or
    after the first draw at the latest; a selector shifted by a multiple of
    2^63 gives the same instance, and one shifted by a multiple of 2^62
    gives the same first 32-bit draw. *)
Theorem streams_of_distinct_selectors
  (rng0 : pcg32_random_t) (initstate initseq1 initseq2 k : Z) :
  initseq1 mod 2 ^ 63 <> initseq2 mod 2 ^ 63 ->
  let g1 := Pcg32.pcg32_srandom_r rng0 initstate initseq1 in
  let g2 := Pcg32.pcg32_srandom_r rng0 initstate initseq2 in
  inc g1 <> inc g2 /\
  (state g1 <> state g2 \/
   state (snd (Pcg32.pcg32_random_r g1)) <> state (snd (Pcg32.pcg32_random_r g2))) /\
  Pcg32.pcg32_srandom_r rng0 initstate (u64 (initseq1 + k * 2 ^ 63)) = g1 /\
  fst (Pcg32.pcg32_random_r
         (Pcg32.pcg32_srandom_r rng0 initstate (u64 (initseq1 + k * 2 ^ 62))))
  = fst (Pcg32.pcg32_random_r g1).
Proof.
  intros Hne g1 g2. subst g1 g2. rewrite !srandom_arith. cbn [inc state].
  pose proof (Z.mod_pos_bound initseq1 (2 ^ 63) ltac:(lia)) as B1.
  pose proof (Z.mod_pos_bound initseq2 (2 ^ 63) ltac:(lia)) as B2.
  split; [lia|]. split; [|split].
  - set (s1 := (_ mod 2 ^ 64)). set (s2 := ((2 * (initseq2 mod 2 ^ 63) + 1 + _) * _ + _) mod 2 ^ 64).
    destruct (Z.eq_dec s1 s2) as [He|Hd]; [right | left; exact Hd].
    unfold Pcg32.pcg32_random_r, set_state. cbn [state inc snd]. rewrite He.
    intros H. apply u64_inj_add in H.
    + rewrite !lor_one_arith in H.
      rewrite !(Z.add_comm _ 1), !(Z.mul_comm 2), !Z.mod_add in H by lia.
      change (1 mod 2) with 1 in H. lia.
    + apply lor_one_u64. unfold is_u64. change (2 ^ 64) with (2 * 2 ^ 63). lia.
    + apply lor_one_u64. unfold is_u64. change (2 ^ 64) with (2 * 2 ^ 63). lia.
  - rewrite mod_2_63_of_u64, Z_mod_plus_full. reflexivity.
  - unfold Pcg32.pcg32_random_r. cbn [state fst].
    rewrite mod_2_63_of_u64.
    set (q := initseq1 mod 2 ^ 63). set (q' := (initseq1 + k * 2 ^ 62) mod 2 ^ 63).
    assert (exists j, q' = q + j * 2 ^ 62) as [j Hj].
    { exists (k + 2 * (initseq1 / 2 ^ 63) - 2 * ((initseq1 + k * 2 ^ 62) / 2 ^ 63)).
      subst q q'. rewrite !Z.mod_eq by lia. change (2 ^ 63) with (2 * 2 ^ 62). lia. }
    assert (((2 * q' + 1 + initstate) * 6364136223846793005 + (2 * q' + 1)) mod 2 ^ 64
            = ((2 * q + 1 + initstate) * 6364136223846793005 + (2 * q + 1)) mod 2 ^ 64)
      as ->; [|reflexivity].
    rewrite Hj.
    replace ((2 * (q + j * 2 ^ 62) + 1 + initstate) * 6364136223846793005
             + (2 * (q + j * 2 ^ 62) + 1))
      with ((2 * q + 1 + initstate) * 6364136223846793005 + (2 * q + 1)
            + (j * 3182068111923396503) * 2 ^ 64)
      by (change (2 ^ 64) with (4 * 2 ^ 62); lia).
    apply Z_mod_plus_full.
Qed.

Lemma streams_of_distinct_selectors_witness :
  inc (Pcg32.pcg32_srandom_r pcg32_random_state_zero 42 54)
  <> inc (Pcg32.pcg32_srandom_r pcg32_random_state_zero 42 55).
Proof.
  refine (proj1 (streams_of_distinct_selectors pcg32_random_state_zero 42 54 55 1 _)).
  vm_compute. congruence.
Defined.

(** C7, as stated, fails: the distinct selectors 54 and 54 + 2^62, with the
    same initstate 42, give the same first draw. *)
Lemma distinct_selectors_same_first_draw :
  is_u64 54 /\ is_u64 (54 + 2 ^ 62) /\ 54 <> 54 + 2 ^ 62 /\
  fst (Pcg32.pcg32_random_r (Pcg32.pcg32_srandom_r pcg32_random_state_zero 42 54))
  = 0xa15c02b7 /\
  fst (Pcg32.pcg32_random_r
         (Pcg32.pcg32_srandom_r pcg32_random_state_zero 42 (54 + 2 ^ 62)))
  = 0xa15c02b7 /\
  inc (Pcg32.pcg32_srandom_r pcg32_random_state_zero 42 54)
  <> inc (Pcg32.pcg32_srandom_r pcg32_random_state_zero 42 (54 + 2 ^ 62)).
Proof.
  repeat split; try (unfold is_u64; cbn; lia); vm_compute; congruence.
Qed.

(** ** The orbit of the master generator *)

Lemma u64_affine_l (y a c : Z) : u64 (u64 y * a + c) = u64 (y * a + c).
Proof.
  unfold u64. rewrite <- (Z.add_mod_idemp_l (y mod 2 ^ 64 * a)) by lia.
  rewrite Z.mul_mod_idemp_l, Z.add_mod_idemp_l by lia. reflexivity.
Qed.

Lemma u64_affine_r (s a c : Z) : u64 (s * u64 a + u64 c) = u64 (s * a + c).
Proof.
  unfold u64. rewrite Z.add_mod_idemp_r by lia.
  rewrite <- (Z.add_mod_idemp_l (s * (a mod 2 ^ 64))) by lia.
  rewrite Z.mul_mod_idemp_r, Z.add_mod_idemp_l by lia. reflexivity.
Qed.

Lemma u64_idem (z : Z) : u64 (u64 z) = u64 z.
Proof. unfold u64. apply Z.mod_mod. lia. Qed.

Lemma lcg_jump_correct (a c : Z) (p : positive) (s : Z) :
  Pos.iter (lcg_u64 a c) s p
  = u64 (s * fst (lcg_jump a c p) + snd (lcg_jump a c p)).
Proof.
  revert s. induction p as [q IH|q IH|]; intros s; cbn [Pos.iter lcg_jump].
  - rewrite !IH. destruct (lcg_jump a c q) as [a' c']. cbn [fst snd].
    unfold lcg_u64. rewrite !u64_affine_l, u64_affine_r.
    rewrite <- (u64_affine_l (u64 (s * a' + c') * a' + c')).
    rewrite (u64_affine_l (s * a' + c') a' c'), u64_affine_l.
    f_equal. ring.
  - rewrite !IH. destruct (lcg_jump a c q) as [a' c']. cbn [fst snd].
    rewrite !u64_affine_l, u64_affine_r. f_equal. ring.
  - cbn [fst snd]. unfold lcg_u64. rewrite u64_affine_r. reflexivity.
Qed.

(** One [derive_run_seeds] call moves the master two congruential steps. *)
Lemma derive_run_seeds_state (m : pcg32_random_t) :
  snd (derive_run_seeds m)
  = {| state := lcg_u64 pcg32_mult (inc m) (lcg_u64 pcg32_mult (inc m) (state m));
       inc := inc m |}.
Proof. reflexivity. Qed.

Lemma master_at_pos (m : pcg32_random_t) (p : positive) :
  master_at m (Npos p)
  = {| state := Pos.iter (lcg_u64 pcg32_mult (inc m)) (state m) (p~0);
       inc := inc m |}.
Proof.
  unfold master_at. cbn [N.iter]. revert m.
  induction p as [|p IH] using Pos.peano_ind; intros m.
  - reflexivity.
  - rewrite Pos.iter_succ, IH, derive_run_seeds_state. cbn [state inc].
    change ((Pos.succ p)~0)%positive with (Pos.succ (Pos.succ p~0)).
    rewrite !Pos.iter_succ. reflexivity.
Qed.

(** The pair returned by call number [Npos p], by the jump formula. *)
Lemma run_seeds_at_jump (m : pcg32_random_t) (p : positive) :
  run_seeds_at m (Npos p)
  = fst (derive_run_seeds
           {| state := u64 (state m * fst (lcg_jump pcg32_mult (inc m) p~0)
                            + snd (lcg_jump pcg32_mult (inc m) p~0));
              inc := inc m |}).
Proof.
  unfold run_seeds_at. rewrite master_at_pos, lcg_jump_correct. reflexivity.
Qed.

Lemma run_seeds_collision :
  run_seeds_at master_seeded 3582634056116787946 = (0xf3d9b5fa, 0x9fd9faf7) /\
  run_seeds_at master_seeded 7987211343882425630 = (0xf3d9b5fa, 0x9fd9faf7).
Proof. split; rewrite run_seeds_at_jump; vm_compute; reflexivity. Qed.

(** C8, as stated, fails: with the master seeded as every [main] seeds it,
    calls number 3582634056116787946 and 7987211343882425630, both below
    2^63, return the same pair. *)
Lemma run_seed_pair_repeats :
  (3582634056116787946 < 2 ^ 63)%N /\ (7987211343882425630 < 2 ^ 63)%N /\
  3582634056116787946%N <> 7987211343882425630%N /\
  run_seeds_at master_seeded 3582634056116787946 = (0xf3d9b5fa, 0x9fd9faf7) /\
  run_seeds_at master_seeded 7987211343882425630 = (0xf3d9b5fa, 0x9fd9faf7).
Proof.
  split; [reflexivity|]. split; [reflexivity|]. split; [discriminate|].
  exact run_seeds_collision.
Qed.

(** *** Full period of the congruential step

    For a multiplier congruent to 1 modulo 4 and an odd increment, [p]
    steps move every state by [2 ^ val2 p] times an odd number, so no state
    comes back in fewer than 2^64 steps. *)
Section FullPeriod.

Variables a c : Z.
Hypothesis a_mod4 : a mod 4 = 1.
Hypothesis a_gt1 : 1 < a.
Hypothesis c_odd : Z.odd c = true.

Lemma odd_double_succ (k : Z) : Z.odd (2 * k + 1) = true.
Proof. rewrite Z.add_comm, Z.odd_add_mul_2. reflexivity. Qed.

Lemma val2_nonneg (p : positive) : 0 <= val2 p.
Proof. induction p; cbn [val2]; lia. Qed.

Lemma val2_divides (p : positive) : exists m, 0 < m /\ Zpos p = 2 ^ val2 p * m.
Proof.
  induction p as [q _|q [m [Hm IH]]|]; cbn [val2].
  - exists (Zpos q~1). split; lia.
  - exists m. split; [exact Hm|].
    rewrite Z.pow_add_r by (lia || apply val2_nonneg).
    rewrite Pos2Z.inj_xO, IH. change (2 ^ 1) with 2. ring.
  - exists 1. split; lia.
Qed.

Lemma pow_mod4 (p : positive) : a ^ Zpos p mod 4 = 1.
Proof using a_mod4.
  clear a_gt1 c_odd. induction p as [|p IH] using Pos.peano_ind.
  - rewrite Z.pow_1_r. exact a_mod4.
  - rewrite Pos2Z.inj_succ, Z.pow_succ_r by lia.
    rewrite Z.mul_mod, a_mod4, IH by lia. reflexivity.
Qed.

Lemma pow_succ_half (p : positive) :
  exists w, Z.odd w = true /\ a ^ Zpos p + 1 = 2 * w.
Proof using a_mod4.
  clear a_gt1 c_odd. exists (2 * (a ^ Zpos p / 4) + 1). split; [apply odd_double_succ|].
  pose proof (Z.div_mod (a ^ Zpos p) 4 ltac:(lia)) as H.
  rewrite pow_mod4 in H. lia.
Qed.

Lemma pow_minus_one (p : positive) :
  exists u, Z.odd u = true /\ a ^ Zpos p - 1 = (a - 1) * 2 ^ val2 p * u.
Proof using a_mod4.
  clear a_gt1 c_odd. induction p as [q [u [Hu IH]]|q [u [Hu IH]]|]; cbn [val2].
  - destruct (pow_succ_half q) as [w [_ Hw]].
    exists (2 * (a * 2 ^ val2 q * u * w) + 1). split; [apply odd_double_succ|].
    rewrite Pos2Z.inj_xI, Z.pow_add_r, Z.pow_1_r, Z.pow_twice_r by lia.
    change (2 ^ 0) with 1.
    replace (a ^ Zpos q * a ^ Zpos q * a - 1)
      with (a * ((a ^ Zpos q - 1) * (a ^ Zpos q + 1)) + (a - 1)) by ring.
    rewrite IH, Hw. ring.
  - destruct (pow_succ_half q) as [w [Hwo Hw]].
    exists (u * w). split; [rewrite Z.odd_mul, Hu, Hwo; reflexivity|].
    rewrite Pos2Z.inj_xO, Z.pow_twice_r.
    rewrite Z.pow_add_r by (lia || apply val2_nonneg). change (2 ^ 1) with 2.
    replace (a ^ Zpos q * a ^ Zpos q - 1)
      with ((a ^ Zpos q - 1) * (a ^ Zpos q + 1)) by ring.
    rewrite IH, Hw. ring.
  - exists 1. split; [reflexivity|]. rewrite Z.pow_1_r. change (2 ^ 0) with 1. ring.
Qed.

Lemma iter_exact_invariant (p : positive) (s : Z) :
  Pos.iter (lcg_exact a c) s p * (a - 1) + c = a ^ Zpos p * (s * (a - 1) + c).
Proof.
  induction p as [|p IH] using Pos.peano_ind.
  - cbn [Pos.iter]. unfold lcg_exact. rewrite Z.pow_1_r. ring.
  - rewrite Pos.iter_succ, Pos2Z.inj_succ, Z.pow_succ_r by lia.
    unfold lcg_exact at 1.
    replace ((Pos.iter (lcg_exact a c) s p * a + c) * (a - 1) + c)
      with (a * (Pos.iter (lcg_exact a c) s p * (a - 1) + c)) by ring.
    rewrite IH. ring.
Qed.

Lemma iter_exact_diff (p : positive) (s : Z) :
  exists o, Z.odd o = true /\ Pos.iter (lcg_exact a c) s p - s = 2 ^ val2 p * o.
Proof using a_mod4 a_gt1 c_odd.
  destruct (pow_minus_one p) as [u [Hu Hp]].
  exists (u * (s * (a - 1) + c)). split.
  - rewrite Z.odd_mul, Hu, andb_true_l.
    pose proof (Z.div_mod a 4 ltac:(lia)) as Hd. rewrite a_mod4 in Hd.
    replace (s * (a - 1) + c) with (c + 2 * (s * (2 * (a / 4)))) by lia.
    rewrite Z.odd_add_mul_2. exact c_odd.
  - apply (Z.mul_reg_r _ _ (a - 1)); [lia|].
    pose proof (iter_exact_invariant p s) as Hinv.
    replace ((Pos.iter (lcg_exact a c) s p - s) * (a - 1))
      with (Pos.iter (lcg_exact a c) s p * (a - 1) + c - (s * (a - 1) + c)) by ring.
    rewrite Hinv.
    replace (a ^ Zpos p * (s * (a - 1) + c) - (s * (a - 1) + c))
      with ((a ^ Zpos p - 1) * (s * (a - 1) + c)) by ring.
    rewrite Hp. ring.
Qed.

Lemma iter_exact_no_return (p : positive) (s : Z) :
  Zpos p < 2 ^ 64 -> u64 (Pos.iter (lcg_exact a c) s p) <> u64 s.
Proof using a_mod4 a_gt1 c_odd.
  intros Hp Heq.
  destruct (iter_exact_diff p s) as [o [Ho Hd]].
  destruct (val2_divides p) as [m [Hm Hv]].
  pose proof (val2_nonneg p) as Hv0.
  assert (val2 p < 64) as Hv64.
  { apply (Z.pow_lt_mono_r_iff 2); [lia|lia|].
    assert (0 < 2 ^ val2 p) by (apply Z.pow_pos_nonneg; lia). nia. }
  assert ((2 ^ 64 | Pos.iter (lcg_exact a c) s p - s)) as Hdiv.
  { apply Z.mod_divide; [lia|]. unfold u64 in Heq.
    rewrite Zminus_mod, Heq, Z.sub_diag. reflexivity. }
  rewrite Hd in Hdiv.
  replace (2 ^ 64) with (2 ^ val2 p * (2 * 2 ^ (63 - val2 p))) in Hdiv.
  - apply Z.mul_divide_cancel_l in Hdiv;
      [|apply Z.pow_nonzero; lia].
    destruct Hdiv as [k Hk]. rewrite Hk in Ho.
    replace (k * (2 * 2 ^ (63 - val2 p))) with (0 + 2 * (k * 2 ^ (63 - val2 p))) in Ho by ring.
    rewrite Z.odd_add_mul_2 in Ho. discriminate.
  - rewrite <- (Z.pow_succ_r 2 (63 - val2 p)), <- Z.pow_add_r by lia.
    f_equal. lia.
Qed.

Lemma iter_u64_exact (p : positive) (s : Z) :
  Pos.iter (lcg_u64 a c) s p = u64 (Pos.iter (lcg_exact a c) s p).
Proof.
  induction p as [|p IH] using Pos.peano_ind.
  - reflexivity.
  - rewrite !Pos.iter_succ, IH. unfold lcg_u64, lcg_exact at 1.
    apply u64_affine_l.
Qed.

(** No state of the 64-bit generator recurs in fewer than 2^64 steps. *)
Lemma lcg_u64_no_return (p : positive) (s : Z) :
  is_u64 s -> Zpos p < 2 ^ 64 -> Pos.iter (lcg_u64 a c) s p <> s.
Proof using a_mod4 a_gt1 c_odd.
  intros Hs Hp H. rewrite iter_u64_exact in H.
  apply (iter_exact_no_return p s Hp). rewrite H. unfold u64.
  symmetry. apply Z.mod_small, Hs.
Qed.

End FullPeriod.

Lemma pcg32_mult_mod4 : pcg32_mult mod 4 = 1.
Proof. reflexivity. Qed.

Lemma master_at_inc (m : pcg32_random_t) (k : N) : inc (master_at m k) = inc m.
Proof.
  destruct k as [|p]; [reflexivity|]. rewrite master_at_pos. reflexivity.
Qed.

Lemma master_at_state_u64 (m : pcg32_random_t) (k : N) :
  is_u64 (state m) -> is_u64 (state (master_at m k)).
Proof.
  intros Hm. destruct k as [|p]; [exact Hm|].
  rewrite master_at_pos. cbn [state]. rewrite iter_u64_exact. apply u64_range.
Qed.

Lemma master_at_add (m : pcg32_random_t) (i d : N) :
  master_at m (d + i) = master_at (master_at m i) d.
Proof. unfold master_at. apply N.iter_add. Qed.

Lemma master_moves_on (m : pcg32_random_t) (d : positive) :
  Z.odd (inc m) = true -> is_u64 (state m) -> (Npos d < 2 ^ 63)%N ->
  state (master_at m (Npos d)) <> state m.
Proof.
  intros Ho Hs Hd. rewrite master_at_pos. cbn [state].
  apply lcg_u64_no_return.
  - exact pcg32_mult_mod4.
  - reflexivity.
  - exact Ho.
  - exact Hs.
  - rewrite Pos2Z.inj_xO. change (2 ^ 64) with (2 * 2 ^ 63).
    apply N2Z.inj_lt in Hd. cbn in Hd. lia.
Qed.

Lemma seeded_master_shape (m0 : pcg32_random_t) (st seq : Z) :
  Z.odd (inc (SeedGen1d.seedgen_init m0 st seq)) = true /\
  is_u64 (state (SeedGen1d.seedgen_init m0 st seq)).
Proof.
  unfold SeedGen1d.seedgen_init.
  destruct (srandom_seeded m0 st seq) as (_ & _ & _ & -> & _ & _).
  cbn [inc state]. split; [apply seed_increment_odd|].
  unfold lcg_next. apply Z.mod_pos_bound. lia.
Qed.

(** C8 (amended): for every master seeding, the master generator states
    before two different [derive_run_seeds] calls among the first 2^63 are
    different, so the sequence of calls never re-enters an earlier state
    within the period; the returned 32-bit pairs themselves are not pairwise
    different (two calls of the default master return the same pair). *)
Theorem master_states_never_repeat
  (m0 : pcg32_random_t) (st seq : Z) (i j : N) :
  (i < 2 ^ 63)%N -> (j < 2 ^ 63)%N -> i <> j ->
  state (master_at (SeedGen1d.seedgen_init m0 st seq) i)
  <> state (master_at (SeedGen1d.seedgen_init m0 st seq) j) /\
  run_seeds_at master_seeded 3582634056116787946
  = run_seeds_at master_seeded 7987211343882425630.
Proof.
  intros Hi Hj Hne.
  split; [|destruct run_seeds_collision as [-> ->]; reflexivity].
  destruct (seeded_master_shape m0 st seq) as [Ho Hs].
  set (m := SeedGen1d.seedgen_init m0 st seq) in *.
  assert (forall lo hi : N, (lo < hi)%N -> (hi < 2 ^ 63)%N ->
            state (master_at m hi) <> state (master_at m lo)) as Hstep.
  { intros lo hi Hlt Hhi.
    replace hi with (hi - lo + lo)%N by lia. rewrite master_at_add.
    destruct (hi - lo)%N as [|d] eqn:Ed; [lia|].
    apply master_moves_on.
    - rewrite master_at_inc. exact Ho.
    - apply master_at_state_u64, Hs.
    - lia. }
  destruct (N.lt_total i j) as [Hlt|[Heq|Hgt]].
  - intros H. apply (Hstep i j Hlt Hj). symmetry. exact H.
  - contradiction.
  - apply (Hstep j i Hgt Hi).
Qed.

Lemma master_states_never_repeat_witness :
  state (master_at master_seeded 0) <> state (master_at master_seeded 1).
Proof.
  refine (proj1 (master_states_never_repeat
                   SeedGen1d.rng_state_init 12345 67890 0 1 _ _ _)).
  - reflexivity.
  - reflexivity.
  - discriminate.
Defined.

(** * Doubles: the conversions and the division of [myrand] *)

Lemma fexp_double (x : Z) : fexp 53 1024 x = Z.max (x - 53) (-1074).
Proof. reflexivity. Qed.

Lemma digits2_iter_xO (p d : positive) :
  digits2_pos (Pos.iter xO p d) = (digits2_pos p + d)%positive.
Proof.
  induction d as [|d IH] using Pos.peano_ind.
  - cbn [Pos.iter digits2_pos]. rewrite Pos.add_1_r. reflexivity.
  - rewrite Pos.iter_succ. cbn [digits2_pos]. rewrite IH, Pos.add_succ_r. reflexivity.
Qed.

Lemma Zpos_iter_xO (p d : positive) :
  Zpos (Pos.iter xO p d) = Zpos p * 2 ^ Zpos d.
Proof.
  induction d as [|d IH] using Pos.peano_ind.
  - cbn [Pos.iter]. rewrite Z.pow_1_r. lia.
  - rewrite Pos.iter_succ, Pos2Z.inj_xO, IH, Pos2Z.inj_succ, Z.pow_succ_r by lia. ring.
Qed.

(** A positive number lies between the powers of two its length names. *)
Lemma digits2_bounds (p : positive) :
  2 ^ (Zpos (digits2_pos p) - 1) <= Zpos p < 2 ^ Zpos (digits2_pos p).
Proof.
  induction p as [q IH|q IH|]; cbn [digits2_pos].
  - rewrite Pos2Z.inj_succ.
    replace (Z.succ (Zpos (digits2_pos q)) - 1) with (Z.succ (Zpos (digits2_pos q) - 1)) by lia.
    rewrite !Z.pow_succ_r by lia. lia.
  - rewrite Pos2Z.inj_succ.
    replace (Z.succ (Zpos (digits2_pos q)) - 1) with (Z.succ (Zpos (digits2_pos q) - 1)) by lia.
    rewrite !Z.pow_succ_r by lia. lia.
  - change (2 ^ (1 - 1)) with 1. change (2 ^ 1) with 2. lia.
Qed.

Lemma digits2_le (p : positive) (k : Z) :
  0 <= k -> Zpos p < 2 ^ k -> Zpos (digits2_pos p) <= k.
Proof.
  intros Hk Hp. destruct (digits2_bounds p) as [Hlo _].
  destruct (Z.le_gt_cases (Zpos (digits2_pos p)) k) as [H|H]; [exact H|].
  assert (2 ^ k <= 2 ^ (Zpos (digits2_pos p) - 1)) by (apply Z.pow_le_mono_r; lia).
  lia.
Qed.

Lemma shr_fexp_canonical (m e : Z) (l : location) :
  fexp 53 1024 (Zdigits2 m + e) = e ->
  shr_fexp 53 1024 m e l = (shr_record_of_loc m l, e).
Proof. intros H. unfold shr_fexp. rewrite H, Z.sub_diag. reflexivity. Qed.

(** Rounding a mantissa that already has 53 bits changes nothing. *)
Lemma binary_round_aux_canonical (sx : bool) (m : positive) (e : Z) :
  Zpos (digits2_pos m) = 53 -> -1074 <= e <= 971 ->
  binary_round_aux 53 1024 sx (Zpos m) e loc_Exact = S754_finite sx m e.
Proof.
  intros Hd He.
  assert (fexp 53 1024 (Zdigits2 (Zpos m) + e) = e) as Hf
    by (cbn [Zdigits2]; rewrite Hd, fexp_double; lia).
  unfold binary_round_aux. rewrite (shr_fexp_canonical _ _ _ Hf).
  cbn [shr_record_of_loc shr_m loc_of_shr_record round_nearest_even].
  rewrite (shr_fexp_canonical _ _ _ Hf). cbn [shr_record_of_loc shr_m].
  replace (e <=? 1024 - 53) with true by (symmetry; apply Z.leb_le; lia).
  reflexivity.
Qed.

(** Conversion of a number of fewer than 53 bits, scaled by [2 ^ e]: the
    mantissa is shifted to 53 bits and nothing is rounded. *)
Lemma binary_round_short (p : positive) (e : Z) :
  Zpos (digits2_pos p) < 53 ->
  -1074 <= Zpos (digits2_pos p) + e - 53 <= 971 ->
  binary_round 53 1024 false p e
  = S754_finite false (Pos.iter xO p (Z.to_pos (53 - Zpos (digits2_pos p))))
                (Zpos (digits2_pos p) + e - 53).
Proof.
  intros Hk He. unfold binary_round, shl_align.
  rewrite fexp_double, Z.max_l by lia.
  replace (Zpos (digits2_pos p) + e - 53 - e)
    with (Zneg (Z.to_pos (53 - Zpos (digits2_pos p)))) by lia.
  apply binary_round_aux_canonical; [|lia].
  rewrite digits2_iter_xO, Pos2Z.inj_add, Z2Pos.id by lia. lia.
Qed.

Lemma div_eucl_pair (a b : Z) : Z.div_eucl a b = (a / b, a mod b).
Proof. unfold Z.div, Z.modulo. destruct (Z.div_eucl a b). reflexivity. Qed.

(** Division of a normal double by 2^32 only lowers the exponent. *)
Lemma div_by_two_to_32 (m : positive) (e : Z) :
  Zpos (digits2_pos m) = 53 -> -1041 <= e <= 971 ->
  SFdiv 53 1024 (S754_finite false m e) (S754_finite false 4503599627370496 (-20))
  = S754_finite false m (e - 32).
Proof.
  intros Hd He. unfold SFdiv, SFdiv_core_binary. cbn [Zdigits2 xorb].
  rewrite Hd. change (Zpos (digits2_pos 4503599627370496)) with 53.
  rewrite fexp_double.
  replace (Z.min (Z.max (53 + e - (53 + -20) - 53) (-1074)) (e - -20)) with (e - 33) by lia.
  replace (e - -20 - (e - 33)) with 53 by lia.
  rewrite div_eucl_pair.
  rewrite Z.shiftl_mul_pow2 by lia.
  replace (Zpos m * 2 ^ 53) with (Zpos m~0 * 4503599627370496)
    by (rewrite Pos2Z.inj_xO; change (2 ^ 53) with (2 * 4503599627370496); ring).
  rewrite Z.div_mul, Z.mod_mul by lia.
  change (new_location 4503599627370496 0) with loc_Exact.
  unfold binary_round_aux, shr_fexp. cbn [Zdigits2 digits2_pos].
  rewrite Pos2Z.inj_succ, Hd, fexp_double.
  replace (Z.max (Z.succ 53 + (e - 33) - 53) (-1074) - (e - 33)) with 1 by lia.
  cbn [shr SpecFloat.iter_pos shr_record_of_loc shr_1 shr_m orb loc_of_shr_record
       round_nearest_even Zdigits2].
  rewrite Hd, fexp_double.
  replace (Z.max (53 + (e - 33 + 1) - 53) (-1074) - (e - 33 + 1)) with 0 by lia.
  cbn [shr shr_m].
  replace (e - 33 + 1 <=? 1024 - 53) with true by (symmetry; apply Z.leb_le; lia).
  f_equal. lia.
Qed.

Lemma myrand_divisor_value :
  Double.add (Double.of_Z UINT32_MAX) Double.one
  = S754_finite false 4503599627370496 (-20).
Proof. vm_compute. reflexivity. Qed.

(** The double [myrand] makes of a positive 32-bit draw. *)
Lemma myrand_quotient_pos (p : positive) :
  Zpos p < 2 ^ 32 ->
  Double.div (Double.of_Z (Zpos p))
             (Double.add (Double.of_Z UINT32_MAX) Double.one)
  = S754_finite false (Pos.iter xO p (Z.to_pos (53 - Zpos (digits2_pos p))))
                (Zpos (digits2_pos p) - 85).
Proof.
  intros Hp. pose proof (digits2_le p 32 ltac:(lia) Hp) as Hk.
  rewrite myrand_divisor_value.
  unfold Double.of_Z, Double.div, Double.prec, Double.emax, binary_normalize.
  rewrite binary_round_short by lia.
  rewrite div_by_two_to_32.
  - f_equal. lia.
  - rewrite digits2_iter_xO, Pos2Z.inj_add, Z2Pos.id by lia. lia.
  - lia.
Qed.

Lemma lor_u32 (a b : Z) : is_u32 a -> is_u32 b -> is_u32 (Z.lor a b).
Proof.
  intros Ha Hb.
  assert (Z.lor a b = Z.lor a b mod 2 ^ 32) as ->.
  { apply Z.bits_inj'. intros i Hi.
    destruct (Z.lt_ge_cases i 32).
    - rewrite Z.mod_pow2_bits_low by lia. reflexivity.
    - rewrite Z.mod_pow2_bits_high, Z.lor_spec by lia.
      rewrite (testbit_u32_value a), (testbit_u32_value b) by (assumption || lia).
      reflexivity. }
  apply Z.mod_pos_bound. lia.
Qed.

Lemma shiftr_u32 (x r : Z) : is_u32 x -> 0 <= r -> is_u32 (Z.shiftr x r).
Proof.
  intros [H0 H1] Hr. rewrite Z.shiftr_div_pow2 by exact Hr.
  assert (0 < 2 ^ r) by (apply Z.pow_pos_nonneg; lia). split.
  - apply Z.div_pos; lia.
  - apply Z.div_lt_upper_bound; [lia|]. nia.
Qed.

(** Every copy of the generator returns a 32-bit value, whatever the state. *)
Lemma xsh_rr_u32 (x r : Z) : is_u32 (xsh_rr (u32 x) (u32 r)).
Proof.
  unfold xsh_rr. apply lor_u32; [|apply u32_range].
  apply shiftr_u32; [apply u32_range | apply (u32_range r)].
Qed.

Lemma pcg32_random_r_u32 (g : pcg32_random_t) : is_u32 (fst (Pcg32.pcg32_random_r g)).
Proof. apply xsh_rr_u32. Qed.

Lemma value_shifted (p d : positive) (e : Z) :
  (Double.value (S754_finite false (Pos.iter xO p d) e)
   == inject_Z (Zpos p) * Qpower 2 (Zpos d + e))%Q.
Proof.
  cbn [Double.value]. rewrite Zpos_iter_xO, inject_Z_mult, Zpower_Qpower by lia.
  rewrite Qpower_plus by discriminate. change (inject_Z 2) with 2%Q. ring.
Qed.

(** The double [myrand] makes of the draw [n] is [n / 2^32]. *)
Lemma myrand_quotient (n : Z) :
  is_u32 n ->
  let v := Double.div (Double.of_Z n)
                      (Double.add (Double.of_Z UINT32_MAX) Double.one) in
  Double.is_finite v = true /\
  (Double.value v == n # 4294967296)%Q /\
  SFleb Double.zero v = true /\
  SFltb v Double.one = true.
Proof.
  intros [H0 H1] v. subst v. destruct n as [|p|p]; [| |lia].
  - vm_compute. repeat split.
  - rewrite myrand_quotient_pos by exact H1.
    pose proof (digits2_le p 32 ltac:(lia) H1) as Hk.
    split; [reflexivity|]. split; [|split].
    + rewrite value_shifted, Z2Pos.id by lia.
      replace (53 - Zpos (digits2_pos p) + (Zpos (digits2_pos p) - 85)) with (-32) by lia.
      change (Qpower 2 (-32)) with (1 # 4294967296)%Q.
      unfold Qeq, Qmult, inject_Z. cbn [Qnum Qden]. lia.
    + reflexivity.
    + change Double.one with (S754_finite false 4503599627370496 (-52)).
      unfold SFltb, SFcompare.
      rewrite (proj2 (Z.compare_lt_iff _ _)) by lia. reflexivity.
Qed.

(** C5: [myrand] returns the double [next_u32 / 2^32] (its divisor
    [(double)UINT32_MAX + 1.0] is 4294967296.0), a finite value [v] with
    [0 <= v < 1], and advances the generator as [pcg32_random_r] does. *)
Theorem myrand_unit_interval (g : pcg32_random_t) :
  let n := fst (Pcg32.pcg32_random_r g) in
  let v := fst (Pcg32.myrand g) in
  Double.add (Double.of_Z UINT32_MAX) Double.one = Double.of_Z 4294967296 /\
  v = Double.div (Double.of_Z n) (Double.of_Z (2 ^ 32)) /\
  snd (Pcg32.myrand g) = snd (Pcg32.pcg32_random_r g) /\
  Double.is_finite v = true /\
  (Double.value v == n # 4294967296)%Q /\
  (0 <= Double.value v)%Q /\ (Double.value v < 1)%Q /\
  SFleb Double.zero v = true /\ SFltb v Double.one = true /\
  MainDat.myrand g = Pcg32.myrand g /\
  RanWalk2d.myrand g = Pcg32.myrand g.
Proof.
  intros n v.
  pose proof (pcg32_random_r_u32 g) as Hn. fold n in Hn.
  destruct (myrand_quotient n Hn) as (Hfin & Hval & Hle & Hlt).
  assert (v = Double.div (Double.of_Z n)
                (Double.add (Double.of_Z UINT32_MAX) Double.one)) as Hv by reflexivity.
  rewrite <- Hv in Hfin, Hval, Hle, Hlt.
  destruct Hn as [Hn0 Hn1].
  repeat split; try assumption.
  - rewrite Hval. unfold Qle. cbn [Qnum Qden]. lia.
  - rewrite Hval. unfold Qlt. cbn [Qnum Qden]. lia.
Qed.

(** ** Rounding to nearest: how far above the exact value a result can be *)

Lemma digits2_unique (p : positive) (k : Z) :
  2 ^ (k - 1) <= Zpos p < 2 ^ k -> Zpos (digits2_pos p) = k.
Proof.
  intros [Hlo Hhi]. destruct (digits2_bounds p) as [Dlo Dhi].
  destruct (Z.lt_trichotomy (Zpos (digits2_pos p)) k) as [H|[H|H]]; [|exact H|].
  - assert (2 ^ Zpos (digits2_pos p) <= 2 ^ (k - 1)) by (apply Z.pow_le_mono_r; lia). lia.
  - assert (2 ^ k <= 2 ^ (Zpos (digits2_pos p) - 1)) by (apply Z.pow_le_mono_r; lia). lia.
Qed.

Lemma digits2_gt (p : positive) (j : Z) :
  0 <= j -> 2 ^ j <= Zpos p -> j < Zpos (digits2_pos p).
Proof.
  intros Hj Hp. destruct (digits2_bounds p) as [_ Dhi].
  apply (Z.pow_lt_mono_r_iff 2); lia.
Qed.

Lemma shr_inv_start (m : Z) :
  0 <= m -> shr_inv m 0 {| shr_m := m; shr_r := false; shr_s := false |}.
Proof.
  intros Hm. exists 0. cbn [shr_m shr_r]. change (2 ^ 0) with 1.
  repeat split; try lia; try discriminate.
Qed.

Lemma shr_inv_step (m t : Z) (r : shr_record) :
  0 <= t -> shr_inv m t r -> shr_inv m (t + 1) (shr_1 r).
Proof.
  intros Ht [rem (HM & Hm & Hrem & Hr)].
  assert (0 < 2 ^ t) as Hp by (apply Z.pow_pos_nonneg; lia).
  assert (2 ^ (t + 1) = 2 * 2 ^ t) as Hs by (rewrite Z.pow_add_r by lia; lia).
  destruct r as [M r0 s0]. cbn [shr_m shr_r] in *.
  destruct M as [|[q|q|]|q]; cbn [shr_1 shr_m shr_r]; try lia.
  - exists rem. cbn [shr_m shr_r]. rewrite Hs. repeat split; try lia; try discriminate.
  - exists (2 ^ t + rem). cbn [shr_m shr_r]. rewrite Hs. repeat split; lia.
  - exists rem. cbn [shr_m shr_r]. rewrite Hs. repeat split; try lia; try discriminate.
  - exists (2 ^ t + rem). cbn [shr_m shr_r]. rewrite Hs. repeat split; lia.
Qed.

Lemma shr_inv_iter (m : Z) (p : positive) :
  forall (t : Z) (r : shr_record),
    0 <= t -> shr_inv m t r -> shr_inv m (t + Zpos p) (SpecFloat.iter_pos shr_1 p r).
Proof.
  induction p as [q IH|q IH|]; intros t r Ht Hr; cbn [SpecFloat.iter_pos].
  - replace (t + Zpos q~1) with (t + 1 + Zpos q + Zpos q) by lia.
    apply IH; [lia|]. apply IH; [lia|]. apply shr_inv_step; assumption.
  - replace (t + Zpos q~0) with (t + Zpos q + Zpos q) by lia.
    apply IH; [lia|]. apply IH; assumption.
  - apply shr_inv_step; assumption.
Qed.

Lemma round_nearest_even_shr (r : shr_record) :
  shr_m r <= round_nearest_even (shr_m r) (loc_of_shr_record r) <= shr_m r + 1 /\
  (round_nearest_even (shr_m r) (loc_of_shr_record r) = shr_m r + 1 ->
   shr_r r = true).
Proof.
  destruct r as [M [] []]; cbn [shr_m shr_r loc_of_shr_record round_nearest_even];
    try destruct (Z.even M); repeat split; lia.
Qed.

(** A mantissa of more than 53 bits is rounded to one of exactly 53 bits,
    which exceeds it by no more than half a unit of the last kept place. *)
Lemma binary_round_aux_long (m : positive) (ex : Z) :
  53 < Zpos (digits2_pos m) ->
  -1074 <= Zpos (digits2_pos m) + ex - 53 ->
  Zpos (digits2_pos m) + ex <= 1023 ->
  exists M E,
    binary_round_aux 53 1024 false (Zpos m) ex loc_Exact = S754_finite false M E /\
    Zpos (digits2_pos M) = 53 /\
    ex + (Zpos (digits2_pos m) - 53) <= E <= ex + (Zpos (digits2_pos m) - 53) + 1 /\
    Zpos M * 2 ^ (E - ex) <= Zpos m + 2 ^ (Zpos (digits2_pos m) - 54).
Proof.
  set (d := Zpos (digits2_pos m)). intros Hd Hlo Hhi.
  destruct (digits2_bounds m) as [Dlo Dhi]. fold d in Dlo, Dhi.
  unfold binary_round_aux, shr_fexp at 1. cbn [Zdigits2]. fold d.
  rewrite fexp_double, Z.max_l by lia.
  replace (d + ex - 53 - ex) with (Zpos (Z.to_pos (d - 53))) by lia.
  cbn [shr shr_record_of_loc].
  set (s := Z.to_pos (d - 53)).
  assert (Zpos s = d - 53) as Hs by (subst s; lia).
  pose proof (shr_inv_iter (Zpos m) s 0 _ ltac:(lia) (shr_inv_start (Zpos m) ltac:(lia)))
    as [rem (HM0 & Hm & Hrem & Hr)].
  destruct (round_nearest_even_shr
              (SpecFloat.iter_pos shr_1 s
                 {| shr_m := Zpos m; shr_r := false; shr_s := false |}))
    as [[Hle Hge] Hup].
  set (rec1 := SpecFloat.iter_pos shr_1 s
                 {| shr_m := Zpos m; shr_r := false; shr_s := false |}) in *.
  set (M0 := shr_m rec1) in *.
  set (M1 := round_nearest_even M0 (loc_of_shr_record rec1)) in *.
  rewrite Z.add_0_l in Hm, Hrem, Hr.
  assert (0 < 2 ^ Zpos s) as Hps by (apply Z.pow_pos_nonneg; lia).
  assert (2 ^ (d - 1) = 4503599627370496 * 2 ^ Zpos s) as E1.
  { replace (d - 1) with (52 + Zpos s) by lia. rewrite Z.pow_add_r by lia. reflexivity. }
  assert (2 ^ d = 9007199254740992 * 2 ^ Zpos s) as E2.
  { replace d with (53 + Zpos s) at 1 by lia. rewrite Z.pow_add_r by lia. reflexivity. }
  assert (2 ^ Zpos s = 2 * 2 ^ (d - 54)) as E3.
  { replace (Zpos s) with (1 + (d - 54)) by lia. rewrite Z.pow_add_r by lia. reflexivity. }
  assert (4503599627370496 <= M0 < 9007199254740992) as HM0r by nia.
  assert (M1 * 2 ^ Zpos s <= Zpos m + 2 ^ (d - 54)) as Hbound.
  { destruct (Z.eq_dec M1 (M0 + 1)) as [Heq|Hneq].
    - specialize (Hr (Hup Heq)). nia.
    - assert (M1 = M0) by lia. nia. }
  destruct (Z.eq_dec M1 9007199254740992) as [Hcarry|Hnocarry].
  - rewrite Hcarry. unfold shr_fexp.
    change (Zdigits2 9007199254740992) with 54. rewrite fexp_double.
    replace (Z.max (54 + (ex + Zpos s) - 53) (-1074) - (ex + Zpos s)) with 1 by lia.
    cbn [shr SpecFloat.iter_pos shr_record_of_loc shr_1 shr_m].
    replace (ex + Zpos s + 1 <=? 1024 - 53) with true by (symmetry; apply Z.leb_le; lia).
    exists 4503599627370496%positive, (ex + Zpos s + 1).
    split; [reflexivity|]. split; [reflexivity|]. split; [lia|].
    replace (ex + Zpos s + 1 - ex) with (1 + Zpos s) by lia.
    rewrite Z.pow_add_r by lia. change (2 ^ 1) with 2. lia.
  - destruct M1 as [|M|M] eqn:EM1; try lia.
    assert (Zpos (digits2_pos M) = 53) as HdM
      by (apply digits2_unique; change (2 ^ (53 - 1)) with 4503599627370496;
          change (2 ^ 53) with 9007199254740992; lia).
    rewrite shr_fexp_canonical
      by (cbn [Zdigits2]; rewrite HdM, fexp_double; lia).
    cbn [shr_record_of_loc shr_m].
    replace (ex + Zpos s <=? 1024 - 53) with true by (symmetry; apply Z.leb_le; lia).
    exists M, (ex + Zpos s). split; [reflexivity|]. split; [exact HdM|]. split; [lia|].
    replace (ex + Zpos s - ex) with (Zpos s) by lia. exact Hbound.
Qed.

(** ** The doubles of the lattice code: products and truncations *)

Lemma value_nonneg (m : positive) (e : Z) :
  (0 <= Double.value (S754_finite false m e))%Q.
Proof.
  cbn [Double.value]. apply Qmult_le_0_compat.
  - rewrite <- (Zle_Qle 0). lia.
  - apply Qpower_0_le. discriminate.
Qed.

Lemma round_up_factor_pos : (0 <= round_up_factor)%Q.
Proof. discriminate. Qed.

(** From the integer form of a rounding to its rational form. *)
Lemma value_of_rounded (M m : positive) (E ex d : Z) :
  ex <= E -> 54 <= d ->
  Zpos M * 2 ^ (E - ex) <= Zpos m + 2 ^ (d - 54) ->
  2 ^ (d - 1) <= Zpos m ->
  (Double.value (S754_finite false M E)
   <= inject_Z (Zpos m) * Qpower 2 ex * round_up_factor)%Q.
Proof.
  intros HE Hd Hb Hm. cbn [Double.value].
  assert (Qpower 2 E == inject_Z (2 ^ (E - ex)) * Qpower 2 ex)%Q as ->.
  { rewrite Zpower_Qpower by lia. change (inject_Z 2) with 2%Q.
    rewrite <- Qpower_plus by discriminate.
    replace (E - ex + ex) with E by lia. reflexivity. }
  rewrite Qmult_assoc, <- inject_Z_mult.
  assert (0 <= Qpower 2 ex)%Q as Hp by (apply Qpower_0_le; discriminate).
  apply Qle_trans with (inject_Z (Zpos m + 2 ^ (d - 54)) * Qpower 2 ex)%Q.
  - apply Qmult_le_compat_r; [|exact Hp]. rewrite <- Zle_Qle. exact Hb.
  - rewrite <- Qmult_assoc, (Qmult_comm (Qpower 2 ex)), Qmult_assoc.
    apply Qmult_le_compat_r; [|exact Hp].
    assert (2 ^ (d - 1) = 2 ^ (d - 54) * 9007199254740992) as Hk.
    { replace (d - 1) with (d - 54 + 53) by lia. rewrite Z.pow_add_r by lia. reflexivity. }
    generalize dependent (2 ^ (d - 54)). intros X _ HX.
    unfold round_up_factor.
    change (1 + (1 # 9007199254740992))%Q with (9007199254740993 # 9007199254740992)%Q.
    unfold Qle, Qmult, inject_Z. cbn [Qnum Qden]. lia.
Qed.

(** [(double) N] for a positive [long int]: a normal double not above
    [N] by more than the rounding excess. *)
Lemma of_Z_pos_bound (N : positive) :
  Zpos N < 2 ^ 63 ->
  exists m e,
    Double.of_Z (Zpos N) = S754_finite false m e /\
    Zpos (digits2_pos m) = 53 /\ -52 <= e <= 11 /\
    (Double.value (S754_finite false m e)
     <= inject_Z (Zpos N) * round_up_factor)%Q.
Proof.
  intros HN. set (k := Zpos (digits2_pos N)).
  assert (k <= 63) as Hk63 by (apply digits2_le; lia).
  assert (1 <= k) as Hk1 by (subst k; lia).
  destruct (digits2_bounds N) as [Dlo Dhi]. fold k in Dlo, Dhi.
  unfold Double.of_Z, Double.prec, Double.emax, binary_normalize.
  destruct (Z.lt_trichotomy k 53) as [Hlt|[Heq|Hgt]].
  - rewrite binary_round_short by (fold k; lia). fold k.
    eexists _, _. split; [reflexivity|]. split; [|split; [lia|]].
    + rewrite digits2_iter_xO, Pos2Z.inj_add, Z2Pos.id by lia. fold k. lia.
    + rewrite value_shifted, Z2Pos.id by lia.
      replace (53 - k + (k + 0 - 53)) with 0 by lia.
      change (Qpower 2 0) with 1%Q. rewrite Qmult_1_r.
      rewrite <- (Qmult_1_r (inject_Z (Zpos N))) at 1.
      apply Qmult_le_l; [rewrite <- (Zlt_Qlt 0); lia | discriminate].
  - unfold binary_round, shl_align. fold k. rewrite fexp_double, Z.max_l by lia.
    replace (k + 0 - 53 - 0) with 0 by lia.
    rewrite binary_round_aux_canonical by (fold k; lia).
    exists N, 0. split; [reflexivity|]. split; [exact Heq|]. split; [lia|].
    cbn [Double.value]. change (Qpower 2 0) with 1%Q. rewrite Qmult_1_r.
    rewrite <- (Qmult_1_r (inject_Z (Zpos N))) at 1.
    apply Qmult_le_l; [rewrite <- (Zlt_Qlt 0); lia | discriminate].
  - unfold binary_round, shl_align. fold k. rewrite fexp_double, Z.max_l by lia.
    replace (k + 0 - 53 - 0) with (Zpos (Z.to_pos (k - 53))) by lia.
    destruct (binary_round_aux_long N 0) as (M & E & HR & HdM & HE & Hb);
      try (fold k; lia).
    fold k in HE, Hb. rewrite HR.
    exists M, E. split; [reflexivity|]. split; [exact HdM|]. split; [lia|].
    pose proof (value_of_rounded M N E 0 k ltac:(lia) ltac:(lia) Hb Dlo) as Hv.
    change (Qpower 2 0) with 1%Q in Hv. rewrite Qmult_1_r in Hv. exact Hv.
Qed.

(** The product of two positive normal doubles. *)
Lemma mul_pos_bound (m1 m2 : positive) (e1 e2 : Z) :
  Zpos (digits2_pos m1) = 53 -> Zpos (digits2_pos m2) = 53 ->
  -1000 <= e1 + e2 <= 900 ->
  exists M E,
    Double.mul (S754_finite false m1 e1) (S754_finite false m2 e2)
    = S754_finite false M E /\
    (Double.value (S754_finite false M E)
     <= Double.value (S754_finite false m1 e1)
        * Double.value (S754_finite false m2 e2) * round_up_factor)%Q.
Proof.
  intros H1 H2 He.
  destruct (digits2_bounds m1) as [L1 U1]. destruct (digits2_bounds m2) as [L2 U2].
  rewrite H1 in L1, U1. rewrite H2 in L2, U2.
  change (2 ^ (53 - 1)) with 4503599627370496 in L1, L2.
  change (2 ^ 53) with 9007199254740992 in U1, U2.
  assert (2 ^ 104 <= Zpos (m1 * m2)) as Hlo
    by (rewrite Pos2Z.inj_mul; change (2 ^ 104) with (4503599627370496 * 4503599627370496); nia).
  assert (Zpos (m1 * m2) < 2 ^ 106) as Hhi
    by (rewrite Pos2Z.inj_mul; change (2 ^ 106) with (9007199254740992 * 9007199254740992); nia).
  pose proof (digits2_gt _ 104 ltac:(lia) Hlo) as Dl.
  pose proof (digits2_le _ 106 ltac:(lia) Hhi) as Du.
  destruct (digits2_bounds (m1 * m2)) as [Dlo _].
  destruct (binary_round_aux_long (m1 * m2) (e1 + e2)) as (M & E & HR & HdM & HE & Hb);
    try lia.
  unfold Double.mul, Double.prec, Double.emax, SFmul. cbn [xorb]. rewrite HR.
  exists M, E. split; [reflexivity|].
  pose proof (value_of_rounded M (m1 * m2) E (e1 + e2)
                (Zpos (digits2_pos (m1 * m2))) ltac:(lia) ltac:(lia) Hb Dlo) as Hv.
  eapply Qle_trans; [exact Hv|]. apply Qmult_le_compat_r; [|exact round_up_factor_pos].
  cbn [Double.value]. rewrite Pos2Z.inj_mul, inject_Z_mult, Qpower_plus by discriminate.
  apply Qle_lteq. right. ring.
Qed.

(** Truncation of a nonnegative double. *)
Lemma to_Z_floor (m : positive) (e : Z) :
  exists z, Double.to_Z (S754_finite false m e) = Some z /\ 0 <= z /\
            (inject_Z z <= Double.value (S754_finite false m e))%Q.
Proof.
  cbn [Double.to_Z Double.value]. destruct e as [|k|k].
  - exists (Zpos m * 2 ^ 0). split; [reflexivity|]. split; [lia|].
    change (2 ^ 0) with 1. rewrite Z.mul_1_r. change (Qpower 2 0) with 1%Q.
    rewrite Qmult_1_r. apply Qle_refl.
  - assert (0 < 2 ^ Zpos k) by (apply Z.pow_pos_nonneg; lia).
    exists (Zpos m * 2 ^ Zpos k). split; [reflexivity|]. split; [lia|].
    rewrite inject_Z_mult, Zpower_Qpower by lia. apply Qle_refl.
  - assert (0 < 2 ^ Zpos k) as Hp by (apply Z.pow_pos_nonneg; lia).
    exists (Zpos m / 2 ^ Zpos k). split; [reflexivity|].
    split; [apply Z.div_pos; lia|].
    change (Zneg k) with (- Zpos k). rewrite Qpower_opp.
    apply Qle_shift_div_l.
    + apply Qpower_0_lt. reflexivity.
    + change 2%Q with (inject_Z 2).
      rewrite <- Zpower_Qpower by lia. rewrite <- inject_Z_mult, <- Zle_Qle.
      rewrite Z.mul_comm. apply Z.mul_div_le. exact Hp.
Qed.

(** The double of a draw: zero, or a normal double of value [n / 2^32]. *)
Lemma myrand_shape (n : Z) :
  is_u32 n ->
  let v := Double.div (Double.of_Z n)
                      (Double.add (Double.of_Z UINT32_MAX) Double.one) in
  v = S754_zero false \/
  exists m e, v = S754_finite false m e /\ Zpos (digits2_pos m) = 53 /\
              -84 <= e <= -53 /\
              (Double.value v <= 4294967295 # 4294967296)%Q.
Proof.
  intros Hn v. destruct (myrand_quotient n Hn) as (_ & Hval & _ & _). fold v in Hval.
  destruct Hn as [H0 H1]. destruct n as [|p|p]; [left; reflexivity| |lia].
  right. subst v. rewrite myrand_quotient_pos in * by exact H1.
  pose proof (digits2_le p 32 ltac:(lia) H1) as Hk.
  eexists _, _. split; [reflexivity|]. split; [|split].
  - rewrite digits2_iter_xO, Pos2Z.inj_add, Z2Pos.id by lia. lia.
  - lia.
  - rewrite Hval. unfold Qle. cbn [Qnum Qden].
    change (2 ^ 32) with 4294967296 in H1. lia.
Qed.

Lemma to_long_below (M : positive) (E N : Z) :
  0 < N < 2 ^ 63 ->
  (Double.value (S754_finite false M E) < inject_Z N)%Q ->
  exists p, to_long (S754_finite false M E) = Done p /\ 0 <= p < N.
Proof.
  intros HN Hv. destruct (to_Z_floor M E) as (z & Hz & Hz0 & Hzv).
  assert (z < N) as HzN
    by (rewrite Zlt_Qlt; eapply Qle_lt_trans; [exact Hzv | exact Hv]).
  exists z. unfold to_long. rewrite Hz.
  replace ((- 2 ^ 63 <=? z) && (z <? 2 ^ 63)) with true; [split; [reflexivity | lia]|].
  symmetry. apply andb_true_iff. split; [apply Z.leb_le | apply Z.ltb_lt]; lia.
Qed.

(** [(long int)(myrand() * (double)trueN)] is a particle index. *)
Lemma particle_pick_in_range (n N : Z) :
  is_u32 n -> 0 < N < 2 ^ 63 ->
  exists p,
    to_long (Double.mul
               (Double.div (Double.of_Z n)
                           (Double.add (Double.of_Z UINT32_MAX) Double.one))
               (Double.of_Z N)) = Done p /\
    0 <= p < N.
Proof.
  intros Hn HN. destruct N as [|N|N]; try lia.
  destruct (of_Z_pos_bound N ltac:(lia)) as (m2 & e2 & -> & Hd2 & He2 & Hv2).
  destruct (myrand_shape n Hn) as [->|(m1 & e1 & -> & Hd1 & He1 & Hv1)].
  - exists 0. split; [reflexivity | lia].
  - destruct (mul_pos_bound m1 m2 e1 e2 Hd1 Hd2 ltac:(lia)) as (M & E & -> & Hb).
    apply to_long_below; [lia|].
    eapply Qle_lt_trans; [exact Hb|].
    pose proof (value_nonneg m1 e1) as P1. pose proof (value_nonneg m2 e2) as P2.
    set (a := Double.value (S754_finite false m1 e1)) in *.
    set (b := Double.value (S754_finite false m2 e2)) in *.
    assert (a * b <= (4294967295 # 4294967296) * (inject_Z (Zpos N) * round_up_factor))%Q
      as Hab by (apply Qmult_le_compat_nonneg; split; assumption).
    eapply Qle_lt_trans;
      [apply Qmult_le_compat_r; [exact Hab | exact round_up_factor_pos]|].
    assert ((4294967295 # 4294967296)
            * (inject_Z (Zpos N) * round_up_factor) * round_up_factor
            == inject_Z (Zpos N)
               * ((4294967295 # 4294967296) * round_up_factor * round_up_factor))%Q
      as -> by ring.
    rewrite <- (Qmult_1_r (inject_Z (Zpos N))) at 2.
    apply Qmult_lt_l; [rewrite <- (Zlt_Qlt 0); lia | reflexivity].
Qed.

Lemma to_int_below_four (M : positive) (E : Z) :
  (Double.value (S754_finite false M E) < 4)%Q ->
  exists d, to_int (S754_finite false M E) = Done d /\ 0 <= d <= 3.
Proof.
  intros Hv. destruct (to_Z_floor M E) as (z & Hz & Hz0 & Hzv).
  assert (z < 4) as Hz4
    by (rewrite Zlt_Qlt; eapply Qle_lt_trans; [exact Hzv | exact Hv]).
  exists z. unfold to_int. rewrite Hz.
  replace ((- 2 ^ 31 <=? z) && (z <? 2 ^ 31)) with true; [split; [reflexivity | lia]|].
  symmetry. apply andb_true_iff. split; [apply Z.leb_le | apply Z.ltb_lt]; lia.
Qed.

(** [(int)(4.0 * myrand())] is one of the four directions. *)
Lemma direction_in_range (n : Z) :
  is_u32 n ->
  exists d,
    to_int (Double.mul Double.four
              (Double.div (Double.of_Z n)
                          (Double.add (Double.of_Z UINT32_MAX) Double.one)))
    = Done d /\
    0 <= d <= 3.
Proof.
  intros Hn.
  change Double.four with (S754_finite false 4503599627370496 (-50)).
  destruct (myrand_shape n Hn) as [->|(m1 & e1 & -> & Hd1 & He1 & Hv1)].
  - exists 0. split; [reflexivity | lia].
  - destruct (mul_pos_bound 4503599627370496 m1 (-50) e1 eq_refl Hd1 ltac:(lia))
      as (M & E & -> & Hb).
    apply to_int_below_four.
    eapply Qle_lt_trans; [exact Hb|].
    pose proof (value_nonneg m1 e1) as P1.
    set (a := Double.value (S754_finite false m1 e1)) in *.
    change (Double.value (S754_finite false 4503599627370496 (-50))) with
      (inject_Z 4503599627370496 * Qpower 2 (-50))%Q.
    assert (inject_Z 4503599627370496 * Qpower 2 (-50) == 4)%Q as -> by reflexivity.
    assert (4 * a <= 4 * (4294967295 # 4294967296))%Q as H4
      by (apply Qmult_le_l; [reflexivity | exact Hv1]).
    eapply Qle_lt_trans;
      [apply Qmult_le_compat_r; [exact H4 | exact round_up_factor_pos]|].
    reflexivity.
Qed.

(** * The lattice gas *)

(** ** Arrays *)

Lemma aget_Done (a : list Z) (i v : Z) :
  0 <= i -> a !! Z.to_nat i = Some v -> aget a i = Done v.
Proof.
  intros Hi H. unfold aget. destruct (Z.ltb_spec i 0); [lia|]. rewrite H. reflexivity.
Qed.

Lemma aset_Done (a : list Z) (i v : Z) :
  0 <= i < Z.of_nat (length a) -> aset a i v = Done (<[Z.to_nat i := v]> a).
Proof.
  intros Hi. unfold aset.
  destruct (Z.leb_spec 0 i), (Z.ltb_spec i (Z.of_nat (length a))); try lia. reflexivity.
Qed.

Lemma dget_Done (a : list spec_float) (i : Z) (v : spec_float) :
  0 <= i -> a !! Z.to_nat i = Some v -> dget a i = Done v.
Proof.
  intros Hi Hv. unfold dget. destruct (Z.ltb_spec i 0); [lia|]. rewrite Hv. reflexivity.
Qed.

Lemma dset_Done (a : list spec_float) (i : Z) (v : spec_float) :
  0 <= i < Z.of_nat (length a) -> dset a i v = Done (<[Z.to_nat i := v]> a).
Proof.
  intros Hi. unfold dset.
  destruct (Z.leb_spec 0 i), (Z.ltb_spec i (Z.of_nat (length a))); try lia. reflexivity.
Qed.

Lemma replicate_all {A : Type} (xs : list A) (n : nat) (c : A) :
  length xs = n -> (forall i, (i < n)%nat -> xs !! i = Some c) -> xs = replicate n c.
Proof.
  intros Hlen Hall. apply list_eq. intros i.
  destruct (Nat.lt_ge_cases i n) as [Hi|Hi].
  - rewrite (Hall i Hi). symmetry. apply lookup_replicate_2, Hi.
  - rewrite (proj2 (lookup_ge_None _ _)) by lia.
    symmetry. apply lookup_ge_None. rewrite length_replicate. exact Hi.
Qed.

Lemma lookup_in_range (a : list Z) (i : Z) :
  0 <= i < Z.of_nat (length a) -> exists v, a !! Z.to_nat i = Some v.
Proof.
  intros Hi. destruct (lookup_lt_is_Some_2 a (Z.to_nat i)) as [v Hv]; [lia|].
  exists v. exact Hv.
Qed.

(** ** Counting the occupied sites *)

Lemma count_occupied_app (a b : list Z) :
  count_occupied (a ++ b) = count_occupied a + count_occupied b.
Proof. induction a as [|v a IH]; cbn [app count_occupied]; lia. Qed.

Lemma count_occupied_bounds (a : list Z) :
  0 <= count_occupied a <= Z.of_nat (length a).
Proof.
  induction a as [|v a IH]; cbn [count_occupied length]; [lia|].
  destruct (v =? DiffCoef.MY_EMPTY); lia.
Qed.

Lemma count_occupied_insert (a : list Z) (i : nat) (v w : Z) :
  a !! i = Some w ->
  count_occupied (<[i := v]> a)
  = count_occupied a - (if w =? DiffCoef.MY_EMPTY then 0 else 1)
    + (if v =? DiffCoef.MY_EMPTY then 0 else 1).
Proof.
  revert i. induction a as [|u a IH]; intros [|i] H; try discriminate.
  - simpl in *. injection H as ->. lia.
  - simpl in *. rewrite (IH i H). lia.
Qed.

Lemma occupied_cells_spec (a : list Z) (n i : nat) :
  In i (occupied_cells a n)
  <-> (i < n)%nat /\ exists v, a !! i = Some v /\ v <> DiffCoef.MY_EMPTY.
Proof.
  unfold occupied_cells. rewrite filter_In, in_seq. split.
  - intros [Hi Hv]. split; [lia|]. destruct (a !! i) as [v|]; [|discriminate].
    exists v. split; [reflexivity|]. intros ->. discriminate.
  - intros [Hi (v & -> & Hv)]. split; [lia|].
    destruct (Z.eqb_spec v DiffCoef.MY_EMPTY); [contradiction | reflexivity].
Qed.

Lemma occupied_cells_length (a : list Z) :
  Z.of_nat (length (occupied_cells a (length a))) = count_occupied a.
Proof.
  induction a as [|v a IH] using rev_ind; [reflexivity|].
  rewrite length_app, Nat.add_1_r, count_occupied_app. cbn [length count_occupied].
  unfold occupied_cells in *. rewrite seq_S, List.filter_app, length_app, Nat2Z.inj_add.
  rewrite (List.filter_ext_in _
             (fun i => match a !! i with
                       | Some v => negb (v =? DiffCoef.MY_EMPTY)
                       | None => false
                       end)).
  - rewrite IH. cbn [List.filter plus]. rewrite lookup_app_r, Nat.sub_diag by lia.
    cbn [lookup list_lookup]. destruct (v =? DiffCoef.MY_EMPTY); cbn; lia.
  - intros i Hi. apply in_seq in Hi. rewrite lookup_app_l by lia. reflexivity.
Qed.

(** Pigeonhole: [trueN] occupied cells holding different indices below
    [trueN] hold every such index. *)
Lemma every_particle_placed (a : list Z) (trueN : Z) :
  count_occupied a = trueN ->
  (forall i v, a !! i = Some v -> v <> DiffCoef.MY_EMPTY -> 0 <= v < trueN) ->
  (forall i j v, a !! i = Some v -> a !! j = Some v -> v <> DiffCoef.MY_EMPTY -> i = j) ->
  forall p, 0 <= p < trueN -> exists i, a !! i = Some p.
Proof.
  intros Hcount Hrange Hinj p Hp.
  set (cells := occupied_cells a (length a)).
  set (g := fun i : nat => match a !! i with Some v => v | None => 0 end).
  assert (forall i, In i cells -> a !! i = Some (g i) /\ g i <> DiffCoef.MY_EMPTY) as Hg.
  { intros i Hi. apply occupied_cells_spec in Hi as [_ (v & Hv & Hne)].
    unfold g. rewrite Hv. split; [reflexivity | exact Hne]. }
  assert (List.NoDup (map g cells)) as Hnd.
  { apply NoDup_map_NoDup_ForallPairs.
    - intros i j Hi Hj Heq. destruct (Hg i Hi) as [Hgi Hnei].
      destruct (Hg j Hj) as [Hgj _]. rewrite <- Heq in Hgj.
      exact (Hinj i j (g i) Hgi Hgj Hnei).
    - apply List.NoDup_filter, seq_NoDup. }
  set (target := map Z.of_nat (seq 0 (Z.to_nat trueN))).
  assert (incl (map g cells) target) as Hincl.
  { intros q Hq. apply in_map_iff in Hq as (i & <- & Hi).
    destruct (Hg i Hi) as [Hgi Hnei]. pose proof (Hrange i (g i) Hgi Hnei).
    apply in_map_iff. exists (Z.to_nat (g i)). split; [lia|]. apply in_seq. lia. }
  assert (length target <= length (map g cells))%nat as Hlen.
  { subst target. rewrite !length_map, length_seq.
    pose proof (occupied_cells_length a). fold cells in H. lia. }
  pose proof (NoDup_length_incl Hnd Hlen Hincl) as Hback.
  assert (In p target) as Hpt.
  { apply in_map_iff. exists (Z.to_nat p). split; [lia|]. apply in_seq. lia. }
  apply Hback, in_map_iff in Hpt as (i & <- & Hi).
  exists i. apply (Hg i Hi).
Qed.

(** ** Sites and particles *)

Section LatticeGeometry.

Import DiffCoef.

Lemma site_range (l : lattice) (x y : Z) :
  0 <= x < L l -> 0 <= y < L l -> 0 <= SITE l x y < L l * L l.
Proof. unfold SITE. nia. Qed.

Lemma site_inj (l : lattice) (x y x' y' : Z) :
  0 <= x < L l -> 0 <= y < L l -> 0 <= x' < L l -> 0 <= y' < L l ->
  SITE l x y = SITE l x' y' -> x = x' /\ y = y'.
Proof. unfold SITE. intros. assert (x = x') by nia. subst x'. lia. Qed.

Lemma site_coords (l : lattice) (i : nat) :
  0 < L l -> Z.of_nat i < L l * L l ->
  exists x y, 0 <= x < L l /\ 0 <= y < L l /\ Z.to_nat (SITE l x y) = i.
Proof.
  intros HL Hi. exists (Z.of_nat i / L l), (Z.of_nat i mod L l).
  pose proof (Z.div_mod (Z.of_nat i) (L l) ltac:(lia)) as Hdm.
  pose proof (Z.mod_pos_bound (Z.of_nat i) (L l) HL) as Hm.
  split; [|split; [exact Hm|]].
  - split; [apply Z.div_pos; lia | apply Z.div_lt_upper_bound; lia].
  - unfold SITE. rewrite (Z.mul_comm _ (L l)), <- Hdm. apply Nat2Z.id.
Qed.

Lemma pos_index_ne (p q mu nu : Z) :
  0 <= p -> 0 <= q -> 0 <= mu <= 1 -> 0 <= nu <= 1 ->
  p <> q \/ mu <> nu -> Z.to_nat (POS p mu) <> Z.to_nat (POS q nu).
Proof. unfold POS, DIM. lia. Qed.

(** The consistency predicate, cell by cell. *)
Lemma consistent_cells (l : lattice) (trueN : Z) :
  wf_lattice l -> consistent trueN l ->
  (forall i v, particleOfSite l !! i = Some v -> v <> MY_EMPTY -> 0 <= v < trueN) /\
  (forall i j v, particleOfSite l !! i = Some v -> particleOfSite l !! j = Some v ->
                 v <> MY_EMPTY -> i = j).
Proof.
  intros (HL & _ & Hlen & _) (_ & Hb & Hd).
  assert (forall i v, particleOfSite l !! i = Some v ->
                      exists x y, 0 <= x < L l /\ 0 <= y < L l /\
                                  Z.to_nat (SITE l x y) = i /\ site_of l x y = Some v)
    as Hxy.
  { intros i v Hv. pose proof (lookup_lt_Some _ _ _ Hv) as Hi. rewrite Hlen in Hi.
    destruct (site_coords l i HL ltac:(lia)) as (x & y & Hx & Hy & Hs).
    exists x, y. unfold site_of. rewrite Hs. auto. }
  split.
  - intros i v Hv Hne. destruct (Hxy i v Hv) as (x & y & Hx & Hy & _ & Hs).
    apply (Hb x y v Hx Hy Hs Hne).
  - intros i j v Hi Hj Hne.
    destruct (Hxy i v Hi) as (x & y & Hx & Hy & <- & Hs).
    destruct (Hxy j v Hj) as (x' & y' & Hx' & Hy' & <- & Hs').
    destruct (Hd x y x' y' v Hx Hy Hx' Hy' Hs Hs' Hne) as [-> ->]. reflexivity.
Qed.

Lemma consistent_le_volume (l : lattice) (trueN : Z) :
  wf_lattice l -> consistent trueN l -> 0 <= trueN <= L l * L l.
Proof.
  intros (HL & _ & Hlen & _) (Hc & _).
  pose proof (count_occupied_bounds (particleOfSite l)). rewrite Hlen in *. lia.
Qed.

(** Every particle index below [trueN] sits on the site its recorded
    position names. *)
Lemma particle_position (l : lattice) (trueN p : Z) :
  wf_lattice l -> consistent trueN l -> 0 <= p < trueN ->
  exists x y, 0 <= x < L l /\ 0 <= y < L l /\
              pos_of l p 0 = Some x /\ pos_of l p 1 = Some y /\
              site_of l x y = Some p.
Proof.
  intros Hwf Hc Hp. destruct (consistent_cells l trueN Hwf Hc) as [Hr Hi].
  destruct Hc as (Hcount & Hb & _).
  destruct (every_particle_placed _ _ Hcount Hr Hi p Hp) as [i Hv].
  destruct Hwf as (HL & _ & Hlen & _).
  pose proof (lookup_lt_Some _ _ _ Hv) as Hlt. rewrite Hlen in Hlt.
  destruct (site_coords l i HL ltac:(lia)) as (x & y & Hx & Hy & Hs).
  assert (site_of l x y = Some p) as Hsite by (unfold site_of; rewrite Hs; exact Hv).
  assert (p <> MY_EMPTY) as Hne by (unfold MY_EMPTY; lia).
  destruct (Hb x y p Hx Hy Hsite Hne) as (_ & H0 & H1).
  exists x, y. auto.
Qed.

End LatticeGeometry.

(** ** One attempt of [updateLattice] *)

Section LatticeUpdate.

Import DiffCoef.

(** A particle hops from [(x, y)] to the empty site [(nx, ny)]. *)
Lemma hop_consistent (l : lattice) (trueN p x y nx ny : Z) (tru : list Z) :
  wf_lattice l -> consistent trueN l -> 0 <= p < trueN ->
  0 <= x < L l -> 0 <= y < L l -> 0 <= nx < L l -> 0 <= ny < L l ->
  pos_of l p 0 = Some x -> pos_of l p 1 = Some y ->
  site_of l x y = Some p -> site_of l nx ny = Some MY_EMPTY ->
  length tru = length (truePositionOfParticle l) ->
  let l' :=
    set_truePositionOfParticle
      (set_positionOfParticle
         (set_particleOfSite l
            (<[Z.to_nat (SITE l x y) := MY_EMPTY]>
               (<[Z.to_nat (SITE l nx ny) := p]> (particleOfSite l))))
         (<[Z.to_nat (POS p 1) := ny]>
            (<[Z.to_nat (POS p 0) := nx]> (positionOfParticle l)))) tru in
  wf_lattice l' /\ consistent trueN l'.
Proof.
  intros Hwf Hc Hp Hx Hy Hnx Hny Hp0 Hp1 Hsp Hse Htru l'.
  pose proof Hwf as (HL & HV & Hlen & Hlpos & Hlz & Hlt & Hplus & Hminus).
  pose proof Hc as (Hcount & Hb & Hd).
  unfold site_of in Hsp, Hse. unfold pos_of in Hp0, Hp1.
  set (a := particleOfSite l) in *. set (pos := positionOfParticle l) in *.
  set (i := Z.to_nat (SITE l x y)) in *. set (j := Z.to_nat (SITE l nx ny)) in *.
  pose proof (lookup_lt_Some _ _ _ Hsp) as Hi.
  pose proof (lookup_lt_Some _ _ _ Hse) as Hj.
  pose proof (lookup_lt_Some _ _ _ Hp0) as Hq0.
  pose proof (lookup_lt_Some _ _ _ Hp1) as Hq1.
  assert (p <> MY_EMPTY) as Hpne by (unfold MY_EMPTY; lia).
  assert (i <> j) as Hij by (intros E; rewrite E in Hsp; congruence).
  assert (forall x' y' q,
             0 <= x' < L l -> 0 <= y' < L l ->
             (<[i := MY_EMPTY]> (<[j := p]> a)) !! Z.to_nat (SITE l x' y') = Some q ->
             q <> MY_EMPTY ->
             0 <= q < trueN /\
             (<[Z.to_nat (POS p 1) := ny]> (<[Z.to_nat (POS p 0) := nx]> pos))
               !! Z.to_nat (POS q 0) = Some x' /\
             (<[Z.to_nat (POS p 1) := ny]> (<[Z.to_nat (POS p 0) := nx]> pos))
               !! Z.to_nat (POS q 1) = Some y') as Hb'.
  { intros x' y' q Hx' Hy' Hs Hq.
    destruct (Nat.eq_dec (Z.to_nat (SITE l x' y')) i) as [Ei|Ni].
    { rewrite Ei, list_lookup_insert_eq in Hs by (rewrite length_insert; exact Hi).
      congruence. }
    rewrite list_lookup_insert_ne in Hs by congruence.
    destruct (Nat.eq_dec (Z.to_nat (SITE l x' y')) j) as [Ej|Nj].
    - rewrite Ej, list_lookup_insert_eq in Hs by exact Hj. injection Hs as <-.
      pose proof (site_range l x' y' Hx' Hy'). pose proof (site_range l nx ny Hnx Hny).
      destruct (site_inj l x' y' nx ny Hx' Hy' Hnx Hny ltac:(subst j; lia)) as [-> ->].
      split; [exact Hp|]. split.
      + rewrite list_lookup_insert_ne by (apply pos_index_ne; lia).
        apply list_lookup_insert_eq. exact Hq0.
      + apply list_lookup_insert_eq. rewrite length_insert. exact Hq1.
    - rewrite list_lookup_insert_ne in Hs by congruence.
      destruct (Hb x' y' q Hx' Hy' Hs Hq) as (Hqr & Hq0' & Hq1').
      assert (q <> p) as Hqp.
      { intros ->. destruct (Hd x' y' x y p Hx' Hy' Hx Hy Hs Hsp Hpne) as [-> ->].
        apply Ni. reflexivity. }
      split; [exact Hqr|]. unfold pos_of in Hq0', Hq1'. fold pos in Hq0', Hq1'.
      rewrite !list_lookup_insert_ne by (apply pos_index_ne; lia). auto. }
  split.
  - unfold wf_lattice. subst l'. cbn [L particleOfSite positionOfParticle
      zeroPositionOfParticle truePositionOfParticle plusNeighbor minusNeighbor
      set_truePositionOfParticle set_positionOfParticle set_particleOfSite].
    rewrite !length_insert. fold a pos. rewrite Htru. auto 10.
  - unfold consistent, site_of, pos_of, SITE. subst l'.
    cbn [L particleOfSite positionOfParticle
      set_truePositionOfParticle set_positionOfParticle set_particleOfSite].
    fold a pos.
    split; [|split].
    + rewrite (count_occupied_insert _ i MY_EMPTY p)
        by (rewrite list_lookup_insert_ne by congruence; exact Hsp).
      rewrite (count_occupied_insert _ j p MY_EMPTY) by exact Hse.
      destruct (Z.eqb_spec p MY_EMPTY); [contradiction|].
      change (MY_EMPTY =? MY_EMPTY) with true. lia.
    + intros x' y' q Hx' Hy' Hs Hq. apply (Hb' x' y' q Hx' Hy' Hs Hq).
    + intros x1 y1 x2 y2 q Hx1 Hy1 Hx2 Hy2 Hs1 Hs2 Hq.
      destruct (Hb' x1 y1 q Hx1 Hy1 Hs1 Hq) as (_ & A0 & A1).
      destruct (Hb' x2 y2 q Hx2 Hy2 Hs2 Hq) as (_ & B0 & B1).
      split; congruence.
Qed.

Lemma bind_Done {A B : Type} (f : A -> outcome B) (a : A) :
  mbind f (Done a) = f a.
Proof. reflexivity. Qed.

Lemma call_myrand_pcg32 (w : world) :
  call_myrand (WK := worker_pcg32) w
  = (Double.div (Double.of_Z (fst (Pcg32.pcg32_random_r (worker w))))
                (Double.add (Double.of_Z UINT32_MAX) Double.one),
     {| master := master w;
        worker := snd (Pcg32.pcg32_random_r (worker w));
        trace := trace w
                 ++ [EvMyrand
                       (Double.div
                          (Double.of_Z (fst (Pcg32.pcg32_random_r (worker w))))
                          (Double.add (Double.of_Z UINT32_MAX) Double.one))] |}).
Proof. reflexivity. Qed.

Lemma neighbor_site_in_range (l : lattice) (dir x y : Z) :
  wf_lattice l -> 0 <= dir <= 3 -> 0 <= x < L l -> 0 <= y < L l ->
  exists nx ny, neighbor_site l dir x y = Done (nx, ny) /\
                0 <= nx < L l /\ 0 <= ny < L l.
Proof.
  intros (HL & _ & _ & _ & _ & _ & Hplus & Hminus) Hdir Hx Hy.
  assert (dir = 0 \/ dir = 1 \/ dir = 2 \/ dir = 3) as [ -> | [ -> | [ -> | -> ] ] ] by lia;
    unfold neighbor_site.
  - rewrite (aget_Done _ x _ ltac:(lia) (Hplus x Hx)), bind_Done.
    eexists _, _. split; [reflexivity|]. destruct (Z.eqb_spec x (L l - 1)); lia.
  - rewrite (aget_Done _ x _ ltac:(lia) (Hminus x Hx)), bind_Done.
    eexists _, _. split; [reflexivity|]. destruct (Z.eqb_spec x 0); lia.
  - rewrite (aget_Done _ y _ ltac:(lia) (Hplus y Hy)), bind_Done.
    eexists _, _. split; [reflexivity|]. destruct (Z.eqb_spec y (L l - 1)); lia.
  - rewrite (aget_Done _ y _ ltac:(lia) (Hminus y Hy)), bind_Done.
    eexists _, _. split; [reflexivity|]. destruct (Z.eqb_spec y 0); lia.
Qed.

Lemma shift_true_position_length (l : lattice) (dir p : Z) :
  0 <= dir <= 3 -> 0 <= p ->
  POS p 1 < Z.of_nat (length (truePositionOfParticle l)) ->
  exists tru, shift_true_position l dir p = Done tru /\
              length tru = length (truePositionOfParticle l).
Proof.
  intros Hdir Hp Hlen.
  assert (0 <= POS p 0 < Z.of_nat (length (truePositionOfParticle l)) /\
          0 <= POS p 1 < Z.of_nat (length (truePositionOfParticle l))) as [H0 H1]
    by (unfold POS, DIM in *; lia).
  destruct (lookup_in_range _ _ H0) as [v0 Hv0].
  destruct (lookup_in_range _ _ H1) as [v1 Hv1].
  assert (dir = 0 \/ dir = 1 \/ dir = 2 \/ dir = 3) as [ -> | [ -> | [ -> | -> ] ] ] by lia;
    unfold shift_true_position.
  - rewrite (aget_Done _ _ _ (proj1 H0) Hv0), bind_Done, (aset_Done _ _ _ H0).
    eexists. split; [reflexivity | apply length_insert].
  - rewrite (aget_Done _ _ _ (proj1 H0) Hv0), bind_Done, (aset_Done _ _ _ H0).
    eexists. split; [reflexivity | apply length_insert].
  - rewrite (aget_Done _ _ _ (proj1 H1) Hv1), bind_Done, (aset_Done _ _ _ H1).
    eexists. split; [reflexivity | apply length_insert].
  - rewrite (aget_Done _ _ _ (proj1 H1) Hv1), bind_Done, (aset_Done _ _ _ H1).
    eexists. split; [reflexivity | apply length_insert].
Qed.

End LatticeUpdate.

Section LatticeAttempt.

Import DiffCoef.

Lemma site_in_array (l : lattice) (x y : Z) :
  wf_lattice l -> 0 <= x < L l -> 0 <= y < L l ->
  0 <= SITE l x y < Z.of_nat (length (particleOfSite l)).
Proof.
  intros (HL & _ & Hlen & _) Hx Hy. pose proof (site_range l x y Hx Hy).
  rewrite Hlen. lia.
Qed.

Lemma pos_in_array (l : lattice) (p mu : Z) :
  wf_lattice l -> 0 <= p < L l * L l -> 0 <= mu <= 1 ->
  0 <= POS p mu < Z.of_nat (length (positionOfParticle l)) /\
  0 <= POS p mu < Z.of_nat (length (truePositionOfParticle l)).
Proof.
  intros (HL & _ & _ & Hlpos & _ & Hlt & _) Hp Hmu.
  rewrite Hlpos, Hlt. unfold POS, DIM. lia.
Qed.

(** One attempt completes and keeps the lattice consistent; it draws
    twice from the worker and touches nothing else. *)
Lemma attempt_preserves (trueN : Z) (l : lattice) (w : world) :
  wf_lattice l -> consistent trueN l -> 0 < trueN ->
  exists l' w',
    attempt trueN (l, w) = Done (l', w') /\
    wf_lattice l' /\ consistent trueN l' /\
    zeroPositionOfParticle l' = zeroPositionOfParticle l /\
    master w' = master w /\
    exists r1 r2, trace w' = trace w ++ [EvMyrand r1; EvMyrand r2].
Proof.
  intros Hwf Hc HN.
  pose proof (consistent_le_volume l trueN Hwf Hc) as HNV.
  pose proof Hwf as (HL & HV & Hlen & Hlpos & Hlz & Hlt & _ & _).
  unfold attempt. rewrite call_myrand_pcg32. cbv beta iota zeta.
  assert (0 < trueN < 2 ^ 63) as HN63 by lia.
  destruct (particle_pick_in_range (fst (Pcg32.pcg32_random_r (worker w))) trueN
              (pcg32_random_r_u32 _) HN63) as (p & Hpick & Hp).
  rewrite Hpick, bind_Done.
  destruct (particle_position l trueN p Hwf Hc Hp)
    as (x & y & Hx & Hy & Hp0 & Hp1 & Hs).
  assert (0 <= POS p 0 /\ 0 <= POS p 1) as [Hi0 Hi1] by (unfold POS, DIM; lia).
  rewrite (aget_Done _ _ x Hi0 Hp0), bind_Done.
  rewrite (aget_Done _ _ y Hi1 Hp1), bind_Done.
  rewrite call_myrand_pcg32. cbv beta iota zeta. cbn [worker master trace].
  destruct (direction_in_range
              (fst (Pcg32.pcg32_random_r (snd (Pcg32.pcg32_random_r (worker w)))))
              (pcg32_random_r_u32 _)) as (dir & Hdir & Hd).
  rewrite Hdir, bind_Done.
  replace ((dir <? 0) || (3 <? dir)) with false
    by (symmetry; apply orb_false_iff; split; apply Z.ltb_ge; lia).
  destruct (neighbor_site_in_range l dir x y Hwf Hd Hx Hy)
    as (nx & ny & Hn & Hnx & Hny).
  rewrite Hn, bind_Done.
  pose proof (site_in_array l nx ny Hwf Hnx Hny) as Hsn.
  pose proof (site_in_array l x y Hwf Hx Hy) as Hsx.
  destruct (pos_in_array l p 0 Hwf ltac:(lia) ltac:(lia)) as [Hq0 _].
  destruct (pos_in_array l p 1 Hwf ltac:(lia) ltac:(lia)) as [Hq1 Hq1t].
  destruct (lookup_in_range (particleOfSite l) (SITE l nx ny) Hsn) as [s Hsv].
  rewrite (aget_Done _ _ s (proj1 Hsn) Hsv), bind_Done.
  set (w2 := {| master := master w; worker := _; trace := _ |}).
  assert (master w2 = master w /\
          exists r1 r2, trace w2 = trace w ++ [EvMyrand r1; EvMyrand r2]) as Hw2.
  { split; [reflexivity|]. subst w2. cbn [trace]. rewrite <- app_assoc.
    eexists _, _. reflexivity. }
  destruct (Z.eqb_spec s MY_EMPTY) as [->|Hocc]; cbn [negb].
  - rewrite (aset_Done _ _ _ Hsn), bind_Done.
    rewrite (aset_Done (<[_ := _]> _) (SITE l x y)), bind_Done
      by (rewrite length_insert; exact Hsx).
    rewrite (aset_Done _ _ _ Hq0), bind_Done.
    rewrite (aset_Done (<[_ := _]> _) (POS p 1)), bind_Done
      by (rewrite length_insert; exact Hq1).
    destruct (shift_true_position_length l dir p Hd ltac:(lia) (proj2 Hq1t))
      as (tru & Htru & Hlt').
    rewrite Htru, bind_Done.
    eexists _, w2. split; [reflexivity|].
    destruct (hop_consistent l trueN p x y nx ny tru Hwf Hc Hp Hx Hy Hnx Hny
                Hp0 Hp1 Hs Hsv Hlt') as [Hwf' Hc'].
    split; [exact Hwf'|]. split; [exact Hc'|]. split; [reflexivity | exact Hw2].
  - exists l, w2. split; [reflexivity|]. auto.
Qed.

End LatticeAttempt.

(** ** The sweep *)

Lemma for_up_invariant {S : Type} (P : S -> Prop) (body : Z -> S -> outcome S) :
  (forall i s, P s -> exists s', body i s = Done s' /\ P s') ->
  forall n i s, P s -> exists s', for_up n i body s = Done s' /\ P s'.
Proof.
  intros Hbody n. induction n as [|n IH]; intros i s Hs; cbn [for_up].
  - exists s. split; [reflexivity | exact Hs].
  - destruct (Hbody i s Hs) as (s1 & -> & Hs1). rewrite bind_Done.
    apply IH. exact Hs1.
Qed.

Lemma for_up_indexed {S : Type} (P : Z -> S -> Prop) (body : Z -> S -> outcome S) :
  forall n i s,
    (forall j s, i <= j < i + Z.of_nat n -> P j s ->
                 exists s', body j s = Done s' /\ P (j + 1) s') ->
    P i s ->
    exists s', for_up n i body s = Done s' /\ P (i + Z.of_nat n) s'.
Proof.
  induction n as [|n IH]; intros i s Hbody Hs; cbn [for_up].
  - exists s. rewrite Z.add_0_r. split; [reflexivity | exact Hs].
  - destruct (Hbody i s ltac:(lia) Hs) as (s1 & -> & Hs1). rewrite bind_Done.
    destruct (IH (i + 1) s1) as (s2 & Hrun & Hs2).
    + intros j s' Hj. apply Hbody. lia.
    + exact Hs1.
    + exists s2. split; [exact Hrun|].
      replace (i + Z.of_nat (Datatypes.S n)) with (i + 1 + Z.of_nat n) by lia. exact Hs2.
Qed.

(** A loop whose rounds are counted from 0. *)
Lemma for_up_rounds {S : Type} (P : nat -> S -> Prop) (body : Z -> S -> outcome S) :
  forall n s,
    (forall k s, (k < n)%nat -> P k s ->
                 exists s', body (Z.of_nat k) s = Done s' /\ P (Datatypes.S k) s') ->
    P 0%nat s ->
    exists s', for_up n 0 body s = Done s' /\ P n s'.
Proof.
  intros n s Hbody Hs.
  destruct (for_up_indexed (fun j s => 0 <= j /\ P (Z.to_nat j) s) body n 0 s)
    as (s' & Hrun & _ & Hs').
  - intros j s1 Hj [_ H1].
    destruct (Hbody (Z.to_nat j) s1 ltac:(lia) H1) as (s2 & Hb & H2).
    rewrite Z2Nat.id in Hb by lia. exists s2. split; [exact Hb|].
    split; [lia|]. replace (Z.to_nat (j + 1)) with (Datatypes.S (Z.to_nat j)) by lia.
    exact H2.
  - split; [lia | exact Hs].
  - exists s'. split; [exact Hrun|]. rewrite Z.add_0_l, Nat2Z.id in Hs'. exact Hs'.
Qed.

(** The same for a loop whose rounds may, when [u] is set, run into
    undefined behaviour. *)
Lemma for_up_rounds_upto {S : Type} (u : bool) (P : nat -> S -> Prop)
  (body : Z -> S -> outcome S) :
  forall n s,
    (forall k s, (k < n)%nat -> P k s ->
                 (exists s', body (Z.of_nat k) s = Done s' /\ P (Datatypes.S k) s') \/
                 (u = true /\ body (Z.of_nat k) s = Undefined)) ->
    P 0%nat s ->
    (exists s', for_up n 0 body s = Done s' /\ P n s') \/
    (u = true /\ for_up n 0 body s = Undefined).
Proof.
  assert (forall n k s,
             P k s ->
             (forall j s, (k <= j < k + n)%nat -> P j s ->
                          (exists s', body (Z.of_nat j) s = Done s' /\
                                      P (Datatypes.S j) s') \/
                          (u = true /\ body (Z.of_nat j) s = Undefined)) ->
             (exists s', for_up n (Z.of_nat k) body s = Done s' /\ P (k + n)%nat s') \/
             (u = true /\ for_up n (Z.of_nat k) body s = Undefined)) as H.
  { induction n as [|n IH]; intros k s Hs Hbody; cbn [for_up].
    - left. exists s. rewrite Nat.add_0_r. split; [reflexivity | exact Hs].
    - destruct (Hbody k s ltac:(lia) Hs) as [(s1 & -> & Hs1) | [Hu ->]];
        [|right; split; [exact Hu | reflexivity]].
      rewrite bind_Done.
      replace (Z.of_nat k + 1) with (Z.of_nat (Datatypes.S k)) by lia.
      replace (k + Datatypes.S n)%nat with (Datatypes.S k + n)%nat by lia.
      apply IH; [exact Hs1|]. intros j s' Hj. apply Hbody. lia. }
  intros n s Hbody Hs. apply (H n 0%nat s Hs). intros j s' Hj. apply Hbody. lia.
Qed.

Section LatticeSweep.

Import DiffCoef.

(** A sweep completes, keeps the lattice consistent and the initial
    positions untouched, leaves the master alone and only draws. *)
Lemma updateLattice_sweep (trueN : Z) (l : lattice) (w : world) :
  wf_lattice l -> consistent trueN l ->
  exists l' w',
    updateLattice trueN (l, w) = Done (l', w') /\
    wf_lattice l' /\ consistent trueN l' /\
    zeroPositionOfParticle l' = zeroPositionOfParticle l /\
    master w' = master w /\
    exists draws, trace w' = trace w ++ draws /\ forallb is_draw draws = true.
Proof.
  intros Hwf Hc. unfold updateLattice.
  destruct (Z.le_gt_cases trueN 0) as [Hle|Hgt].
  { replace (Z.to_nat trueN) with 0%nat by lia. cbn [for_up].
    exists l, w. do 5 (split; [assumption || reflexivity|]).
    exists (@nil event). rewrite app_nil_r. split; reflexivity. }
  set (P := fun lw : lattice * world =>
              wf_lattice (fst lw) /\ consistent trueN (fst lw) /\
              zeroPositionOfParticle (fst lw) = zeroPositionOfParticle l /\
              master (snd lw) = master w /\
              exists draws, trace (snd lw) = trace w ++ draws /\
                            forallb is_draw draws = true).
  assert (forall (i : Z) (s : lattice * world),
             P s -> exists s', attempt trueN s = Done s' /\ P s') as Hbody.
  { intros _ [l1 w1] (Hwf1 & Hc1 & Hz1 & Hm1 & ds & Ht1 & Hd1). cbn [fst snd] in *.
    destruct (attempt_preserves trueN l1 w1 Hwf1 Hc1 Hgt)
      as (l2 & w2 & Hrun & Hwf2 & Hc2 & Hz2 & Hm2 & r1 & r2 & Ht2).
    exists (l2, w2). split; [exact Hrun|]. unfold P. cbn [fst snd].
    do 4 (split; [assumption || congruence|]).
    exists (ds ++ [EvMyrand r1; EvMyrand r2]).
    rewrite Ht2, Ht1, app_assoc, forallb_app, Hd1. split; reflexivity. }
  assert (P (l, w)) as HP0.
  { unfold P. cbn [fst snd]. do 4 (split; [assumption || reflexivity|]).
    exists (@nil event). rewrite app_nil_r. split; reflexivity. }
  destruct (for_up_invariant P (fun _ lw => attempt trueN lw) Hbody
              (Z.to_nat trueN) 0 (l, w) HP0) as ([l' w'] & Hrun & HP).
  exists l', w'. split; [exact Hrun|]. exact HP.
Qed.

End LatticeSweep.

(** C10: from every lattice state with exactly [trueN] occupied sites,
    each holding a distinct particle index below [trueN] whose recorded
    position is that site, [updateLattice(trueN)] completes in a state that
    satisfies the same predicate, with [zeroPositionOfParticle] unchanged. *)
Theorem updateLattice_preserves_consistency
  (trueN : Z) (l : DiffCoef.lattice) (w : world) :
  wf_lattice l -> consistent trueN l ->
  exists l' w',
    DiffCoef.updateLattice trueN (l, w) = Done (l', w') /\
    wf_lattice l' /\ consistent trueN l' /\
    DiffCoef.zeroPositionOfParticle l' = DiffCoef.zeroPositionOfParticle l.
Proof.
  intros Hwf Hc.
  destruct (updateLattice_sweep trueN l w Hwf Hc)
    as (l' & w' & Hrun & Hwf' & Hc' & Hz & _).
  exists l', w'. auto.
Qed.

Lemma lattice_example_wf : wf_lattice lattice_example.
Proof.
  unfold wf_lattice, lattice_example. cbn.
  repeat split; try lia; try reflexivity;
    intros i Hi; assert (i = 0 \/ i = 1) as [ -> | -> ] by lia; reflexivity.
Qed.

Lemma lattice_example_consistent : consistent 1 lattice_example.
Proof.
  assert (forall x y p,
             0 <= x < 2 -> 0 <= y < 2 ->
             site_of lattice_example x y = Some p -> p <> DiffCoef.MY_EMPTY ->
             x = 0 /\ y = 0 /\ p = 0) as Hsite.
  { intros x y p Hx Hy.
    assert ((x = 0 \/ x = 1) /\ (y = 0 \/ y = 1)) as [[ -> | -> ] [ -> | -> ]] by lia;
      intros H Hp; vm_compute in H; injection H as <-; try contradiction; auto. }
  split; [reflexivity|]. split.
  - intros x y p Hx Hy H Hp. destruct (Hsite x y p Hx Hy H Hp) as (-> & -> & ->).
    split; [lia|]. split; reflexivity.
  - intros x y x' y' p Hx Hy Hx' Hy' H H' Hp.
    destruct (Hsite x y p Hx Hy H Hp) as (-> & -> & _).
    destruct (Hsite x' y' p Hx' Hy' H' Hp) as (-> & -> & _). auto.
Qed.

Lemma updateLattice_preserves_consistency_witness :
  exists l' w',
    DiffCoef.updateLattice 1 (lattice_example, world_at_start) = Done (l', w') /\
    wf_lattice l' /\ consistent 1 l' /\
    DiffCoef.zeroPositionOfParticle l'
    = DiffCoef.zeroPositionOfParticle lattice_example.
Proof.
  apply (updateLattice_preserves_consistency 1 lattice_example world_at_start).
  - exact lattice_example_wf.
  - exact lattice_example_consistent.
Defined.

(** * The run loops and their seeding *)

(** ** Windows of a trace *)

Lemma scan_app (t1 t2 : list event) :
  forall ws cur,
    scan ws cur (t1 ++ t2)
    = scan (fst (scan ws cur t1)) (snd (scan ws cur t1)) t2.
Proof.
  induction t1 as [|e t1 IH]; intros ws cur; [reflexivity|].
  destruct e; cbn [app scan]; apply IH.
Qed.

Lemma scan_no_mark (evs : list event) :
  forallb (fun e => negb (is_mark e)) evs = true ->
  forall ws cur, scan ws cur evs = (ws, cur ++ evs).
Proof.
  induction evs as [|e evs IH]; intros H ws cur.
  - rewrite app_nil_r. reflexivity.
  - cbn [forallb] in H. apply andb_true_iff in H as [He Hr].
    destruct e; try discriminate; cbn [scan]; rewrite (IH Hr), <- app_assoc; reflexivity.
Qed.

(** A completed round appends one window: what was pending and the calls
    of the round. *)
Lemma scan_round (tr evs : list event) (k : Z) (ws : list (list event))
  (cur : list event) :
  scan [] [] tr = (ws, cur) ->
  forallb (fun e => negb (is_mark e)) evs = true ->
  scan [] [] (tr ++ evs ++ [EvRunDone k]) = (ws ++ [cur ++ evs], []).
Proof.
  intros Htr Hevs. rewrite scan_app, Htr. cbn [fst snd].
  rewrite scan_app, (scan_no_mark evs Hevs). reflexivity.
Qed.

Lemma draws_no_mark (ds : list event) :
  forallb is_draw ds = true -> forallb (fun e => negb (is_mark e)) ds = true.
Proof.
  intros H. apply forallb_forall. intros e He.
  rewrite forallb_forall in H. specialize (H e He). destruct e; try discriminate; reflexivity.
Qed.

Lemma repeat_up_invariant {S : Type} (P : nat -> S -> Prop) (body : Z -> S -> S) :
  (forall k i s, P k s -> P (Datatypes.S k) (body i s)) ->
  forall n k i s, P k s -> P (n + k)%nat (repeat_up n i body s).
Proof.
  intros Hbody n. induction n as [|n IH]; intros k i s Hs; cbn [repeat_up].
  - exact Hs.
  - replace (Datatypes.S n + k)%nat with (n + Datatypes.S k)%nat by lia.
    apply IH, Hbody, Hs.
Qed.

Lemma repeat_up_rounds {S : Type} (P : nat -> S -> Prop) (body : Z -> S -> S) :
  (forall k i s, P k s -> P (Datatypes.S k) (body i s)) ->
  forall n i s, P 0%nat s -> P n (repeat_up n i body s).
Proof.
  intros Hbody n i s Hs.
  pose proof (repeat_up_invariant P body Hbody n 0%nat i s Hs) as H.
  rewrite Nat.add_0_r in H. exact H.
Qed.

(** ** Calls and their traces *)

Section CallTraces.

Context {SG : SeedGenerator} {WK : Worker}.

Lemma call_myrand_trace (w : world) :
  master (snd (call_myrand w)) = master w /\
  exists r, trace (snd (call_myrand w)) = trace w ++ [EvMyrand r].
Proof.
  unfold call_myrand. destruct (myrand (worker w)) as [r g]. cbn [snd master trace].
  split; [reflexivity|]. exists r. reflexivity.
Qed.

(** Two seeds from the master, then the worker seeded with them. *)
Lemma seed_round_trace (w : world) :
  let w3 := call_myrand_init (fst (call_generate_seed w))
              (fst (call_generate_seed (snd (call_generate_seed w))))
              (snd (call_generate_seed (snd (call_generate_seed w)))) in
  exists a b,
    trace w3 = trace w ++ [EvGenerateSeed a; EvGenerateSeed b; EvMyrandInit a b].
Proof.
  unfold call_myrand_init, call_generate_seed.
  destruct (generate_seed (master w)) as [a m1]. cbn [fst snd master trace worker].
  destruct (generate_seed m1) as [b m2]. cbn [fst snd master trace worker].
  exists a, b. rewrite <- !app_assoc. reflexivity.
Qed.

End CallTraces.

(** The rounds seen so far are all freshly seeded; nothing is pending,
    except the seeding of the master before the first round. *)
Lemma freshly_seeded_round (pend ds : list event) (a b : Z) :
  pend = [] \/ (exists st seq, pend = [EvSeedgenInit st seq]) ->
  forallb is_draw ds = true ->
  freshly_seeded
    (pend ++ [EvGenerateSeed a; EvGenerateSeed b; EvMyrandInit a b] ++ ds) = true.
Proof.
  intros [->|(st & seq & ->)] Hds; cbn [app freshly_seeded seeded_then_draws];
    rewrite !Z.eqb_refl, Hds; reflexivity.
Qed.

(** ** The two walk programs *)

Lemma rounds_seeded_step (k : nat) (w w' : world) (a b run : Z) (ds : list event) :
  rounds_seeded k w ->
  forallb is_draw ds = true ->
  trace w'
  = trace w ++ ([EvGenerateSeed a; EvGenerateSeed b; EvMyrandInit a b] ++ ds)
    ++ [EvRunDone run] ->
  rounds_seeded (Datatypes.S k) w'.
Proof.
  intros (ws & pend & Hscan & Hlen & Hall & Hpend) Hds Htr.
  exists (ws ++ [pend ++ [EvGenerateSeed a; EvGenerateSeed b; EvMyrandInit a b] ++ ds]),
    (@nil event).
  split; [|split; [|split]].
  - rewrite Htr. apply scan_round; [exact Hscan|].
    cbn [app forallb is_mark negb andb]. apply draws_no_mark, Hds.
  - rewrite length_app. cbn [length]. lia.
  - rewrite forallb_app, Hall. cbn [forallb andb]. rewrite andb_true_r.
    apply freshly_seeded_round; [|exact Hds].
    destruct ws; [right; exact Hpend | left; exact Hpend].
  - destruct ws; reflexivity.
Qed.

Lemma rounds_seeded_windows (n : nat) (w : world) :
  rounds_seeded n w ->
  length (windows (trace w)) = n /\ forallb freshly_seeded (windows (trace w)) = true.
Proof.
  intros (ws & pend & Hscan & Hlen & Hall & _). unfold windows. rewrite Hscan. auto.
Qed.

Lemma walk1d_trace (iterations : Z) (w : world) :
  exists ds, trace (snd (Walk1d.walk iterations w)) = trace w ++ ds /\
             forallb is_draw ds = true.
Proof.
  unfold Walk1d.walk.
  apply (repeat_up_rounds
           (fun _ st => exists ds, trace (snd st) = trace w ++ ds /\
                                   forallb is_draw ds = true)).
  - intros _ i [[position time] w1] (ds & Ht & Hd). cbn [snd] in *.
    pose proof (call_myrand_trace (WK := worker_main_dat) w1) as [_ [r Hr]].
    destruct (call_myrand w1) as [a w2]. cbn [snd] in *.
    exists (ds ++ [EvMyrand r]). rewrite Hr, Ht, app_assoc, forallb_app, Hd.
    split; reflexivity.
  - exists (@nil event). cbn [snd]. rewrite app_nil_r. split; reflexivity.
Qed.

Lemma walk2d_trace (iterations : Z) (w : world) :
  exists ds, trace (snd (Walk2d.walk iterations w)) = trace w ++ ds /\
             forallb is_draw ds = true.
Proof.
  unfold Walk2d.walk.
  apply (repeat_up_rounds
           (fun _ st => exists ds, trace (snd st) = trace w ++ ds /\
                                   forallb is_draw ds = true)).
  - intros _ i [pos w1] (ds & Ht & Hd). cbn [snd] in *.
    pose proof (call_myrand_trace (WK := worker_2d_ran_walk) w1) as [_ [r Hr]].
    destruct (call_myrand w1) as [a w2]. cbn [snd] in *.
    exists (ds ++ [EvMyrand r]). rewrite Hr, Ht, app_assoc, forallb_app, Hd.
    split; reflexivity.
  - exists (@nil event). cbn [snd]. rewrite app_nil_r. split; reflexivity.
Qed.

(** The byte count of [mtrx_alloc] for a number of cells that fits. *)
Lemma mtrx_alloc_bytes (env : environment) (k dim : Z) :
  0 <= dim < 2 ^ 61 ->
  Walk1d.mtrx_alloc env k dim = malloc_ok env k (8 * dim).
Proof.
  intros Hd. unfold Walk1d.mtrx_alloc, u64.
  rewrite (Z.mod_small dim) by lia. rewrite Z.mod_small by lia.
  f_equal. lia.
Qed.

(** The loop with its squares is the loop of [walk], unless a square
    leaves [int], which takes a position beyond 46340. *)
Lemma walk_squared_cases (u : bool) (iterations : Z) (w : world) :
  (u = false -> iterations <= 46340) ->
  Walk1d.walk_squared iterations w = Done (Walk1d.walk iterations w) \/
  (u = true /\ Walk1d.walk_squared iterations w = Undefined).
Proof.
  intros Hu. unfold Walk1d.walk_squared, Walk1d.walk.
  assert (forall n i position time w1,
             (u = false -> Z.abs position + Z.of_nat n <= 46340) ->
             for_up n i
               (fun (_ : Z) (st : Z * Z * world) =>
                  let '((position, time), w) := st in
                  let '(a, w) := call_myrand (WK := worker_main_dat) w in
                  let position :=
                    if SFltb Double.half a then position + 1 else position - 1 in
                  pos_sqr ← Walk1d.square position;
                  mret ((position, time + 1), w))
               ((position, time), w1)
             = Done (repeat_up n i
                       (fun (_ : Z) (st : Z * Z * world) =>
                          let '((position, time), w) := st in
                          let '(a, w) := call_myrand (WK := worker_main_dat) w in
                          let position :=
                            if SFltb Double.half a then position + 1 else position - 1 in
                          ((position, time + 1), w))
                       ((position, time), w1)) \/
             (u = true /\
              for_up n i
                (fun (_ : Z) (st : Z * Z * world) =>
                   let '((position, time), w) := st in
                   let '(a, w) := call_myrand (WK := worker_main_dat) w in
                   let position :=
                     if SFltb Double.half a then position + 1 else position - 1 in
                   pos_sqr ← Walk1d.square position;
                   mret ((position, time + 1), w))
                ((position, time), w1)
              = Undefined)) as H.
  { induction n as [|n IH]; intros i position time w1 Hb; cbn [for_up repeat_up].
    - left. reflexivity.
    - destruct (call_myrand (WK := worker_main_dat) w1) as [a w2]. cbv zeta.
      set (p := if SFltb Double.half a then position + 1 else position - 1).
      assert (Z.abs p <= Z.abs position + 1) as Hp
        by (subst p; destruct (SFltb Double.half a); lia).
      unfold Walk1d.square.
      destruct (Z.ltb_spec (p * p) (2 ^ 31)) as [Hsq|Hsq].
      + rewrite !bind_Done. apply IH. intros Hf. specialize (Hb Hf). lia.
      + destruct u.
        * right. split; reflexivity.
        * specialize (Hb eq_refl). exfalso.
          assert (Z.abs p * Z.abs p = p * p) by lia.
          assert (Z.abs p <= 46340) by lia. nia. }
  apply H. intros Hf. specialize (Hu Hf). lia.
Qed.

(** Every run of the 1D walk is freshly seeded; the program completes
    unless, when [u] is set, a square leaves [int]. *)
Lemma walk1d_main_seeded (u : bool) (env : environment) (runs iterations : Z)
  (m0 g0 : pcg32_random_t) :
  (u = false -> iterations <= 46340) ->
  0 <= iterations < 2 ^ 61 -> walk1d_granted env runs iterations ->
  (exists w,
      Walk1d.main env runs iterations {| master := m0; worker := g0; trace := [] |}
      = Done w /\
      rounds_seeded (Z.to_nat runs) w) \/
  (u = true /\
   Walk1d.main env runs iterations {| master := m0; worker := g0; trace := [] |}
   = Undefined).
Proof.
  intros Hu Hi Henv. unfold Walk1d.main. apply for_up_rounds_upto.
  - intros k w Hlt Hk.
    pose proof (seed_round_trace (SG := seedgen_1d) (WK := worker_main_dat) w)
      as (a & b & Hab). cbv zeta in Hab.
    destruct (call_generate_seed (SG := seedgen_1d) w) as [seed1 w1]. cbn [fst snd] in Hab.
    destruct (call_generate_seed (SG := seedgen_1d) w1) as [seed2 w2]. cbn [fst snd] in Hab.
    destruct (Henv (Z.of_nat k) ltac:(lia)) as [Hm Hf].
    rewrite (mtrx_alloc_bytes env _ iterations Hi), Hm, Hf. cbn [negb].
    destruct (walk_squared_cases u iterations
                (call_myrand_init (WK := worker_main_dat) seed1 seed2 w2) Hu)
      as [-> | [Hu' ->]]; [|right; split; [exact Hu' | reflexivity]].
    rewrite bind_Done.
    destruct (walk1d_trace iterations (call_myrand_init (WK := worker_main_dat) seed1 seed2 w2)) as (ds & Hds & Hd).
    destruct (Walk1d.walk iterations (call_myrand_init (WK := worker_main_dat) seed1 seed2 w2)) as [st w3].
    cbn [snd] in Hds.
    left. eexists. split; [reflexivity|].
    apply (rounds_seeded_step k w _ a b (Z.of_nat k) ds Hk Hd).
    unfold mark_run_done. cbn [trace]. rewrite Hds, Hab, <- !app_assoc. reflexivity.
  - exists (@nil (list event)), [EvSeedgenInit 12345 67890].
    split; [reflexivity|]. split; [reflexivity|]. split; [reflexivity|].
    exists 12345, 67890. reflexivity.
Qed.

(** Every run of the 2D walk is freshly seeded. *)
Lemma walk2d_main_seeded (env : environment) (runs iterations t_target : Z)
  (m0 g0 : pcg32_random_t) :
  0 < runs -> 0 < iterations -> 0 < t_target -> walk2d_granted env runs ->
  exists w,
    Walk2d.main env runs iterations t_target
      {| master := m0; worker := g0; trace := [] |}
    = Done w /\
    rounds_seeded (Z.to_nat runs) w.
Proof.
  intros Hr Hi Ht Henv. unfold Walk2d.main.
  destruct (Z.leb_spec runs 0); [lia|]. destruct (Z.leb_spec iterations 0); [lia|].
  destruct (Z.leb_spec t_target 0); [lia|].
  apply for_up_rounds.
  - intros k w Hlt Hk.
    rewrite (Henv (Z.of_nat k)) by lia. cbn [negb].
    pose proof (seed_round_trace (SG := seedgen_2d) (WK := worker_2d_ran_walk) w)
      as (a & b & Hab). cbv zeta in Hab.
    destruct (call_generate_seed (SG := seedgen_2d) w) as [seed1 w1]. cbn [fst snd] in Hab.
    destruct (call_generate_seed (SG := seedgen_2d) w1) as [seed2 w2]. cbn [fst snd] in Hab.
    destruct (walk2d_trace iterations (call_myrand_init (WK := worker_2d_ran_walk) seed1 seed2 w2)) as (ds & Hds & Hd).
    destruct (Walk2d.walk iterations (call_myrand_init (WK := worker_2d_ran_walk) seed1 seed2 w2)) as [st w3].
    cbn [snd] in Hds.
    eexists. split; [reflexivity|].
    apply (rounds_seeded_step k w _ a b (Z.of_nat k) ds Hk Hd).
    unfold mark_run_done. cbn [trace]. rewrite Hds, Hab, <- !app_assoc. reflexivity.
  - exists (@nil (list event)), [EvSeedgenInit 12345 67890].
    split; [reflexivity|]. split; [reflexivity|]. split; [reflexivity|].
    exists 12345, 67890. reflexivity.
Qed.

(** ** The lattice-gas program: set-up *)

Section LatticeSetup.

Import DiffCoef.

(** The three allocation routines on a number of cells whose byte count
    does not wrap. *)
Lemma mtrxAlloc2d_eq (env : environment) (k rows cols bytes : Z) :
  0 <= rows * cols < 2 ^ 61 -> bytes = 8 * (rows * cols) ->
  mtrxAlloc2d env k rows cols
  = if malloc_ok env k bytes
    then Done (replicate (Z.to_nat (rows * cols)) (fresh_long env))
    else Exited.
Proof.
  intros Hn ->. unfold mtrxAlloc2d, fits_long, u64.
  destruct (Z.leb_spec (- 2 ^ 63) (rows * cols)); [|lia].
  destruct (Z.ltb_spec (rows * cols) (2 ^ 63)); [|lia]. cbn [andb negb].
  rewrite Z.mod_small by lia.
  replace (rows * cols * 8) with (8 * (rows * cols)) by lia.
  replace (8 * (rows * cols) / 8) with (rows * cols)
    by (symmetry; rewrite Z.mul_comm; apply Z.div_mul; lia).
  reflexivity.
Qed.

Lemma mtrxLongIntAlloc_eq (env : environment) (k n : Z) :
  0 <= n < 2 ^ 61 ->
  mtrxLongIntAlloc env k n
  = if malloc_ok env k (8 * n)
    then Done (replicate (Z.to_nat n) (fresh_long env))
    else Exited.
Proof.
  intros Hn. unfold mtrxLongIntAlloc, u64.
  rewrite (Z.mod_small n) by lia. rewrite Z.mod_small by lia.
  replace (n * 8) with (8 * n) by lia.
  replace (8 * n / 8) with n by (symmetry; rewrite Z.mul_comm; apply Z.div_mul; lia).
  reflexivity.
Qed.

Lemma mtrxDoubleAlloc_eq (env : environment) (k n : Z) :
  0 <= n < 2 ^ 61 ->
  mtrxDoubleAlloc env k n
  = if malloc_ok env k (8 * n)
    then Done (replicate (Z.to_nat n) (fresh_double env))
    else Exited.
Proof.
  intros Hn. unfold mtrxDoubleAlloc, u64.
  rewrite (Z.mod_small n) by lia. rewrite Z.mod_small by lia.
  replace (n * 8) with (8 * n) by lia.
  replace (8 * n / 8) with n by (symmetry; rewrite Z.mul_comm; apply Z.div_mul; lia).
  reflexivity.
Qed.

(** The loop that zeroes the two arrays of sums. *)
Lemma zero_sums (n : nat) (a e : list spec_float) :
  length a = n -> length e = n ->
  for_up n 0
    (fun m (sums : list spec_float * list spec_float) =>
       a ← dset (fst sums) m Double.zero;
       e ← dset (snd sums) m Double.zero;
       mret (a, e))
    (a, e)
  = Done (replicate n Double.zero, replicate n Double.zero).
Proof.
  intros Ha He.
  destruct (for_up_indexed
              (fun j (sums : list spec_float * list spec_float) =>
                 length (fst sums) = n /\ length (snd sums) = n /\
                 forall i, (i < Z.to_nat j)%nat ->
                           fst sums !! i = Some Double.zero /\
                           snd sums !! i = Some Double.zero)
              (fun m (sums : list spec_float * list spec_float) =>
                 a ← dset (fst sums) m Double.zero;
                 e ← dset (snd sums) m Double.zero;
                 mret (a, e))
              n 0 (a, e)) as ([a' e'] & Hrun & Ha' & He' & Hall).
  - intros j [a1 e1] Hj (Ha1 & He1 & Hall). cbn [fst snd] in *.
    rewrite !dset_Done by lia. rewrite !bind_Done.
    eexists. split; [reflexivity|]. cbn [fst snd]. rewrite !length_insert.
    split; [exact Ha1|]. split; [exact He1|]. intros i Hi.
    destruct (Nat.eq_dec i (Z.to_nat j)) as [->|Hne].
    + rewrite !list_lookup_insert_eq by lia. auto.
    + rewrite !list_lookup_insert_ne by lia. apply Hall. lia.
  - cbn [fst snd]. split; [exact Ha|]. split; [exact He|]. intros i Hi. lia.
  - rewrite Hrun. cbn [fst snd] in *. rewrite Z.add_0_l, Nat2Z.id in Hall.
    f_equal. f_equal; apply replicate_all; try assumption; intros i Hi; apply Hall, Hi.
Qed.

(** [myInit] on a lattice of positive side below 2^30, where no byte
    count wraps: it leaves the program when a block is refused or the
    sweeps are not a multiple of the measurements, and otherwise sets up
    the memory [wf_lattice] describes, with zeroed sums. *)
Lemma myInit_outcome (env : environment)
  (side num_measurements measurement_period num_sweeps : Z) :
  0 < side < 2 ^ 30 -> 0 <= num_measurements < 2 ^ 61 ->
  (lattice_blocks_granted env side = false ->
   myInit env side (side * side) num_measurements measurement_period num_sweeps
   = Exited) /\
  (lattice_blocks_granted env side = true ->
   exists l,
     wf_lattice l /\ L l = side /\
     myInit env side (side * side) num_measurements measurement_period num_sweeps
     = if num_measurements * measurement_period =? num_sweeps
       then if sum_blocks_granted env num_measurements
            then Done (l, (replicate (Z.to_nat num_measurements) Double.zero,
                           replicate (Z.to_nat num_measurements) Double.zero))
            else Exited
       else Exited).
Proof.
  intros Hside Hnm.
  assert (0 <= side * side < 2 ^ 60) as Hvol by nia.
  unfold myInit, lattice_blocks_granted.
  rewrite (mtrxAlloc2d_eq env 0 side side (8 * (side * side))) by lia.
  rewrite !(mtrxAlloc2d_eq env _ (side * side) DIM (16 * (side * side)))
    by (unfold DIM; lia).
  rewrite !(mtrxLongIntAlloc_eq env _ side) by lia.
  destruct (malloc_ok env 0 (8 * (side * side)));
    [|split; [reflexivity | discriminate]].
  destruct (malloc_ok env 1 (16 * (side * side)));
    [|split; [reflexivity | discriminate]].
  destruct (malloc_ok env 2 (16 * (side * side)));
    [|split; [reflexivity | discriminate]].
  destruct (malloc_ok env 3 (16 * (side * side)));
    [|split; [reflexivity | discriminate]].
  destruct (malloc_ok env 4 (8 * side)); [|split; [reflexivity | discriminate]].
  destruct (malloc_ok env 5 (8 * side)); [|split; [reflexivity | discriminate]].
  split; [discriminate|]. intros _. rewrite !bind_Done.
  set (junk := fresh_long env).
  set (l0 := {| L := side; particleOfSite := _; positionOfParticle := _;
                zeroPositionOfParticle := _; truePositionOfParticle := _;
                plusNeighbor := _; minusNeighbor := _ |}).
  set (P := fun (j : Z) (l : lattice) =>
              exists pn mn,
                l = set_minusNeighbor (set_plusNeighbor l0 pn) mn /\
                length pn = Z.to_nat side /\ length mn = Z.to_nat side /\
                forall i, 0 <= i < j ->
                          pn !! Z.to_nat i = Some (i + 1) /\
                          mn !! Z.to_nat i = Some (i - 1)).
  destruct (for_up_indexed P
              (fun i l =>
                 pn ← aset (plusNeighbor l) i (i + 1);
                 mn ← aset (minusNeighbor l) i (i - 1);
                 mret (set_minusNeighbor (set_plusNeighbor l pn) mn))
              (Z.to_nat side) 0 l0) as (l1 & -> & (pn & mn & -> & Hpn & Hmn & Htab)).
  - intros j l Hj (pn & mn & -> & Hpn & Hmn & Htab).
    cbn [plusNeighbor minusNeighbor set_plusNeighbor set_minusNeighbor].
    rewrite !aset_Done by lia. rewrite !bind_Done.
    eexists. split; [reflexivity|].
    exists (<[Z.to_nat j := j + 1]> pn), (<[Z.to_nat j := j - 1]> mn).
    split; [reflexivity|]. rewrite !length_insert. split; [exact Hpn|].
    split; [exact Hmn|]. intros i Hi.
    destruct (Z.eq_dec i j) as [->|Hne].
    + rewrite !list_lookup_insert_eq by lia. auto.
    + rewrite !list_lookup_insert_ne by lia. apply Htab. lia.
  - exists (replicate (Z.to_nat side) junk), (replicate (Z.to_nat side) junk).
    split; [reflexivity|]. rewrite length_replicate. split; [reflexivity|].
    split; [reflexivity|]. intros i Hi. lia.
  - rewrite bind_Done. cbn [plusNeighbor minusNeighbor set_plusNeighbor set_minusNeighbor].
    rewrite !aset_Done by lia. rewrite !bind_Done.
    eexists. split; [|split; [|
      destruct (num_measurements * measurement_period =? num_sweeps); cbn [negb];
      [|reflexivity];
      rewrite !(mtrxDoubleAlloc_eq env _ num_measurements Hnm);
      unfold sum_blocks_granted;
      destruct (malloc_ok env 6 (8 * num_measurements)); [|reflexivity];
      destruct (malloc_ok env 7 (8 * num_measurements)); [|reflexivity];
      cbn [andb]; rewrite !bind_Done;
      rewrite zero_sums by apply length_replicate;
      rewrite bind_Done; reflexivity]].
    + unfold wf_lattice.
      cbn [L particleOfSite positionOfParticle zeroPositionOfParticle
             truePositionOfParticle plusNeighbor minusNeighbor
             set_plusNeighbor set_minusNeighbor l0].
      rewrite !length_replicate.
      split; [lia|]. split; [lia|]. do 4 (split; [reflexivity|]).
      rewrite Z.add_0_l, Z2Nat.id in Htab by lia.
      split; intros i Hi.
      * destruct (Z.eqb_spec i (side - 1)) as [->|Hne].
        -- apply list_lookup_insert_eq. lia.
        -- rewrite list_lookup_insert_ne by lia. apply Htab, Hi.
      * destruct (Z.eqb_spec i 0) as [->|Hne].
        -- apply list_lookup_insert_eq. lia.
        -- rewrite list_lookup_insert_ne by lia. apply Htab, Hi.
    + reflexivity.
Qed.

(** [myInit] in the program: 100 measurements. *)
Lemma myInit_wf (env : environment) (side num_sweeps : Z) :
  0 < side < 2 ^ 30 ->
  lattice_blocks_granted env side = true -> sum_blocks_granted env 100 = true ->
  100 * Z.quot num_sweeps 100 = num_sweeps ->
  exists l,
    myInit env side (side * side) 100 (Z.quot num_sweeps 100) num_sweeps
    = Done (l, (replicate 100 Double.zero, replicate 100 Double.zero)) /\
    wf_lattice l /\ L l = side.
Proof.
  intros Hside Hblocks Hsums Hmult.
  destruct (myInit_outcome env side 100 (Z.quot num_sweeps 100) num_sweeps
              Hside ltac:(lia)) as [_ H].
  destruct (H Hblocks) as (l & Hwf & HL & Hrun).
  rewrite Hsums, (proj2 (Z.eqb_eq _ _) Hmult) in Hrun.
  exists l. split; [exact Hrun|]. split; [exact Hwf | exact HL].
Qed.

End LatticeSetup.

(** ** The lattice-gas program: filling the lattice *)

Lemma for_up_grid {S : Type} (P : Z -> S -> Prop) (side : Z) (bound : S -> Z)
  (body : Z -> Z -> S -> outcome S) :
  0 <= side ->
  (forall k s, P k s -> bound s = side) ->
  (forall x y s, 0 <= x < side -> 0 <= y < side -> P (x * side + y) s ->
                 exists s', body x y s = Done s' /\ P (x * side + y + 1) s') ->
  forall s, P 0 s ->
    exists s',
      for_up (Z.to_nat side) 0
        (fun x s => for_up (Z.to_nat (bound s)) 0 (fun y s => body x y s) s) s
      = Done s' /\ P (side * side) s'.
Proof.
  intros Hside Hbound Hbody s Hs.
  destruct (for_up_indexed (fun x s => P (x * side) s)
              (fun x s => for_up (Z.to_nat (bound s)) 0 (fun y s => body x y s) s)
              (Z.to_nat side) 0 s) as (s' & Hrun & Hs').
  - intros x s1 Hx Hs1. rewrite (Hbound _ _ Hs1).
    destruct (for_up_indexed (fun y s => P (x * side + y) s)
                (fun y s => body x y s) (Z.to_nat side) 0 s1) as (s2 & Hrun & Hs2).
    + intros y s2 Hy Hs2. replace (x * side + (y + 1)) with (x * side + y + 1) by lia.
      apply Hbody; [lia | lia | exact Hs2].
    + rewrite Z.add_0_r. exact Hs1.
    + exists s2. split; [exact Hrun|].
      replace ((x + 1) * side) with (x * side + (0 + Z.of_nat (Z.to_nat side))) by lia.
      exact Hs2.
  - exact Hs.
  - exists s'. split; [exact Hrun|].
    replace (side * side) with ((0 + Z.of_nat (Z.to_nat side)) * side) by lia.
    exact Hs'.
Qed.

Lemma count_occupied_all_empty (a : list Z) :
  (forall i v, a !! i = Some v -> v = DiffCoef.MY_EMPTY) -> count_occupied a = 0.
Proof.
  induction a as [|v a IH]; intros H; cbn [count_occupied]; [reflexivity|].
  rewrite (H 0%nat v eq_refl). change (DiffCoef.MY_EMPTY =? DiffCoef.MY_EMPTY) with true.
  rewrite IH; [reflexivity|]. intros i u Hu. apply (H (Datatypes.S i) u Hu).
Qed.

Section LatticeFill.

Import DiffCoef.

(** A new particle, of index [trueN], is put on the empty site [(x, y)]. *)
Lemma place_consistent (l : lattice) (trueN x y : Z) (zer tru : list Z) :
  wf_lattice l -> consistent trueN l -> trueN < L l * L l ->
  0 <= x < L l -> 0 <= y < L l ->
  site_of l x y = Some MY_EMPTY ->
  length zer = length (zeroPositionOfParticle l) ->
  length tru = length (truePositionOfParticle l) ->
  let l' :=
    set_truePositionOfParticle
      (set_zeroPositionOfParticle
         (set_positionOfParticle
            (set_particleOfSite l
               (<[Z.to_nat (SITE l x y) := trueN]> (particleOfSite l)))
            (<[Z.to_nat (POS trueN 1) := y]>
               (<[Z.to_nat (POS trueN 0) := x]> (positionOfParticle l)))) zer) tru in
  wf_lattice l' /\ consistent (trueN + 1) l'.
Proof.
  intros Hwf Hc HN Hx Hy Hse Hzer Htru l'.
  pose proof (consistent_le_volume l trueN Hwf Hc) as HNV.
  destruct (pos_in_array l trueN 0 Hwf ltac:(lia) ltac:(lia)) as [Hq0 _].
  destruct (pos_in_array l trueN 1 Hwf ltac:(lia) ltac:(lia)) as [Hq1 _].
  pose proof Hwf as (HL & HV & Hlen & Hlpos & Hlz & Hlt & Hplus & Hminus).
  pose proof Hc as (Hcount & Hb & Hd).
  unfold site_of in Hse.
  set (a := particleOfSite l) in *. set (pos := positionOfParticle l) in *.
  set (i := Z.to_nat (SITE l x y)) in *.
  pose proof (lookup_lt_Some _ _ _ Hse) as Hi.
  assert (trueN <> MY_EMPTY) as Hpne by (unfold MY_EMPTY; lia).
  assert (forall x' y' q,
             0 <= x' < L l -> 0 <= y' < L l ->
             (<[i := trueN]> a) !! Z.to_nat (SITE l x' y') = Some q ->
             q <> MY_EMPTY ->
             0 <= q < trueN + 1 /\
             (<[Z.to_nat (POS trueN 1) := y]> (<[Z.to_nat (POS trueN 0) := x]> pos))
               !! Z.to_nat (POS q 0) = Some x' /\
             (<[Z.to_nat (POS trueN 1) := y]> (<[Z.to_nat (POS trueN 0) := x]> pos))
               !! Z.to_nat (POS q 1) = Some y') as Hb'.
  { intros x' y' q Hx' Hy' Hs Hq.
    destruct (Nat.eq_dec (Z.to_nat (SITE l x' y')) i) as [Ei|Ni].
    - rewrite Ei, list_lookup_insert_eq in Hs by exact Hi. injection Hs as <-.
      pose proof (site_range l x' y' Hx' Hy'). pose proof (site_range l x y Hx Hy).
      destruct (site_inj l x' y' x y Hx' Hy' Hx Hy ltac:(subst i; lia)) as [-> ->].
      split; [lia|]. split.
      + rewrite list_lookup_insert_ne by (apply pos_index_ne; lia).
        apply list_lookup_insert_eq. lia.
      + apply list_lookup_insert_eq. rewrite length_insert. lia.
    - rewrite list_lookup_insert_ne in Hs by congruence.
      destruct (Hb x' y' q Hx' Hy' Hs Hq) as (Hqr & Hq0' & Hq1').
      split; [lia|]. unfold pos_of in Hq0', Hq1'. fold pos in Hq0', Hq1'.
      rewrite !list_lookup_insert_ne by (apply pos_index_ne; lia). auto. }
  split.
  - unfold wf_lattice. subst l'. cbn [L particleOfSite positionOfParticle
      zeroPositionOfParticle truePositionOfParticle plusNeighbor minusNeighbor
      set_truePositionOfParticle set_zeroPositionOfParticle
      set_positionOfParticle set_particleOfSite].
    rewrite !length_insert. fold a pos. rewrite Htru, Hzer. auto 10.
  - unfold consistent, site_of, pos_of, SITE. subst l'.
    cbn [L particleOfSite positionOfParticle
      set_truePositionOfParticle set_zeroPositionOfParticle
      set_positionOfParticle set_particleOfSite].
    fold a pos.
    split; [|split].
    + rewrite (count_occupied_insert _ i trueN MY_EMPTY) by exact Hse.
      destruct (Z.eqb_spec trueN MY_EMPTY); [contradiction|].
      change (MY_EMPTY =? MY_EMPTY) with true. cbv iota. clear - Hcount. lia.
    + intros x' y' q Hx' Hy' Hs Hq. apply (Hb' x' y' q Hx' Hy' Hs Hq).
    + intros x1 y1 x2 y2 q Hx1 Hy1 Hx2 Hy2 Hs1 Hs2 Hq.
      destruct (Hb' x1 y1 q Hx1 Hy1 Hs1 Hq) as (_ & A0 & A1).
      destruct (Hb' x2 y2 q Hx2 Hy2 Hs2 Hq) as (_ & B0 & B1).
      split; congruence.
Qed.

(** A lattice whose sites are all empty holds no particle. *)
Lemma empty_consistent (l : lattice) :
  (forall i v, particleOfSite l !! i = Some v -> v = MY_EMPTY) -> consistent 0 l.
Proof.
  intros Hall. unfold consistent, site_of. split; [|split].
  - apply count_occupied_all_empty, Hall.
  - intros x y p _ _ Hs Hp. elim Hp. apply (Hall _ _ Hs).
  - intros x y x' y' p _ _ _ _ Hs _ Hp. elim Hp. apply (Hall _ _ Hs).
Qed.

Lemma zero_in_array (l : lattice) (p mu : Z) :
  wf_lattice l -> 0 <= p < L l * L l -> 0 <= mu <= 1 ->
  0 <= POS p mu < Z.of_nat (length (zeroPositionOfParticle l)).
Proof.
  intros (HL & HV & Hlen & Hlpos & Hlz & Hlt & _ & _) Hp Hmu.
  rewrite Hlz. unfold POS, DIM. lia.
Qed.

(** Every site is emptied. *)
Lemma initLattice_clear (l : lattice) :
  wf_lattice l ->
  exists a,
    for_up (Z.to_nat (L l)) 0
      (fun x l =>
         for_up (Z.to_nat (L l)) 0
           (fun y l =>
              s ← aset (particleOfSite l) (SITE l x y) MY_EMPTY;
              mret (set_particleOfSite l s)) l) l
    = Done (set_particleOfSite l a) /\
    length a = length (particleOfSite l) /\
    forall i v, a !! i = Some v -> v = MY_EMPTY.
Proof.
  intros Hwf.
  pose proof Hwf as (HL & HV & Hlen & _).
  set (P := fun (k : Z) (l' : lattice) =>
              exists a, l' = set_particleOfSite l a /\
                        length a = length (particleOfSite l) /\
                        forall i, 0 <= i < k -> a !! Z.to_nat i = Some MY_EMPTY).
  destruct (for_up_grid P (L l) L
              (fun x y l => s ← aset (particleOfSite l) (SITE l x y) MY_EMPTY;
                            mret (set_particleOfSite l s))) with (s := l)
    as (l1 & Hrun & (a & -> & Hla & Hall)).
  - lia.
  - intros k s (a & -> & _). reflexivity.
  - intros x y s Hx Hy (a & -> & Hla & Hall).
    cbn [particleOfSite set_particleOfSite]. unfold SITE at 1. cbn [L set_particleOfSite].
    rewrite aset_Done, bind_Done by (rewrite Hla, Hlen; nia).
    eexists. split; [reflexivity|].
    exists (<[Z.to_nat (x * L l + y) := MY_EMPTY]> a). split; [reflexivity|].
    rewrite length_insert. split; [exact Hla|]. intros i Hi.
    destruct (Z.eq_dec i (x * L l + y)) as [->|Hne].
    + apply list_lookup_insert_eq. rewrite Hla, Hlen. nia.
    + rewrite list_lookup_insert_ne by nia. apply Hall. lia.
  - exists (particleOfSite l). split; [destruct l; reflexivity|].
    split; [reflexivity|]. intros i Hi. lia.
  - exists a. split; [exact Hrun|]. split; [exact Hla|].
    intros i v Hv. pose proof (lookup_lt_Some _ _ _ Hv) as Hlt.
    assert (a !! Z.to_nat (Z.of_nat i) = Some MY_EMPTY) as Hi
      by (apply Hall; rewrite Hla, Hlen in Hlt; lia).
    rewrite Nat2Z.id in Hi. congruence.
Qed.

End LatticeFill.

Section LatticeInit.

Import DiffCoef.

Context {SG : SeedGenerator}.

(** [initLattice] completes: the lattice it leaves is consistent for the
    number of particles it returns; the master is left alone and the
    worker is only drawn from. *)
Lemma initLattice_fills (rho : spec_float) (l : lattice) (w : world) :
  wf_lattice l ->
  exists trueN l' w',
    initLattice rho (l, w) = Done (trueN, (l', w')) /\
    wf_lattice l' /\ consistent trueN l' /\ L l' = L l /\
    master w' = master w /\
    exists draws, trace w' = trace w ++ draws /\ forallb is_draw draws = true.
Proof.
  intros Hwf. unfold initLattice.
  destruct (initLattice_clear l Hwf) as (a & -> & Hla & Hall). rewrite bind_Done.
  set (l1 := set_particleOfSite l a).
  assert (wf_lattice l1) as Hwf1.
  { unfold wf_lattice, l1. cbn [L particleOfSite positionOfParticle
      zeroPositionOfParticle truePositionOfParticle plusNeighbor minusNeighbor
      set_particleOfSite]. rewrite Hla. exact Hwf. }
  pose proof Hwf as (HL & HV & Hlen & _).
  set (P := fun (k : Z) (st : Z * (lattice * world)) =>
              wf_lattice (fst (snd st)) /\ L (fst (snd st)) = L l /\
              consistent (fst st) (fst (snd st)) /\ fst st <= k /\
              (forall i, k <= i < L l * L l ->
                         particleOfSite (fst (snd st)) !! Z.to_nat i = Some MY_EMPTY) /\
              master (snd (snd st)) = master w /\
              exists draws, trace (snd (snd st)) = trace w ++ draws /\
                            forallb is_draw draws = true).
  change (L l1) with (L l).
  destruct (for_up_grid P (L l) (fun _ => L l)
              (fun x y st =>
                 let '(trueN, (l, w)) := st in
                 let '(r, w) := call_myrand (WK := worker_pcg32) w in
                 if SFltb r rho then
                   let p := trueN in
                   s ← aset (particleOfSite l) (SITE l x y) p;
                   pos ← aset (positionOfParticle l) (POS p 0) x;
                   pos ← aset pos (POS p 1) y;
                   zer ← aset (zeroPositionOfParticle l) (POS p 0) x;
                   zer ← aset zer (POS p 1) y;
                   tru ← aset (truePositionOfParticle l) (POS p 0) x;
                   tru ← aset tru (POS p 1) y;
                   let l := set_truePositionOfParticle
                              (set_zeroPositionOfParticle
                                 (set_positionOfParticle
                                    (set_particleOfSite l s) pos) zer) tru in
                   mret (trueN + 1, (l, w))
                 else mret (trueN, (l, w)))) with (s := (0, (l1, w)))
    as ([trueN [l' w']] & Hrun & HP).
  - lia.
  - reflexivity.
  - intros x y [trueN [l2 w2]] Hx Hy (Hwf2 & HL2 & Hc2 & HN & Hemp & Hm & ds & Ht & Hd).
    cbn [fst snd] in *. rewrite call_myrand_pcg32. cbv beta iota zeta.
    set (w3 := {| master := master w2; worker := _; trace := _ |}).
    assert (master w3 = master w /\
            exists draws, trace w3 = trace w ++ draws /\ forallb is_draw draws = true)
      as [Hm3 Ht3].
    { split; [exact Hm|]. subst w3. cbn [trace]. rewrite Ht, <- app_assoc.
      eexists. split; [reflexivity|]. rewrite forallb_app, Hd. reflexivity. }
    assert (0 <= x * L l + y < L l * L l) as Hk by nia.
    destruct (SFltb _ rho).
    + pose proof (consistent_le_volume l2 trueN Hwf2 Hc2) as HNV.
      rewrite <- HL2 in Hx, Hy.
      pose proof (site_in_array l2 x y Hwf2 Hx Hy) as Hsx.
      assert (0 <= trueN < L l2 * L l2) as HNr by (rewrite HL2; lia).
      destruct (pos_in_array l2 trueN 0 Hwf2 HNr ltac:(lia)) as [Hq0 Ht0].
      destruct (pos_in_array l2 trueN 1 Hwf2 HNr ltac:(lia)) as [Hq1 Ht1].
      pose proof (zero_in_array l2 trueN 0 Hwf2 HNr ltac:(lia)) as Hz0.
      pose proof (zero_in_array l2 trueN 1 Hwf2 HNr ltac:(lia)) as Hz1.
      rewrite (aset_Done _ _ _ Hsx), bind_Done.
      rewrite (aset_Done _ _ _ Hq0), bind_Done.
      rewrite (aset_Done (<[_ := _]> _) (POS trueN 1)), bind_Done
        by (rewrite length_insert; exact Hq1).
      rewrite (aset_Done _ _ _ Hz0), bind_Done.
      rewrite (aset_Done (<[_ := _]> _) (POS trueN 1)), bind_Done
        by (rewrite length_insert; exact Hz1).
      rewrite (aset_Done _ _ _ Ht0), bind_Done.
      rewrite (aset_Done (<[_ := _]> _) (POS trueN 1)), bind_Done
        by (rewrite length_insert; exact Ht1).
      eexists. split; [reflexivity|]. unfold P. cbn [fst snd].
      assert (site_of l2 x y = Some MY_EMPTY) as Hse.
      { unfold site_of, SITE. rewrite HL2. apply Hemp. lia. }
      destruct (place_consistent l2 trueN x y
                  (<[Z.to_nat (POS trueN 1) := y]>
                     (<[Z.to_nat (POS trueN 0) := x]> (zeroPositionOfParticle l2)))
                  (<[Z.to_nat (POS trueN 1) := y]>
                     (<[Z.to_nat (POS trueN 0) := x]> (truePositionOfParticle l2)))
                  Hwf2 Hc2 (proj2 HNr) Hx Hy Hse)
        as [Hwf' Hc']; [rewrite !length_insert; reflexivity ..|].
      split; [exact Hwf'|]. split; [exact HL2|]. split; [exact Hc'|].
      split; [lia|]. split; [|split; [exact Hm3 | exact Ht3]].
      intros i Hi. cbn [particleOfSite set_truePositionOfParticle
        set_zeroPositionOfParticle set_positionOfParticle set_particleOfSite].
      rewrite list_lookup_insert_ne by (unfold SITE; rewrite HL2; lia).
      apply Hemp. lia.
    + eexists. split; [reflexivity|]. unfold P. cbn [fst snd].
      do 3 (split; [assumption|]). split; [lia|].
      split; [|split; [exact Hm3 | exact Ht3]].
      intros i Hi. apply Hemp. lia.
  - unfold P. cbn [fst snd]. split; [exact Hwf1|]. split; [reflexivity|].
    split; [apply empty_consistent; exact Hall|]. split; [lia|].
    split; [|split; [reflexivity|]].
    + intros i Hi. unfold l1. cbn [particleOfSite set_particleOfSite].
      destruct (lookup_in_range a i) as [v Hv]; [rewrite Hla, Hlen; lia|].
      rewrite Hv. f_equal. apply (Hall _ _ Hv).
    + exists (@nil event). rewrite app_nil_r. split; reflexivity.
  - exists trueN, l', w'. split; [exact Hrun|].
    destruct HP as (Hwf' & HL' & Hc' & _ & _ & Hm' & Ht'). cbn [fst snd] in *.
    auto 10.
Qed.

End LatticeInit.

(** ** The lattice-gas program: the sample loop *)

Lemma draws_only_not_fresh (r : list event) :
  draws_only r = true -> freshly_seeded r = false.
Proof.
  unfold draws_only. destruct r as [|e r]; [reflexivity|].
  cbn [forallb]. destruct e; cbn [is_draw andb]; try discriminate.
  intros _. reflexivity.
Qed.

Section LatticeMain.

Import DiffCoef.

Context {SG : SeedGenerator}.

(** The lattice program completes; its seeds are drawn and its worker is
    seeded once, before the first sample. *)
Lemma lattice_main_seeded_once (env : environment)
  (side num_sweeps num_samples : Z)
  (rho : spec_float) (m0 g0 : pcg32_random_t) :
  0 < side < 2 ^ 30 ->
  lattice_blocks_granted env side = true -> sum_blocks_granted env 100 = true ->
  fopen_ok env 0 = true ->
  100 * Z.quot num_sweeps 100 = num_sweeps ->
  exists l w,
    main env side rho num_sweeps num_samples
      {| master := m0; worker := g0; trace := [] |} = Done (l, w) /\
    seeded_once (Z.to_nat num_samples) w.
Proof.
  intros Hside Hblocks Hsums Hfile Hmeas. unfold main.
  replace (fits_long (side * side)) with true
    by (symmetry; unfold fits_long; apply andb_true_intro; split;
        [apply Z.leb_le | apply Z.ltb_lt]; nia).
  cbn [negb]. cbv zeta.
  unfold call_generate_seed, call_seedgen_init, call_myrand_init.
  cbn [master worker trace app].
  destruct (generate_seed (seedgen_init m0 12345 67890)) as [a m1].
  cbn [master worker trace app].
  destruct (generate_seed m1) as [b m2]. cbn [master worker trace app].
  destruct (myInit_wf env side num_sweeps Hside Hblocks Hsums Hmeas)
    as (l0 & -> & Hwf0 & _).
  rewrite bind_Done, Hfile. cbn [negb].
  set (head := [EvSeedgenInit 12345 67890; EvGenerateSeed a; EvGenerateSeed b;
                EvMyrandInit a b]).
  set (w0 := {| master := m2; worker := _; trace := head |}).
  set (Q := fun (j : Z) (lw : lattice * world) =>
              wf_lattice (fst lw) /\
              exists ws pend,
                scan [] [] (trace (snd lw)) = (ws, pend) /\
                length ws = Z.to_nat j /\
                match ws with
                | [] => pend = head
                | first :: later =>
                    pend = [] /\ freshly_seeded first = true /\
                    forallb (fun r => draws_only r && negb (freshly_seeded r)) later
                    = true
                end).
  destruct (for_up_indexed Q
              (fun sample lw =>
                 '(trueN, lw) ← initLattice rho lw;
                 '(l, w) ← for_up (Z.to_nat num_sweeps) 1
                             (fun sweep lw => updateLattice trueN lw) lw;
                 mret (l, mark_run_done sample w))
              (Z.to_nat num_samples) 0 (l0, w0)) as ([l w] & Hrun & HQ).
  - intros j [l w] Hj (Hwf & ws & pend & Hscan & Hlen & Hws). cbn [fst snd] in *.
    destruct (initLattice_fills rho l w Hwf)
      as (trueN & l1 & w1 & -> & Hwf1 & Hc1 & _ & _ & ds1 & Ht1 & Hd1).
    rewrite bind_Done.
    set (P := fun lw : lattice * world =>
                wf_lattice (fst lw) /\ consistent trueN (fst lw) /\
                exists draws, trace (snd lw) = trace w1 ++ draws /\
                              forallb is_draw draws = true).
    destruct (for_up_invariant P (fun (sweep : Z) lw => updateLattice trueN lw))
      with (n := Z.to_nat num_sweeps) (i := 1) (s := (l1, w1))
      as ([l2 w2] & -> & (Hwf2 & _ & ds2 & Ht2 & Hd2)).
    { intros _ [l' w'] (Hwf' & Hc' & ds & Ht & Hd). cbn [fst snd] in *.
      destruct (updateLattice_sweep trueN l' w' Hwf' Hc')
        as (l'' & w'' & Hrun & Hwf'' & Hc'' & _ & _ & ds' & Ht' & Hd').
      exists (l'', w''). split; [exact Hrun|]. unfold P. cbn [fst snd].
      split; [exact Hwf''|]. split; [exact Hc''|].
      exists (ds ++ ds'). rewrite Ht', Ht, app_assoc, forallb_app, Hd, Hd'.
      split; reflexivity. }
    { unfold P. cbn [fst snd]. split; [exact Hwf1|]. split; [exact Hc1|].
      exists (@nil event). rewrite app_nil_r. split; reflexivity. }
    rewrite bind_Done. cbn [fst snd] in *.
    eexists. split; [reflexivity|]. unfold Q. cbn [fst snd].
    split; [exact Hwf2|].
    assert (forallb is_draw (ds1 ++ ds2) = true) as Hd
      by (rewrite forallb_app, Hd1, Hd2; reflexivity).
    exists (ws ++ [pend ++ ds1 ++ ds2]), (@nil event).
    split; [|split].
    + unfold mark_run_done. cbn [trace]. rewrite Ht2, Ht1, <- !app_assoc.
      rewrite (app_assoc ds1 ds2).
      rewrite (scan_round (trace w) (ds1 ++ ds2) j ws pend Hscan (draws_no_mark _ Hd)).
      reflexivity.
    + rewrite length_app, Hlen. cbn [length]. lia.
    + destruct ws as [|first later].
      * subst pend. cbn [app]. split; [reflexivity|]. split; [|reflexivity].
        unfold head. cbn [app freshly_seeded seeded_then_draws].
        rewrite !Z.eqb_refl. exact Hd.
      * destruct Hws as (-> & Hfirst & Hlater). cbn [app].
        split; [reflexivity|]. split; [exact Hfirst|].
        rewrite forallb_app, Hlater. cbn [forallb].
        fold (draws_only (ds1 ++ ds2)).
        rewrite (draws_only_not_fresh (ds1 ++ ds2) Hd).
        unfold draws_only. rewrite Hd. reflexivity.
  - unfold Q. cbn [fst snd]. split; [exact Hwf0|].
    exists (@nil (list event)), head. split; [reflexivity|]. split; reflexivity.
  - exists l, w. split; [exact Hrun|].
    destruct HQ as (_ & ws & pend & Hscan & Hlen & Hws). cbn [fst snd] in *.
    exists ws, pend. split; [exact Hscan|]. split; [rewrite Hlen; lia|].
    destruct ws as [|first later]; [|exact Hws].
    subst pend. unfold head. cbn [freshly_seeded seeded_then_draws forallb].
    rewrite !Z.eqb_refl. reflexivity.
Qed.

End LatticeMain.

(** C9 (amended): in the 1D and in the 2D walk every run is freshly
    seeded: its calls are two [generate_seed()], then [myrand_init] with
    exactly those two values, then uniform draws only.  The lattice-gas
    program draws its pair of seeds once, before the loop over the
    samples: the first sample is freshly seeded, every later sample only
    draws, from the worker the sample before it has left.  This is what
    the programs do when the system grants them their memory and files,
    for numbers of runs and iterations of [int], a lattice side below 2^30
    and sweeps that cannot take an unwrapped position out of [long int]:
    they complete then, the 1D walk unless the square of a position leaves
    [int], which no run of at most 46340 iterations does. *)
Theorem runs_and_their_seeding {SG : SeedGenerator}
  (e1 e2 e3 : environment)
  (runs iterations t_target side num_sweeps num_samples : Z)
  (rho : spec_float) (m0 g0 : pcg32_random_t) :
  0 < runs < 2 ^ 31 -> 0 < iterations < 2 ^ 31 -> 0 < t_target < 2 ^ 31 ->
  walk1d_granted e1 runs iterations -> walk2d_granted e2 runs ->
  0 < side < 2 ^ 30 ->
  lattice_blocks_granted e3 side = true -> sum_blocks_granted e3 100 = true ->
  fopen_ok e3 0 = true ->
  100 * Z.quot num_sweeps 100 = num_sweeps ->
  num_sweeps * (side * side) + side < 2 ^ 63 ->
  let w0 := {| master := m0; worker := g0; trace := [] |} in
  ((exists w,
       Walk1d.main e1 runs iterations w0 = Done w /\
       rounds_seeded (Z.to_nat runs) w) \/
   Walk1d.main e1 runs iterations w0 = Undefined) /\
  (iterations <= 46340 ->
   exists w,
     Walk1d.main e1 runs iterations w0 = Done w /\
     rounds_seeded (Z.to_nat runs) w) /\
  (exists w,
      Walk2d.main e2 runs iterations t_target w0 = Done w /\
      rounds_seeded (Z.to_nat runs) w) /\
  (exists l w,
      DiffCoef.main e3 side rho num_sweeps num_samples w0 = Done (l, w) /\
      seeded_once (Z.to_nat num_samples) w).
Proof.
  intros Hr Hi Ht H1 H2 Hside Hblocks Hsums Hfile Hmeas _ w0.
  split; [|split; [|split]].
  - destruct (walk1d_main_seeded true e1 runs iterations m0 g0) as [H | [_ H]];
      [discriminate | lia | exact H1 | left; exact H | right; exact H].
  - intros Hle.
    destruct (walk1d_main_seeded false e1 runs iterations m0 g0) as [H | [Hf _]];
      [intros _; exact Hle | lia | exact H1 | exact H | discriminate Hf].
  - apply walk2d_main_seeded; (lia || assumption).
  - apply lattice_main_seeded_once; assumption.
Qed.

Lemma runs_and_their_seeding_witness :
  (exists w,
      Walk1d.main environment_example 2 3
        {| master := SeedGen1d.rng_state_init; worker := pcg32_random_state_zero;
           trace := [] |} = Done w /\
      rounds_seeded (Z.to_nat 2) w) /\
  (exists w,
      Walk2d.main environment_example 2 3 1
        {| master := SeedGen1d.rng_state_init; worker := pcg32_random_state_zero;
           trace := [] |} = Done w /\
      rounds_seeded (Z.to_nat 2) w) /\
  (exists l w,
      DiffCoef.main (SG := seedgen_lattice) environment_example 2 Double.half 100 2
        {| master := SeedGen1d.rng_state_init; worker := pcg32_random_state_zero;
           trace := [] |} = Done (l, w) /\
      seeded_once (Z.to_nat 2) w).
Proof.
  pose proof (runs_and_their_seeding (SG := seedgen_lattice)
                environment_example environment_example environment_example
                2 3 1 2 100 2 Double.half
                SeedGen1d.rng_state_init pcg32_random_state_zero) as H.
  cbv zeta in H.
  destruct H as (_ & Hw1 & Hw2 & Hl); try lia; try reflexivity.
  - intros run _. split; reflexivity.
  - intros run _. reflexivity.
  - split; [apply Hw1; lia | split; [exact Hw2 | exact Hl]].
Defined.

(** C9, as stated, fails for the lattice-gas program: with two samples on
    a lattice of side 2, the second sample takes no seed from the master
    and does not seed the worker. *)
Lemma lattice_second_sample_not_reseeded :
  exists l w,
    DiffCoef.main (SG := seedgen_lattice) environment_example 2 Double.half 100 2
      world_at_start
    = Done (l, w) /\
    map freshly_seeded (windows (trace w)) = [true; false] /\
    ~ rounds_seeded 2 w.
Proof.
  assert (match DiffCoef.main (SG := seedgen_lattice) environment_example 2
                  Double.half 100 2 world_at_start with
          | Done (l, w) => map freshly_seeded (windows (trace w)) = [true; false]
          | _ => False
          end) as H by (vm_compute; reflexivity).
  destruct (DiffCoef.main (SG := seedgen_lattice) environment_example 2 Double.half
              100 2 world_at_start)
    as [[l w]| |]; try contradiction.
  exists l, w. split; [reflexivity|]. split; [exact H|].
  intros (ws & pend & Hscan & _ & Hfresh & _).
  unfold windows in H. rewrite Hscan in H. cbn [fst] in H.
  destruct ws as [|r1 [|r2 [|r3 ws]]]; try discriminate H.
  cbn [map] in H. cbn [forallb] in Hfresh.
  injection H as H1 H2. rewrite H1, H2 in Hfresh. discriminate Hfresh.
Qed.

(** * Further properties of the code *)

(** ** The uniform draw as a function of the 32-bit draw *)

Lemma digits2_le_iff (p : positive) (k : Z) :
  0 <= k -> (Zpos p < 2 ^ k <-> Zpos (digits2_pos p) <= k).
Proof.
  intros Hk. split.
  - apply digits2_le, Hk.
  - intros Hd. destruct (digits2_bounds p) as [_ Hhi].
    apply Z.lt_le_trans with (1 := Hhi). apply Z.pow_le_mono_r; lia.
Qed.

Lemma myrand_quotient_zero :
  Double.div (Double.of_Z 0) (Double.add (Double.of_Z UINT32_MAX) Double.one)
  = S754_zero false.
Proof. reflexivity. Qed.

(** The quotient [(double) v / ((double)UINT32_MAX + 1.0)] is strictly
    monotone in [v]. *)
Lemma myrand_quotient_ltb (a b : Z) :
  is_u32 a -> is_u32 b ->
  SFltb (Double.div (Double.of_Z a) (Double.add (Double.of_Z UINT32_MAX) Double.one))
        (Double.div (Double.of_Z b) (Double.add (Double.of_Z UINT32_MAX) Double.one))
  = (a <? b).
Proof.
  intros Ha Hb. unfold is_u32 in *.
  destruct a as [|pa|pa]; [| |lia]; destruct b as [|pb|pb]; try lia.
  - reflexivity.
  - rewrite myrand_quotient_zero, myrand_quotient_pos by lia. reflexivity.
  - rewrite myrand_quotient_zero, myrand_quotient_pos by lia. reflexivity.
  - rewrite !myrand_quotient_pos by lia. unfold SFltb, SFcompare.
    destruct (digits2_bounds pa) as [Alo Ahi]. destruct (digits2_bounds pb) as [Blo Bhi].
    pose proof (proj1 (digits2_le_iff pa 32 ltac:(lia)) (proj2 Ha)) as Hda.
    pose proof (proj1 (digits2_le_iff pb 32 ltac:(lia)) (proj2 Hb)) as Hdb.
    set (da := Zpos (digits2_pos pa)) in *. set (db := Zpos (digits2_pos pb)) in *.
    assert (0 < da /\ 0 < db) as [Hpa Hpb] by (subst da db; lia).
    destruct (Z.compare_spec (da - 85) (db - 85)) as [He|He|He].
    + assert (da = db) as Hd by lia.
      change (Pos.compare_cont Eq ?x ?y) with (Pos.compare x y).
      rewrite Pos2Z.inj_compare, !Zpos_iter_xO, Hd.
      rewrite Z2Pos.id by lia.
      assert (0 < 2 ^ (53 - db)) as Hp by (apply Z.pow_pos_nonneg; lia).
      destruct (Z.compare_spec (Zpos pa * 2 ^ (53 - db)) (Zpos pb * 2 ^ (53 - db)));
        destruct (Z.ltb_spec (Zpos pa) (Zpos pb)); try reflexivity; nia.
    + assert (2 ^ da <= 2 ^ (db - 1)) by (apply Z.pow_le_mono_r; lia).
      symmetry. apply Z.ltb_lt. lia.
    + assert (2 ^ db <= 2 ^ (da - 1)) by (apply Z.pow_le_mono_r; lia).
      symmetry. apply Z.ltb_ge. lia.
Qed.

Lemma myrand_thresholds :
  Double.quarter
  = Double.div (Double.of_Z (2 ^ 30)) (Double.add (Double.of_Z UINT32_MAX) Double.one) /\
  Double.half
  = Double.div (Double.of_Z (2 ^ 31)) (Double.add (Double.of_Z UINT32_MAX) Double.one) /\
  Double.three_quarters
  = Double.div (Double.of_Z (3 * 2 ^ 30))
               (Double.add (Double.of_Z UINT32_MAX) Double.one).
Proof. split; [|split]; vm_compute; reflexivity. Qed.

(** ** Products with a power of two *)

(** A mantissa of 53 bits followed by zeros is rounded to itself. *)
Lemma binary_round_aux_scaled (mm m s : positive) (ex : Z) :
  Zpos mm = Zpos m * 2 ^ Zpos s ->
  Zpos (digits2_pos m) = 53 ->
  -1074 <= ex + Zpos s <= 971 ->
  binary_round_aux 53 1024 false (Zpos mm) ex loc_Exact
  = S754_finite false m (ex + Zpos s).
Proof.
  intros Hmm Hd He.
  destruct (digits2_bounds m) as [Dlo Dhi]. rewrite Hd in Dlo, Dhi.
  assert (0 < 2 ^ Zpos s) as Hps by (apply Z.pow_pos_nonneg; lia).
  assert (Zpos (digits2_pos mm) = 53 + Zpos s) as Hdm.
  { apply digits2_unique. replace (53 + Zpos s - 1) with (53 - 1 + Zpos s) by lia.
    rewrite !Z.pow_add_r by lia. nia. }
  unfold binary_round_aux, shr_fexp at 1. cbn [Zdigits2]. rewrite Hdm.
  rewrite fexp_double, Z.max_l by lia.
  replace (53 + Zpos s + ex - 53 - ex) with (Zpos s) by lia.
  cbn [shr shr_record_of_loc].
  pose proof (shr_inv_iter (Zpos mm) s 0 _ ltac:(lia) (shr_inv_start (Zpos mm) ltac:(lia)))
    as [rem (HM0 & Hm & Hrem & Hr)].
  destruct (round_nearest_even_shr
              (SpecFloat.iter_pos shr_1 s
                 {| shr_m := Zpos mm; shr_r := false; shr_s := false |}))
    as [[Hle Hge] Hup].
  set (rec1 := SpecFloat.iter_pos shr_1 s
                 {| shr_m := Zpos mm; shr_r := false; shr_s := false |}) in *.
  set (M0 := shr_m rec1) in *.
  set (M1 := round_nearest_even M0 (loc_of_shr_record rec1)) in *.
  rewrite Z.add_0_l in Hm, Hrem, Hr.
  assert (M0 = Zpos m) as HM0m.
  { rewrite (Z.div_unique (Zpos mm) (2 ^ Zpos s) M0 rem) by lia.
    rewrite Hmm. apply Z.div_mul. lia. }
  assert (rem = 0) as Hrem0 by (rewrite HM0m in Hm; lia).
  assert (M1 = Zpos m) as ->.
  { destruct (Z.eq_dec M1 (M0 + 1)) as [Heq|Hneq]; [|lia].
    specialize (Hr (Hup Heq)). lia. }
  replace (53 + Zpos s + ex - 53) with (ex + Zpos s) by lia.
  rewrite shr_fexp_canonical by (cbn [Zdigits2]; rewrite Hd, fexp_double; lia).
  cbn [shr_record_of_loc shr_m].
  replace (ex + Zpos s <=? 1024 - 53) with true by (symmetry; apply Z.leb_le; lia).
  reflexivity.
Qed.

Lemma mul_four (m : positive) (e : Z) :
  Zpos (digits2_pos m) = 53 -> -1000 <= e <= 900 ->
  Double.mul Double.four (S754_finite false m e) = S754_finite false m (e + 2).
Proof.
  intros Hd He.
  change Double.four with (S754_finite false 4503599627370496 (-50)).
  unfold Double.mul, SFmul. cbn [xorb].
  rewrite (binary_round_aux_scaled _ m 52 (-50 + e)); [f_equal; lia| |exact Hd|lia].
  rewrite Pos2Z.inj_mul. change (2 ^ 52) with 4503599627370496. lia.
Qed.

(** [(int)(4.0 * myrand())] is the draw divided by [2^30]: its two
    leading bits. *)
Lemma direction_of_draw (n : Z) :
  is_u32 n ->
  to_int (Double.mul Double.four
            (Double.div (Double.of_Z n)
                        (Double.add (Double.of_Z UINT32_MAX) Double.one)))
  = Done (n / 2 ^ 30).
Proof.
  intros Hn. unfold is_u32 in Hn. destruct n as [|p|p]; [reflexivity| |lia].
  rewrite myrand_quotient_pos by lia.
  pose proof (proj1 (digits2_le_iff p 32 ltac:(lia)) (proj2 Hn)) as Hd.
  set (d := Zpos (digits2_pos p)) in *.
  assert (0 < d) as Hd0 by (subst d; lia).
  rewrite mul_four; [| |lia].
  2:{ rewrite digits2_iter_xO, Pos2Z.inj_add, Z2Pos.id by lia. fold d. lia. }
  unfold to_int, Double.to_Z.
  replace (d - 85 + 2) with (Zneg (Z.to_pos (83 - d))) by lia.
  rewrite Zpos_iter_xO, !Z2Pos.id by lia.
  assert (Zpos p * 2 ^ (53 - d) / 2 ^ (83 - d) = Zpos p / 2 ^ 30) as ->.
  { replace (83 - d) with (30 + (53 - d)) by lia. rewrite Z.pow_add_r by lia.
    apply Z.div_mul_cancel_r; [lia|]. apply Z.pow_nonzero; lia. }
  assert (0 <= Zpos p / 2 ^ 30 < 4) as Hr.
  { split; [apply Z.div_pos; lia|]. apply Z.div_lt_upper_bound; lia. }
  replace ((- 2 ^ 31 <=? Zpos p / 2 ^ 30) && (Zpos p / 2 ^ 30 <? 2 ^ 31)) with true;
    [reflexivity|].
  symmetry. apply andb_true_iff. split; [apply Z.leb_le | apply Z.ltb_lt]; lia.
Qed.

(** ** The walks as functions of the 32-bit draws *)

Lemma draws_snoc (next : pcg32_random_t -> Z * pcg32_random_t) (k : nat) :
  forall g,
    draws next (Datatypes.S k) g
    = (fst (draws next k g) ++ [fst (next (snd (draws next k g)))],
       snd (next (snd (draws next k g)))).
Proof.
  induction k as [|k IH]; intros g.
  - cbn [draws fst snd app]. destruct (next g) as [v g1]. reflexivity.
  - change (draws next (Datatypes.S (Datatypes.S k)) g)
      with (let '(v, rng1) := next g in
            let '(vs, rng2) := draws next (Datatypes.S k) rng1 in (v :: vs, rng2)).
    destruct (next g) as [v g1] eqn:Hg. rewrite (IH g1).
    cbn [draws]. rewrite Hg. destruct (draws next k g1) as [vs g2]. reflexivity.
Qed.

Lemma sum_Z_snoc (zs : list Z) (z : Z) : sum_Z (zs ++ [z]) = sum_Z zs + z.
Proof.
  unfold sum_Z. induction zs as [|a zs IH]; cbn [app fold_right]; [lia|].
  rewrite IH. lia.
Qed.

Lemma step1d_of_draw (n : Z) :
  is_u32 n ->
  SFltb Double.half
    (Double.div (Double.of_Z n) (Double.add (Double.of_Z UINT32_MAX) Double.one))
  = (2 ^ 31 <? n).
Proof.
  intros Hn. destruct myrand_thresholds as (_ & -> & _).
  apply myrand_quotient_ltb; [unfold is_u32; lia | exact Hn].
Qed.

Lemma main_dat_random_u32 (g : pcg32_random_t) : is_u32 (fst (MainDat.pcg32_random_r g)).
Proof. apply (pcg32_random_r_u32 g). Qed.

Lemma ran_walk_2d_random_u32 (g : pcg32_random_t) :
  is_u32 (fst (RanWalk2d.pcg32_random_r g)).
Proof. apply (pcg32_random_r_u32 g). Qed.

(** The 1D walk after its loop: position and clock, the worker and the
    master. *)
Lemma walk1d_sum (iterations : Z) (w : world) :
  let n := Z.to_nat iterations in
  fst (Walk1d.walk iterations w)
  = (sum_Z (map step1d (fst (draws MainDat.pcg32_random_r n (worker w)))), Z.of_nat n) /\
  worker (snd (Walk1d.walk iterations w))
  = snd (draws MainDat.pcg32_random_r n (worker w)) /\
  master (snd (Walk1d.walk iterations w)) = master w.
Proof.
  cbv zeta. unfold Walk1d.walk.
  apply (repeat_up_rounds
           (fun k st =>
              fst st = (sum_Z (map step1d (fst (draws MainDat.pcg32_random_r k (worker w)))),
                        Z.of_nat k) /\
              worker (snd st) = snd (draws MainDat.pcg32_random_r k (worker w)) /\
              master (snd st) = master w)).
  - intros k i [[position time] w1] (Hp & Hw & Hm). cbn [fst snd] in *.
    injection Hp as Hpos Htime.
    unfold call_myrand, myrand, worker_main_dat, MainDat.myrand.
    rewrite draws_snoc, <- Hw. cbn [fst snd].
    pose proof (main_dat_random_u32 (worker w1)) as Hu.
    destruct (MainDat.pcg32_random_r (worker w1)) as [v g1]. cbn [fst snd] in *.
    rewrite map_app. cbn [map]. rewrite sum_Z_snoc, step1d_of_draw by exact Hu.
    unfold step1d. subst position time.
    split; [|split; [reflexivity | exact Hm]].
    f_equal; [destruct (2 ^ 31 <? v); reflexivity | lia].
  - cbn [fst snd draws map]. auto.
Qed.

Lemma step1d_unit (v : Z) : step1d v = 1 \/ step1d v = -1.
Proof. unfold step1d. destruct (2 ^ 31 <? v); auto. Qed.

Lemma sum_of_units (f : Z -> Z) (vs : list Z) :
  (forall v, f v = 1 \/ f v = -1) ->
  Z.abs (sum_Z (map f vs)) <= Z.of_nat (length vs) /\
  (sum_Z (map f vs) - Z.of_nat (length vs)) mod 2 = 0.
Proof.
  intros Hf. unfold sum_Z.
  induction vs as [|v vs [IH1 IH2]]; cbn [map fold_right length]; [split; reflexivity|].
  apply Z.mod_divide in IH2 as [q Hq]; [|lia].
  split; [destruct (Hf v) as [-> | ->]; lia|].
  apply Z.mod_divide; [lia|].
  destruct (Hf v) as [-> | ->]; [exists q | exists (q - 1)]; lia.
Qed.

Lemma draws_length (next : pcg32_random_t -> Z * pcg32_random_t) (k : nat) :
  forall g, length (fst (draws next k g)) = k.
Proof.
  induction k as [|k IH]; intros g; [reflexivity|].
  cbn [draws]. destruct (next g) as [v g1]. specialize (IH g1).
  destruct (draws next k g1) as [vs g2]. cbn [fst length] in *. lia.
Qed.

(** The four tests of the 2D walk on a draw. *)
Lemma step2d_of_draw (n : Z) :
  is_u32 n ->
  let r := Double.div (Double.of_Z n) (Double.add (Double.of_Z UINT32_MAX) Double.one) in
  SFltb r Double.quarter = (n <? 2 ^ 30) /\
  SFltb r Double.half = (n <? 2 ^ 31) /\
  SFltb r Double.three_quarters = (n <? 3 * 2 ^ 30).
Proof.
  intros Hn r. destruct myrand_thresholds as (-> & -> & ->). subst r.
  rewrite !myrand_quotient_ltb by (exact Hn || (unfold is_u32; lia)). auto.
Qed.

Lemma walk2d_sum (iterations : Z) (w : world) :
  let n := Z.to_nat iterations in
  let moves := map step2d (fst (draws RanWalk2d.pcg32_random_r n (worker w))) in
  Walk2d.x (fst (Walk2d.walk iterations w)) = sum_Z (map fst moves) /\
  Walk2d.y (fst (Walk2d.walk iterations w)) = sum_Z (map snd moves) /\
  Walk2d.time (fst (Walk2d.walk iterations w)) = Z.of_nat n /\
  worker (snd (Walk2d.walk iterations w))
  = snd (draws RanWalk2d.pcg32_random_r n (worker w)) /\
  master (snd (Walk2d.walk iterations w)) = master w.
Proof.
  cbv zeta. unfold Walk2d.walk.
  apply (repeat_up_rounds
           (fun k st =>
              Walk2d.x (fst st)
              = sum_Z (map fst (map step2d
                                  (fst (draws RanWalk2d.pcg32_random_r k (worker w))))) /\
              Walk2d.y (fst st)
              = sum_Z (map snd (map step2d
                                  (fst (draws RanWalk2d.pcg32_random_r k (worker w))))) /\
              Walk2d.time (fst st) = Z.of_nat k /\
              worker (snd st) = snd (draws RanWalk2d.pcg32_random_r k (worker w)) /\
              master (snd st) = master w)).
  - intros k i [pos w1] (Hx & Hy & Ht & Hw & Hm). cbn [fst snd] in *.
    unfold call_myrand, myrand, worker_2d_ran_walk, RanWalk2d.myrand.
    rewrite draws_snoc, <- Hw. cbn [fst snd].
    pose proof (ran_walk_2d_random_u32 (worker w1)) as Hu.
    destruct (RanWalk2d.pcg32_random_r (worker w1)) as [v g1]. cbn [fst snd] in *.
    destruct (step2d_of_draw v Hu) as (-> & -> & ->).
    rewrite !map_app. cbn [map]. rewrite !sum_Z_snoc, <- Hx, <- Hy. unfold step2d.
    destruct (v <? 2 ^ 30); [|destruct (v <? 2 ^ 31); [|destruct (v <? 3 * 2 ^ 30)]];
      cbn [Walk2d.x Walk2d.y Walk2d.time fst snd];
      (split; [lia|]; split; [lia|]; split; [lia|]; split; [reflexivity | exact Hm]).
  - cbn [fst snd draws map Walk2d.x Walk2d.y Walk2d.time]. auto.
Qed.

Lemma sum_of_unit_moves (ms : list (Z * Z)) :
  (forall m, In m ms -> Z.abs (fst m) + Z.abs (snd m) = 1) ->
  Z.abs (sum_Z (map fst ms)) + Z.abs (sum_Z (map snd ms)) <= Z.of_nat (length ms) /\
  (sum_Z (map fst ms) + sum_Z (map snd ms) - Z.of_nat (length ms)) mod 2 = 0.
Proof.
  unfold sum_Z.
  induction ms as [|[a b] ms IH]; intros Hm; cbn [map fold_right length fst snd];
    [split; reflexivity|].
  destruct IH as [IH1 IH2]; [intros m Hin; apply Hm; right; exact Hin|].
  pose proof (Hm (a, b) (or_introl eq_refl)) as Hab. cbn [fst snd] in Hab.
  apply Z.mod_divide in IH2 as [q Hq]; [|lia].
  split; [lia|]. apply Z.mod_divide; [lia|].
  assert ((a = 1 /\ b = 0) \/ (a = -1 /\ b = 0) \/ (a = 0 /\ b = 1) \/ (a = 0 /\ b = -1))
    as [[-> ->]|[[-> ->]|[[-> ->]|[-> ->]]]] by lia;
    [exists q | exists (q - 1) | exists q | exists (q - 1)]; lia.
Qed.

Lemma step2d_unit (v : Z) : Z.abs (fst (step2d v)) + Z.abs (snd (step2d v)) = 1.
Proof.
  unfold step2d.
  destruct (v <? 2 ^ 30); [|destruct (v <? 2 ^ 31); [|destruct (v <? 3 * 2 ^ 30)]];
    reflexivity.
Qed.

(** X1: the position of the 1D walk after its loop is the sum, over the
    32-bit draws of the run, of [+1] for a draw above [2^31] and [-1]
    otherwise; the clock counts the iterations, the worker has advanced by
    exactly one draw per iteration and the master is untouched. *)
Theorem walk1d_position_is_sum_of_steps (iterations : Z) (w : world) :
  let n := Z.to_nat iterations in
  fst (Walk1d.walk iterations w)
  = (sum_Z (map step1d (fst (draws MainDat.pcg32_random_r n (worker w)))), Z.of_nat n) /\
  worker (snd (Walk1d.walk iterations w))
  = snd (draws MainDat.pcg32_random_r n (worker w)) /\
  master (snd (Walk1d.walk iterations w)) = master w.
Proof. apply walk1d_sum. Qed.

(** X2: after its loop the 1D walk is no farther from the origin than the
    number of iterations, and on a site of the same parity. *)
Theorem walk1d_position_range (iterations : Z) (w : world) :
  let position := fst (fst (Walk1d.walk iterations w)) in
  let time := snd (fst (Walk1d.walk iterations w)) in
  time = Z.max 0 iterations /\
  Z.abs position <= time /\
  (position - time) mod 2 = 0.
Proof.
  cbv zeta. destruct (walk1d_sum iterations w) as (-> & _). cbn [fst snd].
  pose proof (sum_of_units step1d
                (fst (draws MainDat.pcg32_random_r (Z.to_nat iterations) (worker w)))
                step1d_unit) as H.
  rewrite draws_length in H. split; [lia | exact H].
Qed.

(** X3: the position of the 2D walk after its loop is the sum of the unit
    moves of its draws: [+x] for a draw below [2^30], [-x] below [2^31],
    [+y] below [3 * 2^30], [-y] otherwise; the clock counts the
    iterations, the worker has advanced by one draw per iteration and the
    master is untouched. *)
Theorem walk2d_position_is_sum_of_moves (iterations : Z) (w : world) :
  let n := Z.to_nat iterations in
  let moves := map step2d (fst (draws RanWalk2d.pcg32_random_r n (worker w))) in
  Walk2d.x (fst (Walk2d.walk iterations w)) = sum_Z (map fst moves) /\
  Walk2d.y (fst (Walk2d.walk iterations w)) = sum_Z (map snd moves) /\
  Walk2d.time (fst (Walk2d.walk iterations w)) = Z.of_nat n /\
  worker (snd (Walk2d.walk iterations w))
  = snd (draws RanWalk2d.pcg32_random_r n (worker w)) /\
  master (snd (Walk2d.walk iterations w)) = master w.
Proof. apply walk2d_sum. Qed.

(** X4: after its loop the 2D walk is within Manhattan distance
    [iterations] of the origin, and [x + y] has the parity of the number
    of iterations. *)
Theorem walk2d_position_range (iterations : Z) (w : world) :
  let pos := fst (Walk2d.walk iterations w) in
  Walk2d.time pos = Z.max 0 iterations /\
  Z.abs (Walk2d.x pos) + Z.abs (Walk2d.y pos) <= Walk2d.time pos /\
  (Walk2d.x pos + Walk2d.y pos - Walk2d.time pos) mod 2 = 0.
Proof.
  cbv zeta. destruct (walk2d_sum iterations w) as (-> & -> & -> & _).
  pose proof (sum_of_unit_moves
                (map step2d
                   (fst (draws RanWalk2d.pcg32_random_r (Z.to_nat iterations) (worker w)))))
    as H.
  rewrite length_map, draws_length in H. split; [lia|]. apply H.
  intros m Hin. apply in_map_iff in Hin as (v & <- & _). apply step2d_unit.
Qed.

(** ** The lattice: set-up and neighbours *)

(** X5: [(int)(4.0 * myrand())] in [updateLattice] is the 32-bit draw
    divided by [2^30], its two leading bits: a direction of [0 .. 3], so
    that the check on [dir] never fires. *)
Theorem lattice_direction_is_top_bits (g : pcg32_random_t) :
  let n := fst (Pcg32.pcg32_random_r g) in
  to_int (Double.mul Double.four (fst (Pcg32.myrand g))) = Done (n / 2 ^ 30) /\
  0 <= n / 2 ^ 30 <= 3.
Proof.
  cbv zeta. unfold Pcg32.myrand.
  pose proof (pcg32_random_r_u32 g) as Hu.
  destruct (Pcg32.pcg32_random_r g) as [n g1]. cbn [fst] in *.
  split; [apply direction_of_draw, Hu|].
  unfold is_u32 in Hu. split; [apply Z.div_pos; lia|].
  assert (n / 2 ^ 30 < 4) by (apply Z.div_lt_upper_bound; lia). lia.
Qed.

Section LatticeTables.

Import DiffCoef.

Lemma neighbor_tables_mod (l : lattice) (i : Z) :
  wf_lattice l -> 0 <= i < L l ->
  plusNeighbor l !! Z.to_nat i = Some ((i + 1) mod L l) /\
  minusNeighbor l !! Z.to_nat i = Some ((i - 1) mod L l).
Proof.
  intros (HL & _ & _ & _ & _ & _ & Hplus & Hminus) Hi.
  rewrite (Hplus i Hi), (Hminus i Hi). split; f_equal.
  - destruct (Z.eqb_spec i (L l - 1)) as [->|Hne].
    + replace (L l - 1 + 1) with (L l) by lia. symmetry. apply Z_mod_same_full.
    + symmetry. apply Z.mod_small. lia.
  - destruct (Z.eqb_spec i 0) as [->|Hne].
    + apply (Z.mod_unique _ _ (-1)); lia.
    + symmetry. apply Z.mod_small. lia.
Qed.

(** The site [neighbor_site] returns, in closed form. *)
Lemma neighbor_site_mod (l : lattice) (dir x y : Z) :
  wf_lattice l -> 0 <= dir <= 3 -> 0 <= x < L l -> 0 <= y < L l ->
  neighbor_site l dir x y
  = Done (match dir with
          | 0 => ((x + 1) mod L l, y)
          | 1 => ((x - 1) mod L l, y)
          | 2 => (x, (y + 1) mod L l)
          | _ => (x, (y - 1) mod L l)
          end).
Proof.
  intros Hwf Hdir Hx Hy.
  destruct (neighbor_tables_mod l x Hwf Hx) as [Hpx Hmx].
  destruct (neighbor_tables_mod l y Hwf Hy) as [Hpy Hmy].
  assert (dir = 0 \/ dir = 1 \/ dir = 2 \/ dir = 3)
    as [ -> | [ -> | [ -> | -> ] ] ] by lia; cbn [neighbor_site].
  - rewrite (aget_Done _ _ _ (proj1 Hx) Hpx). reflexivity.
  - rewrite (aget_Done _ _ _ (proj1 Hx) Hmx). reflexivity.
  - rewrite (aget_Done _ _ _ (proj1 Hy) Hpy). reflexivity.
  - rewrite (aget_Done _ _ _ (proj1 Hy) Hmy). reflexivity.
Qed.

Lemma mod_step_back (side i : Z) :
  0 < side -> 0 <= i < side ->
  ((i + 1) mod side - 1) mod side = i /\ ((i - 1) mod side + 1) mod side = i.
Proof.
  intros Hs Hi. split.
  - rewrite Zminus_mod_idemp_l. replace (i + 1 - 1) with i by lia.
    apply Z.mod_small, Hi.
  - rewrite Zplus_mod_idemp_l. replace (i - 1 + 1) with i by lia.
    apply Z.mod_small, Hi.
Qed.

End LatticeTables.



(** X7: on a lattice as [myInit] leaves it, the site a hop in direction
    [dir] leads to is the site one step along that direction modulo [L],
    and the hop in the opposite direction ([dir] with its last bit
    flipped) leads back. *)
Theorem neighbor_site_periodic (l : DiffCoef.lattice) (dir x y : Z) :
  wf_lattice l -> 0 <= dir <= 3 -> 0 <= x < DiffCoef.L l -> 0 <= y < DiffCoef.L l ->
  let side := DiffCoef.L l in
  let target := match dir with
                | 0 => ((x + 1) mod side, y)
                | 1 => ((x - 1) mod side, y)
                | 2 => (x, (y + 1) mod side)
                | _ => (x, (y - 1) mod side)
                end in
  DiffCoef.neighbor_site l dir x y = Done target /\
  DiffCoef.neighbor_site l (Z.lxor dir 1) (fst target) (snd target) = Done (x, y).
Proof.
  intros Hwf Hdir Hx Hy side target.
  pose proof Hwf as (HL & _).
  split; [apply neighbor_site_mod; assumption|].
  destruct (mod_step_back side x HL Hx) as [Hx1 Hx2].
  destruct (mod_step_back side y HL Hy) as [Hy1 Hy2].
  assert (0 <= (x + 1) mod side < side) by (apply Z.mod_pos_bound; exact HL).
  assert (0 <= (x - 1) mod side < side) by (apply Z.mod_pos_bound; exact HL).
  assert (0 <= (y + 1) mod side < side) by (apply Z.mod_pos_bound; exact HL).
  assert (0 <= (y - 1) mod side < side) by (apply Z.mod_pos_bound; exact HL).
  subst target.
  assert (dir = 0 \/ dir = 1 \/ dir = 2 \/ dir = 3)
    as [ -> | [ -> | [ -> | -> ] ] ] by lia; cbn [fst snd].
  - change (Z.lxor 0 1) with 1.
    rewrite neighbor_site_mod by (assumption || lia). fold side. congruence.
  - change (Z.lxor 1 1) with 0.
    rewrite neighbor_site_mod by (assumption || lia). fold side. congruence.
  - change (Z.lxor 2 1) with 3.
    rewrite neighbor_site_mod by (assumption || lia). fold side. congruence.
  - change (Z.lxor 3 1) with 2.
    rewrite neighbor_site_mod by (assumption || lia). fold side. congruence.
Qed.

Lemma neighbor_site_periodic_witness :
  DiffCoef.neighbor_site lattice_example 0 1 0 = Done ((1 + 1) mod 2, 0) /\
  DiffCoef.neighbor_site lattice_example (Z.lxor 0 1) (fst ((1 + 1) mod 2, 0))
    (snd ((1 + 1) mod 2, 0)) = Done (1, 0).
Proof.
  apply (neighbor_site_periodic lattice_example 0 1 0 lattice_example_wf);
    change (DiffCoef.L lattice_example) with 2; lia.
Defined.

(** ** One attempt of [updateLattice], case by case *)

Section AttemptCases.

Import DiffCoef.

(** An attempt picks a particle and a direction from two draws, and
    either leaves the lattice alone, the neighbour being occupied, or
    moves the particle there. *)
Lemma attempt_cases (trueN : Z) (l : lattice) (w : world) :
  wf_lattice l -> consistent trueN l -> 0 < trueN ->
  exists p x y dir nx ny w',
    0 <= p < trueN /\ 0 <= x < L l /\ 0 <= y < L l /\
    pos_of l p 0 = Some x /\ pos_of l p 1 = Some y /\ site_of l x y = Some p /\
    0 <= dir <= 3 /\ neighbor_site l dir x y = Done (nx, ny) /\
    0 <= nx < L l /\ 0 <= ny < L l /\
    master w' = master w /\
    worker w' = snd (Pcg32.pcg32_random_r (snd (Pcg32.pcg32_random_r (worker w)))) /\
    (exists r1 r2, trace w' = trace w ++ [EvMyrand r1; EvMyrand r2]) /\
    ((site_of l nx ny <> Some MY_EMPTY /\ attempt trueN (l, w) = Done (l, w')) \/
     (site_of l nx ny = Some MY_EMPTY /\
      exists tru,
        shift_true_position l dir p = Done tru /\
        length tru = length (truePositionOfParticle l) /\
        attempt trueN (l, w) = Done (hopped l p x y nx ny tru, w'))).
Proof.
  intros Hwf Hc HN.
  pose proof (consistent_le_volume l trueN Hwf Hc) as HNV.
  pose proof Hwf as (HL & HV & Hlen & Hlpos & Hlz & Hlt & _ & _).
  unfold attempt. rewrite call_myrand_pcg32. cbv beta iota zeta.
  assert (0 < trueN < 2 ^ 63) as HN63 by lia.
  destruct (particle_pick_in_range (fst (Pcg32.pcg32_random_r (worker w))) trueN
              (pcg32_random_r_u32 _) HN63) as (p & Hpick & Hp).
  rewrite Hpick, bind_Done.
  destruct (particle_position l trueN p Hwf Hc Hp)
    as (x & y & Hx & Hy & Hp0 & Hp1 & Hs).
  assert (0 <= POS p 0 /\ 0 <= POS p 1) as [Hi0 Hi1] by (unfold POS, DIM; lia).
  rewrite (aget_Done _ _ x Hi0 Hp0), bind_Done.
  rewrite (aget_Done _ _ y Hi1 Hp1), bind_Done.
  rewrite call_myrand_pcg32. cbv beta iota zeta. cbn [worker master trace].
  destruct (direction_in_range
              (fst (Pcg32.pcg32_random_r (snd (Pcg32.pcg32_random_r (worker w)))))
              (pcg32_random_r_u32 _)) as (dir & Hdir & Hd).
  rewrite Hdir, bind_Done.
  replace ((dir <? 0) || (3 <? dir)) with false
    by (symmetry; apply orb_false_iff; split; apply Z.ltb_ge; lia).
  destruct (neighbor_site_in_range l dir x y Hwf Hd Hx Hy)
    as (nx & ny & Hn & Hnx & Hny).
  rewrite Hn, bind_Done.
  pose proof (site_in_array l nx ny Hwf Hnx Hny) as Hsn.
  pose proof (site_in_array l x y Hwf Hx Hy) as Hsx.
  destruct (pos_in_array l p 0 Hwf ltac:(lia) ltac:(lia)) as [Hq0 _].
  destruct (pos_in_array l p 1 Hwf ltac:(lia) ltac:(lia)) as [Hq1 Hq1t].
  destruct (lookup_in_range (particleOfSite l) (SITE l nx ny) Hsn) as [s Hsv].
  rewrite (aget_Done _ _ s (proj1 Hsn) Hsv), bind_Done.
  set (w2 := {| master := master w; worker := _; trace := _ |}).
  exists p, x, y, dir, nx, ny, w2.
  do 10 (split; [assumption|]).
  split; [reflexivity|]. split; [reflexivity|].
  split.
  { subst w2. cbn [trace]. rewrite <- app_assoc. eexists _, _. reflexivity. }
  destruct (Z.eqb_spec s MY_EMPTY) as [->|Hocc]; cbn [negb].
  - right. split; [exact Hsv|].
    rewrite (aset_Done _ _ _ Hsn), bind_Done.
    rewrite (aset_Done (<[_ := _]> _) (SITE l x y)), bind_Done
      by (rewrite length_insert; exact Hsx).
    rewrite (aset_Done _ _ _ Hq0), bind_Done.
    rewrite (aset_Done (<[_ := _]> _) (POS p 1)), bind_Done
      by (rewrite length_insert; exact Hq1).
    destruct (shift_true_position_length l dir p Hd ltac:(lia) (proj2 Hq1t))
      as (tru & Htru & Hlt').
    exists tru. split; [exact Htru|]. split; [exact Hlt'|].
    rewrite Htru, bind_Done. reflexivity.
  - left. split; [|reflexivity]. unfold site_of. rewrite Hsv. congruence.
Qed.

Lemma count_occupied_full (a : list Z) :
  count_occupied a = Z.of_nat (length a) ->
  forall i v, a !! i = Some v -> v <> MY_EMPTY.
Proof.
  induction a as [|u a IH]; intros Hc i v Hv; [discriminate|].
  cbn [count_occupied length] in Hc. pose proof (count_occupied_bounds a) as Hb.
  destruct (Z.eqb_spec u MY_EMPTY) as [->|Hu]; [lia|].
  destruct i as [|i]; [injection Hv as <-; exact Hu|].
  apply (IH ltac:(lia) i v Hv).
Qed.

(** On a lattice without an empty site no attempt moves a particle. *)
Lemma attempt_full (l : lattice) (w : world) :
  wf_lattice l -> consistent (L l * L l) l ->
  exists w',
    attempt (L l * L l) (l, w) = Done (l, w') /\
    master w' = master w /\
    worker w' = snd (Pcg32.pcg32_random_r (snd (Pcg32.pcg32_random_r (worker w)))).
Proof.
  intros Hwf Hc. pose proof Hwf as (HL & _ & Hlen & _).
  destruct (attempt_cases (L l * L l) l w Hwf Hc ltac:(nia))
    as (p & x & y & dir & nx & ny & w' & _ & _ & _ & _ & _ & _ & _ & _ & _ & _ &
        Hm & Hw & _ & [[_ Hrun]|[Hempty _]]).
  - exists w'. auto.
  - exfalso. destruct Hc as (Hcount & _).
    apply (count_occupied_full (particleOfSite l)
             ltac:(rewrite Hcount, Hlen; lia) _ _ Hempty). reflexivity.
Qed.

End AttemptCases.

(** ** The unwrapped positions *)

Lemma wrap_long_id (z : Z) : - 2 ^ 63 <= z < 2 ^ 63 -> wrap_long z = z.
Proof.
  intros Hz. unfold wrap_long. rewrite Z.mod_small; lia.
Qed.

Section TruePositions.

Import DiffCoef.

Lemma shift_true_position_shape (l : lattice) (dir p t0 t1 : Z) :
  0 <= dir <= 3 -> 0 <= p ->
  truePositionOfParticle l !! Z.to_nat (POS p 0) = Some t0 ->
  truePositionOfParticle l !! Z.to_nat (POS p 1) = Some t1 ->
  shift_true_position l dir p
  = Done (match dir with
          | 0 => <[Z.to_nat (POS p 0) := wrap_long (t0 + 1)]> (truePositionOfParticle l)
          | 1 => <[Z.to_nat (POS p 0) := wrap_long (t0 - 1)]> (truePositionOfParticle l)
          | 2 => <[Z.to_nat (POS p 1) := wrap_long (t1 + 1)]> (truePositionOfParticle l)
          | _ => <[Z.to_nat (POS p 1) := wrap_long (t1 - 1)]> (truePositionOfParticle l)
          end).
Proof.
  intros Hdir Hp H0 H1.
  assert (0 <= POS p 0 /\ 0 <= POS p 1) as [Hi0 Hi1] by (unfold POS, DIM; lia).
  pose proof (lookup_lt_Some _ _ _ H0) as L0. pose proof (lookup_lt_Some _ _ _ H1) as L1.
  assert (dir = 0 \/ dir = 1 \/ dir = 2 \/ dir = 3)
    as [ -> | [ -> | [ -> | -> ] ] ] by lia; cbn [shift_true_position].
  - rewrite (aget_Done _ _ _ Hi0 H0), bind_Done. apply aset_Done. lia.
  - rewrite (aget_Done _ _ _ Hi0 H0), bind_Done. apply aset_Done. lia.
  - rewrite (aget_Done _ _ _ Hi1 H1), bind_Done. apply aset_Done. lia.
  - rewrite (aget_Done _ _ _ Hi1 H1), bind_Done. apply aset_Done. lia.
Qed.

Lemma mod_shift (side t q d : Z) :
  (t - q) mod side = 0 -> (t + d - (q + d) mod side) mod side = 0.
Proof.
  intros H. rewrite Zminus_mod_idemp_r. replace (t + d - (q + d)) with (t - q) by lia.
  exact H.
Qed.

(** An attempt keeps every unwrapped position on its lattice position
    modulo [L], and moves it by one step at most. *)
Lemma attempt_tracks (trueN bound : Z) (l : lattice) (w : world) :
  wf_lattice l -> consistent trueN l -> 0 < trueN ->
  tracks bound trueN l -> 0 <= bound -> bound + L l < 2 ^ 63 ->
  exists l' w',
    attempt trueN (l, w) = Done (l', w') /\
    wf_lattice l' /\ consistent trueN l' /\ tracks (bound + 1) trueN l' /\
    L l' = L l /\
    master w' = master w /\
    worker w' = snd (Pcg32.pcg32_random_r (snd (Pcg32.pcg32_random_r (worker w)))).
Proof.
  intros Hwf Hc HN Htr HB HBL.
  destruct (attempt_preserves trueN l w Hwf Hc HN)
    as (l1 & w1 & Hrun1 & Hwf1 & Hc1 & _).
  destruct (attempt_cases trueN l w Hwf Hc HN)
    as (p & x & y & dir & nx & ny & w' & Hp & Hx & Hy & Hp0 & Hp1 & Hs & Hd & Hn &
        Hnx & Hny & Hm & Hw & _ & Hcase).
  assert (forall l', attempt trueN (l, w) = Done (l', w') ->
                     tracks (bound + 1) trueN l' -> L l' = L l ->
                     exists l' w',
                       attempt trueN (l, w) = Done (l', w') /\
                       wf_lattice l' /\ consistent trueN l' /\
                       tracks (bound + 1) trueN l' /\ L l' = L l /\
                       master w' = master w /\
                       worker w'
                       = snd (Pcg32.pcg32_random_r
                                (snd (Pcg32.pcg32_random_r (worker w))))) as Hfin.
  { intros l' Hrun Htr' HL'. exists l', w'. rewrite Hrun in Hrun1.
    injection Hrun1 as -> ->. auto 10. }
  destruct Hcase as [[_ Hrun]|[_ (tru & Hshift & Hlen & Hrun)]].
  { apply (Hfin l Hrun); [|reflexivity].
    intros q mu Hq Hmu. destruct (Htr q mu Hq Hmu) as (t & z & c & H1 & H2 & H3 & H4 & H5 & H6).
    exists t, z, c. do 5 (split; [assumption|]). lia. }
  apply (Hfin _ Hrun); [|reflexivity]. clear Hfin Hrun Hrun1 Hwf1 Hc1 l1 w1.
  pose proof (consistent_le_volume l trueN Hwf Hc) as HNV.
  destruct (pos_in_array l p 0 Hwf ltac:(lia) ltac:(lia)) as [Hq0 Ht0].
  destruct (pos_in_array l p 1 Hwf ltac:(lia) ltac:(lia)) as [Hq1 Ht1].
  destruct (Htr p 0 Hp ltac:(lia)) as (t0 & z0 & c0 & Ht0v & Hz0 & Hc0 & Hmod0 & Hz0r & Hb0).
  destruct (Htr p 1 Hp ltac:(lia)) as (t1 & z1 & c1 & Ht1v & Hz1 & Hc1 & Hmod1 & Hz1r & Hb1).
  unfold pos_of in Hp0, Hp1. rewrite Hp0 in Hc0. rewrite Hp1 in Hc1.
  injection Hc0 as <-. injection Hc1 as <-.
  rewrite (shift_true_position_shape l dir p t0 t1 Hd ltac:(lia) Ht0v Ht1v) in Hshift.
  rewrite (neighbor_site_mod l dir x y Hwf Hd Hx Hy) in Hn.
  pose proof Hwf as (HL & _).
  intros q mu Hq Hmu. unfold hopped.
  cbn [truePositionOfParticle zeroPositionOfParticle positionOfParticle L
         set_truePositionOfParticle set_positionOfParticle set_particleOfSite].
  destruct (Z.eq_dec q p) as [->|Hqp].
  2:{ destruct (Htr q mu Hq Hmu) as (t & z & c & H1 & H2 & H3 & H4 & H5 & H6).
      exists t, z, c.
      rewrite !list_lookup_insert_ne by (apply pos_index_ne; lia).
      split.
      { assert (dir = 0 \/ dir = 1 \/ dir = 2 \/ dir = 3)
          as [ -> | [ -> | [ -> | -> ] ] ] by lia;
          injection Hshift as <-;
          rewrite list_lookup_insert_ne by (apply pos_index_ne; lia); exact H1. }
      do 4 (split; [assumption|]). lia. }
  assert (mu = 0 \/ mu = 1) as [ -> | -> ] by lia;
    (assert (dir = 0 \/ dir = 1 \/ dir = 2 \/ dir = 3)
      as [ -> | [ -> | [ -> | -> ] ] ] by lia);
    injection Hshift as <-; injection Hn as <- <-;
    rewrite ?wrap_long_id by lia.
  - exists (t0 + 1), z0, ((x + 1) mod L l).
    rewrite list_lookup_insert_eq by lia.
    rewrite list_lookup_insert_ne by (apply pos_index_ne; lia).
    rewrite list_lookup_insert_eq by lia.
    do 3 (split; [reflexivity || assumption|]).
    split; [apply mod_shift; exact Hmod0|]. split; [assumption | lia].
  - exists (t0 - 1), z0, ((x - 1) mod L l).
    rewrite list_lookup_insert_eq by lia.
    rewrite list_lookup_insert_ne by (apply pos_index_ne; lia).
    rewrite list_lookup_insert_eq by lia.
    do 3 (split; [reflexivity || assumption|]).
    split; [apply (mod_shift _ _ _ (-1)); exact Hmod0|]. split; [assumption | lia].
  - exists t0, z0, x.
    rewrite list_lookup_insert_ne by (apply pos_index_ne; lia).
    rewrite list_lookup_insert_ne by (apply pos_index_ne; lia).
    rewrite list_lookup_insert_eq by lia.
    do 4 (split; [reflexivity || assumption|]). split; [assumption | lia].
  - exists t0, z0, x.
    rewrite list_lookup_insert_ne by (apply pos_index_ne; lia).
    rewrite list_lookup_insert_ne by (apply pos_index_ne; lia).
    rewrite list_lookup_insert_eq by lia.
    do 4 (split; [reflexivity || assumption|]). split; [assumption | lia].
  - exists t1, z1, y.
    rewrite list_lookup_insert_ne by (apply pos_index_ne; lia).
    rewrite list_lookup_insert_eq by (rewrite length_insert; lia).
    do 4 (split; [reflexivity || assumption|]). split; [assumption | lia].
  - exists t1, z1, y.
    rewrite list_lookup_insert_ne by (apply pos_index_ne; lia).
    rewrite list_lookup_insert_eq by (rewrite length_insert; lia).
    do 4 (split; [reflexivity || assumption|]). split; [assumption | lia].
  - exists (t1 + 1), z1, ((y + 1) mod L l).
    rewrite list_lookup_insert_eq by lia.
    rewrite list_lookup_insert_eq by (rewrite length_insert; lia).
    do 3 (split; [reflexivity || assumption|]).
    split; [apply mod_shift; exact Hmod1|]. split; [assumption | lia].
  - exists (t1 - 1), z1, ((y - 1) mod L l).
    rewrite list_lookup_insert_eq by lia.
    rewrite list_lookup_insert_eq by (rewrite length_insert; lia).
    do 3 (split; [reflexivity || assumption|]).
    split; [apply (mod_shift _ _ _ (-1)); exact Hmod1|]. split; [assumption | lia].
Qed.

End TruePositions.

(** ** A sweep, and a sweep of a full lattice *)

Lemma draws_two_more (next : pcg32_random_t -> Z * pcg32_random_t) (k : nat)
  (g : pcg32_random_t) :
  snd (draws next (2 * Datatypes.S k) g)
  = snd (next (snd (next (snd (draws next (2 * k) g))))).
Proof.
  replace (2 * Datatypes.S k)%nat with (Datatypes.S (Datatypes.S (2 * k))) by lia.
  rewrite draws_snoc. cbn [snd]. rewrite draws_snoc. reflexivity.
Qed.

Section Sweeps.

Import DiffCoef.

Lemma updateLattice_tracks (trueN bound : Z) (l : lattice) (w : world) :
  wf_lattice l -> consistent trueN l ->
  tracks bound trueN l -> 0 <= bound -> bound + trueN + L l < 2 ^ 63 ->
  exists l' w',
    updateLattice trueN (l, w) = Done (l', w') /\
    wf_lattice l' /\ consistent trueN l' /\ tracks (bound + Z.max 0 trueN) trueN l' /\
    L l' = L l /\
    master w' = master w /\
    worker w' = snd (draws Pcg32.pcg32_random_r (2 * Z.to_nat trueN) (worker w)).
Proof.
  intros Hwf Hc Htr HB HBL. unfold updateLattice.
  destruct (for_up_indexed
              (fun j (lw : lattice * world) =>
                 wf_lattice (fst lw) /\ consistent trueN (fst lw) /\
                 tracks (bound + j) trueN (fst lw) /\ L (fst lw) = L l /\
                 master (snd lw) = master w /\
                 worker (snd lw)
                 = snd (draws Pcg32.pcg32_random_r (2 * Z.to_nat j) (worker w)))
              (fun _ lw => attempt trueN lw) (Z.to_nat trueN) 0 (l, w))
    as ([l' w'] & Hrun & HP).
  - intros j [l1 w1] Hj (Hwf1 & Hc1 & Htr1 & HL1 & Hm1 & Hw1). cbn [fst snd] in *.
    destruct (attempt_tracks trueN (bound + j) l1 w1 Hwf1 Hc1 ltac:(lia) Htr1
                ltac:(lia) ltac:(lia))
      as (l2 & w2 & Hrun & Hwf2 & Hc2 & Htr2 & HL2 & Hm2 & Hw2).
    exists (l2, w2). split; [exact Hrun|]. cbn [fst snd].
    split; [exact Hwf2|]. split; [exact Hc2|].
    split; [replace (bound + (j + 1)) with (bound + j + 1) by lia; exact Htr2|].
    split; [congruence|]. split; [congruence|].
    replace (Z.to_nat (j + 1)) with (Datatypes.S (Z.to_nat j)) by lia.
    rewrite draws_two_more, <- Hw1. exact Hw2.
  - cbn [fst snd]. rewrite Z.add_0_r. auto 10.
  - exists l', w'. split; [exact Hrun|].
    destruct HP as (Hwf' & Hc' & Htr' & HL' & Hm' & Hw'). cbn [fst snd] in *.
    replace (0 + Z.of_nat (Z.to_nat trueN)) with (Z.max 0 trueN) in Htr', Hw' by lia.
    replace (Z.to_nat (Z.max 0 trueN)) with (Z.to_nat trueN) in Hw' by lia.
    auto 10.
Qed.

Lemma updateLattice_full (l : lattice) (w : world) :
  wf_lattice l -> consistent (L l * L l) l ->
  exists w',
    updateLattice (L l * L l) (l, w) = Done (l, w') /\
    master w' = master w /\
    worker w'
    = snd (draws Pcg32.pcg32_random_r (2 * Z.to_nat (L l * L l)) (worker w)).
Proof.
  intros Hwf Hc. unfold updateLattice.
  destruct (for_up_indexed
              (fun j (lw : lattice * world) =>
                 fst lw = l /\ master (snd lw) = master w /\
                 worker (snd lw)
                 = snd (draws Pcg32.pcg32_random_r (2 * Z.to_nat j) (worker w)))
              (fun _ lw => attempt (L l * L l) lw) (Z.to_nat (L l * L l)) 0 (l, w))
    as ([l' w'] & Hrun & HP).
  - intros j [l1 w1] Hj (Hl1 & Hm1 & Hw1). cbn [fst snd] in *. subst l1.
    destruct (attempt_full l w1 Hwf Hc) as (w2 & Hrun & Hm2 & Hw2).
    exists (l, w2). split; [exact Hrun|]. cbn [fst snd].
    split; [reflexivity|]. split; [congruence|].
    replace (Z.to_nat (j + 1)) with (Datatypes.S (Z.to_nat j)) by lia.
    rewrite draws_two_more, <- Hw1. exact Hw2.
  - cbn [fst snd]. auto.
  - destruct HP as (Hl' & Hm' & Hw'). cbn [fst snd] in *. subst l'.
    exists w'. split; [exact Hrun|]. split; [exact Hm'|].
    rewrite Z.add_0_l, Nat2Z.id in Hw'. exact Hw'.
Qed.

End Sweeps.

Lemma lattice_example_tracks : tracks 0 1 lattice_example.
Proof.
  intros p mu Hp Hmu. assert (p = 0) as -> by lia.
  assert (mu = 0 \/ mu = 1) as [ -> | -> ] by lia;
    exists 0, 0, 0; cbn; repeat split; lia.
Qed.

(** X8: a sweep [updateLattice(trueN)] keeps the unwrapped position of
    every particle equal to its lattice position modulo [L], and moves it
    by no more than [trueN] steps in each coordinate, as long as the
    unwrapped positions stay inside [long int]. *)
Theorem updateLattice_keeps_unwrapped_positions
  (trueN bound : Z) (l : DiffCoef.lattice) (w : world) :
  wf_lattice l -> consistent trueN l ->
  tracks bound trueN l -> 0 <= bound -> bound + trueN + DiffCoef.L l < 2 ^ 63 ->
  exists l' w',
    DiffCoef.updateLattice trueN (l, w) = Done (l', w') /\
    tracks (bound + Z.max 0 trueN) trueN l'.
Proof.
  intros Hwf Hc Htr HB HBL.
  destruct (updateLattice_tracks trueN bound l w Hwf Hc Htr HB HBL)
    as (l' & w' & Hrun & _ & _ & Htr' & _).
  exists l', w'. auto.
Qed.

Lemma updateLattice_keeps_unwrapped_positions_witness :
  exists l' w',
    DiffCoef.updateLattice 1 (lattice_example, world_at_start) = Done (l', w') /\
    tracks (0 + Z.max 0 1) 1 l'.
Proof.
  apply (updateLattice_keeps_unwrapped_positions 1 0 lattice_example world_at_start
           lattice_example_wf lattice_example_consistent lattice_example_tracks).
  - lia.
  - change (DiffCoef.L lattice_example) with 2. lia.
Defined.

(** X9: a sweep [updateLattice(trueN)] advances the worker by exactly
    [2 * trueN] draws, two per attempt, whether the attempts move a
    particle or not, and leaves the master generator alone. *)
Theorem updateLattice_draws_twice_per_attempt
  (trueN : Z) (l : DiffCoef.lattice) (w : world) :
  wf_lattice l -> consistent trueN l ->
  exists l' w',
    DiffCoef.updateLattice trueN (l, w) = Done (l', w') /\
    master w' = master w /\
    worker w' = snd (draws Pcg32.pcg32_random_r (2 * Z.to_nat trueN) (worker w)).
Proof.
  intros Hwf Hc. unfold DiffCoef.updateLattice.
  destruct (for_up_indexed
              (fun j (lw : DiffCoef.lattice * world) =>
                 wf_lattice (fst lw) /\ consistent trueN (fst lw) /\
                 master (snd lw) = master w /\
                 worker (snd lw)
                 = snd (draws Pcg32.pcg32_random_r (2 * Z.to_nat j) (worker w)))
              (fun _ lw => DiffCoef.attempt trueN lw) (Z.to_nat trueN) 0 (l, w))
    as ([l' w'] & Hrun & HP).
  - intros j [l1 w1] Hj (Hwf1 & Hc1 & Hm1 & Hw1). cbn [fst snd] in *.
    destruct (attempt_preserves trueN l1 w1 Hwf1 Hc1 ltac:(lia))
      as (l2 & w2 & Hrun & Hwf2 & Hc2 & _).
    destruct (attempt_cases trueN l1 w1 Hwf1 Hc1 ltac:(lia))
      as (p & x & y & dir & nx & ny & w3 & _ & _ & _ & _ & _ & _ & _ & _ & _ & _ &
          Hm3 & Hw3 & _ & Hcase).
    assert (w3 = w2) as ->.
    { destruct Hcase as [[_ H]|[_ (tru & _ & _ & H)]]; rewrite H in Hrun;
        injection Hrun as _ E; exact E. }
    exists (l2, w2). split; [exact Hrun|]. cbn [fst snd].
    split; [exact Hwf2|]. split; [exact Hc2|]. split; [congruence|].
    replace (Z.to_nat (j + 1)) with (Datatypes.S (Z.to_nat j)) by lia.
    rewrite draws_two_more, <- Hw1. exact Hw3.
  - cbn [fst snd]. auto.
  - destruct HP as (_ & _ & Hm' & Hw'). cbn [fst snd] in *.
    exists l', w'. split; [exact Hrun|]. split; [exact Hm'|].
    rewrite Z.add_0_l, Nat2Z.id in Hw'. exact Hw'.
Qed.

Lemma updateLattice_draws_twice_per_attempt_witness :
  exists l' w',
    DiffCoef.updateLattice 1 (lattice_example, world_at_start) = Done (l', w') /\
    master w' = master world_at_start /\
    worker w' = snd (draws Pcg32.pcg32_random_r (2 * Z.to_nat 1) (worker world_at_start)).
Proof.
  apply (updateLattice_draws_twice_per_attempt 1 lattice_example world_at_start
           lattice_example_wf lattice_example_consistent).
Defined.

(** X10: when every site holds a particle ([trueN] is [L * L]), a sweep
    leaves the lattice exactly as it was: every attempt finds its
    neighbour occupied. *)
Theorem full_lattice_is_frozen (l : DiffCoef.lattice) (w : world) :
  wf_lattice l -> consistent (DiffCoef.L l * DiffCoef.L l) l ->
  exists w',
    DiffCoef.updateLattice (DiffCoef.L l * DiffCoef.L l) (l, w) = Done (l, w').
Proof.
  intros Hwf Hc. destruct (updateLattice_full l w Hwf Hc) as (w' & Hrun & _).
  exists w'. exact Hrun.
Qed.

Lemma lattice_full_example_wf : wf_lattice lattice_full_example.
Proof.
  unfold wf_lattice, lattice_full_example. cbn.
  repeat split; try lia; try reflexivity;
    intros i Hi; assert (i = 0 \/ i = 1) as [ -> | -> ] by lia; reflexivity.
Qed.

Lemma lattice_full_example_consistent : consistent 4 lattice_full_example.
Proof.
  assert (forall x y p,
             0 <= x < 2 -> 0 <= y < 2 ->
             site_of lattice_full_example x y = Some p -> p = 2 * x + y) as Hsite.
  { intros x y p Hx Hy.
    assert ((x = 0 \/ x = 1) /\ (y = 0 \/ y = 1)) as [[ -> | -> ] [ -> | -> ]] by lia;
      intros H; vm_compute in H; injection H as <-; reflexivity. }
  split; [reflexivity|]. split.
  - intros x y p Hx Hy H Hp. rewrite (Hsite x y p Hx Hy H).
    change (DiffCoef.L lattice_full_example) with 2 in Hx, Hy.
    assert ((x = 0 \/ x = 1) /\ (y = 0 \/ y = 1)) as [[ -> | -> ] [ -> | -> ]] by lia;
      (split; [lia|]; split; reflexivity).
  - intros x y x' y' p Hx Hy Hx' Hy' H H' Hp.
    change (DiffCoef.L lattice_full_example) with 2 in Hx, Hy, Hx', Hy'.
    pose proof (Hsite x y p Hx Hy H). pose proof (Hsite x' y' p Hx' Hy' H'). lia.
Qed.

Lemma full_lattice_is_frozen_witness :
  exists w',
    DiffCoef.updateLattice (DiffCoef.L lattice_full_example * DiffCoef.L lattice_full_example)
      (lattice_full_example, world_at_start)
    = Done (lattice_full_example, w').
Proof.
  apply (full_lattice_is_frozen lattice_full_example world_at_start
           lattice_full_example_wf lattice_full_example_consistent).
Defined.

(** ** [initLattice], in detail *)

Section LatticeInitDetail.

Import DiffCoef.

Lemma initLattice_detail (rho : spec_float) (l : lattice) (w : world) :
  wf_lattice l ->
  exists trueN l' w',
    initLattice rho (l, w) = Done (trueN, (l', w')) /\
    wf_lattice l' /\ consistent trueN l' /\ L l' = L l /\
    fresh_positions trueN l' /\
    master w' = master w /\
    worker w' = snd (draws Pcg32.pcg32_random_r (Z.to_nat (L l * L l)) (worker w)) /\
    trueN
    = Z.of_nat
        (length
           (List.filter (fun v => SFltb (uniform_of_draw v) rho)
              (fst (draws Pcg32.pcg32_random_r (Z.to_nat (L l * L l)) (worker w))))).
Proof.
  intros Hwf. unfold initLattice.
  destruct (initLattice_clear l Hwf) as (a & -> & Hla & Hall). rewrite bind_Done.
  set (l1 := set_particleOfSite l a).
  assert (wf_lattice l1) as Hwf1.
  { unfold wf_lattice, l1. cbn [L particleOfSite positionOfParticle
      zeroPositionOfParticle truePositionOfParticle plusNeighbor minusNeighbor
      set_particleOfSite]. rewrite Hla. exact Hwf. }
  pose proof Hwf as (HL & HV & Hlen & _).
  set (g0 := worker w).
  set (P := fun (k : Z) (st : Z * (lattice * world)) =>
              wf_lattice (fst (snd st)) /\ L (fst (snd st)) = L l /\
              consistent (fst st) (fst (snd st)) /\ fst st <= k /\
              (forall i, k <= i < L l * L l ->
                         particleOfSite (fst (snd st)) !! Z.to_nat i = Some MY_EMPTY) /\
              fresh_positions (fst st) (fst (snd st)) /\
              master (snd (snd st)) = master w /\
              worker (snd (snd st))
              = snd (draws Pcg32.pcg32_random_r (Z.to_nat k) g0) /\
              fst st
              = Z.of_nat
                  (length
                     (List.filter (fun v => SFltb (uniform_of_draw v) rho)
                        (fst (draws Pcg32.pcg32_random_r (Z.to_nat k) g0))))).
  change (L l1) with (L l).
  destruct (for_up_grid P (L l) (fun _ => L l)
              (fun x y st =>
                 let '(trueN, (l, w)) := st in
                 let '(r, w) := call_myrand (WK := worker_pcg32) w in
                 if SFltb r rho then
                   let p := trueN in
                   s ← aset (particleOfSite l) (SITE l x y) p;
                   pos ← aset (positionOfParticle l) (POS p 0) x;
                   pos ← aset pos (POS p 1) y;
                   zer ← aset (zeroPositionOfParticle l) (POS p 0) x;
                   zer ← aset zer (POS p 1) y;
                   tru ← aset (truePositionOfParticle l) (POS p 0) x;
                   tru ← aset tru (POS p 1) y;
                   let l := set_truePositionOfParticle
                              (set_zeroPositionOfParticle
                                 (set_positionOfParticle
                                    (set_particleOfSite l s) pos) zer) tru in
                   mret (trueN + 1, (l, w))
                 else mret (trueN, (l, w)))) with (s := (0, (l1, w)))
    as ([trueN [l' w']] & Hrun & HP).
  - lia.
  - reflexivity.
  - intros x y [trueN [l2 w2]] Hx Hy
      (Hwf2 & HL2 & Hc2 & HN & Hemp & Hfresh & Hm & Hw & Hcount).
    cbn [fst snd] in *. rewrite call_myrand_pcg32. cbv beta iota zeta.
    set (w3 := {| master := master w2; worker := _; trace := _ |}).
    assert (0 <= x * L l + y < L l * L l) as Hk by nia.
    assert (Z.to_nat (x * L l + y + 1) = Datatypes.S (Z.to_nat (x * L l + y)))
      as Hsucc by lia.
    assert (master w3 = master w /\
            worker w3
            = snd (draws Pcg32.pcg32_random_r (Z.to_nat (x * L l + y + 1)) g0))
      as [Hm3 Hw3].
    { split; [exact Hm|]. subst w3. cbn [worker].
      rewrite Hsucc, draws_snoc, <- Hw. reflexivity. }
    assert (forall b : bool,
               SFltb (uniform_of_draw (fst (Pcg32.pcg32_random_r (worker w2)))) rho = b ->
               Z.of_nat
                 (length
                    (List.filter (fun v => SFltb (uniform_of_draw v) rho)
                       (fst (draws Pcg32.pcg32_random_r
                               (Z.to_nat (x * L l + y + 1)) g0))))
               = trueN + (if b then 1 else 0)) as Hcount3.
    { intros b Hb. rewrite Hsucc, draws_snoc. cbn [fst].
      rewrite List.filter_app, length_app, <- Hw. cbn [List.filter].
      rewrite Hb, Nat2Z.inj_add, <- Hcount. destruct b; reflexivity. }
    fold (uniform_of_draw (fst (Pcg32.pcg32_random_r (worker w2)))).
    destruct (SFltb (uniform_of_draw (fst (Pcg32.pcg32_random_r (worker w2)))) rho) eqn:Hlt.
    + pose proof (consistent_le_volume l2 trueN Hwf2 Hc2) as HNV.
      rewrite <- HL2 in Hx, Hy.
      pose proof (site_in_array l2 x y Hwf2 Hx Hy) as Hsx.
      assert (0 <= trueN < L l2 * L l2) as HNr by (rewrite HL2; lia).
      destruct (pos_in_array l2 trueN 0 Hwf2 HNr ltac:(lia)) as [Hq0 Ht0].
      destruct (pos_in_array l2 trueN 1 Hwf2 HNr ltac:(lia)) as [Hq1 Ht1].
      pose proof (zero_in_array l2 trueN 0 Hwf2 HNr ltac:(lia)) as Hz0.
      pose proof (zero_in_array l2 trueN 1 Hwf2 HNr ltac:(lia)) as Hz1.
      rewrite (aset_Done _ _ _ Hsx), bind_Done.
      rewrite (aset_Done _ _ _ Hq0), bind_Done.
      rewrite (aset_Done (<[_ := _]> _) (POS trueN 1)), bind_Done
        by (rewrite length_insert; exact Hq1).
      rewrite (aset_Done _ _ _ Hz0), bind_Done.
      rewrite (aset_Done (<[_ := _]> _) (POS trueN 1)), bind_Done
        by (rewrite length_insert; exact Hz1).
      rewrite (aset_Done _ _ _ Ht0), bind_Done.
      rewrite (aset_Done (<[_ := _]> _) (POS trueN 1)), bind_Done
        by (rewrite length_insert; exact Ht1).
      eexists. split; [reflexivity|]. unfold P. cbn [fst snd].
      assert (site_of l2 x y = Some MY_EMPTY) as Hse.
      { unfold site_of, SITE. rewrite HL2. apply Hemp. lia. }
      destruct (place_consistent l2 trueN x y
                  (<[Z.to_nat (POS trueN 1) := y]>
                     (<[Z.to_nat (POS trueN 0) := x]> (zeroPositionOfParticle l2)))
                  (<[Z.to_nat (POS trueN 1) := y]>
                     (<[Z.to_nat (POS trueN 0) := x]> (truePositionOfParticle l2)))
                  Hwf2 Hc2 (proj2 HNr) Hx Hy Hse)
        as [Hwf' Hc']; [rewrite !length_insert; reflexivity ..|].
      split; [exact Hwf'|]. split; [exact HL2|]. split; [exact Hc'|].
      split; [lia|]. split; [|split; [|split; [exact Hm3|split; [exact Hw3|]]]].
      * intros i Hi. cbn [particleOfSite set_truePositionOfParticle
          set_zeroPositionOfParticle set_positionOfParticle set_particleOfSite].
        rewrite list_lookup_insert_ne by (unfold SITE; rewrite HL2; lia).
        apply Hemp. lia.
      * intros q mu Hq Hmu.
        cbn [L positionOfParticle zeroPositionOfParticle truePositionOfParticle
               set_truePositionOfParticle set_zeroPositionOfParticle
               set_positionOfParticle set_particleOfSite].
        destruct (Z.eq_dec q trueN) as [->|Hne].
        -- assert (mu = 0 \/ mu = 1) as [ -> | -> ] by lia.
           ++ exists x. split; [exact Hx|].
              rewrite !(list_lookup_insert_ne (<[_ := _]> _))
                by (apply pos_index_ne; lia).
              rewrite !list_lookup_insert_eq by lia. auto.
           ++ exists y. split; [exact Hy|].
              rewrite !list_lookup_insert_eq by (rewrite length_insert; lia). auto.
        -- destruct (Hfresh q mu ltac:(lia) Hmu) as (v & Hv & H1 & H2 & H3).
           exists v. rewrite !list_lookup_insert_ne by (apply pos_index_ne; lia). auto.
      * rewrite (Hcount3 true eq_refl). reflexivity.
    + eexists. split; [reflexivity|]. unfold P. cbn [fst snd].
      do 3 (split; [assumption|]). split; [lia|].
      split; [|split; [exact Hfresh|split; [exact Hm3|split; [exact Hw3|]]]].
      * intros i Hi. apply Hemp. lia.
      * rewrite (Hcount3 false eq_refl). lia.
  - unfold P. cbn [fst snd]. split; [exact Hwf1|]. split; [reflexivity|].
    split; [apply empty_consistent; exact Hall|]. split; [lia|].
    split; [|split; [|split; [reflexivity|split; reflexivity]]].
    + intros i Hi. unfold l1. cbn [particleOfSite set_particleOfSite].
      destruct (lookup_in_range a i) as [v Hv]; [rewrite Hla, Hlen; lia|].
      rewrite Hv. f_equal. apply (Hall _ _ Hv).
    + intros q mu Hq. lia.
  - exists trueN, l', w'. split; [exact Hrun|].
    destruct HP as (Hwf' & HL' & Hc' & _ & _ & Hfresh & Hm' & Hw' & Hcount).
    cbn [fst snd] in *. auto 10.
Qed.

End LatticeInitDetail.

Lemma draws_u32 (k : nat) :
  forall g v, In v (fst (draws Pcg32.pcg32_random_r k g)) -> is_u32 v.
Proof.
  induction k as [|k IH]; intros g v Hin; [contradiction|].
  rewrite draws_snoc in Hin. cbn [fst] in Hin. apply in_app_or in Hin as [Hin|Hin].
  - apply (IH g v Hin).
  - destruct Hin as [<-|[]]. apply pcg32_random_r_u32.
Qed.

Lemma filter_none {A : Type} (f : A -> bool) (xs : list A) :
  (forall x, In x xs -> f x = false) -> List.filter f xs = [].
Proof.
  induction xs as [|x xs IH]; intros H; [reflexivity|].
  cbn [List.filter]. rewrite (H x (or_introl eq_refl)). apply IH.
  intros y Hy. apply H. right. exact Hy.
Qed.

Lemma filter_all {A : Type} (f : A -> bool) (xs : list A) :
  (forall x, In x xs -> f x = true) -> List.filter f xs = xs.
Proof.
  induction xs as [|x xs IH]; intros H; [reflexivity|].
  cbn [List.filter]. rewrite (H x (or_introl eq_refl)). f_equal. apply IH.
  intros y Hy. apply H. right. exact Hy.
Qed.

(** A uniform number is below no density that is not above zero, and
    below every density of at least one. *)
Lemma uniform_below_density (n : Z) (rho : spec_float) :
  is_u32 n ->
  let r := Double.div (Double.of_Z n) (Double.add (Double.of_Z UINT32_MAX) Double.one) in
  (SFltb Double.zero rho = false -> SFltb r rho = false) /\
  (SFleb Double.one rho = true -> SFltb r rho = true).
Proof.
  intros Hn r. destruct (myrand_shape n Hn) as [Hz|(m & e & Hv & _ & He & _)];
    fold r in Hz || fold r in Hv.
  - rewrite Hz. split; intros H.
    + destruct rho as [[|]|[|]| |[|] m e]; try reflexivity; discriminate H.
    + destruct rho as [[|]|[|]| |[|] m e]; try reflexivity; discriminate H.
  - rewrite Hv. split; intros H.
    + destruct rho as [[|]|[|]| |[|] m' e']; try reflexivity; discriminate H.
    + destruct rho as [[|]|[|]| |[|] m' e']; try reflexivity; try discriminate H.
      change Double.one with (S754_finite false 4503599627370496 (-52)) in H.
      unfold SFleb, SFcompare in H. unfold SFltb, SFcompare.
      revert H. destruct (Z.compare_spec (-52) e'); intros Hle; try discriminate Hle;
        destruct (Z.compare_spec e e'); try reflexivity; lia.
Qed.

(** X11: on a lattice as [myInit] leaves it, of a side that fits the
    [int] counters of the loops, [initLattice] returns; it takes exactly
    one draw per site, in the order of the sites, and the number of particles it returns is
    the number of those draws that fall below [rho]; the lattice it leaves
    is consistent for that number and the three position arrays agree on
    every particle; the master generator is untouched. *)
Theorem initLattice_places_draws_below_rho
  (rho : spec_float) (l : DiffCoef.lattice) (w : world) :
  wf_lattice l -> DiffCoef.L l < 2 ^ 31 ->
  let sites := Z.to_nat (DiffCoef.L l * DiffCoef.L l) in
  exists trueN l' w',
    DiffCoef.initLattice rho (l, w) = Done (trueN, (l', w')) /\
    trueN
    = Z.of_nat
        (length
           (List.filter
              (fun v => SFltb (Double.div (Double.of_Z v)
                                 (Double.add (Double.of_Z UINT32_MAX) Double.one)) rho)
              (fst (draws Pcg32.pcg32_random_r sites (worker w))))) /\
    worker w' = snd (draws Pcg32.pcg32_random_r sites (worker w)) /\
    master w' = master w /\
    consistent trueN l' /\ fresh_positions trueN l'.
Proof.
  intros Hwf _ sites.
  destruct (initLattice_detail rho l w Hwf)
    as (trueN & l' & w' & Hrun & _ & Hc & _ & Hf & Hm & Hw & Hn).
  exists trueN, l', w'. auto 10.
Qed.

Lemma initLattice_places_draws_below_rho_witness :
  exists trueN l' w',
    DiffCoef.initLattice Double.half (lattice_example, world_at_start)
    = Done (trueN, (l', w')) /\
    trueN
    = Z.of_nat
        (length
           (List.filter
              (fun v => SFltb (Double.div (Double.of_Z v)
                                 (Double.add (Double.of_Z UINT32_MAX) Double.one))
                          Double.half)
              (fst (draws Pcg32.pcg32_random_r
                      (Z.to_nat (DiffCoef.L lattice_example * DiffCoef.L lattice_example))
                      (worker world_at_start))))) /\
    worker w'
    = snd (draws Pcg32.pcg32_random_r
             (Z.to_nat (DiffCoef.L lattice_example * DiffCoef.L lattice_example))
             (worker world_at_start)) /\
    master w' = master world_at_start /\
    consistent trueN l' /\ fresh_positions trueN l'.
Proof.
  apply (initLattice_places_draws_below_rho Double.half lattice_example world_at_start
           lattice_example_wf).
  change (DiffCoef.L lattice_example) with 2. lia.
Defined.

(** X12: with a density that is not above zero (zero, negative or not
    a number) [initLattice] places no particle; with a density of at
    least one it fills every site (the side fitting the [int] counters
    of the loops). *)
Theorem initLattice_density_edges
  (rho : spec_float) (l : DiffCoef.lattice) (w : world) :
  wf_lattice l -> DiffCoef.L l < 2 ^ 31 ->
  exists trueN l' w',
    DiffCoef.initLattice rho (l, w) = Done (trueN, (l', w')) /\
    count_occupied (DiffCoef.particleOfSite l') = trueN /\
    (SFltb Double.zero rho = false -> trueN = 0) /\
    (SFleb Double.one rho = true -> trueN = DiffCoef.L l * DiffCoef.L l).
Proof.
  intros Hwf _.
  destruct (initLattice_detail rho l w Hwf)
    as (trueN & l' & w' & Hrun & _ & Hc & _ & _ & _ & _ & Hn).
  exists trueN, l', w'. split; [exact Hrun|]. split; [apply Hc|].
  pose proof Hwf as (HL & _).
  split; intros Hrho; rewrite Hn.
  - rewrite filter_none; [reflexivity|].
    intros v Hv. apply (uniform_below_density v rho (draws_u32 _ _ _ Hv)), Hrho.
  - rewrite filter_all, draws_length; [nia|].
    intros v Hv. apply (uniform_below_density v rho (draws_u32 _ _ _ Hv)), Hrho.
Qed.

Lemma initLattice_density_edges_witness :
  exists trueN l' w',
    DiffCoef.initLattice Double.one (lattice_example, world_at_start)
    = Done (trueN, (l', w')) /\
    count_occupied (DiffCoef.particleOfSite l') = trueN /\
    (SFltb Double.zero Double.one = false -> trueN = 0) /\
    (SFleb Double.one Double.one = true ->
     trueN = DiffCoef.L lattice_example * DiffCoef.L lattice_example).
Proof.
  apply (initLattice_density_edges Double.one lattice_example world_at_start
           lattice_example_wf).
  change (DiffCoef.L lattice_example) with 2. lia.
Defined.

(** ** The measurement *)

Section Measurement.

Import DiffCoef DiffCoefMeasure.

Lemma long_sub_Done (a b : Z) :
  - 2 ^ 63 <= a - b < 2 ^ 63 -> long_sub a b = Done (a - b).
Proof.
  intros H. unfold long_sub.
  replace ((- 2 ^ 63 <=? a - b) && (a - b <? 2 ^ 63)) with true; [reflexivity|].
  symmetry. apply andb_true_iff. split; [apply Z.leb_le | apply Z.ltb_lt]; lia.
Qed.

(** The loop of [measure] over the two coordinates of particle [p]. *)
Lemma measure_particle (l : lattice) (p t0 z0 t1 z1 : Z) (acc : spec_float) :
  0 <= p ->
  truePositionOfParticle l !! Z.to_nat (POS p 0) = Some t0 ->
  zeroPositionOfParticle l !! Z.to_nat (POS p 0) = Some z0 ->
  truePositionOfParticle l !! Z.to_nat (POS p 1) = Some t1 ->
  zeroPositionOfParticle l !! Z.to_nat (POS p 1) = Some z1 ->
  - 2 ^ 63 <= t0 - z0 < 2 ^ 63 -> - 2 ^ 63 <= t1 - z1 < 2 ^ 63 ->
  for_up (Z.to_nat DIM) 0
    (fun mu sqrDist =>
       t ← aget (truePositionOfParticle l) (POS p mu);
       z ← aget (zeroPositionOfParticle l) (POS p mu);
       d ← long_sub t z;
       let dl := Double.of_Z d in
       mret (Double.add sqrDist (Double.mul dl dl))) acc
  = Done (Double.add
            (Double.add acc (Double.mul (Double.of_Z (t0 - z0)) (Double.of_Z (t0 - z0))))
            (Double.mul (Double.of_Z (t1 - z1)) (Double.of_Z (t1 - z1)))).
Proof.
  intros Hp Ht0 Hz0 Ht1 Hz1 H0 H1.
  assert (0 <= POS p 0 /\ 0 <= POS p 1) as [Hi0 Hi1] by (unfold POS, DIM; lia).
  change (Z.to_nat DIM) with 2%nat. cbn [for_up]. change (0 + 1) with 1.
  rewrite (aget_Done _ _ _ Hi0 Ht0), bind_Done.
  rewrite (aget_Done _ _ _ Hi0 Hz0), bind_Done.
  rewrite (long_sub_Done _ _ H0), bind_Done. cbv zeta.
  change (mret ?x) with (Done x). rewrite bind_Done.
  rewrite (aget_Done _ _ _ Hi1 Ht1), bind_Done.
  rewrite (aget_Done _ _ _ Hi1 Hz1), bind_Done.
  rewrite (long_sub_Done _ _ H1), bind_Done. reflexivity.
Qed.

(** Right after [initLattice] no particle has moved. *)
Lemma measure_fresh (l : lattice) (trueN : Z) :
  fresh_positions trueN l -> 0 <= trueN < 2 ^ 63 ->
  measure l trueN = Done (if trueN =? 0 then S754_nan else S754_zero false).
Proof.
  intros Hf HN. unfold measure.
  match goal with
  | |- context [for_up ?n ?i ?b ?s0] =>
      destruct (for_up_indexed (fun (_ : Z) (s : spec_float) => s = Double.zero)
                  b n i s0) as (s & -> & ->)
  end.
  - intros p s Hp ->.
    destruct (Hf p 0 ltac:(lia) ltac:(lia)) as (v0 & _ & _ & Hz0 & Ht0).
    destruct (Hf p 1 ltac:(lia) ltac:(lia)) as (v1 & _ & _ & Hz1 & Ht1).
    rewrite (measure_particle l p v0 v0 v1 v1 _ ltac:(lia) Ht0 Hz0 Ht1 Hz1)
      by (rewrite Z.sub_diag; lia).
    rewrite !Z.sub_diag. eexists. split; reflexivity.
  - reflexivity.
  - rewrite bind_Done. change (mret ?x) with (Done x). f_equal.
    destruct trueN as [|N|N]; [reflexivity| |lia].
    destruct (of_Z_pos_bound N ltac:(lia)) as (m & e & -> & _). reflexivity.
Qed.

(** [measure] returns when the displacements are inside [long int]. *)
Lemma measure_Done (l : lattice) (trueN bound : Z) :
  tracks bound trueN l -> bound < 2 ^ 63 ->
  exists v, measure l trueN = Done v.
Proof.
  intros Htr HB. unfold measure.
  match goal with
  | |- context [for_up ?n ?i ?b ?s0] =>
      destruct (for_up_indexed (fun (_ : Z) (s : spec_float) => True)
                  b n i s0) as (s & -> & _)
  end.
  - intros p s Hp _.
    destruct (Htr p 0 ltac:(lia) ltac:(lia)) as (t0 & z0 & _ & Ht0 & Hz0 & _ & _ & _ & H0).
    destruct (Htr p 1 ltac:(lia) ltac:(lia)) as (t1 & z1 & _ & Ht1 & Hz1 & _ & _ & _ & H1).
    rewrite (measure_particle l p t0 z0 t1 z1 _ ltac:(lia) Ht0 Hz0 Ht1 Hz1) by lia.
    eexists. split; [reflexivity | exact I].
  - exact I.
  - rewrite bind_Done. eexists. reflexivity.
Qed.

Lemma fresh_tracks (l : lattice) (trueN : Z) :
  0 < L l -> fresh_positions trueN l -> tracks 0 trueN l.
Proof.
  intros HL Hf p mu Hp Hmu. destruct (Hf p mu Hp Hmu) as (v & Hv & Hq & Hz & Ht).
  exists v, v, v. do 3 (split; [assumption|]).
  split; [rewrite Z.sub_diag; apply Z.mod_0_l; lia|]. split; [exact Hv | lia].
Qed.

End Measurement.

(** X13: right after [initLattice] has returned [trueN], [measure(trueN)]
    is exactly [+0.0] when a particle was placed, and is not a number
    when none was ([0.0 / 0.0]); the side fits the [int] counters of the
    loops of [initLattice]. *)
Theorem measure_right_after_initLattice
  (rho : spec_float) (l : DiffCoef.lattice) (w : world) :
  wf_lattice l -> DiffCoef.L l < 2 ^ 31 ->
  exists trueN l' w',
    DiffCoef.initLattice rho (l, w) = Done (trueN, (l', w')) /\
    DiffCoefMeasure.measure l' trueN
    = Done (if trueN =? 0 then S754_nan else S754_zero false).
Proof.
  intros Hwf _.
  destruct (initLattice_detail rho l w Hwf)
    as (trueN & l' & w' & Hrun & Hwf' & Hc & _ & Hf & _).
  exists trueN, l', w'. split; [exact Hrun|].
  pose proof (consistent_le_volume l' trueN Hwf' Hc) as HN.
  destruct Hwf' as (_ & HV & _).
  apply measure_fresh; [exact Hf | lia].
Qed.

Lemma measure_right_after_initLattice_witness :
  exists trueN l' w',
    DiffCoef.initLattice Double.half (lattice_example, world_at_start)
    = Done (trueN, (l', w')) /\
    DiffCoefMeasure.measure l' trueN
    = Done (if trueN =? 0 then S754_nan else S754_zero false).
Proof.
  apply (measure_right_after_initLattice Double.half lattice_example world_at_start
           lattice_example_wf).
  change (DiffCoef.L lattice_example) with 2. lia.
Defined.

(** ** The statistical functions of the 2D walk *)

Lemma div_by_zero_not_finite (s : spec_float) :
  Double.is_finite (Double.div s (S754_zero false)) = false.
Proof. destruct s as [[|]|[|]| |[|] m e]; reflexivity. Qed.

(** X14: on a single data point [var_funct] divides by [dim - 1 = 0]:
    whatever the data point and the mean function, it returns an
    infinity or a NaN, never a number; on no data point, where [dim - 1]
    wraps around in [size_t], it returns [+0.0]. *)
Theorem var_funct_needs_two_points
  (x : spec_float) (rest : list spec_float)
  (avg : Z -> list spec_float -> spec_float) :
  (exists v, RanWalk2dStats.var_funct 1 (x :: rest) avg = Done v /\
             Double.is_finite v = false) /\
  RanWalk2dStats.var_funct 0 (x :: rest) avg = Done (S754_zero false).
Proof.
  split.
  - unfold RanWalk2dStats.var_funct. cbv zeta.
    change (Z.to_nat 1) with 1%nat. cbn [for_up].
    change (dget (x :: rest) 0) with (Done x).
    rewrite !bind_Done. eexists. split; [reflexivity|].
    change (Double.of_Z (u64 (1 - 1))) with (S754_zero false).
    apply div_by_zero_not_finite.
  - reflexivity.
Qed.

(** ** The seeds of the runs *)

Lemma seedgen_init_forgets (m0 m1 : pcg32_random_t) (st seq : Z) :
  SeedGen1d.seedgen_init m0 st seq = SeedGen1d.seedgen_init m1 st seq.
Proof. reflexivity. Qed.

Lemma master_at_succ (m : pcg32_random_t) (k : nat) :
  master_at m (N.of_nat (Datatypes.S k))
  = snd (derive_run_seeds (master_at m (N.of_nat k))).
Proof.
  unfold master_at. rewrite Nat2N.inj_succ, N.iter_succ. reflexivity.
Qed.

Lemma rounds_take_pairs_step (next : pcg32_random_t -> Z * pcg32_random_t)
  (srandom : pcg32_random_t -> Z -> Z -> pcg32_random_t) (iterations : Z)
  (k : nat) (w w' : world) (run : Z) :
  rounds_take_pairs next srandom iterations k w ->
  master w' = snd (derive_run_seeds (master w)) ->
  trace w'
  = trace w ++ run_calls next srandom iterations (fst (derive_run_seeds (master w)))
    ++ [EvRunDone run] ->
  rounds_take_pairs next srandom iterations (Datatypes.S k) w'.
Proof.
  intros (ws & pend & Hscan & Hws & Hm & Hpend) Hm' Htr.
  set (calls := run_calls next srandom iterations (fst (derive_run_seeds (master w)))) in *.
  assert (forallb (fun e => negb (is_mark e)) calls = true) as Hnm.
  { subst calls. unfold run_calls. rewrite forallb_app. cbn [forallb is_mark negb andb].
    apply forallb_forall. intros e He. apply in_map_iff in He as (v & <- & _).
    reflexivity. }
  exists (ws ++ [pend ++ calls]), (@nil event).
  split; [|split; [|split]].
  - rewrite Htr. apply scan_round; [exact Hscan | exact Hnm].
  - rewrite Hws, seq_S, map_app. cbn [map]. f_equal. f_equal.
    rewrite Nat.add_0_l. unfold round_calls, run_seeds_at. rewrite <- Hm. fold calls.
    f_equal. destruct k as [|k].
    + cbn [seq map] in Hws. subst ws. exact Hpend.
    + rewrite seq_S, map_app in Hws. destruct ws as [|r ws]; [|exact Hpend].
      destruct (map (round_calls next srandom iterations) (seq 0 k)); discriminate Hws.
  - rewrite Hm', Hm. symmetry. apply master_at_succ.
  - destruct ws; reflexivity.
Qed.

Lemma rounds_take_pairs_start (next : pcg32_random_t -> Z * pcg32_random_t)
  (srandom : pcg32_random_t -> Z -> Z -> pcg32_random_t) (iterations : Z)
  (m0 g0 : pcg32_random_t) :
  rounds_take_pairs next srandom iterations 0
    (call_seedgen_init (SG := seedgen_1d) 12345 67890
       {| master := m0; worker := g0; trace := [] |}).
Proof.
  exists (@nil (list event)), [EvSeedgenInit 12345 67890].
  split; [reflexivity|]. split; [reflexivity|]. split; reflexivity.
Qed.

(** The calls of a walk: the uniform numbers of the draws of its worker. *)
Lemma walk1d_calls (iterations : Z) (w : world) :
  trace (snd (Walk1d.walk iterations w))
  = trace w ++ map (fun v => EvMyrand (uniform_of_draw v))
                 (fst (draws MainDat.pcg32_random_r (Z.to_nat iterations) (worker w))).
Proof.
  unfold Walk1d.walk.
  refine (proj1 (repeat_up_rounds
           (fun k (st : Z * Z * world) =>
              trace (snd st)
              = trace w ++ map (fun v => EvMyrand (uniform_of_draw v))
                             (fst (draws MainDat.pcg32_random_r k (worker w))) /\
              worker (snd st) = snd (draws MainDat.pcg32_random_r k (worker w)))
           _ _ (Z.to_nat iterations) 0 ((0, 0), w) _)).
  - intros k i [[position time] w1] (Ht & Hw). cbn [fst snd] in *.
    unfold call_myrand, myrand, worker_main_dat, MainDat.myrand.
    rewrite draws_snoc, <- Hw. cbn [fst snd].
    destruct (MainDat.pcg32_random_r (worker w1)) as [v g1]. cbn [fst snd trace worker].
    rewrite map_app, app_assoc, <- Ht. split; reflexivity.
  - cbn [fst snd draws map]. rewrite app_nil_r. split; reflexivity.
Qed.

Lemma walk2d_calls (iterations : Z) (w : world) :
  trace (snd (Walk2d.walk iterations w))
  = trace w ++ map (fun v => EvMyrand (uniform_of_draw v))
                 (fst (draws RanWalk2d.pcg32_random_r (Z.to_nat iterations) (worker w))).
Proof.
  unfold Walk2d.walk.
  refine (proj1 (repeat_up_rounds
           (fun k (st : Walk2d.strc * world) =>
              trace (snd st)
              = trace w ++ map (fun v => EvMyrand (uniform_of_draw v))
                             (fst (draws RanWalk2d.pcg32_random_r k (worker w))) /\
              worker (snd st) = snd (draws RanWalk2d.pcg32_random_r k (worker w)))
           _ _ (Z.to_nat iterations) 0
           ({| Walk2d.x := 0; Walk2d.y := 0; Walk2d.step := 0; Walk2d.time := 0 |}, w) _)).
  - intros k i [pos w1] (Ht & Hw). cbn [fst snd] in *.
    unfold call_myrand, myrand, worker_2d_ran_walk, RanWalk2d.myrand.
    rewrite draws_snoc, <- Hw. cbn [fst snd].
    destruct (RanWalk2d.pcg32_random_r (worker w1)) as [v g1]. cbn [fst snd trace worker].
    rewrite map_app, app_assoc, <- Ht. split; reflexivity.
  - cbn [fst snd draws map]. rewrite app_nil_r. split; reflexivity.
Qed.

Lemma call_generate_seed_1d (w : world) :
  call_generate_seed (SG := seedgen_1d) w
  = (fst (SeedGen1d.pcg32_random (master w)),
     {| master := snd (SeedGen1d.pcg32_random (master w));
        worker := worker w;
        trace := trace w ++ [EvGenerateSeed (fst (SeedGen1d.pcg32_random (master w)))] |}).
Proof.
  unfold call_generate_seed, generate_seed, seedgen_1d, SeedGen1d.generate_seed.
  destruct (SeedGen1d.pcg32_random (master w)). reflexivity.
Qed.

Lemma call_generate_seed_2d (w : world) :
  call_generate_seed (SG := seedgen_2d) w
  = (fst (SeedGen1d.pcg32_random (master w)),
     {| master := snd (SeedGen1d.pcg32_random (master w));
        worker := worker w;
        trace := trace w ++ [EvGenerateSeed (fst (SeedGen1d.pcg32_random (master w)))] |}).
Proof.
  unfold call_generate_seed, generate_seed, seedgen_2d, SeedGen2d.generate_seed.
  change (SeedGen2d.pcg32_random (master w)) with (SeedGen1d.pcg32_random (master w)).
  destruct (SeedGen1d.pcg32_random (master w)). reflexivity.
Qed.

Lemma derive_run_seeds_eq (m : pcg32_random_t) :
  derive_run_seeds m
  = ((fst (SeedGen1d.pcg32_random m),
      fst (SeedGen1d.pcg32_random (snd (SeedGen1d.pcg32_random m)))),
     snd (SeedGen1d.pcg32_random (snd (SeedGen1d.pcg32_random m)))).
Proof.
  unfold derive_run_seeds, SeedGen1d.generate_seed.
  destruct (SeedGen1d.pcg32_random m) as [s1 m1]. cbn [fst snd].
  destruct (SeedGen1d.pcg32_random m1). reflexivity.
Qed.

(** Run [k] of the 1D walk takes pair [k]; the program completes unless,
    when [u] is set, a square leaves [int]. *)
Lemma walk1d_main_pairs (u : bool) (env : environment) (runs iterations : Z)
  (m0 g0 : pcg32_random_t) :
  (u = false -> iterations <= 46340) ->
  0 <= iterations < 2 ^ 61 -> walk1d_granted env runs iterations ->
  (exists w,
      Walk1d.main env runs iterations {| master := m0; worker := g0; trace := [] |}
      = Done w /\
      rounds_take_pairs MainDat.pcg32_random_r MainDat.pcg32_srandom_r iterations
        (Z.to_nat runs) w) \/
  (u = true /\
   Walk1d.main env runs iterations {| master := m0; worker := g0; trace := [] |}
   = Undefined).
Proof.
  intros Hu Hi Henv. unfold Walk1d.main. apply for_up_rounds_upto.
  - intros k w Hlt Hk.
    rewrite call_generate_seed_1d. cbv beta iota.
    rewrite call_generate_seed_1d. cbv beta iota. cbn [master worker trace].
    destruct (Henv (Z.of_nat k) ltac:(lia)) as [Hm Hf].
    rewrite (mtrx_alloc_bytes env _ iterations Hi), Hm, Hf. cbn [negb].
    match goal with |- context [Walk1d.walk_squared iterations ?x] => set (w2 := x) end.
    destruct (walk_squared_cases u iterations w2 Hu)
      as [-> | [Hu' ->]]; [|right; split; [exact Hu' | reflexivity]].
    rewrite bind_Done.
    pose proof (walk1d_calls iterations w2) as Hds.
    destruct (walk1d_sum iterations w2) as (_ & _ & Hmw).
    destruct (Walk1d.walk iterations w2) as [st w3]. cbn [snd] in *.
    left. eexists. split; [reflexivity|].
    apply (rounds_take_pairs_step _ _ iterations k w _ (Z.of_nat k) Hk).
    + rewrite derive_run_seeds_eq. cbn [snd mark_run_done master]. rewrite Hmw. reflexivity.
    + rewrite derive_run_seeds_eq. cbn [fst snd mark_run_done trace]. rewrite Hds.
      subst w2. unfold run_calls. cbn [call_myrand_init trace worker fst snd].
      rewrite <- !app_assoc. reflexivity.
  - apply rounds_take_pairs_start.
Qed.

Lemma walk2d_main_pairs (env : environment) (runs iterations t_target : Z)
  (m0 g0 : pcg32_random_t) :
  0 < runs -> 0 < iterations -> 0 < t_target -> walk2d_granted env runs ->
  exists w,
    Walk2d.main env runs iterations t_target
      {| master := m0; worker := g0; trace := [] |}
    = Done w /\
    rounds_take_pairs RanWalk2d.pcg32_random_r RanWalk2d.pcg32_srandom_r iterations
      (Z.to_nat runs) w.
Proof.
  intros Hr Hi Ht Henv. unfold Walk2d.main.
  destruct (Z.leb_spec runs 0); [lia|]. destruct (Z.leb_spec iterations 0); [lia|].
  destruct (Z.leb_spec t_target 0); [lia|].
  apply for_up_rounds.
  - intros k w Hlt Hk.
    rewrite (Henv (Z.of_nat k)) by lia. cbn [negb].
    rewrite call_generate_seed_2d. cbv beta iota.
    rewrite call_generate_seed_2d. cbv beta iota. cbn [master worker trace].
    match goal with |- context [Walk2d.walk iterations ?x] => set (w2 := x) end.
    pose proof (walk2d_calls iterations w2) as Hds.
    destruct (walk2d_sum iterations w2) as (_ & _ & _ & _ & Hmw).
    destruct (Walk2d.walk iterations w2) as [st w3]. cbn [snd] in *.
    eexists. split; [reflexivity|].
    apply (rounds_take_pairs_step _ _ iterations k w _ (Z.of_nat k) Hk).
    + rewrite derive_run_seeds_eq. cbn [snd mark_run_done master]. rewrite Hmw. reflexivity.
    + rewrite derive_run_seeds_eq. cbn [fst snd mark_run_done trace]. rewrite Hds.
      subst w2. unfold run_calls. cbn [call_myrand_init trace worker fst snd].
      rewrite <- !app_assoc. reflexivity.
  - apply rounds_take_pairs_start.
Qed.

Lemma rounds_take_pairs_windows (next : pcg32_random_t -> Z * pcg32_random_t)
  (srandom : pcg32_random_t -> Z -> Z -> pcg32_random_t) (iterations : Z)
  (k : nat) (w : world) :
  rounds_take_pairs next srandom iterations k w ->
  windows (trace w) = map (round_calls next srandom iterations) (seq 0 k) /\
  master w = master_at master_seeded (N.of_nat k).
Proof.
  intros (ws & pend & Hscan & Hws & Hm & _). unfold windows. rewrite Hscan. auto.
Qed.

(** X15: in the two walk programs run number [k] (from 0) is seeded with
    pair number [k] of the master generator seeded with [(12345, 67890)]:
    the calls of its round are the two [generate_seed()] that return the
    pair, [myrand_init] with exactly the pair, and then the uniform
    numbers of [iterations] draws of the worker [pcg32_srandom_r] makes of
    the pair, whatever state the generators had before; after the runs
    the master has advanced by exactly one pair per run.  This is what
    the programs do when the system grants them their memory and files:
    they complete then, the 1D walk unless the square of a position
    leaves [int], which no run of at most 46340 iterations does. *)
Theorem walk_runs_take_the_master_pairs_in_order (e1 e2 : environment)
  (runs iterations t_target : Z) (m0 g0 : pcg32_random_t) :
  0 < runs < 2 ^ 31 -> 0 < iterations < 2 ^ 31 -> 0 < t_target < 2 ^ 31 ->
  walk1d_granted e1 runs iterations -> walk2d_granted e2 runs ->
  let w0 := {| master := m0; worker := g0; trace := [] |} in
  let rounds1 := map (round_calls MainDat.pcg32_random_r MainDat.pcg32_srandom_r
                        iterations) (seq 0 (Z.to_nat runs)) in
  let rounds2 := map (round_calls RanWalk2d.pcg32_random_r RanWalk2d.pcg32_srandom_r
                        iterations) (seq 0 (Z.to_nat runs)) in
  ((exists w,
       Walk1d.main e1 runs iterations w0 = Done w /\
       windows (trace w) = rounds1 /\
       master w = master_at master_seeded (N.of_nat (Z.to_nat runs))) \/
   Walk1d.main e1 runs iterations w0 = Undefined) /\
  (iterations <= 46340 ->
   exists w,
     Walk1d.main e1 runs iterations w0 = Done w /\
     windows (trace w) = rounds1 /\
     master w = master_at master_seeded (N.of_nat (Z.to_nat runs))) /\
  (exists w,
      Walk2d.main e2 runs iterations t_target w0 = Done w /\
      windows (trace w) = rounds2 /\
      master w = master_at master_seeded (N.of_nat (Z.to_nat runs))).
Proof.
  intros Hr Hi Ht H1 H2 w0 rounds1 rounds2. split; [|split].
  - destruct (walk1d_main_pairs true e1 runs iterations m0 g0)
      as [(w & Hrun & Hw) | [_ H]];
      [discriminate | lia | exact H1 | left | right; exact H].
    exists w. split; [exact Hrun|]. apply rounds_take_pairs_windows, Hw.
  - intros Hle.
    destruct (walk1d_main_pairs false e1 runs iterations m0 g0)
      as [(w & Hrun & Hw) | [Hf _]];
      [intros _; exact Hle | lia | exact H1 | | discriminate Hf].
    exists w. split; [exact Hrun|]. apply rounds_take_pairs_windows, Hw.
  - destruct (walk2d_main_pairs e2 runs iterations t_target m0 g0) as (w & Hrun & Hw);
      [lia | lia | lia | exact H2 |].
    exists w. split; [exact Hrun|]. apply rounds_take_pairs_windows, Hw.
Qed.

Lemma walk_runs_take_the_master_pairs_in_order_witness :
  (exists w,
      Walk1d.main environment_example 2 3
        {| master := SeedGen1d.rng_state_init;
           worker := pcg32_random_state_zero; trace := [] |} = Done w /\
      windows (trace w)
      = map (round_calls MainDat.pcg32_random_r MainDat.pcg32_srandom_r 3)
          (seq 0 (Z.to_nat 2)) /\
      master w = master_at master_seeded (N.of_nat (Z.to_nat 2))) /\
  (exists w,
      Walk2d.main environment_example 2 3 1
        {| master := SeedGen1d.rng_state_init;
           worker := pcg32_random_state_zero; trace := [] |} = Done w /\
      windows (trace w)
      = map (round_calls RanWalk2d.pcg32_random_r RanWalk2d.pcg32_srandom_r 3)
          (seq 0 (Z.to_nat 2)) /\
      master w = master_at master_seeded (N.of_nat (Z.to_nat 2))).
Proof.
  pose proof (walk_runs_take_the_master_pairs_in_order
                environment_example environment_example 2 3 1
                SeedGen1d.rng_state_init pcg32_random_state_zero) as H.
  cbv zeta in H.
  destruct H as (_ & Hw1 & Hw2); try lia.
  - intros run _. split; reflexivity.
  - intros run _. reflexivity.
  - split; [apply Hw1; lia | exact Hw2].
Defined.

(** ** The debugging check of [initLattice] *)

Lemma count_occupied_take_step (a : list Z) (n : nat) (v : Z) :
  a !! n = Some v ->
  count_occupied (take (Datatypes.S n) a)
  = count_occupied (take n a) + (if v =? DiffCoef.MY_EMPTY then 0 else 1).
Proof.
  intros Hv. rewrite (take_S_r _ _ _ Hv), count_occupied_app. cbn [count_occupied]. lia.
Qed.

Lemma count_holding_take_step (p : Z) (a : list Z) (n : nat) (v : Z) :
  a !! n = Some v ->
  count_holding p (take (Datatypes.S n) a)
  = count_holding p (take n a) + (if p =? v then 1 else 0).
Proof.
  intros Hv. unfold count_holding.
  rewrite (take_S_r _ _ _ Hv), List.filter_app, length_app. cbn [List.filter].
  destruct (p =? v); cbn [length]; lia.
Qed.

Lemma count_holding_absent (p : Z) (a : list Z) :
  (forall i, a !! i <> Some p) -> count_holding p a = 0.
Proof.
  intros H. unfold count_holding. rewrite filter_none; [reflexivity|].
  intros v Hin. apply Z.eqb_neq. intros <-.
  apply list_elem_of_In, list_elem_of_lookup in Hin as [i Hi]. apply (H i Hi).
Qed.

Lemma count_holding_once (p : Z) (a : list Z) :
  (exists i, a !! i = Some p) ->
  (forall i j, a !! i = Some p -> a !! j = Some p -> i = j) ->
  count_holding p a = 1.
Proof.
  induction a as [|v a IH]; intros [i Hi] Huniq; [discriminate|].
  destruct (Z.eq_dec v p) as [->|Hne].
  - assert (count_holding p a = 0) as H0.
    { apply count_holding_absent. intros j Hj.
      specialize (Huniq 0%nat (Datatypes.S j) eq_refl Hj). discriminate. }
    unfold count_holding in *. cbn [List.filter]. rewrite Z.eqb_refl. cbn [length]. lia.
  - destruct i as [|i]; [injection Hi as ->; contradiction|].
    unfold count_holding in *. cbn [List.filter].
    replace (p =? v) with false by (symmetry; apply Z.eqb_neq; congruence).
    apply IH; [exists i; exact Hi|].
    intros j1 j2 H1 H2. specialize (Huniq (Datatypes.S j1) (Datatypes.S j2) H1 H2). lia.
Qed.

Section DebugCheck.

Import DiffCoef DiffCoefDebug.

Variable l : lattice.
Variable trueN : Z.
Hypothesis Hwf : wf_lattice l.
Hypothesis Hc : consistent trueN l.
Hypothesis Hf : fresh_positions trueN l.

Lemma site_lookup (x y : Z) :
  0 <= x < L l -> 0 <= y < L l ->
  0 <= x * L l + y < L l * L l /\
  exists p, particleOfSite l !! Z.to_nat (x * L l + y) = Some p /\
            (p = MY_EMPTY \/
             (p <> MY_EMPTY /\ 0 <= p < trueN /\
              pos_of l p 0 = Some x /\ pos_of l p 1 = Some y)).
Proof using Hwf Hc.
  intros Hx Hy. pose proof (site_range l x y Hx Hy) as Hr. unfold SITE in Hr.
  split; [exact Hr|].
  pose proof (site_in_array l x y Hwf Hx Hy) as Hs.
  destruct (lookup_in_range _ _ Hs) as [p Hp]. unfold SITE in Hp.
  exists p. split; [exact Hp|].
  destruct (Z.eq_dec p MY_EMPTY) as [->|Hne]; [left; reflexivity|right].
  split; [exact Hne|]. destruct Hc as (_ & Hb & _).
  apply (Hb x y p Hx Hy Hp Hne).
Qed.

Lemma debug_count_sites :
  for_up (Z.to_nat (L l)) 0
    (fun x count_sites =>
       for_up (Z.to_nat (L l)) 0
         (fun y count_sites =>
            p ← aget (particleOfSite l) (SITE l x y);
            if p =? MY_EMPTY then mret count_sites
            else if (p <? 0) || (trueN <=? p) then Exited
            else mret (count_sites + 1))
         count_sites)
    0
  = Done trueN.
Proof using Hwf Hc.
  pose proof Hwf as (HL & _ & Hlen & _).
  destruct (for_up_grid
              (fun k c => c = count_occupied (take (Z.to_nat k) (particleOfSite l)))
              (L l) (fun _ => L l)
              (fun x y count_sites =>
                 p ← aget (particleOfSite l) (SITE l x y);
                 if p =? MY_EMPTY then mret count_sites
                 else if (p <? 0) || (trueN <=? p) then Exited
                 else mret (count_sites + 1))) with (s := 0)
    as (c & Hrun & Hcount).
  - lia.
  - reflexivity.
  - intros x y c Hx Hy ->.
    destruct (site_lookup x y Hx Hy) as (Hk & p & Hp & Hcase). unfold SITE.
    rewrite (aget_Done _ _ p (proj1 Hk) Hp), bind_Done.
    replace (Z.to_nat (x * L l + y + 1)) with (Datatypes.S (Z.to_nat (x * L l + y)))
      by lia.
    rewrite (count_occupied_take_step _ _ _ Hp).
    destruct Hcase as [->|(Hne & Hr & _)].
    + change (MY_EMPTY =? MY_EMPTY) with true. cbv iota.
      eexists. split; [reflexivity | lia].
    + destruct (Z.eqb_spec p MY_EMPTY); [contradiction|].
      replace ((p <? 0) || (trueN <=? p)) with false
        by (symmetry; apply orb_false_iff; split;
            [apply Z.ltb_ge | apply Z.leb_gt]; lia).
      eexists. split; reflexivity.
  - reflexivity.
  - rewrite Hrun, Hcount. f_equal.
    rewrite take_ge by (rewrite Hlen; lia). apply Hc.
Qed.

Lemma check_site_Done (x y : Z) (seen : list Z) :
  0 <= x < L l -> 0 <= y < L l ->
  length seen = Z.to_nat trueN ->
  (forall p, 0 <= p < trueN ->
             seen !! Z.to_nat p
             = Some (count_holding p (take (Z.to_nat (x * L l + y)) (particleOfSite l)))) ->
  exists seen',
    check_site l x y seen = Done seen' /\
    length seen' = Z.to_nat trueN /\
    forall p, 0 <= p < trueN ->
              seen' !! Z.to_nat p
              = Some (count_holding p
                        (take (Z.to_nat (x * L l + y + 1)) (particleOfSite l))).
Proof using Hwf Hc Hf.
  intros Hx Hy Hlen Hseen.
  destruct (site_lookup x y Hx Hy) as (Hk & p & Hp & Hcase).
  unfold check_site, SITE.
  rewrite (aget_Done _ _ p (proj1 Hk) Hp), bind_Done.
  replace (Z.to_nat (x * L l + y + 1)) with (Datatypes.S (Z.to_nat (x * L l + y)))
    by lia.
  destruct Hcase as [->|(Hne & Hr & Hp0 & Hp1)].
  - change (MY_EMPTY =? MY_EMPTY) with true. cbv iota.
    exists seen. split; [reflexivity|]. split; [exact Hlen|].
    intros q Hq. rewrite (count_holding_take_step _ _ _ _ Hp).
    replace (q =? MY_EMPTY) with false
      by (symmetry; apply Z.eqb_neq; unfold MY_EMPTY; lia).
    rewrite Z.add_0_r. apply Hseen, Hq.
  - destruct (Z.eqb_spec p MY_EMPTY); [contradiction|].
    rewrite (aget_Done _ _ _ (proj1 Hr) (Hseen p Hr)), bind_Done.
    rewrite aset_Done, bind_Done by lia.
    destruct (Hf p 0 Hr ltac:(lia)) as (v0 & _ & Hq0 & Hz0 & Ht0).
    destruct (Hf p 1 Hr ltac:(lia)) as (v1 & _ & Hq1 & Hz1 & Ht1).
    unfold pos_of in Hp0, Hp1. rewrite Hp0 in Hq0. rewrite Hp1 in Hq1.
    injection Hq0 as <-. injection Hq1 as <-.
    assert (0 <= POS p 0 /\ 0 <= POS p 1) as [Hi0 Hi1] by (unfold POS, DIM; lia).
    rewrite (aget_Done _ _ _ Hi0 Hp0), bind_Done, Z.eqb_refl. cbn [negb].
    rewrite (aget_Done _ _ _ Hi1 Hp1), bind_Done, Z.eqb_refl. cbn [negb].
    rewrite (aget_Done _ _ _ Hi0 Hz0), bind_Done, Z.eqb_refl. cbn [negb].
    rewrite (aget_Done _ _ _ Hi1 Hz1), bind_Done, Z.eqb_refl. cbn [negb].
    rewrite (aget_Done _ _ _ Hi0 Ht0), bind_Done, Z.eqb_refl. cbn [negb].
    rewrite (aget_Done _ _ _ Hi1 Ht1), bind_Done, Z.eqb_refl. cbn [negb].
    eexists. split; [reflexivity|]. rewrite length_insert. split; [exact Hlen|].
    intros q Hq. rewrite (count_holding_take_step _ _ _ _ Hp).
    destruct (Z.eqb_spec q p) as [->|Hqp].
    + apply list_lookup_insert_eq. lia.
    + rewrite list_lookup_insert_ne by lia. rewrite Z.add_0_r. apply Hseen, Hq.
Qed.

Lemma debug_init_lattice_passes : debug_init_lattice l trueN = Done tt.
Proof using Hwf Hc Hf.
  pose proof Hwf as (HL & _ & Hlen & _).
  pose proof (consistent_le_volume l trueN Hwf Hc) as HNV.
  unfold debug_init_lattice. cbv zeta.
  replace (L l * L l <? trueN) with false by (symmetry; apply Z.ltb_ge; lia).
  rewrite debug_count_sites, bind_Done, Z.eqb_refl. cbn [negb].
  destruct (for_up_grid
              (fun k seen =>
                 length seen = Z.to_nat trueN /\
                 forall p, 0 <= p < trueN ->
                           seen !! Z.to_nat p
                           = Some (count_holding p
                                     (take (Z.to_nat k) (particleOfSite l))))
              (L l) (fun _ => L l)
              (fun x y seen => check_site l x y seen))
    with (s := replicate (Z.to_nat trueN) 0)
    as (seen & -> & Hlens & Hseen).
  - lia.
  - reflexivity.
  - intros x y seen Hx Hy [Hl Hs].
    destruct (check_site_Done x y seen Hx Hy Hl Hs) as (seen' & Hrun & Hl' & Hs').
    exists seen'. auto.
  - split; [apply length_replicate|].
    intros p Hp. apply lookup_replicate_2. lia.
  - rewrite bind_Done.
    destruct (for_up_indexed (fun (_ : Z) (u : unit) => True)
                (fun p (u : unit) =>
                   c ← aget seen p;
                   if negb (c =? 1) then Exited else mret u)
                (Z.to_nat trueN) 0 tt) as ([] & Hrun & _).
    + intros p u Hp _. assert (0 <= p < trueN) as Hp' by lia.
      rewrite (aget_Done seen p _ (proj1 Hp') (Hseen p Hp')), bind_Done.
      rewrite take_ge by (rewrite Hlen; lia).
      destruct (consistent_cells l trueN Hwf Hc) as [Hrange Hinj].
      rewrite count_holding_once.
      * eexists. split; [reflexivity | exact I].
      * destruct Hc as (Hcount & _).
        apply (every_particle_placed _ trueN Hcount Hrange Hinj p). lia.
      * intros i j Hi Hj. apply (Hinj i j p Hi Hj). unfold MY_EMPTY. lia.
    + exact I.
    + exact Hrun.
Qed.

End DebugCheck.

(** X16: the lattice [initLattice] leaves (the side fitting the [int]
    counters of its loops) passes every check of [debug_init_lattice]: the count of the occupied sites, the range of
    the particle indices, the three position arrays against the sites,
    and one site per particle. *)
Theorem initLattice_passes_debug_check
  (rho : spec_float) (l : DiffCoef.lattice) (w : world) :
  wf_lattice l -> DiffCoef.L l < 2 ^ 31 ->
  exists trueN l' w',
    DiffCoef.initLattice rho (l, w) = Done (trueN, (l', w')) /\
    DiffCoefDebug.debug_init_lattice l' trueN = Done tt.
Proof.
  intros Hwf _.
  destruct (initLattice_detail rho l w Hwf)
    as (trueN & l' & w' & Hrun & Hwf' & Hc & _ & Hf & _).
  exists trueN, l', w'. split; [exact Hrun|].
  apply debug_init_lattice_passes; assumption.
Qed.

Lemma initLattice_passes_debug_check_witness :
  exists trueN l' w',
    DiffCoef.initLattice Double.half (lattice_example, world_at_start)
    = Done (trueN, (l', w')) /\
    DiffCoefDebug.debug_init_lattice l' trueN = Done tt.
Proof.
  apply (initLattice_passes_debug_check Double.half lattice_example world_at_start
           lattice_example_wf).
  change (DiffCoef.L lattice_example) with 2. lia.
Defined.

(** ** The whole lattice-gas simulation *)

Lemma measurement_index (sweep period : Z) :
  1 <= sweep <= 100 * period -> Z.rem sweep period = 0 ->
  0 <= Z.quot sweep period - 1 < 100.
Proof.
  intros Hs Hr. assert (0 < period) as Hp by lia.
  rewrite Z.rem_mod_nonneg in Hr by lia. rewrite Z.quot_div_nonneg by lia.
  pose proof (Z.div_exact sweep period ltac:(lia)) as [_ He]. specialize (He Hr).
  nia.
Qed.

Section WholeSimulation.

Import DiffCoef DiffCoefMeasure DiffCoefMain.

Context {SG : SeedGenerator}.

Lemma sweep_and_measure_Done (trueN period sweep bound : Z)
  (avg err : list spec_float) (l : lattice) (w : world) :
  wf_lattice l -> consistent trueN l -> tracks bound trueN l ->
  0 <= bound -> bound + trueN + L l < 2 ^ 63 ->
  1 <= sweep <= 100 * period ->
  length avg = 100%nat -> length err = 100%nat ->
  exists avg' err' l' w',
    sweep_and_measure trueN period sweep ((avg, err), (l, w))
    = Done ((avg', err'), (l', w')) /\
    wf_lattice l' /\ consistent trueN l' /\
    tracks (bound + Z.max 0 trueN) trueN l' /\ L l' = L l /\
    length avg' = 100%nat /\ length err' = 100%nat.
Proof.
  intros Hwf Hc Htr HB HBL Hs Hla Hle. unfold sweep_and_measure.
  destruct (updateLattice_tracks trueN bound l w Hwf Hc Htr HB HBL)
    as (l' & w' & -> & Hwf' & Hc' & Htr' & HL' & _).
  rewrite bind_Done.
  replace (0 <? sweep) with true by (symmetry; apply Z.ltb_lt; lia). cbn [negb].
  replace (period =? 0) with false by (symmetry; apply Z.eqb_neq; lia).
  destruct (Z.eqb_spec (Z.rem sweep period) 0) as [Hr|Hr]; cbn [negb].
  - pose proof (measurement_index sweep period Hs Hr) as Hm.
    pose proof (consistent_le_volume l trueN Hwf Hc) as HNV.
    pose proof Hwf as (HL & _).
    destruct (measure_Done l' trueN (bound + Z.max 0 trueN) Htr' ltac:(lia))
      as (v & Hv).
    cbn [fst]. rewrite Hv, bind_Done.
    destruct (lookup_lt_is_Some_2 avg (Z.to_nat (Z.quot sweep period - 1))
                ltac:(lia)) as [a Ha].
    destruct (lookup_lt_is_Some_2 err (Z.to_nat (Z.quot sweep period - 1))
                ltac:(lia)) as [e He].
    rewrite (dget_Done _ _ _ (proj1 Hm) Ha), bind_Done.
    rewrite dset_Done, bind_Done by lia.
    rewrite (dget_Done _ _ _ (proj1 Hm) He), bind_Done.
    rewrite dset_Done, bind_Done by lia.
    eexists _, _, l', w'. split; [reflexivity|].
    rewrite !length_insert. auto 10.
  - exists avg, err, l', w'. split; [reflexivity|]. auto 10.
Qed.

(** The sweeps of one sample. *)
Lemma sweeps_Done (trueN num_sweeps : Z) (avg err : list spec_float)
  (l : lattice) (w : world) :
  wf_lattice l -> consistent trueN l -> fresh_positions trueN l ->
  100 * Z.quot num_sweeps 100 = num_sweeps ->
  num_sweeps * (L l * L l) + L l < 2 ^ 63 ->
  length avg = 100%nat -> length err = 100%nat ->
  exists avg' err' l' w',
    for_up (Z.to_nat num_sweeps) 1
      (fun sweep st => sweep_and_measure trueN (Z.quot num_sweeps 100) sweep st)
      ((avg, err), (l, w))
    = Done ((avg', err'), (l', w')) /\
    wf_lattice l' /\ L l' = L l /\
    length avg' = 100%nat /\ length err' = 100%nat.
Proof.
  intros Hwf Hc Hf Hmult Hover Hla Hle.
  pose proof (consistent_le_volume l trueN Hwf Hc) as HNV.
  pose proof Hwf as (HL & _).
  destruct (for_up_indexed
              (fun j (st : (list spec_float * list spec_float) * (lattice * world)) =>
                 wf_lattice (fst (snd st)) /\ consistent trueN (fst (snd st)) /\
                 tracks ((j - 1) * Z.max 0 trueN) trueN (fst (snd st)) /\
                 L (fst (snd st)) = L l /\
                 length (fst (fst st)) = 100%nat /\ length (snd (fst st)) = 100%nat)
              (fun sweep st => sweep_and_measure trueN (Z.quot num_sweeps 100) sweep st)
              (Z.to_nat num_sweeps) 1 ((avg, err), (l, w)))
    as ([[avg' err'] [l' w']] & Hrun & HP).
  - intros j [[a e] [l1 w1]] Hj (Hwf1 & Hc1 & Htr1 & HL1 & Hla1 & Hle1).
    cbn [fst snd] in *.
    destruct (sweep_and_measure_Done trueN (Z.quot num_sweeps 100) j
                ((j - 1) * Z.max 0 trueN) a e l1 w1 Hwf1 Hc1 Htr1)
      as (a' & e' & l2 & w2 & Hrun & Hwf2 & Hc2 & Htr2 & HL2 & Hla2 & Hle2);
      try assumption; try nia.
    exists ((a', e'), (l2, w2)). split; [exact Hrun|]. cbn [fst snd].
    split; [exact Hwf2|]. split; [exact Hc2|].
    split; [replace ((j + 1 - 1) * Z.max 0 trueN)
              with ((j - 1) * Z.max 0 trueN + Z.max 0 trueN) by lia; exact Htr2|].
    split; [congruence|]. auto.
  - cbn [fst snd]. split; [exact Hwf|]. split; [exact Hc|].
    split; [apply fresh_tracks; assumption|]. auto.
  - exists avg', err', l', w'. split; [exact Hrun|].
    destruct HP as (Hwf' & _ & _ & HL' & Hla' & Hle'). cbn [fst snd] in *. auto.
Qed.

(** [main] up to its loop over the samples: it leaves the program when
    the system refuses a block or the output file, or the sweeps are
    not a multiple of the measurements. *)
Lemma main_refused (env : environment) (side num_sweeps num_samples : Z)
  (rho : spec_float) (w : world) :
  0 < side < 2 ^ 30 ->
  lattice_blocks_granted env side = false \/
  100 * Z.quot num_sweeps 100 <> num_sweeps \/
  sum_blocks_granted env 100 = false \/
  fopen_ok env 0 = false ->
  main env side rho num_sweeps num_samples w = Exited.
Proof.
  intros Hside Hno. unfold main.
  replace (fits_long (side * side)) with true
    by (symmetry; unfold fits_long; apply andb_true_intro; split;
        [apply Z.leb_le | apply Z.ltb_lt]; nia).
  cbn [negb]. cbv zeta.
  destruct (call_generate_seed (call_seedgen_init 12345 67890 w)) as [seed1 w1].
  destruct (call_generate_seed w1) as [seed2 w2].
  destruct (myInit_outcome env side 100 (Z.quot num_sweeps 100) num_sweeps
              Hside ltac:(lia)) as [Hrefused Hgranted].
  destruct (lattice_blocks_granted env side) eqn:Hb;
    [|rewrite (Hrefused eq_refl); reflexivity].
  destruct (Hgranted eq_refl) as (l0 & _ & _ & ->).
  destruct (Z.eqb_spec (100 * Z.quot num_sweeps 100) num_sweeps) as [Heq|Hne];
    [|reflexivity].
  destruct (sum_blocks_granted env 100) eqn:Hs; [|reflexivity].
  rewrite bind_Done.
  destruct Hno as [Hno | [Hno | [Hno | Hno]]]; try discriminate; try contradiction.
  rewrite Hno. reflexivity.
Qed.

Lemma main_granted (env : environment) (side num_sweeps num_samples : Z)
  (rho : spec_float) (w : world) :
  0 < side < 2 ^ 30 ->
  lattice_blocks_granted env side = true -> sum_blocks_granted env 100 = true ->
  fopen_ok env 0 = true ->
  100 * Z.quot num_sweeps 100 = num_sweeps ->
  exists l0 w2,
    wf_lattice l0 /\ L l0 = side /\
    main env side rho num_sweeps num_samples w
    = for_up (Z.to_nat num_samples) 0
        (fun sample st =>
           let '(sums, lw) := st in
           '(trueN, lw) ← initLattice rho lw;
           for_up (Z.to_nat num_sweeps) 1
             (fun sweep st =>
                sweep_and_measure trueN (Z.quot num_sweeps 100) sweep st)
             (sums, lw))
        ((replicate 100 Double.zero, replicate 100 Double.zero), (l0, w2)).
Proof.
  intros Hside Hblocks Hsums Hfile Hmult. unfold main.
  replace (fits_long (side * side)) with true
    by (symmetry; unfold fits_long; apply andb_true_intro; split;
        [apply Z.leb_le | apply Z.ltb_lt]; nia).
  cbn [negb]. cbv zeta.
  destruct (call_generate_seed (call_seedgen_init 12345 67890 w)) as [seed1 w1].
  destruct (call_generate_seed w1) as [seed2 w2].
  destruct (myInit_wf env side num_sweeps Hside Hblocks Hsums Hmult)
    as (l0 & -> & Hwf0 & HL0).
  rewrite bind_Done, Hfile. cbn [negb].
  exists l0, (call_myrand_init (WK := worker_pcg32) seed1 seed2 w2).
  split; [exact Hwf0|]. split; [exact HL0 | reflexivity].
Qed.

Lemma main_measured_Done (env : environment) (side num_sweeps num_samples : Z)
  (rho : spec_float) (w : world) :
  0 < side < 2 ^ 30 ->
  lattice_blocks_granted env side = true -> sum_blocks_granted env 100 = true ->
  fopen_ok env 0 = true ->
  100 * Z.quot num_sweeps 100 = num_sweeps ->
  num_sweeps * (side * side) + side < 2 ^ 63 ->
  exists avg err l w',
    main env side rho num_sweeps num_samples w = Done ((avg, err), (l, w')) /\
    length avg = 100%nat /\ length err = 100%nat.
Proof.
  intros Hside Hblocks Hsums Hfile Hmult Hover.
  destruct (main_granted env side num_sweeps num_samples rho w
              Hside Hblocks Hsums Hfile Hmult) as (l0 & w2 & Hwf0 & HL0 & ->).
  match goal with
  | |- context [for_up ?nn ?ii ?b ?s0] =>
      destruct (for_up_invariant
                  (fun st : (list spec_float * list spec_float) * (lattice * world) =>
                     wf_lattice (fst (snd st)) /\ L (fst (snd st)) = side /\
                     length (fst (fst st)) = 100%nat /\
                     length (snd (fst st)) = 100%nat) b)
        with (n := nn) (i := ii) (s := s0)
        as ([[avg err] [l w']] & Hrun & (_ & _ & Hla & Hle))
  end.
  - intros _ [[a e] [l1 w3]] (Hwf1 & HL1 & Hla & Hle). cbn [fst snd] in *.
    destruct (initLattice_detail rho l1 w3 Hwf1)
      as (trueN & l2 & w4 & -> & Hwf2 & Hc2 & HL2 & Hf2 & _).
    rewrite bind_Done.
    destruct (sweeps_Done trueN num_sweeps a e l2 w4 Hwf2 Hc2 Hf2 Hmult
                ltac:(rewrite HL2, HL1; exact Hover) Hla Hle)
      as (a' & e' & l3 & w5 & Hrun & Hwf3 & HL3 & Hla' & Hle').
    exists ((a', e'), (l3, w5)). split; [exact Hrun|]. cbn [fst snd].
    split; [exact Hwf3|]. split; [congruence|]. auto.
  - cbn [fst snd]. rewrite !length_replicate. auto.
  - exists avg, err, l, w'. split; [exact Hrun|]. cbn [fst snd] in *. auto.
Qed.

End WholeSimulation.

(** X17: the whole simulation runs to its end: for a lattice side of
    [1 .. 2^30 - 1], where no byte count wraps, when the system grants the
    arrays of [myInit] and the output file, for a number of sweeps that is
    a multiple of the 100 measurements and unwrapped positions that cannot
    leave [long int], no array is accessed outside its bounds (the index
    [sweep / measurement_period - 1] of the sums stays in [0 .. 99]),
    nothing is divided by zero and no check makes the program exit. *)
Theorem simulation_runs_to_its_end {SG : SeedGenerator} (env : environment)
  (side num_sweeps num_samples : Z) (rho : spec_float) (w : world) :
  0 < side < 2 ^ 30 ->
  lattice_blocks_granted env side = true -> sum_blocks_granted env 100 = true ->
  fopen_ok env 0 = true ->
  100 * Z.quot num_sweeps 100 = num_sweeps ->
  num_sweeps * (side * side) + side < 2 ^ 63 ->
  exists averageDeltaR2 errorDeltaR2 l w',
    DiffCoefMain.main env side rho num_sweeps num_samples w
    = Done ((averageDeltaR2, errorDeltaR2), (l, w')) /\
    length averageDeltaR2 = 100%nat /\ length errorDeltaR2 = 100%nat.
Proof. apply main_measured_Done. Qed.

Lemma simulation_runs_to_its_end_witness :
  exists averageDeltaR2 errorDeltaR2 l w',
    DiffCoefMain.main (SG := seedgen_lattice) environment_example 2 Double.half 100 2
      world_at_start
    = Done ((averageDeltaR2, errorDeltaR2), (l, w')) /\
    length averageDeltaR2 = 100%nat /\ length errorDeltaR2 = 100%nat.
Proof.
  apply (simulation_runs_to_its_end (SG := seedgen_lattice) environment_example
           2 100 2 Double.half world_at_start);
    [lia | reflexivity | reflexivity | reflexivity | reflexivity | lia].
Defined.

(** ** The simulation at the two ends of the density *)

Lemma add_nan (a : spec_float) : Double.add a S754_nan = S754_nan.
Proof. destruct a as [[|]|[|]| |[|] m e]; reflexivity. Qed.

Section FrozenSimulation.

Import DiffCoef DiffCoefMeasure DiffCoefMain.

Context {SG : SeedGenerator}.

(** Without a particle and on a full lattice a sweep changes nothing. *)
Lemma updateLattice_still (trueN : Z) (l : lattice) (w : world) :
  wf_lattice l -> consistent trueN l -> trueN = 0 \/ trueN = L l * L l ->
  exists w', updateLattice trueN (l, w) = Done (l, w').
Proof.
  intros Hwf Hc [->| ->].
  - exists w. reflexivity.
  - destruct (updateLattice_full l w Hwf Hc) as (w' & Hrun & _). exists w'. exact Hrun.
Qed.

(** One round of the loop over the sweeps when nothing moves: the
    measurement is the one made right after [initLattice]. *)
Lemma sweep_and_measure_still (trueN period sweep : Z)
  (avg err : list spec_float) (l : lattice) (w : world) :
  wf_lattice l -> consistent trueN l -> fresh_positions trueN l ->
  trueN = 0 \/ trueN = L l * L l ->
  1 <= sweep <= 100 * period ->
  length avg = 100%nat -> length err = 100%nat ->
  let c := if trueN =? 0 then S754_nan else S754_zero false in
  exists avg' err' w',
    sweep_and_measure trueN period sweep ((avg, err), (l, w))
    = Done ((avg', err'), (l, w')) /\
    length avg' = 100%nat /\ length err' = 100%nat /\
    ((Z.rem sweep period <> 0 /\ avg' = avg /\ err' = err) \/
     (Z.rem sweep period = 0 /\
      0 <= Z.quot sweep period - 1 < 100 /\
      exists a e,
        avg !! Z.to_nat (Z.quot sweep period - 1) = Some a /\
        err !! Z.to_nat (Z.quot sweep period - 1) = Some e /\
        avg' = <[Z.to_nat (Z.quot sweep period - 1) := Double.add a c]> avg /\
        err' = <[Z.to_nat (Z.quot sweep period - 1) := Double.add e (Double.mul c c)]>
                 err)).
Proof.
  intros Hwf Hc Hf Hcase Hs Hla Hle c. unfold sweep_and_measure.
  destruct (updateLattice_still trueN l w Hwf Hc Hcase) as (w' & ->).
  rewrite bind_Done.
  replace (0 <? sweep) with true by (symmetry; apply Z.ltb_lt; lia). cbn [negb].
  replace (period =? 0) with false by (symmetry; apply Z.eqb_neq; lia).
  destruct (Z.eqb_spec (Z.rem sweep period) 0) as [Hr|Hr]; cbn [negb].
  - pose proof (measurement_index sweep period Hs Hr) as Hm.
    pose proof (consistent_le_volume l trueN Hwf Hc) as HNV.
    pose proof Hwf as (_ & HV & _).
    cbn [fst]. rewrite (measure_fresh l trueN Hf ltac:(lia)), bind_Done. fold c.
    destruct (lookup_lt_is_Some_2 avg (Z.to_nat (Z.quot sweep period - 1))
                ltac:(lia)) as [a Ha].
    destruct (lookup_lt_is_Some_2 err (Z.to_nat (Z.quot sweep period - 1))
                ltac:(lia)) as [e He].
    rewrite (dget_Done _ _ _ (proj1 Hm) Ha), bind_Done.
    rewrite dset_Done, bind_Done by lia.
    rewrite (dget_Done _ _ _ (proj1 Hm) He), bind_Done.
    rewrite dset_Done, bind_Done by lia.
    eexists _, _, w'. split; [reflexivity|]. rewrite !length_insert.
    split; [exact Hla|]. split; [exact Hle|]. right.
    split; [exact Hr|]. split; [exact Hm|]. exists a, e. auto.
  - exists avg, err, w'. split; [reflexivity|]. auto 10.
Qed.

(** The sweeps of a sample on a full lattice add [+0.0] to sums that
    are [+0.0]. *)
Lemma sweeps_full (trueN num_sweeps : Z) (l : lattice) (w : world) :
  wf_lattice l -> consistent trueN l -> fresh_positions trueN l ->
  trueN = L l * L l ->
  100 * Z.quot num_sweeps 100 = num_sweeps ->
  exists w',
    for_up (Z.to_nat num_sweeps) 1
      (fun sweep st => sweep_and_measure trueN (Z.quot num_sweeps 100) sweep st)
      ((replicate 100 Double.zero, replicate 100 Double.zero), (l, w))
    = Done ((replicate 100 Double.zero, replicate 100 Double.zero), (l, w')).
Proof.
  intros Hwf Hc Hf HN Hmult. pose proof Hwf as (HL & _).
  destruct (for_up_indexed
              (fun (_ : Z) (st : (list spec_float * list spec_float) * (lattice * world)) =>
                 fst st = (replicate 100 Double.zero, replicate 100 Double.zero) /\
                 fst (snd st) = l)
              (fun sweep st => sweep_and_measure trueN (Z.quot num_sweeps 100) sweep st)
              (Z.to_nat num_sweeps) 1
              ((replicate 100 Double.zero, replicate 100 Double.zero), (l, w)))
    as ([sums [l' w']] & Hrun & Hs & Hl).
  - intros j [sums [l1 w1]] Hj [Hs Hl]. cbn [fst snd] in *. subst sums l1.
    destruct (sweep_and_measure_still trueN (Z.quot num_sweeps 100) j
                (replicate 100 Double.zero) (replicate 100 Double.zero) l w1
                Hwf Hc Hf (or_intror HN) ltac:(lia) eq_refl eq_refl)
      as (avg' & err' & w2 & Hrun & _ & _ & Hcase).
    exists ((avg', err'), (l, w2)). split; [exact Hrun|]. cbn [fst snd].
    split; [|reflexivity].
    destruct Hcase as [(_ & -> & ->)|(_ & Hm & a & e & Ha & He & -> & ->)];
      [reflexivity|].
    replace (trueN =? 0) with false by (symmetry; apply Z.eqb_neq; nia).
    apply lookup_replicate_1 in Ha as [-> _]. apply lookup_replicate_1 in He as [-> _].
    change (Double.add Double.zero (S754_zero false)) with Double.zero.
    change (Double.add Double.zero (Double.mul (S754_zero false) (S754_zero false)))
      with Double.zero.
    rewrite !insert_replicate. reflexivity.
  - auto.
  - cbn [fst snd] in *. subst sums l'. exists w'. exact Hrun.
Qed.

(** The sweeps of a sample without a particle: whatever the sums were,
    each of them has become a NaN. *)
Lemma sweeps_empty (num_sweeps : Z) (avg err : list spec_float)
  (l : lattice) (w : world) :
  wf_lattice l -> consistent 0 l -> fresh_positions 0 l ->
  100 * Z.quot num_sweeps 100 = num_sweeps -> 0 < num_sweeps ->
  length avg = 100%nat -> length err = 100%nat ->
  exists w',
    for_up (Z.to_nat num_sweeps) 1
      (fun sweep st => sweep_and_measure 0 (Z.quot num_sweeps 100) sweep st)
      ((avg, err), (l, w))
    = Done ((replicate 100 S754_nan, replicate 100 S754_nan), (l, w')).
Proof.
  intros Hwf Hc Hf Hmult Hpos Hla Hle.
  set (period := Z.quot num_sweeps 100) in *.
  assert (0 < period) as Hper by lia.
  destruct (for_up_indexed
              (fun j (st : (list spec_float * list spec_float) * (lattice * world)) =>
                 fst (snd st) = l /\
                 length (fst (fst st)) = 100%nat /\ length (snd (fst st)) = 100%nat /\
                 forall m, 0 <= m < 100 -> (m + 1) * period < j ->
                           fst (fst st) !! Z.to_nat m = Some S754_nan /\
                           snd (fst st) !! Z.to_nat m = Some S754_nan)
              (fun sweep st => sweep_and_measure 0 period sweep st)
              (Z.to_nat num_sweeps) 1 ((avg, err), (l, w)))
    as ([[avg' err'] [l' w']] & Hrun & Hl & Hla' & Hle' & Hnan).
  - intros j [[a e] [l1 w1]] Hj (Hl & Hla1 & Hle1 & Hnan). cbn [fst snd] in *. subst l1.
    destruct (sweep_and_measure_still 0 period j a e l w1
                Hwf Hc Hf (or_introl eq_refl) ltac:(lia) Hla1 Hle1)
      as (a' & e' & w2 & Hrun & Hla2 & Hle2 & Hcase).
    exists ((a', e'), (l, w2)). split; [exact Hrun|]. cbn [fst snd].
    split; [reflexivity|]. split; [exact Hla2|]. split; [exact Hle2|].
    intros m Hm Hlt.
    destruct Hcase as [(Hr & -> & ->)|(Hr & Hmj & a0 & e0 & Ha & He & -> & ->)].
    + apply Hnan; [exact Hm|].
      assert ((m + 1) * period <> j); [|lia].
      intros <-. apply Hr. apply Z.rem_mul. lia.
    + change (0 =? 0) with true. cbv iota.
      rewrite Z.rem_mod_nonneg in Hr by lia.
      pose proof (Z.div_exact j period ltac:(lia)) as [_ He']. specialize (He' Hr).
      rewrite Z.quot_div_nonneg in * by lia.
      destruct (Z.eq_dec m (j / period - 1)) as [->|Hne].
      * rewrite !list_lookup_insert_eq by lia. rewrite !add_nan. auto.
      * rewrite !list_lookup_insert_ne by lia. apply Hnan; [exact Hm|]. nia.
  - cbn [fst snd]. split; [reflexivity|]. split; [exact Hla|]. split; [exact Hle|].
    intros m Hm Hlt. nia.
  - cbn [fst snd] in *. subst l'. exists w'. rewrite Hrun. f_equal. f_equal.
    assert (forall m, (m < 100)%nat ->
                      avg' !! m = Some S754_nan /\ err' !! m = Some S754_nan) as Hall.
    { intros m Hm. destruct (Hnan (Z.of_nat m) ltac:(lia) ltac:(nia)) as [H1 H2].
      rewrite Nat2Z.id in H1, H2. auto. }
    f_equal; apply replicate_all; try assumption; intros i Hi; apply Hall, Hi.
Qed.

End FrozenSimulation.

Lemma initLattice_edges (rho : spec_float) (l : DiffCoef.lattice) (w : world) :
  wf_lattice l ->
  exists trueN l' w',
    DiffCoef.initLattice rho (l, w) = Done (trueN, (l', w')) /\
    wf_lattice l' /\ consistent trueN l' /\ DiffCoef.L l' = DiffCoef.L l /\
    fresh_positions trueN l' /\
    (SFltb Double.zero rho = false -> trueN = 0) /\
    (SFleb Double.one rho = true -> trueN = DiffCoef.L l * DiffCoef.L l).
Proof.
  intros Hwf.
  destruct (initLattice_detail rho l w Hwf)
    as (trueN & l' & w' & Hrun & Hwf' & Hc & HL' & Hf & _ & _ & Hn).
  exists trueN, l', w'. do 5 (split; [assumption|]).
  pose proof Hwf as (HL & _).
  split; intros Hrho; rewrite Hn.
  - rewrite filter_none; [reflexivity|].
    intros v Hv. apply (uniform_below_density v rho (draws_u32 _ _ _ Hv)), Hrho.
  - rewrite filter_all, draws_length; [nia|].
    intros v Hv. apply (uniform_below_density v rho (draws_u32 _ _ _ Hv)), Hrho.
Qed.

Section DensityEnds.

Import DiffCoef DiffCoefMeasure DiffCoefMain.

Context {SG : SeedGenerator}.

Lemma main_full (env : environment) (side num_sweeps num_samples : Z)
  (rho : spec_float) (w : world) :
  0 < side < 2 ^ 30 ->
  lattice_blocks_granted env side = true -> sum_blocks_granted env 100 = true ->
  fopen_ok env 0 = true ->
  100 * Z.quot num_sweeps 100 = num_sweeps ->
  SFleb Double.one rho = true ->
  exists l w',
    main env side rho num_sweeps num_samples w
    = Done ((replicate 100 Double.zero, replicate 100 Double.zero), (l, w')).
Proof.
  intros Hside Hblocks Hsums Hfile Hmult Hrho.
  destruct (main_granted env side num_sweeps num_samples rho w
              Hside Hblocks Hsums Hfile Hmult) as (l0 & w2 & Hwf0 & HL0 & ->).
  match goal with
  | |- context [for_up ?nn ?ii ?b ?s0] =>
      destruct (for_up_invariant
                  (fun st : (list spec_float * list spec_float) * (lattice * world) =>
                     fst st = (replicate 100 Double.zero, replicate 100 Double.zero) /\
                     wf_lattice (fst (snd st))) b)
        with (n := nn) (i := ii) (s := s0)
        as ([sums [l w']] & Hrun & (Hs & _))
  end.
  - intros _ [sums [l1 w3]] (Hs1 & Hwf1). cbn [fst snd] in *. subst sums.
    destruct (initLattice_edges rho l1 w3 Hwf1)
      as (trueN & l2 & w4 & -> & Hwf2 & Hc2 & HL2 & Hf2 & _ & HN).
    rewrite bind_Done.
    destruct (sweeps_full trueN num_sweeps l2 w4 Hwf2 Hc2 Hf2
                ltac:(rewrite HL2; apply HN, Hrho) Hmult) as (w5 & Hrun).
    eexists. split; [exact Hrun|]. cbn [fst snd]. auto.
  - cbn [fst snd]. auto.
  - cbn [fst] in Hs. subst sums. exists l, w'. exact Hrun.
Qed.

Lemma main_empty (env : environment) (side num_sweeps num_samples : Z)
  (rho : spec_float) (w : world) :
  0 < side < 2 ^ 30 ->
  lattice_blocks_granted env side = true -> sum_blocks_granted env 100 = true ->
  fopen_ok env 0 = true ->
  100 * Z.quot num_sweeps 100 = num_sweeps ->
  0 < num_sweeps -> 0 < num_samples ->
  SFltb Double.zero rho = false ->
  exists l w',
    main env side rho num_sweeps num_samples w
    = Done ((replicate 100 S754_nan, replicate 100 S754_nan), (l, w')).
Proof.
  intros Hside Hblocks Hsums Hfile Hmult Hsw Hsa Hrho.
  destruct (main_granted env side num_sweeps num_samples rho w
              Hside Hblocks Hsums Hfile Hmult) as (l0 & w2 & Hwf0 & HL0 & ->).
  match goal with
  | |- context [for_up ?nn ?ii ?b ?s0] =>
      destruct (for_up_indexed
                  (fun i (st : (list spec_float * list spec_float) * (lattice * world)) =>
                     wf_lattice (fst (snd st)) /\
                     length (fst (fst st)) = 100%nat /\
                     length (snd (fst st)) = 100%nat /\
                     (1 <= i ->
                      fst st = (replicate 100 S754_nan, replicate 100 S754_nan)))
                  b nn ii s0)
        as ([sums [l w']] & Hrun & (_ & _ & _ & Hs))
  end.
  - intros i [[a e] [l1 w3]] Hi (Hwf1 & Hla & Hle & _). cbn [fst snd] in *.
    destruct (initLattice_edges rho l1 w3 Hwf1)
      as (trueN & l2 & w4 & -> & Hwf2 & Hc2 & HL2 & Hf2 & HN & _).
    rewrite bind_Done. rewrite (HN Hrho) in *.
    destruct (sweeps_empty num_sweeps a e l2 w4 Hwf2 Hc2 Hf2 Hmult Hsw Hla Hle)
      as (w5 & Hrun).
    eexists. split; [exact Hrun|]. cbn [fst snd].
    rewrite !length_replicate. auto.
  - cbn [fst snd]. rewrite !length_replicate. split; [exact Hwf0|].
    do 2 (split; [reflexivity|]). intros H. lia.
  - cbn [fst] in Hs. rewrite Hs in Hrun by lia. exists l, w'. exact Hrun.
Qed.

End DensityEnds.

(** X18: with a density of at least one every site is filled and no
    particle can move: on a lattice of side [1 .. 2^30 - 1] whose arrays
    and output file the system grants, whatever the numbers of sweeps (a
    multiple of 100) and samples, every cell of [averageDeltaR2] and
    [errorDeltaR2] ends as [+0.0]. *)
Theorem full_lattice_measures_zero {SG : SeedGenerator} (env : environment)
  (side num_sweeps num_samples : Z) (rho : spec_float) (w : world) :
  0 < side < 2 ^ 30 ->
  lattice_blocks_granted env side = true -> sum_blocks_granted env 100 = true ->
  fopen_ok env 0 = true ->
  100 * Z.quot num_sweeps 100 = num_sweeps ->
  SFleb Double.one rho = true ->
  exists l w',
    DiffCoefMain.main env side rho num_sweeps num_samples w
    = Done ((replicate 100 Double.zero, replicate 100 Double.zero), (l, w')).
Proof. apply main_full. Qed.

Lemma full_lattice_measures_zero_witness :
  exists l w',
    DiffCoefMain.main (SG := seedgen_lattice) environment_example 2 Double.one 100 2
      world_at_start
    = Done ((replicate 100 Double.zero, replicate 100 Double.zero), (l, w')).
Proof.
  apply (full_lattice_measures_zero (SG := seedgen_lattice) environment_example
           2 100 2 Double.one world_at_start);
    [lia | reflexivity | reflexivity | reflexivity | reflexivity | reflexivity].
Defined.

(** X19: with a density that is not above zero no particle is placed
    and [measure(0)] divides zero by zero: on a lattice of side
    [1 .. 2^30 - 1] whose arrays and output file the system grants, as
    soon as there is one sample and one sweep (their number a multiple of
    100), every cell of [averageDeltaR2] and [errorDeltaR2] ends as a
    NaN. *)
Theorem empty_lattice_measures_nan {SG : SeedGenerator} (env : environment)
  (side num_sweeps num_samples : Z) (rho : spec_float) (w : world) :
  0 < side < 2 ^ 30 ->
  lattice_blocks_granted env side = true -> sum_blocks_granted env 100 = true ->
  fopen_ok env 0 = true ->
  100 * Z.quot num_sweeps 100 = num_sweeps ->
  0 < num_sweeps -> 0 < num_samples ->
  SFltb Double.zero rho = false ->
  exists l w',
    DiffCoefMain.main env side rho num_sweeps num_samples w
    = Done ((replicate 100 S754_nan, replicate 100 S754_nan), (l, w')).
Proof. apply main_empty. Qed.

Lemma empty_lattice_measures_nan_witness :
  exists l w',
    DiffCoefMain.main (SG := seedgen_lattice) environment_example 2 Double.zero 100 2
      world_at_start
    = Done ((replicate 100 S754_nan, replicate 100 S754_nan), (l, w')).
Proof.
  apply (empty_lattice_measures_nan (SG := seedgen_lattice) environment_example
           2 100 2 Double.zero world_at_start);
    [lia | reflexivity | reflexivity | reflexivity | reflexivity | lia | lia
    | reflexivity].
Defined.

(** X20: on a lattice of side [1 .. 2^30 - 1] whose unwrapped positions
    cannot leave [long int], [main] leaves with a failure exactly when the
    system refuses one of the six arrays of the lattice, or the number of
    sweeps is not a multiple of the 100 measurements (C division:
    [100 * (num_sweeps / 100) != num_sweeps]), or the system refuses one
    of the two arrays of sums or the output file; it does so before the
    first sample.  When the system grants everything, it is exactly the
    uneven number of sweeps that makes it leave. *)
Theorem simulation_rejects_uneven_sweeps {SG : SeedGenerator} (env : environment)
  (side num_sweeps num_samples : Z) (rho : spec_float) (w : world) :
  0 < side < 2 ^ 30 ->
  num_sweeps * (side * side) + side < 2 ^ 63 ->
  (DiffCoefMain.main env side rho num_sweeps num_samples w = Exited
   <-> lattice_blocks_granted env side = false \/
       100 * Z.quot num_sweeps 100 <> num_sweeps \/
       sum_blocks_granted env 100 = false \/
       fopen_ok env 0 = false) /\
  (lattice_blocks_granted env side = true -> sum_blocks_granted env 100 = true ->
   fopen_ok env 0 = true ->
   DiffCoefMain.main env side rho num_sweeps num_samples w = Exited
   <-> 100 * Z.quot num_sweeps 100 <> num_sweeps).
Proof.
  intros Hside Hover.
  assert (DiffCoefMain.main env side rho num_sweeps num_samples w = Exited
          <-> lattice_blocks_granted env side = false \/
              100 * Z.quot num_sweeps 100 <> num_sweeps \/
              sum_blocks_granted env 100 = false \/
              fopen_ok env 0 = false) as Hiff.
  { split.
    - intros Hexit.
      destruct (lattice_blocks_granted env side) eqn:Hb; [|left; reflexivity].
      destruct (Z.eq_dec (100 * Z.quot num_sweeps 100) num_sweeps) as [Hmult|Hne];
        [|right; left; exact Hne].
      destruct (sum_blocks_granted env 100) eqn:Hs; [|right; right; left; reflexivity].
      destruct (fopen_ok env 0) eqn:Hf; [|right; right; right; reflexivity].
      destruct (main_measured_Done env side num_sweeps num_samples rho w
                  Hside Hb Hs Hf Hmult Hover) as (a & e & l & w' & Hrun & _).
      rewrite Hrun in Hexit. discriminate Hexit.
    - apply main_refused, Hside. }
  split; [exact Hiff|].
  intros Hb Hs Hf. rewrite Hiff, Hb, Hs, Hf. split.
  - intros [H | [H | [H | H]]]; try discriminate H. exact H.
  - intros H. right. left. exact H.
Qed.

Lemma simulation_rejects_uneven_sweeps_witness :
  (DiffCoefMain.main (SG := seedgen_lattice) environment_example 2 Double.half 150 2
     world_at_start = Exited
   <-> 100 * Z.quot 150 100 <> 150) /\
  (DiffCoefMain.main (SG := seedgen_lattice) environment_example 16384 Double.half
     100 2 world_at_start = Exited
   <-> lattice_blocks_granted environment_example 16384 = false \/
       100 * Z.quot 100 100 <> 100 \/
       sum_blocks_granted environment_example 100 = false \/
       fopen_ok environment_example 0 = false).
Proof.
  split.
  - apply (simulation_rejects_uneven_sweeps (SG := seedgen_lattice) environment_example
             2 150 2 Double.half world_at_start); (lia || reflexivity).
  - apply (simulation_rejects_uneven_sweeps (SG := seedgen_lattice) environment_example
             16384 100 2 Double.half world_at_start); lia.
Defined.

(** ** The particle an attempt picks *)

Lemma of_Z_short (N : positive) :
  Zpos (digits2_pos N) < 53 ->
  Double.of_Z (Zpos N)
  = S754_finite false (Pos.iter xO N (Z.to_pos (53 - Zpos (digits2_pos N))))
                (Zpos (digits2_pos N) - 53).
Proof.
  intros Hd. unfold Double.of_Z, binary_normalize.
  rewrite binary_round_short by lia. f_equal; lia.
Qed.

Lemma digits2_mul (a b : positive) :
  Zpos (digits2_pos a) + Zpos (digits2_pos b) - 1 <= Zpos (digits2_pos (a * b))
  <= Zpos (digits2_pos a) + Zpos (digits2_pos b).
Proof.
  destruct (digits2_bounds a) as [Alo Ahi]. destruct (digits2_bounds b) as [Blo Bhi].
  set (da := Zpos (digits2_pos a)) in *. set (db := Zpos (digits2_pos b)) in *.
  assert (0 < da /\ 0 < db) as [Ha Hb] by (subst da db; lia).
  assert (0 < 2 ^ (da - 1) /\ 0 < 2 ^ (db - 1)) as [Pa Pb]
    by (split; apply Z.pow_pos_nonneg; lia).
  split.
  - assert (da + db - 2 < Zpos (digits2_pos (a * b))); [|lia].
    apply digits2_gt; [lia|].
    replace (da + db - 2) with ((da - 1) + (db - 1)) by lia.
    rewrite Z.pow_add_r, Pos2Z.inj_mul by lia. nia.
  - apply digits2_le; [lia|].
    rewrite Z.pow_add_r, Pos2Z.inj_mul by lia. nia.
Qed.

(** [(long int)(myrand() * (double)trueN)] for at most [2^21] particles:
    the product is exact, and the particle is the draw scaled by
    [trueN / 2^32]. *)
Lemma particle_of_draw (n trueN : Z) :
  is_u32 n -> 0 < trueN < 2 ^ 21 ->
  to_long (Double.mul
             (Double.div (Double.of_Z n)
                         (Double.add (Double.of_Z UINT32_MAX) Double.one))
             (Double.of_Z trueN))
  = Done (n * trueN / 2 ^ 32).
Proof.
  intros Hn HN. unfold is_u32 in Hn.
  destruct trueN as [|N|N]; try lia.
  pose proof (proj1 (digits2_le_iff N 21 ltac:(lia)) (proj2 HN)) as HdN.
  rewrite (of_Z_short N) by lia.
  destruct n as [|p|p]; [reflexivity| |lia].
  rewrite myrand_quotient_pos by lia.
  pose proof (proj1 (digits2_le_iff p 32 ltac:(lia)) (proj2 Hn)) as Hdp.
  pose proof (digits2_mul p N) as Hdq.
  destruct (digits2_bounds (p * N)) as [Qlo Qhi].
  set (dn := Zpos (digits2_pos p)) in *. set (dN := Zpos (digits2_pos N)) in *.
  set (dq := Zpos (digits2_pos (p * N))) in *.
  assert (0 < dn /\ 0 < dN) as [Hdn0 HdN0] by (subst dn dN; lia).
  assert (0 < 2 ^ (53 - dq)) as Hpw by (apply Z.pow_pos_nonneg; lia).
  set (m := Z.to_pos (Zpos (p * N) * 2 ^ (53 - dq))).
  assert (Zpos m = Zpos (p * N) * 2 ^ (53 - dq)) as Hm by (subst m; lia).
  assert (Zpos (digits2_pos m) = 53) as Hdm.
  { apply digits2_unique. rewrite Hm. split.
    - replace (53 - 1) with ((dq - 1) + (53 - dq)) by lia.
      rewrite Z.pow_add_r by lia. nia.
    - replace 53 with (dq + (53 - dq)) at 2 by lia.
      rewrite Z.pow_add_r by lia. nia. }
  set (s := Z.to_pos (53 - dn - dN + dq)).
  assert (Zpos s = 53 - dn - dN + dq) as Hs by (subst s; lia).
  unfold Double.mul, SFmul. cbn [xorb].
  rewrite (binary_round_aux_scaled _ m s); [| |exact Hdm|lia].
  2:{ rewrite Pos2Z.inj_mul, !Zpos_iter_xO, !Z2Pos.id, Hm, Hs by lia.
      rewrite Pos2Z.inj_mul.
      replace (53 - dn - dN + dq) with ((53 - dn) + (53 - dN) - (53 - dq)) by lia.
      assert (2 ^ (53 - dn) * 2 ^ (53 - dN)
              = 2 ^ (53 - dq) * 2 ^ ((53 - dn) + (53 - dN) - (53 - dq))) as E.
      { rewrite <- !Z.pow_add_r by lia. f_equal. lia. }
      nia. }
  unfold to_long, Double.to_Z.
  replace (dn - 85 + (dN - 53) + Zpos s) with (Zneg (Z.to_pos (85 - dq))) by lia.
  rewrite Hm, Z2Pos.id by lia.
  assert (Zpos (p * N) * 2 ^ (53 - dq) / 2 ^ (85 - dq) = Zpos p * Zpos N / 2 ^ 32) as ->.
  { replace (85 - dq) with (32 + (53 - dq)) by lia. rewrite Z.pow_add_r by lia.
    rewrite Z.div_mul_cancel_r by (try apply Z.pow_nonzero; lia).
    rewrite Pos2Z.inj_mul. reflexivity. }
  assert (0 <= Zpos p * Zpos N / 2 ^ 32 < Zpos N) as Hr.
  { split; [apply Z.div_pos; lia|]. apply Z.div_lt_upper_bound; nia. }
  replace ((- 2 ^ 63 <=? Zpos p * Zpos N / 2 ^ 32) && (Zpos p * Zpos N / 2 ^ 32 <? 2 ^ 63))
    with true; [reflexivity|].
  symmetry. apply andb_true_iff. split; [apply Z.leb_le | apply Z.ltb_lt]; lia.
Qed.

(** X21: with at most [2^21 - 1] particles, the particle
    [(long int)(myrand() * (double)trueN)] of an attempt is the 32-bit
    draw [n] scaled down: [n * trueN / 2^32], rounded towards zero; the
    product of the two doubles is exact. *)
Theorem lattice_particle_is_scaled_draw (g : pcg32_random_t) (trueN : Z) :
  0 < trueN < 2 ^ 21 ->
  let n := fst (Pcg32.pcg32_random_r g) in
  to_long (Double.mul (fst (Pcg32.myrand g)) (Double.of_Z trueN))
  = Done (n * trueN / 2 ^ 32) /\
  0 <= n * trueN / 2 ^ 32 < trueN.
Proof.
  intros HN. cbv zeta. unfold Pcg32.myrand.
  pose proof (pcg32_random_r_u32 g) as Hu.
  destruct (Pcg32.pcg32_random_r g) as [n g1]. cbn [fst] in *.
  split; [apply particle_of_draw; assumption|].
  unfold is_u32 in Hu. split; [apply Z.div_pos; nia|].
  apply Z.div_lt_upper_bound; nia.
Qed.

Lemma lattice_particle_is_scaled_draw_witness :
  to_long (Double.mul (fst (Pcg32.myrand pcg32_random_state_zero)) (Double.of_Z 3))
  = Done (fst (Pcg32.pcg32_random_r pcg32_random_state_zero) * 3 / 2 ^ 32) /\
  0 <= fst (Pcg32.pcg32_random_r pcg32_random_state_zero) * 3 / 2 ^ 32 < 3.
Proof.
  apply (lattice_particle_is_scaled_draw pcg32_random_state_zero 3). lia.
Defined.

(** X23: [myrand] is strictly monotone in the 32-bit draw: of two calls,
    the one with the smaller draw returns the smaller double, so that two
    different draws never give the same uniform number. *)
Theorem myrand_preserves_the_order_of_draws (g1 g2 : pcg32_random_t) :
  SFltb (fst (Pcg32.myrand g1)) (fst (Pcg32.myrand g2))
  = (fst (Pcg32.pcg32_random_r g1) <? fst (Pcg32.pcg32_random_r g2)) /\
  (fst (Pcg32.myrand g1) = fst (Pcg32.myrand g2) ->
   fst (Pcg32.pcg32_random_r g1) = fst (Pcg32.pcg32_random_r g2)).
Proof.
  unfold Pcg32.myrand.
  pose proof (pcg32_random_r_u32 g1) as H1. pose proof (pcg32_random_r_u32 g2) as H2.
  destruct (Pcg32.pcg32_random_r g1) as [a g1']. destruct (Pcg32.pcg32_random_r g2) as [b g2'].
  cbn [fst] in *. split; [apply myrand_quotient_ltb; assumption|].
  intros E.
  pose proof (myrand_quotient_ltb a b H1 H2) as Hab.
  pose proof (myrand_quotient_ltb b a H2 H1) as Hba.
  rewrite E in Hab. rewrite <- E in Hba.
  assert (forall x, SFltb x x = false) as Hirr.
  { intros x. unfold SFltb, SFcompare.
    destruct x as [[|]|[|]| |[|] m e]; try reflexivity;
      rewrite Z.compare_refl;
      change (Pos.compare_cont Eq m m) with (Pos.compare m m);
      rewrite Pos.compare_refl; reflexivity. }
  rewrite Hirr in Hab, Hba.
  destruct (Z.ltb_spec a b), (Z.ltb_spec b a); try discriminate; lia.
Qed.

(** ** The row a run of the 2D walk writes *)

Lemma repeat_up_indexed {S : Type} (P : Z -> S -> Prop) (body : Z -> S -> S) :
  forall n i s,
    (forall j s, i <= j < i + Z.of_nat n -> P j s -> P (j + 1) (body j s)) ->
    P i s -> P (i + Z.of_nat n) (repeat_up n i body s).
Proof.
  induction n as [|n IH]; intros i s Hbody Hs; cbn [repeat_up].
  - rewrite Z.add_0_r. exact Hs.
  - replace (i + Z.of_nat (Datatypes.S n)) with (i + 1 + Z.of_nat n) by lia.
    apply IH.
    + intros j s' Hj. apply Hbody. lia.
    + apply Hbody; [lia | exact Hs].
Qed.

Lemma walk2d_rows_shape (run iterations t_target : Z) (w : world) :
  let g0 := worker w in
  let position (k : nat) :=
    (sum_Z (map fst (map step2d (fst (draws RanWalk2d.pcg32_random_r k g0)))),
     sum_Z (map snd (map step2d (fst (draws RanWalk2d.pcg32_random_r k g0))))) in
  let n := Z.to_nat iterations in
  Walk2d.x (fst (fst (Walk2dRows.walk run iterations t_target w))) = fst (position n) /\
  Walk2d.y (fst (fst (Walk2dRows.walk run iterations t_target w))) = snd (position n) /\
  Walk2d.time (fst (fst (Walk2dRows.walk run iterations t_target w))) = Z.of_nat n /\
  snd (fst (Walk2dRows.walk run iterations t_target w))
  = (if (0 <? t_target) && (t_target <=? Z.of_nat n)
     then [(run, t_target, t_target - 1,
            fst (position (Z.to_nat t_target)), snd (position (Z.to_nat t_target)))]
     else []) /\
  worker (snd (Walk2dRows.walk run iterations t_target w))
  = snd (draws RanWalk2d.pcg32_random_r n g0).
Proof.
  cbv zeta. unfold Walk2dRows.walk. cbn [fst snd].
  set (X := fun k : nat =>
              sum_Z (map fst (map step2d
                                (fst (draws RanWalk2d.pcg32_random_r k (worker w)))))).
  set (Y := fun k : nat =>
              sum_Z (map snd (map step2d
                                (fst (draws RanWalk2d.pcg32_random_r k (worker w)))))).
  pose proof (repeat_up_indexed
                (fun j (st : (Walk2d.strc * list (Z * Z * Z * Z * Z)) * world) =>
                   Walk2d.x (fst (fst st)) = X (Z.to_nat j) /\
                   Walk2d.y (fst (fst st)) = Y (Z.to_nat j) /\
                   Walk2d.time (fst (fst st)) = j /\
                   snd (fst st)
                   = (if (0 <? t_target) && (t_target <=? j)
                      then [(run, t_target, t_target - 1,
                             X (Z.to_nat t_target), Y (Z.to_nat t_target))]
                      else []) /\
                   worker (snd st)
                   = snd (draws RanWalk2d.pcg32_random_r (Z.to_nat j) (worker w))))
    as Hloop.
  match goal with
  | |- context [repeat_up ?nn ?ii ?b ?s0] => specialize (Hloop b nn ii s0)
  end.
  rewrite Z.add_0_l, Nat2Z.id in Hloop. apply Hloop; clear Hloop.
  - intros j [[pos rows] w1] Hj (Hx & Hy & Ht & Hrows & Hw). cbn [fst snd] in *.
    unfold call_myrand, myrand, worker_2d_ran_walk, RanWalk2d.myrand.
    replace (Z.to_nat (j + 1)) with (Datatypes.S (Z.to_nat j)) by lia.
    unfold X, Y. rewrite draws_snoc, <- Hw. cbn [fst snd].
    pose proof (ran_walk_2d_random_u32 (worker w1)) as Hu.
    destruct (RanWalk2d.pcg32_random_r (worker w1)) as [v g1] eqn:Hv. cbn [fst snd] in *.
    destruct (step2d_of_draw v Hu) as (-> & -> & ->).
    rewrite !map_app. cbn [map]. rewrite !sum_Z_snoc. fold (X (Z.to_nat j)) (Y (Z.to_nat j)).
    rewrite <- Hx, <- Hy.
    assert (forall p : Walk2d.strc,
               Walk2d.x p = Walk2d.x pos + fst (step2d v) ->
               Walk2d.y p = Walk2d.y pos + snd (step2d v) ->
               Walk2d.step p = j -> Walk2d.time p = Walk2d.time pos ->
               let p' := {| Walk2d.x := Walk2d.x p; Walk2d.y := Walk2d.y p;
                            Walk2d.step := Walk2d.step p;
                            Walk2d.time := Walk2d.time p + 1 |} in
               Walk2d.x p' = Walk2d.x pos + fst (step2d v) /\
               Walk2d.y p' = Walk2d.y pos + snd (step2d v) /\
               Walk2d.time p' = j + 1 /\
               (if Walk2d.time p' =? t_target
                then rows ++ [(run, Walk2d.time p', Walk2d.step p',
                               Walk2d.x p', Walk2d.y p')]
                else rows)
               = (if (0 <? t_target) && (t_target <=? j + 1)
                  then [(run, t_target, t_target - 1,
                         X (Z.to_nat t_target), Y (Z.to_nat t_target))]
                  else [])) as Hstep.
    { intros p Hpx Hpy Hps Hpt p'. subst p'. cbn [Walk2d.x Walk2d.y Walk2d.step Walk2d.time].
      rewrite Hpt, Ht. do 3 (split; [assumption || reflexivity|]).
      rewrite Hrows. destruct (Z.eqb_spec (j + 1) t_target) as [E|E].
      - replace ((0 <? t_target) && (t_target <=? j)) with false
          by (symmetry; apply andb_false_iff; right; apply Z.leb_gt; lia).
        replace ((0 <? t_target) && (t_target <=? j + 1)) with true
          by (symmetry; apply andb_true_iff; split;
              [apply Z.ltb_lt | apply Z.leb_le]; lia).
        cbn [app]. rewrite Hpx, Hpy, Hps, Hx, Hy.
        replace (Z.to_nat t_target) with (Datatypes.S (Z.to_nat j)) by lia.
        unfold X at 2, Y at 2. rewrite draws_snoc, <- Hw, Hv. cbn [fst snd].
        rewrite !map_app. cbn [map]. rewrite !sum_Z_snoc.
        repeat f_equal; lia.
      - replace (t_target <=? j + 1) with (t_target <=? j); [reflexivity|].
        destruct (Z.leb_spec t_target j), (Z.leb_spec t_target (j + 1)); lia || reflexivity. }
    unfold step2d in Hstep |- *.
    destruct (v <? 2 ^ 30); [|destruct (v <? 2 ^ 31); [|destruct (v <? 3 * 2 ^ 30)]];
      cbn [fst snd] in Hstep;
      match goal with
      | |- context [Walk2d.Strc ?a ?b ?c (?d + 1)] =>
          destruct (Hstep (Walk2d.Strc a b c d)) as (H1 & H2 & H3 & H4);
            try (cbn [Walk2d.x Walk2d.y Walk2d.step Walk2d.time]; lia);
            cbn [Walk2d.x Walk2d.y Walk2d.step Walk2d.time] in *
      end;
      cbn [fst snd];
      (split; [lia|]; split; [lia|]; split; [lia|]; split; [exact H4 | reflexivity]).
  - cbn [fst snd]. unfold X, Y. cbn [draws fst map]. 
    replace ((0 <? t_target) && (t_target <=? 0)) with false; [auto 10|].
    destruct (Z.ltb_spec 0 t_target), (Z.leb_spec t_target 0); lia || reflexivity.
Qed.

(** X22: a run of the 2D walk writes exactly one row when its target
    time is within the iterations, and none when it is beyond them; the
    row holds the target time, the step [t_target - 1], and the position
    after exactly [t_target] moves. *)
Theorem walk2d_writes_one_row_at_target (run iterations t_target : Z) (w : world) :
  0 < t_target ->
  let rows := snd (fst (Walk2dRows.walk run iterations t_target w)) in
  let moves := map step2d
                 (fst (draws RanWalk2d.pcg32_random_r (Z.to_nat t_target) (worker w))) in
  (t_target <= iterations ->
   rows = [(run, t_target, t_target - 1, sum_Z (map fst moves), sum_Z (map snd moves))]) /\
  (iterations < t_target -> rows = []).
Proof.
  intros Ht rows moves. subst rows moves.
  destruct (walk2d_rows_shape run iterations t_target w) as (_ & _ & _ & -> & _).
  cbn [fst snd].
  replace (0 <? t_target) with true by (symmetry; apply Z.ltb_lt; exact Ht).
  cbn [andb]. split; intros H.
  - replace (t_target <=? Z.of_nat (Z.to_nat iterations)) with true
      by (symmetry; apply Z.leb_le; lia).
    reflexivity.
  - replace (t_target <=? Z.of_nat (Z.to_nat iterations)) with false
      by (symmetry; apply Z.leb_gt; lia).
    reflexivity.
Qed.

Lemma walk2d_writes_one_row_at_target_witness :
  (2 <= 3 ->
   snd (fst (Walk2dRows.walk 0 3 2 world_at_start))
   = [(0, 2, 2 - 1,
       sum_Z (map fst (map step2d
                         (fst (draws RanWalk2d.pcg32_random_r (Z.to_nat 2)
                                 (worker world_at_start))))),
       sum_Z (map snd (map step2d
                         (fst (draws RanWalk2d.pcg32_random_r (Z.to_nat 2)
                                 (worker world_at_start))))))]) /\
  (3 < 2 -> snd (fst (Walk2dRows.walk 0 3 2 world_at_start)) = []).
Proof.
  apply (walk2d_writes_one_row_at_target 0 3 2 world_at_start). lia.
Defined.
(** ** Lattices too wide for their arrays *)

Lemma for_up_preserves {S : Type} (P : S -> Prop) (body : Z -> S -> outcome S) :
  (forall i s s', P s -> body i s = Done s' -> P s') ->
  forall n i s s', P s -> for_up n i body s = Done s' -> P s'.
Proof.
  intros Hbody n. induction n as [|n IH]; intros i s s' Hs Hrun; cbn [for_up] in Hrun.
  - injection Hrun as <-. exact Hs.
  - destruct (body i s) as [s1| |] eqn:Hb; cbn [mbind outcome_bind] in Hrun;
      try discriminate Hrun.
    apply (IH (i + 1) s1 s' (Hbody i s s1 Hs Hb) Hrun).
Qed.

(** A loop that completes has completed every one of its rounds. *)
Lemma for_up_reaches {S : Type} (P : S -> Prop) (body : Z -> S -> outcome S) :
  (forall i s s', P s -> body i s = Done s' -> P s') ->
  forall n i s s', P s -> for_up n i body s = Done s' ->
    forall j, i <= j < i + Z.of_nat n ->
      exists s1 s2, P s1 /\ body j s1 = Done s2.
Proof.
  intros Hbody n. induction n as [|n IH]; intros i s s' Hs Hrun j Hj;
    cbn [for_up] in Hrun; [lia|].
  destruct (body i s) as [s1| |] eqn:Hb; cbn [mbind outcome_bind] in Hrun;
    try discriminate Hrun.
  destruct (Z.eq_dec j i) as [->|Hne].
  - exists s, s1. split; [exact Hs | exact Hb].
  - apply (IH (i + 1) s1 s' (Hbody i s s1 Hs Hb) Hrun). lia.
Qed.

Section WideLattice.

Import DiffCoef.

Context {SG : SeedGenerator}.

(** [initLattice] on an array of sites with fewer than [L * L] cells
    does not complete: its first loop leaves the array. *)
Lemma initLattice_short (rho : spec_float) (l : lattice) (w : world)
  (r : Z * (lattice * world)) :
  0 < L l -> Z.of_nat (length (particleOfSite l)) < L l * L l ->
  initLattice rho (l, w) <> Done r.
Proof.
  intros HL Hshort Hrun. unfold initLattice in Hrun.
  set (side := L l) in *.
  set (cells := Z.of_nat (length (particleOfSite l))) in *.
  set (P := fun l' : lattice =>
              L l' = side /\ Z.of_nat (length (particleOfSite l')) = cells).
  set (inner := fun (x y : Z) (l' : lattice) =>
                  s ← aset (particleOfSite l') (SITE l' x y) MY_EMPTY;
                  mret (set_particleOfSite l' s)).
  assert (forall x y l1 l2, P l1 -> inner x y l1 = Done l2 -> P l2) as Hinner.
  { intros x y l1 l2 [H1 H2] Hb. unfold inner in Hb.
    unfold aset in Hb.
    destruct ((0 <=? SITE l1 x y) && (SITE l1 x y <? Z.of_nat (length (particleOfSite l1))));
      cbn [mbind outcome_bind] in Hb; try discriminate Hb.
    injection Hb as <-. unfold P. cbn [L particleOfSite set_particleOfSite].
    rewrite length_insert. split; assumption. }
  set (outer := fun (x : Z) (l' : lattice) =>
                  for_up (Z.to_nat (L l')) 0 (inner x) l').
  assert (forall x l1 l2, P l1 -> outer x l1 = Done l2 -> P l2) as Houter.
  { intros x l1 l2 H1 Hb. unfold outer in Hb.
    apply (for_up_preserves P (inner x) (Hinner x) _ _ _ _ H1 Hb). }
  change (for_up (Z.to_nat side) 0 outer l
          ≫= (fun l0 =>
                for_up (Z.to_nat (L l0)) 0
                  (fun x st =>
                     for_up (Z.to_nat (L l0)) 0
                       (fun y st =>
                          let '(trueN, (l, w)) := st in
                          let '(r, w) := call_myrand (WK := worker_pcg32) w in
                          if SFltb r rho then
                            let p := trueN in
                            s ← aset (particleOfSite l) (SITE l x y) p;
                            pos ← aset (positionOfParticle l) (POS p 0) x;
                            pos ← aset pos (POS p 1) y;
                            zer ← aset (zeroPositionOfParticle l) (POS p 0) x;
                            zer ← aset zer (POS p 1) y;
                            tru ← aset (truePositionOfParticle l) (POS p 0) x;
                            tru ← aset tru (POS p 1) y;
                            let l := set_truePositionOfParticle
                                       (set_zeroPositionOfParticle
                                          (set_positionOfParticle
                                             (set_particleOfSite l s) pos) zer) tru in
                            mret (trueN + 1, (l, w))
                          else mret (trueN, (l, w))) st)
                  (0, (l0, w)))
          = Done r) in Hrun.
  destruct (for_up (Z.to_nat side) 0 outer l) as [l1| |] eqn:Hfirst;
    cbn [mbind outcome_bind] in Hrun; try discriminate Hrun.
  assert (0 <= cells) as Hc0 by (unfold cells; lia).
  assert (0 <= cells / side < side) as Hx.
  { split; [apply Z.div_pos; lia | apply Z.div_lt_upper_bound; lia]. }
  pose proof (Z.mod_pos_bound cells side HL) as Hy.
  destruct (for_up_reaches P outer Houter _ _ _ _ (conj eq_refl eq_refl) Hfirst
              (cells / side) ltac:(lia)) as (l2 & l3 & [HL2 Hlen2] & Hb).
  unfold outer in Hb. rewrite HL2 in Hb.
  destruct (for_up_reaches P (inner (cells / side)) (Hinner (cells / side))
              _ _ _ _ (conj HL2 Hlen2) Hb (cells mod side) ltac:(lia))
    as (l4 & l5 & [HL4 Hlen4] & Hb').
  unfold inner, aset, SITE in Hb'. rewrite HL4, Hlen4 in Hb'.
  replace (cells / side * side + cells mod side) with cells in Hb'
    by (pose proof (Z.div_mod cells side ltac:(lia)); lia).
  rewrite Z.ltb_irrefl, andb_false_r in Hb'. discriminate Hb'.
Qed.

(** What [myInit] returns for the sites is the block [malloc] gave. *)
Lemma myInit_sites (env : environment)
  (side VOLUME num_measurements measurement_period num_sweeps : Z)
  (l : lattice) (sums : list spec_float * list spec_float) :
  myInit env side VOLUME num_measurements measurement_period num_sweeps
  = Done (l, sums) ->
  L l = side /\
  length (particleOfSite l) = Z.to_nat (u64 (side * side * 8) / 8).
Proof.
  unfold myInit. intros Hrun.
  destruct (mtrxAlloc2d env 0 side side) as [site| |] eqn:Hsite;
    cbn [mbind outcome_bind] in Hrun; try discriminate Hrun.
  assert (length site = Z.to_nat (u64 (side * side * 8) / 8)) as Hlen.
  { unfold mtrxAlloc2d in Hsite.
    destruct (negb (fits_long (side * side))); [discriminate Hsite|].
    cbv zeta in Hsite.
    destruct (malloc_ok env 0 (u64 (side * side * 8))); [|discriminate Hsite].
    injection Hsite as <-. apply length_replicate. }
  destruct (mtrxAlloc2d env 1 VOLUME DIM) as [pos| |];
    cbn [mbind outcome_bind] in Hrun; try discriminate Hrun.
  destruct (mtrxAlloc2d env 2 VOLUME DIM) as [zer| |];
    cbn [mbind outcome_bind] in Hrun; try discriminate Hrun.
  destruct (mtrxAlloc2d env 3 VOLUME DIM) as [tru| |];
    cbn [mbind outcome_bind] in Hrun; try discriminate Hrun.
  destruct (mtrxLongIntAlloc env 4 side) as [pn| |];
    cbn [mbind outcome_bind] in Hrun; try discriminate Hrun.
  destruct (mtrxLongIntAlloc env 5 side) as [mn| |];
    cbn [mbind outcome_bind] in Hrun; try discriminate Hrun.
  set (P := fun l' : lattice =>
              L l' = side /\
              length (particleOfSite l') = Z.to_nat (u64 (side * side * 8) / 8)).
  match type of Hrun with
  | context [for_up ?n ?i ?b ?s0] =>
      assert (P s0) as H0 by (split; [reflexivity | exact Hlen]);
      destruct (for_up n i b s0) as [l1| |] eqn:Hloop;
        cbn [mbind outcome_bind] in Hrun; try discriminate Hrun;
      assert (P l1) as H1
  end.
  { refine (for_up_preserves P _ _ _ _ _ _ H0 Hloop).
    intros i s s' Hs Hb.
    destruct (aset (plusNeighbor s) i (i + 1)) as [a| |];
      cbn [mbind outcome_bind] in Hb; try discriminate Hb.
    destruct (aset (minusNeighbor s) i (i - 1)) as [b| |];
      cbn [mbind outcome_bind] in Hb; try discriminate Hb.
    injection Hb as <-. exact Hs. }
  destruct (aset (plusNeighbor l1) (side - 1) 0) as [a| |];
    cbn [mbind outcome_bind] in Hrun; try discriminate Hrun.
  destruct (aset (minusNeighbor l1) 0 (side - 1)) as [b| |];
    cbn [mbind outcome_bind] in Hrun; try discriminate Hrun.
  destruct (negb (num_measurements * measurement_period =? num_sweeps));
    [discriminate Hrun|].
  destruct (mtrxDoubleAlloc env 6 num_measurements) as [avg| |];
    cbn [mbind outcome_bind] in Hrun; try discriminate Hrun.
  destruct (mtrxDoubleAlloc env 7 num_measurements) as [err| |];
    cbn [mbind outcome_bind] in Hrun; try discriminate Hrun.
  match type of Hrun with
  | context [for_up ?n ?i ?b ?s0] =>
      destruct (for_up n i b s0) as [s1| |];
        cbn [mbind outcome_bind] in Hrun; try discriminate Hrun
  end.
  injection Hrun as <- _. exact H1.
Qed.

Lemma main_wide (env : environment) (side num_sweeps num_samples : Z)
  (rho : spec_float) (w : world) (r : lattice * world) :
  2 ^ 31 <= side -> 0 < num_samples ->
  main env side rho num_sweeps num_samples w <> Done r.
Proof.
  intros Hside Hsamples Hrun. unfold main in Hrun.
  destruct (fits_long (side * side)) eqn:Hfits; cbn [negb] in Hrun;
    [|discriminate Hrun].
  cbv zeta in Hrun.
  destruct (call_generate_seed (call_seedgen_init 12345 67890 w)) as [seed1 w1].
  destruct (call_generate_seed w1) as [seed2 w2].
  destruct (myInit env side (side * side) 100 (Z.quot num_sweeps 100) num_sweeps)
    as [[l sums]| |] eqn:Hinit; cbn [mbind outcome_bind] in Hrun;
    try discriminate Hrun.
  destruct (myInit_sites _ _ _ _ _ _ _ _ Hinit) as [HL Hlen].
  destruct (negb (fopen_ok env 0)); [discriminate Hrun|].
  destruct (Z.to_nat num_samples) as [|n] eqn:Hn; [lia|].
  cbn [for_up] in Hrun.
  destruct (initLattice rho (l, call_myrand_init (WK := worker_pcg32) seed1 seed2 w2))
    as [r1| |] eqn:Hfill; cbn [mbind outcome_bind] in Hrun; try discriminate Hrun.
  refine (initLattice_short rho l _ r1 _ _ Hfill); [lia|].
  rewrite Hlen, HL.
  assert (0 <= u64 (side * side * 8) / 8 < 2 ^ 61) as Hcells.
  { unfold u64. pose proof (Z.mod_pos_bound (side * side * 8) (2 ^ 64) ltac:(lia)).
    split; [apply Z.div_pos; lia | apply Z.div_lt_upper_bound; lia]. }
  rewrite Z2Nat.id by lia. nia.
Qed.

End WideLattice.


